(* ===== verification/_CoqProject ===== *)
-Q . S2P
Prelude.v
ByteQueue.v
Buffer.v
Util.v
System.v
HeapTimer.v
Http.v
Io.v
Ip.v
Regex.v
Request.v
Response.v
Connection.v
LogField.v
Yaml.v
Convert.v
Config.v
VarLocks.v
Monitor.v
BlockDeque.v
ThreadPool.v
PoolEnd.v
Logger.v
LoggerEnd.v
LogConfig.v
LogText.v
Main.v
Epoller.v
WebServer.v
ServerInvariant.v
OneShot.v
OneTask.v
Interleave.v
Apart.v
SharedState.v
ServerSpec.v
Race.v
Ticking.v
EndToEnd.v
Conversation.v
Builder.v
Startup.v
