(* ===== verification/Prelude.v ===== *)
(** * Echo Web Server

    A development about the C++ program in [src/]: an HTTP server that echoes
    posted messages, with its containers, logging and configuration.  The
    definitions are translated from the sources as executable functions or step
    relations; the theorems say what each part does on every branch.  Each file
    opens with its own comment; theorems marked C<n> are the main properties.

    ** The parts

    - [ByteQueue], [Buffer]: [containers/buffer.{h,cpp}].  A vector with two offsets
      that wrap at 64 bits.  [Buffer] refines the byte queue of the type class
      [ByteQueue], and the parser and the response builder are proved against that
      class only.
    - [Util], [System]: [util.{h,cpp}].  The text functions and the mapped file; the
      thread id, the back trace, the guard [RAII] and the singletons.
    - [HeapTimer]: [containers/heap_timer.h].  A heap with an index map; refines a
      finite map from keys to deadlines.
    - [Http], [Regex], [Request], [Response], [Connection]: [http.h] and [src/http/].
      URL decoding and templates; the regular expressions in use; the parser as a
      state machine over the lines of a byte queue; the response builder; and
      [ConnectionImpl], which joins them with a socket.
    - [Io]: [io.{h,cpp}] and [IOBuffer].  [Ip]: [ip.{h,cpp}].
    - [LogField], [Logger], [LoggerEnd]: [src/log/].  Patterns, formatters and events;
      appenders, loggers and the manager, with the asynchronous logger as interleaved
      steps; and its destructor, which joins the writer.
    - [Yaml], [Convert], [Config], [VarLocks], [LogConfig], [LogText]: [config.h],
      [config.cpp], [config_init.{h,cpp}] and the [ToYamlString] functions.  Conversions
      between values and documents, typed variables with listeners, a variable that
      several threads share, and the listener that rebuilds the loggers.
    - [Main], [Startup]: [main.cpp].  Defaults, the local file and the settings of the
      server; and [main] as a whole: the server that the builder makes, the start of
      its pool, [Start] around the turns of its loop, and the destructor that runs before
      an exception reaches the handler.
    - [Monitor], [BlockDeque], [ThreadPool], [PoolEnd]: [block_deque.h],
      [thread_pool.{h,cpp}].  [Monitor] is the semantics of threads with one mutex and
      condition variables; the deque and the pool are its instances, and [PoolEnd] adds
      the destructor that joins the workers.
    - [Epoller], [WebServer], [ServerInvariant], [ServerSpec], [EndToEnd],
      [Conversation], [Builder]: [epoller.{h,cpp}] and [web_server.h].  [Kernel] is the
      class of the system calls.  The server is built from the models of the timer, the
      epoll wrapper and the connection; [EndToEnd] follows a request through it,
      [Conversation] all the requests of a connection, and [Builder] has the builder,
      the constructor and the destructor.
    - [OneShot], [OneTask], [Interleave], [Apart], [SharedState], [Race], [Ticking]: the
      threads of [web_server.h].  [OneShot] has the laws of the one-shot registrations
      and what they protect, [OneTask] a kernel with those laws; [Interleave] takes the
      tasks and the main loop apart into steps, and [Apart] proves that connections are
      private.  A tick of the timer, which does not lock [mtx_], is still one step there,
      and [SharedState] follows the shared tables in this granularity.  [Race] takes the
      tick apart and shows what a worker can do in between; [Ticking] puts these steps
      into the system of all threads and proves that the shared tables stay consistent
      as long as no worker does that.

    ** How state and effects are represented

    A member function is a term of [M S A]: it takes the object and returns an
    [outcome] with the object after it.  [Throw] is a C++ exception, which [try_catch]
    handles as [catch (const std::exception&)] does; [Crash] is a failed [assert] (the
    build keeps them), undefined behaviour, or an exception that leaves a [noexcept]
    function.  [zoom] runs a function of a part on the whole.  Objects behind
    [shared_ptr] (appenders, variables, clients) live in maps from addresses, so that
    aliases are visible.  [size_t] is [N] with wrapping written out, where it can
    wrap; time points and durations are integers in nanoseconds.  [char] and
    [std::byte] are both [ascii].

    Threads are steps.  In [BlockDeque] and [ThreadPool] a step is a critical section;
    in [Logger] a step of the asynchronous logger is a critical section or a call of the
    deque; in [VarLocks] it is taking or giving back a lock, or the work under it; in
    [PoolEnd] and [LoggerEnd] a join is a step that waits for a thread to have ended.  In
    [WebServer] a step is a turn of the main loop or one task of a worker;
    [Interleave] divides both: a task is taken, works on its connection, arms or marks
    it and drops its pointer, while the main thread ticks, waits and handles one event
    at a time.  [Interleave.atomic_between] relates the two.  In [Race] and [Ticking] a tick
    is no longer one step: a step is the look at the front node that takes its callback
    if it has expired, [Pop], the call of the callback, or the rest of [ToNextTick].

    ** Fuel

    A loop that is not structural takes a bound, and a theorem says that a given
    bound is enough: the length of the unread bytes for the lines of a request
    ([Request.parse_refines]), of the text for the pattern and decoding loops
    ([LogField.parse_pattern_correct], [Http.decode_correct]), the number of entries for
    [Tick] ([HeapTimer.tick_terminates]), the bytes still to send for [Connection.Send]
    ([Connection.send_all]), and the depth of a document for [Config.ExtractMembers]
    ([Config.members_extracted]).  Reading from a socket ends with the first answer that
    is not data, and accepting with the first error; there the bound is the number of
    answers that the theorem supposes.

    ** The groups of theorems

    - Refinement: the buffer of a byte queue, the parser of a machine over lines, the
      timer of a finite map, the deque of a queue, and [main] of the file that it reads.
    - Invariants and safety: the server's tables, turn by turn
      ([ServerInvariant.server_invariant]) and step by step
      ([Ticking.shared_state_consistent]); no two threads at one connection
      ([Apart.workers_apart], [Apart.others_keep_the_connection]); the asynchronous
      logger, the heap; mutual exclusion and the absence of lost wake-ups.
    - Termination: the destructors of the pool and of the logger, the calls on a shared
      variable, the loops that send, parse and tick.
    - Equivalence with a reference: form decoding, patterns.
    - Round trips: URL encoding, posted forms, containers and configurations, IP
      addresses; and theorems that a round trip fails where the code loses something.
    - Functional behaviour with all error branches: responses, the handlers of the
      server, logging, variables and listeners.
    - Bounds: numbers read from text, [size_t] arithmetic of the buffer, durations.
    - Composition: [Connection.message_echoed] goes from received bytes to an answer,
      [EndToEnd.request_answered] from the bytes of a socket to the bytes it is sent, with
      the events and tasks between, [Conversation.conversation_answered] from all the
      requests of a connection to all the answers, by whole turns and by the threads;
      [ServerSpec.demo_session_served] runs a session on a scripted kernel,
      [Main.local_configuration] goes from a document to settings and loggers, and
      [Startup.program_starts] from whatever variables and loggers the local file has
      made to a listening server, or to a failure that is reported and cleaned up.
    - Where the code falls short: [Race.tick_race_loses_client],
      [SharedState.late_mark], [VarLocks.listeners_left_stale].

    ** What is a parameter

    Code outside [src/]: system calls ([Epoller.Kernel] and the arguments of [Io] and
    [Ip]), the file system, [strftime], [std::regex] beyond the patterns in use, hash
    order, and yaml-cpp ([Yaml.Yaml], with documented laws in [Yaml.YamlLaws] and a
    concrete library that has them).

    ** Not modelled

    How the system reads its clock, numbers its threads and walks its stack: these are
    arguments.  The locks of [Config] and of the appenders: their critical sections are
    one step each.  Other effects of a data race than an order of the accesses of
    [Race]: C++ gives such a program no meaning.  How the lines of the server, which it
    keeps with their levels in its state, reach the loggers of [Logger].  The overflow of
    the [int] indices of [ParsePattern], which are natural numbers here: it takes a
    pattern of more than 2147483647 characters.  Moved-from
    strings, apart from the keys of the parser.  Conversion templates that the program
    does not instantiate.  The unit tests and their helpers.  What the sources have beyond
    the definitions here is declarations and deleted members. *)

(** * Prelude

    Shared vocabulary of the development: byte strings, the 64-bit [size_t]
    arithmetic of the program, the state-and-exception monad in which the
    stateful operations are written, and the generic lemmas and tactics that
    the component files use. *)

From stdpp Require Export prelude list list_numbers gmap strings numbers sorting.
From Stdlib Require Export Ascii NArith ZArith Lia.
From Stdlib Require String.

(** * Strings and bytes *)

(** [std::string], [std::string_view], [std::vector<std::byte>]: sequences of
    8-bit units.  The program converts freely between [char] and [std::byte];
    both are [ascii] here. *)
Abbreviation str := (list ascii).

Declare Scope echo_scope.
Delimit Scope echo_scope with echo.
Open Scope echo_scope.

Notation "'s!' x" := (String.list_ascii_of_string x%string)
  (at level 1, only parsing) : echo_scope.

Definition chr (n : nat) : ascii := ascii_of_nat n.
Definition CR : ascii := chr 13.
Definition LF : ascii := chr 10.
Definition NUL : ascii := chr 0.
Definition SP : ascii := " "%char.
Definition crlf : str := [CR; LF].

(** * [size_t]: 64-bit unsigned arithmetic *)

Abbreviation size_t := N (only parsing).

Definition word_mod : N := 18446744073709551616.
Definition max_size : N := 9223372036854775807.
Definition wadd (a b : N) : N := ((a + b) mod word_mod)%N.
Definition wsub (a b : N) : N := ((a + (word_mod - b mod word_mod)) mod word_mod)%N.
Definition wmul (a b : N) : N := ((a * b) mod word_mod)%N.

(** The length of a sequence as a [size_t]. *)
Definition len {A} (l : list A) : N := N.of_nat (length l).

(** * Exceptions and the state monad *)

(** The exception classes the program throws or catches. [system_error]
    carries the [errno] value. *)
Inductive exn_kind :=
| invalid_argument
| out_of_range
| runtime_error
| system_error (code : Z).

Record exn := Exn { kind : exn_kind; what : str }.

(** How a call ends: with a value, with an exception that the caller may
    catch, by a failed [assert] / undefined behaviour / [std::terminate]
    ([Crash]), or not within the given bound on loop iterations. *)
Inductive outcome (A : Type) :=
| Done (a : A)
| Throw (e : exn)
| Crash
| OutOfFuel.
Arguments Done {_} _.
Arguments Throw {_} _.
Arguments Crash {_}.
Arguments OutOfFuel {_}.

(** A member function of an object with state [S].  The state survives an
    exception, as a C++ object does. *)
Definition M (S A : Type) : Type := S → outcome A * S.

#[export] Instance M_ret {S} : MRet (M S) := λ A a s, (Done a, s).
#[export] Instance M_bind {S} : MBind (M S) := λ A B f m s,
  match m s with
  | (Done a, s') => f a s'
  | (Throw e, s') => (Throw e, s')
  | (Crash, s') => (Crash, s')
  | (OutOfFuel, s') => (OutOfFuel, s')
  end.

Section Monad.
Context {S : Type}.

Definition get : M S S := λ s, (Done s, s).
Definition put (s : S) : M S unit := λ _, (Done tt, s).
Definition modify (f : S → S) : M S unit := λ s, (Done tt, f s).
Definition gets {A} (f : S → A) : M S A := λ s, (Done (f s), s).
Definition throw {A} (k : exn_kind) (msg : str) : M S A := λ s, (Throw (Exn k msg), s).
Definition crash {A} : M S A := λ s, (Crash, s).
Definition out_of_fuel {A} : M S A := λ s, (OutOfFuel, s).

(** [assert(b)]; the build defines no [NDEBUG]. *)
Definition assert_ (b : bool) : M S unit := if b then mret tt else crash.

(** Reading through an iterator or an index that must be valid. *)
Definition deref {A} (o : option A) : M S A :=
  match o with Some a => mret a | None => crash end.

(** [try { m } catch (const std::exception& err) { h err }] *)
Definition try_catch {A} (m : M S A) (h : exn → M S A) : M S A := λ s,
  match m s with
  | (Throw e, s') => h e s'
  | r => r
  end.

(** [noexcept]: an exception that leaves the function terminates the
    program. *)
Definition noexcept {A} (m : M S A) : M S A := λ s,
  match m s with
  | (Throw _, s') => (Crash, s')
  | r => r
  end.

(** Repeat [body] while it returns [true]. *)
Fixpoint while_ (fuel : nat) (body : M S bool) : M S unit :=
  match fuel with
  | 0 => out_of_fuel
  | Datatypes.S fuel' => b ← body; if b : bool then while_ fuel' body else mret tt
  end.
End Monad.

(** A value computed by a stateless function that may fail. *)
Definition of_outcome {S A} (r : outcome A) : M S A := λ s, (r, s).

(** Run an operation of a sub-object: [view] reads the sub-object, [upd]
    writes it back. *)
Definition zoom {S T A} (view : S → T) (upd : T → S → S) (m : M T A) : M S A := λ s,
  let '(r, t) := m (view s) in (r, upd t s).

(** The stateless fragment: [outcome] itself as a monad. *)
#[export] Instance outcome_ret : MRet outcome := λ A a, Done a.
#[export] Instance outcome_bind : MBind outcome := λ A B f m,
  match m with
  | Done a => f a
  | Throw e => Throw e
  | Crash => Crash
  | OutOfFuel => OutOfFuel
  end.

(** [m] started in [s] returns [a] and leaves [s']. *)
Definition returns {S A} (m : M S A) (s : S) (a : A) (s' : S) : Prop := m s = (Done a, s').

(** * Decimal numbers ([fmt::format("{}", n)], [std::to_string]) *)

Definition digit (n : N) : ascii := chr (48 + N.to_nat n).

Fixpoint dec_aux (fuel : nat) (n : N) (acc : str) : str :=
  match fuel with
  | 0 => acc
  | S fuel' =>
      let acc' := digit (n mod 10) :: acc in
      if (n <? 10)%N then acc' else dec_aux fuel' (n / 10) acc'
  end.

Definition dec (n : N) : str := dec_aux (S (N.to_nat (N.log2 n))) n [].

(** The number a reader of such a text obtains. *)
Definition undec (s : str) : N :=
  fold_left (λ a c, (10 * a + (N.of_nat (nat_of_ascii c) - 48))%N) s 0%N.

(** * Tables and C strings *)

(** The first entry of a constant table with the given key. *)
Fixpoint table_find {A B} `{EqDecision A} (t : list (A * B)) (k : A) : option B :=
  match t with
  | [] => None
  | (a, b) :: t' => if decide (a = k) then Some b else table_find t' k
  end.

(** The text of a C string: up to the first NUL. *)
Fixpoint c_str (s : str) : str :=
  match s with
  | [] => []
  | c :: s' => if decide (c = NUL) then [] else c :: c_str s'
  end.

(** * Lemmas: machine arithmetic *)

Lemma wadd_small a b : (a + b < word_mod)%N → wadd a b = (a + b)%N.
Proof. unfold wadd. apply N.mod_small. Qed.

Lemma wmul_small a b : (a * b < word_mod)%N → wmul a b = (a * b)%N.
Proof. unfold wmul. apply N.mod_small. Qed.

Lemma wsub_small a b : (b ≤ a)%N → (a < word_mod)%N → wsub a b = (a - b)%N.
Proof.
  intros Hb Ha. unfold wsub. rewrite (N.mod_small b) by lia.
  replace (a + (word_mod - b))%N with (a - b + 1 * word_mod)%N by lia.
  rewrite N.Div0.mod_add. apply N.mod_small. lia.
Qed.

Lemma max_size_word : (2 * max_size + 1 < word_mod)%N.
Proof. reflexivity. Qed.

Lemma len_app {A} (l k : list A) : len (l ++ k) = (len l + len k)%N.
Proof. unfold len. rewrite length_app. lia. Qed.

Lemma len_nil {A} : len (@nil A) = 0%N.
Proof. reflexivity. Qed.

Lemma len_insert {A} (l : list A) i x : len (<[i:=x]> l) = len l.
Proof. unfold len. by rewrite length_insert. Qed.

(** Induction on the length of a list. *)
Lemma list_length_ind {A} (P : list A → Prop) :
  (∀ l, (∀ k, length k < length l → P k) → P l) → ∀ l, P l.
Proof.
  intros H l. remember (length l) as n eqn:Hn. revert l Hn.
  induction (lt_wf n) as [n _ IH]. intros l ->. apply H. intros k Hk. by apply (IH (length k)).
Qed.

(** The longest prefix whose elements satisfy [f]. *)
Lemma span_exists {A} (f : A → bool) (l : list A) :
  ∃ a b, l = a ++ b ∧ Forall (λ x, f x = true) a ∧ ∀ x, head b = Some x → f x = false.
Proof.
  induction l as [|x l (a & b & -> & Ha & Hb)].
  - exists [], []. split_and!; [done|constructor|done].
  - destruct (f x) eqn:Hx.
    + exists (x :: a), b. split_and!; [done|by constructor|done].
    + exists [], (x :: a ++ b). split_and!; [done|constructor|]. intros y [= <-]. done.
Qed.

Lemma lookup_suffix {A} (pre s : list A) k : (pre ++ s) !! (length pre + k) = s !! k.
Proof. rewrite lookup_app_r by lia. f_equal. lia. Qed.

(** * Lemmas: decimal numbers *)

Lemma digit_value n : (n < 10)%N → (N.of_nat (nat_of_ascii (digit n)) - 48)%N = n.
Proof. intros Hn. unfold digit, chr. rewrite nat_ascii_embedding by lia. lia. Qed.

Lemma undec_dec_aux fuel n acc :
  (n < 2 ^ N.of_nat fuel)%N →
  fold_left (λ a c, (10 * a + (N.of_nat (nat_of_ascii c) - 48))%N) (dec_aux fuel n acc) 0%N =
  fold_left (λ a c, (10 * a + (N.of_nat (nat_of_ascii c) - 48))%N) acc n.
Proof.
  revert n acc. induction fuel as [|fuel IH]; intros n acc Hn.
  { simpl in *. by replace n with 0%N by lia. }
  assert (n = 10 * (n / 10) + n mod 10)%N as Hdm by apply N.div_mod'.
  assert (n mod 10 < 10)%N as Hm by (by apply N.mod_lt).
  rewrite Nat2N.inj_succ, N.pow_succ_r' in Hn.
  cbn [dec_aux]. destruct (N.ltb_spec n 10) as [Hlt|Hge].
  - cbn [fold_left]. rewrite digit_value by done. f_equal. rewrite N.mod_small; lia.
  - rewrite IH by (generalize dependent (n / 10)%N; generalize dependent (n mod 10)%N; intros; lia).
    cbn [fold_left]. by rewrite digit_value, <-Hdm.
Qed.

Definition is_digit (c : ascii) : bool := (48 <=? nat_of_ascii c)%nat && (nat_of_ascii c <? 58)%nat.

Lemma digit_is_digit n : (n < 10)%N → is_digit (digit n) = true.
Proof.
  intros Hn. unfold is_digit, digit, chr. rewrite nat_ascii_embedding by lia.
  apply andb_true_iff. split; [apply Nat.leb_le|apply Nat.ltb_lt]; lia.
Qed.

Lemma dec_aux_digits fuel n acc :
  Forall (λ c, is_digit c = true) acc → Forall (λ c, is_digit c = true) (dec_aux fuel n acc).
Proof.
  revert n acc. induction fuel as [|fuel IH]; intros n acc Ha; [done|]. cbn [dec_aux].
  assert (Forall (λ c, is_digit c = true) (digit (n mod 10) :: acc)).
  { constructor; [|done]. apply digit_is_digit. by apply N.mod_lt. }
  destruct (n <? 10)%N; [done|]. by apply IH.
Qed.

Lemma dec_digits n : Forall (λ c, is_digit c = true) (dec n).
Proof. by apply dec_aux_digits. Qed.

Lemma dec_aux_nonempty fuel n acc : acc ≠ [] → dec_aux fuel n acc ≠ [].
Proof.
  revert n acc. induction fuel as [|fuel IH]; intros n acc Ha; [done|]. cbn [dec_aux].
  destruct (n <? 10)%N; [done|]. by apply IH.
Qed.

Lemma dec_nonempty n : dec n ≠ [].
Proof.
  unfold dec. cbn [dec_aux]. destruct (n <? 10)%N; [done|]. by apply dec_aux_nonempty.
Qed.

(** A text without NUL is its own C string. *)
Lemma sum_insert {A} (f : A → nat) (l : list A) i x y :
  l !! i = Some x → sum_list_with f (<[i := y]> l) + f x = sum_list_with f l + f y.
Proof.
  revert i. induction l as [|a l IH]; intros [|i] Hi; simplify_eq/=; [lia|]. specialize (IH i Hi). lia.
Qed.

Lemma c_str_text s : Forall (λ c, c ≠ NUL) s → c_str s = s.
Proof. induction 1 as [|c s Hc _ IH]; [done|]. cbn [c_str]. by rewrite decide_False, IH. Qed.

Lemma dec_c_str n : c_str (dec n) = dec n.
Proof. apply c_str_text. eapply Forall_impl; [apply dec_digits|]. by intros c Hc ->. Qed.

(** Printing loses nothing. *)
Lemma undec_dec n : undec (dec n) = n.
Proof.
  unfold undec, dec. rewrite undec_dec_aux; [done|].
  rewrite Nat2N.inj_succ, N2Nat.id. destruct (decide (n = 0%N)) as [->|Hn]; [done|].
  apply N.log2_spec. lia.
Qed.

(** * Lemmas: tables *)

Lemma table_find_Some {A B} `{EqDecision A} (t : list (A * B)) k v :
  table_find t k = Some v → (k, v) ∈ t.
Proof.
  induction t as [|[a b] t IH]; simpl; [done|]. case_decide; [|set_solver].
  intros [= ->]. subst. set_solver.
Qed.

Lemma table_find_None {A B} `{EqDecision A} (t : list (A * B)) k :
  table_find t k = None ↔ k ∉ t.*1.
Proof.
  induction t as [|[a b] t IH]; simpl; [split; [set_solver|done]|].
  case_decide; [subst; split; [done|set_solver]|]. rewrite IH. set_solver.
Qed.

Lemma table_find_elem {A B} `{EqDecision A} (t : list (A * B)) k v :
  NoDup t.*1 → (k, v) ∈ t → table_find t k = Some v.
Proof.
  induction t as [|[a b] t IH]; simpl; [set_solver|]. rewrite NoDup_cons.
  intros [Hn Hd] [Heq|Hin]%elem_of_cons; [simplify_eq; by rewrite decide_True|].
  rewrite decide_False; [by apply IH|]. intros ->. apply Hn. apply list_elem_of_fmap.
  by exists (k, v).
Qed.

(** * Lemmas: the monad *)

Section MonadLemmas.
Context {S A B : Type}.
Implicit Types (m : M S A) (f : A → M S B).

Lemma bind_done m f s a s' : m s = (Done a, s') → (m ≫= f) s = f a s'.
Proof. unfold mbind, M_bind. by intros ->. Qed.

Lemma bind_throw m f s e s' : m s = (Throw e, s') → (m ≫= f) s = (Throw e, s').
Proof. unfold mbind, M_bind. by intros ->. Qed.

Lemma bind_crash m f s s' : m s = (Crash, s') → (m ≫= f) s = (Crash, s').
Proof. unfold mbind, M_bind. by intros ->. Qed.

Lemma bind_fuel m f s s' : m s = (OutOfFuel, s') → (m ≫= f) s = (OutOfFuel, s').
Proof. unfold mbind, M_bind. by intros ->. Qed.

Lemma bind_done_inv m f s b s' :
  (m ≫= f) s = (Done b, s') → ∃ a s1, m s = (Done a, s1) ∧ f a s1 = (Done b, s').
Proof.
  unfold mbind, M_bind. destruct (m s) as [[a| | |] s1]; intros H; try done.
  by exists a, s1.
Qed.

Lemma zoom_done {T} (view : S → T) upd (g : M T A) s a t :
  g (view s) = (Done a, t) → zoom view upd g s = (Done a, upd t s).
Proof. unfold zoom. by intros ->. Qed.

Lemma zoom_throw {T} (view : S → T) upd (g : M T A) s e t :
  g (view s) = (Throw e, t) → zoom view upd g s = (Throw e, upd t s).
Proof. unfold zoom. by intros ->. Qed.
End MonadLemmas.

(** ** Invariants of operations

    [keeps P m]: [m], started where [P] holds, ends where [P] holds, unless it
    crashes. *)
Definition keeps_at {S A} (P : S → Prop) (m : M S A) (s : S) : Prop := (m s).1 = Crash ∨ P (m s).2.
Definition keeps {S A} (P : S → Prop) (m : M S A) : Prop := ∀ s, P s → keeps_at P m s.

Section Keeps.
Context {S : Type} (P : S → Prop).

Lemma keeps_at_bind {A B} (m : M S A) (f : A → M S B) s :
  keeps_at P m s → (∀ a s', m s = (Done a, s') → P s' → keeps_at P (f a) s') → keeps_at P (m ≫= f) s.
Proof.
  unfold keeps_at, mbind, M_bind. intros Hm Hf.
  destruct (m s) as [[a| | |] s'] eqn:He; simpl in *; destruct Hm as [?|?]; try done; auto.
Qed.

Lemma keeps_bind {A B} (m : M S A) (f : A → M S B) :
  keeps P m → (∀ a, keeps P (f a)) → keeps P (m ≫= f).
Proof. intros Hm Hf s Hs. apply keeps_at_bind; [by apply Hm|]. intros a s' _. apply Hf. Qed.

Lemma keeps_get {A} (f : S → M S A) : (∀ s, P s → keeps P (f s)) → keeps P (get ≫= f).
Proof. intros Hf s Hs. by apply (Hf s). Qed.

Lemma keeps_gets {A B} (g : S → B) (f : B → M S A) :
  (∀ s, P s → keeps P (f (g s))) → keeps P (gets g ≫= f).
Proof. intros Hf s Hs. by apply (Hf s). Qed.

Lemma keeps_put s : P s → keeps P (put s).
Proof. intros Hs s' _. by right. Qed.

Lemma keeps_same {A} (m : M S A) : (∀ s, (m s).2 = s) → keeps P m.
Proof. intros Hm s Hs. right. by rewrite Hm. Qed.

Lemma keeps_mret {A} (a : A) : keeps P (mret a).
Proof. by apply keeps_same. Qed.

Lemma keeps_throw {A} k e : keeps P (throw (A:=A) k e).
Proof. by apply keeps_same. Qed.

Lemma keeps_crash {A} : keeps P (crash (A:=A)).
Proof. by apply keeps_same. Qed.

Lemma keeps_out_of_fuel {A} : keeps P (out_of_fuel (A:=A)).
Proof. by apply keeps_same. Qed.

Lemma keeps_assert b : keeps P (assert_ b).
Proof. apply keeps_same. by destruct b. Qed.

Lemma keeps_deref {A} (o : option A) : keeps P (deref o).
Proof. apply keeps_same. by destruct o. Qed.

Lemma keeps_gets_only {A} (g : S → A) : keeps P (gets g).
Proof. by apply keeps_same. Qed.

Lemma keeps_modify f : (∀ s, P s → P (f s)) → keeps P (modify f).
Proof. intros Hf s Hs. right. by apply Hf. Qed.

Lemma keeps_try {A} (m : M S A) h : keeps P m → (∀ e, keeps P (h e)) → keeps P (try_catch m h).
Proof.
  intros Hm Hh s Hs. specialize (Hm s Hs). unfold keeps_at, try_catch in *.
  destruct (m s) as [[a|e| |] s'] eqn:He; simpl in *; destruct Hm as [?|?]; try done; auto.
  by apply Hh.
Qed.

Lemma keeps_noexcept {A} (m : M S A) : keeps P m → keeps P (noexcept m).
Proof.
  intros Hm s Hs. specialize (Hm s Hs). unfold keeps_at, noexcept in *.
  destruct (m s) as [[a|e| |] s'] eqn:He; simpl in *; auto.
Qed.

Lemma keeps_while n body : keeps P body → keeps P (while_ n body).
Proof.
  intros Hb. induction n as [|n IH]; simpl; [apply keeps_out_of_fuel|].
  apply keeps_bind; [done|]. intros []; [done|apply keeps_mret].
Qed.

Lemma keeps_if {A} (b : bool) (m1 m2 : M S A) : keeps P m1 → keeps P m2 → keeps P (if b then m1 else m2).
Proof. by destruct b. Qed.

Lemma keeps_zoom {T A} (view : S → T) upd (m : M T A) :
  (∀ t s, P s → P (upd t s)) → keeps P (zoom view upd m).
Proof.
  intros H s Hs. unfold keeps_at, zoom. destruct (m (view s)) as [r t]. right. by apply H.
Qed.
End Keeps.

(** A step that ends in [P], followed by one that leads from [P] to [Q]. *)
Lemma keeps_at_seq {S A B} (P Q : S → Prop) (m : M S A) (f : A → M S B) s :
  keeps_at P m s → (∀ s', P s' → Q s') → (∀ a s', P s' → keeps_at Q (f a) s') → keeps_at Q (m ≫= f) s.
Proof.
  intros Hm HPQ Hf. unfold keeps_at, mbind, M_bind in *.
  destruct (m s) as [[a|e| |] s'] eqn:He; simpl in *; destruct Hm as [Hm|Hm]; try done; auto.
Qed.

Lemma try_done {S A} (m : M S A) h s a s' : m s = (Done a, s') → try_catch m h s = (Done a, s').
Proof. unfold try_catch. by intros ->. Qed.

Lemma try_throw {S A} (m : M S A) h s e s' : m s = (Throw e, s') → try_catch m h s = h e s'.
Proof. unfold try_catch. by intros ->. Qed.

Lemma bind_caught {S A B} (m : M S A) h (k : A → M S B) s e s' :
  m s = (Throw e, s') → (try_catch m h ≫= k) s = (h e ≫= k) s'.
Proof. unfold try_catch, mbind, M_bind. by intros ->. Qed.

Lemma assert_true {S} b (s : S) : b = true → assert_ b s = (Done tt, s).
Proof. by intros ->. Qed.

Lemma deref_some {S A} (o : option A) a (s : S) : o = Some a → deref o s = (Done a, s).
Proof. by intros ->. Qed.

(** More iterations do not change the result of a loop that has ended. *)
Lemma while_mono {S} (body : M S bool) n k s r s' :
  while_ n body s = (r, s') → r ≠ OutOfFuel → while_ (n + k) body s = (r, s').
Proof.
  revert s. induction n as [|n IH]; intros s; simpl.
  { intros [= <- <-]. done. }
  unfold mbind, M_bind. destruct (body s) as [[[]| | |] s1]; eauto.
Qed.

(** * Tactics *)

Create HintDb echo discriminated.
Create HintDb keeps discriminated.
#[export] Hint Resolve keeps_mret keeps_throw keeps_crash keeps_out_of_fuel keeps_assert keeps_deref
  keeps_gets_only : keeps.
#[export] Hint Resolve max_size_word : echo.
#[export] Hint Rewrite @len_app @len_nil @len_insert : echo_len.

(** Arithmetic on lengths: everything becomes a [length] in [nat]. *)
Ltac len_lia :=
  unfold len, max_size, word_mod in *; cbn [length] in *;
  rewrite ?length_app, ?length_take, ?length_drop, ?length_replicate, ?length_insert in *;
  cbn [length] in *;
  do 3 (rewrite ?length_app in *; cbn [length] in *);
  lia.

(** Run one monadic operation whose equation is known. *)
Ltac mrun H := rewrite (bind_done _ _ _ _ _ H).
Ltac mrun_by lem tac :=
  erewrite bind_done; [| eapply lem; tac].

(** Evaluate the administrative operations at the head of a [bind]. *)
Ltac mstep :=
  match goal with
  | |- context [((gets ?f) ≫= ?k) ?s] => rewrite (bind_done (gets f) k s _ _ eq_refl)
  | |- context [(get ≫= ?k) ?s] => rewrite (bind_done get k s _ _ eq_refl)
  | |- context [((put ?x) ≫= ?k) ?s] => rewrite (bind_done (put x) k s _ _ eq_refl)
  | |- context [((modify ?f) ≫= ?k) ?s] => rewrite (bind_done (modify f) k s _ _ eq_refl)
  | |- context [((assert_ true) ≫= ?k) ?s] => rewrite (bind_done (assert_ true) k s _ _ eq_refl)
  | |- context [((assert_ (true && true)) ≫= ?k) ?s] =>
      rewrite (bind_done (assert_ (true && true)) k s _ _ eq_refl)
  | |- context [((assert_ (negb false)) ≫= ?k) ?s] =>
      rewrite (bind_done (assert_ (negb false)) k s _ _ eq_refl)
  | |- context [((mret ?x) ≫= ?k) ?s] => rewrite (bind_done (mret x) k s _ _ eq_refl)
  end; cbv beta.
Ltac msimpl := repeat mstep; simpl.

(** Split the obligation that a program keeps an invariant along its structure;
    what remains are its steps that change the state. *)
Ltac keep_step :=
  match goal with
  | |- keeps _ (get ≫= _) => apply keeps_get; intros ? ?
  | |- keeps _ (gets _ ≫= _) => apply keeps_gets; intros ? ?
  | |- keeps _ (noexcept _) => apply keeps_noexcept
  | |- keeps _ (try_catch _ _) => apply keeps_try; [|intros ?]
  | |- keeps _ (_ ≫= _) => apply keeps_bind; [|intros ?]
  | |- keeps _ (while_ _ _) => apply keeps_while
  | |- keeps _ (match ?x with _ => _ end) => destruct x
  | |- keeps _ _ => solve [auto with keeps]
  end; cbv beta.
