(* ===== verification/ByteQueue.v ===== *)
(** The contract between the buffer and its clients.  The request parser
    consumes bytes from a [Buffer] and the response builder appends to one;
    what they rely on is stated here as a type class, so that their theorems do
    not depend on how the buffer lays its bytes out. *)

From S2P Require Import Prelude.

(** [enum class NewLine] *)
Inductive NewLine := NewLine_LF | NewLine_CRLF.

(** The text a new-line tag stands for; an absent tag stands for nothing. *)
Definition newline_text (nl : option NewLine) : str :=
  match nl with
  | None => []
  | Some NewLine_LF => [LF]
  | Some NewLine_CRLF => crlf
  end.

(** A queue of bytes with the operations of [Buffer] that clients use.
    [bq_fits b d] says that the storage may grow enough to append [d]. *)
Class ByteQueue (B : Type) := {
  bq_ok : B → Prop;
  bq_contents : B → str;
  bq_fits : B → str → Prop;
  bq_Empty : M B bool;
  bq_ReadableString : M B str;
  bq_Retrieve : N → M B unit;
  bq_Append : str → option NewLine → M B unit;
  bq_Empty_spec b : bq_ok b →
    returns bq_Empty b (bool_decide (bq_contents b = [])) b;
  bq_ReadableString_spec b : bq_ok b →
    returns bq_ReadableString b (bq_contents b) b;
  bq_Retrieve_spec b n : bq_ok b → (n ≤ len (bq_contents b))%N →
    ∃ b', returns (bq_Retrieve n) b tt b' ∧ bq_ok b' ∧
      bq_contents b' = drop (N.to_nat n) (bq_contents b) ∧ ∀ d, bq_fits b d → bq_fits b' d;
  bq_Append_spec b d nl rest : bq_ok b → bq_fits b (d ++ newline_text nl ++ rest) →
    ∃ b', returns (bq_Append d nl) b tt b' ∧ bq_ok b' ∧ bq_fits b' rest ∧
      bq_contents b' = bq_contents b ++ d ++ newline_text nl
}.

(** ** Composite operations of clients *)

Section Clients.
Context {B : Type} `{!ByteQueue B}.

(** [b'] still has the room that [b] would have behind [t]. *)
Definition leaves_room (b : B) (t : str) (b' : B) : Prop := ∀ d, bq_fits b (t ++ d) → bq_fits b' d.

Lemma leaves_room_refl b : leaves_room b [] b.
Proof. by intros d. Qed.

Lemma leaves_room_trans b1 t1 b2 t2 b3 :
  leaves_room b1 t1 b2 → leaves_room b2 t2 b3 → leaves_room b1 (t1 ++ t2) b3.
Proof. intros H1 H2 d Hd. apply H2, H1. by rewrite app_assoc. Qed.

(** Appending a list of pieces, as the response builder does. *)
Fixpoint append_all (ps : list (str * option NewLine)) : M B unit :=
  match ps with
  | [] => mret tt
  | (d, nl) :: ps' => bq_Append d nl;; append_all ps'
  end.

Definition pieces_text (ps : list (str * option NewLine)) : str :=
  ps ≫= λ p, p.1 ++ newline_text p.2.

(** The bytes appended by a sequence of [Append] calls are the concatenation
    of the pieces, in order. *)
Lemma append_all_spec ps rest (b : B) :
  bq_ok b → bq_fits b (pieces_text ps ++ rest) →
  ∃ b', returns (append_all ps) b tt b' ∧ bq_ok b' ∧ bq_fits b' rest ∧
    bq_contents b' = bq_contents b ++ pieces_text ps.
Proof.
  unfold pieces_text. revert b. induction ps as [|[d nl] ps IH]; intros b Hok Hfit; simpl in *.
  { exists b. by rewrite app_nil_r. }
  rewrite <-!app_assoc in Hfit.
  destruct (bq_Append_spec b d nl _ Hok Hfit) as (b1 & H1 & Hok1 & Hfit1 & Hc1).
  destruct (IH b1 Hok1 Hfit1) as (b2 & H2 & Hok2 & Hfit2 & Hc2).
  exists b2. unfold returns in *. rewrite (bind_done _ _ _ _ _ H1), H2.
  rewrite Hc2, Hc1, <-!app_assoc. done.
Qed.
End Clients.

(** ** The reference implementation: a list of bytes *)

Definition list_Retrieve (n : N) : M str unit := λ s,
  if decide (n ≤ len s)%N then (Done tt, drop (N.to_nat n) s) else (Crash, s).

#[export, refine] Instance list_queue : ByteQueue str := {|
  bq_ok := λ _, True;
  bq_contents := id;
  bq_fits := λ _ _, True;
  bq_Empty := gets (λ s, bool_decide (s = []));
  bq_ReadableString := get;
  bq_Retrieve := list_Retrieve;
  bq_Append := λ d nl, modify (λ s, s ++ d ++ newline_text nl)
|}.
Proof.
  - done.
  - done.
  - intros s n _ Hn. unfold returns, list_Retrieve. rewrite decide_True by done. by eexists.
  - intros s d nl rest _ _. by eexists.
Defined.
