(* ===== verification/Buffer.v ===== *)
(** The auto-expandable byte buffer: [include/containers/buffer.h] and
    [src/containers/buffer/buffer.cpp].  The state is the storage vector and
    the two offsets, the operations are state transformers that can fail an
    assertion.  The theorems show that the buffer refines a byte queue. *)

From S2P Require Import Prelude ByteQueue.

(** * State *)

(** The offsets are [std::atomic<std::size_t>]. *)
Record Buffer := mkBuffer {
  buf_ : list ascii;
  read_pos_ : N;
  write_pos_ : N
}.

#[export] Instance Buffer_eq_dec : EqDecision Buffer.
Proof. solve_decision. Defined.

(** * Operations *)

(** [explicit Buffer(std::size_t size = 1000)]: [buf_(size)] value-initialises
    [size] bytes. *)
Definition Buffer_of_size (size : N) : Buffer :=
  mkBuffer (replicate (N.to_nat size) NUL) 0 0.
Definition default_size : N := 1000.
Definition Buffer_default : Buffer := Buffer_of_size default_size.

(** The state of the default member initialisers, before a constructor body
    appends. *)
Definition Buffer_empty : Buffer := mkBuffer [] 0 0.

(** Copy construction and copy assignment give the copied state; move
    construction and move assignment take the storage and leave the offsets of
    the source as they were. *)
Definition Buffer_copy (o : Buffer) : Buffer :=
  mkBuffer (buf_ o) (read_pos_ o) (write_pos_ o).
Definition Buffer_move (o : Buffer) : Buffer * Buffer :=
  (mkBuffer (buf_ o) (read_pos_ o) (write_pos_ o),
   mkBuffer [] (read_pos_ o) (write_pos_ o)).
Definition Buffer_copy_assign (self_is_o : bool) (b o : Buffer) : Buffer :=
  if self_is_o then b else mkBuffer (buf_ o) (read_pos_ o) (write_pos_ o).
Definition Buffer_move_assign (self_is_o : bool) (b o : Buffer) : Buffer * Buffer :=
  if self_is_o then (b, b) else Buffer_move o.

Definition WritableSize (b : Buffer) : N := wsub (len (buf_ b)) (write_pos_ b).
Definition ReadableSize (b : Buffer) : N := wsub (write_pos_ b) (read_pos_ b).
Definition PrependableSize (b : Buffer) : N := read_pos_ b.
Definition Empty (b : Buffer) : bool := (ReadableSize b =? 0)%N.

(** A view of [n] bytes of the storage from offset [off]; reading past the end
    is undefined. *)
Definition span (l : list ascii) (off n : N) : option str :=
  if decide (off + n ≤ len l)%N
  then Some (take (N.to_nat n) (drop (N.to_nat off) l)) else None.

Definition ReadableBytes : M Buffer str :=
  b ← get; deref (span (buf_ b) (read_pos_ b) (ReadableSize b)).
Definition ReadableString : M Buffer str :=
  b ← get; deref (span (buf_ b) (read_pos_ b) (ReadableSize b)).
Definition WritableBytes : M Buffer str :=
  b ← get; deref (span (buf_ b) (write_pos_ b) (WritableSize b)).

Definition Peek : M Buffer (option ascii) :=
  b ← get;
  if Empty b then mret None
  else x ← deref (buf_ b !! N.to_nat (read_pos_ b)); mret (Some x).

Definition HasWritten (size : N) : M Buffer unit :=
  b ← get;
  assert_ (size <=? WritableSize b)%N;;
  put (mkBuffer (buf_ b) (read_pos_ b) (wadd (write_pos_ b) size)).

Definition Retrieve (size : N) : M Buffer unit :=
  b ← get;
  assert_ (size <=? ReadableSize b)%N;;
  put (mkBuffer (buf_ b) (wadd (read_pos_ b) size) (write_pos_ b)).

Definition Clear : M Buffer unit :=
  modify (λ b, mkBuffer (buf_ b) 0 0);;
  b ← get; assert_ (Empty b).

Definition RetrieveAll : M Buffer N :=
  read_size ← gets ReadableSize;
  Clear;;
  mret read_size.

Definition RetrieveAllToString : M Buffer str :=
  s ← ReadableString;
  Clear;;
  mret s.

(** The destination is an address inside the storage, given by its offset from
    the start of the storage. *)
Definition RetrieveUntil (addr : N) : M Buffer N :=
  b ← get;
  assert_ (read_pos_ b <=? addr)%N;;
  let read_size := (addr - read_pos_ b)%N in
  Retrieve read_size;;
  mret read_size.

(** [std::vector::resize]: new bytes are zero; a size above [max_size()] throws
    [std::length_error], which ends the program because every caller is
    [noexcept]. *)
Definition resize (n : N) : M Buffer unit :=
  b ← get;
  if (max_size <? n)%N then crash
  else put (mkBuffer (take (N.to_nat n) (buf_ b) ++
                      replicate (N.to_nat n - length (buf_ b)) NUL)
                     (read_pos_ b) (write_pos_ b)).

(** [std::copy] inside one array, one element at a time in ascending order. *)
Fixpoint copy_within (n src dst : nat) (l : list ascii) : option (list ascii) :=
  match n with
  | 0 => Some l
  | S n' =>
      x ← l !! src;
      if decide (dst < length l)
      then copy_within n' (S src) (S dst) (<[dst:=x]> l) else None
  end.

(** [std::copy] from other storage. *)
Fixpoint copy_from (data : str) (dst : nat) (l : list ascii) : option (list ascii) :=
  match data with
  | [] => Some l
  | x :: data' =>
      if decide (dst < length l)
      then copy_from data' (S dst) (<[dst:=x]> l) else None
  end.

(** The [std::copy] of the readable bytes needs a valid range, so
    [ReadIter()] must not be past [WriteIter()]. *)
Definition MakeSpace (size : N) : M Buffer unit :=
  b ← get;
  if (wadd (WritableSize b) (PrependableSize b) <? size)%N
  then resize (wadd (write_pos_ b) size)
  else
    let readable_size := ReadableSize b in
    assert_ (read_pos_ b <=? write_pos_ b)%N;;
    l ← deref (copy_within (N.to_nat (write_pos_ b) - N.to_nat (read_pos_ b))
                           (N.to_nat (read_pos_ b)) 0 (buf_ b));
    put (mkBuffer l 0 (wadd 0 readable_size));;
    b' ← get;
    assert_ (readable_size =? ReadableSize b')%N.

Definition EnsureWriteableSize (size : N) : M Buffer unit :=
  b ← get;
  (if (WritableSize b <? size)%N then MakeSpace size else mret tt);;
  b' ← get;
  assert_ (size <=? WritableSize b')%N.

(** [Append(const void* data, std::size_t size)]; [data] does not point into
    this buffer. *)
Definition Append (data : str) : M Buffer unit :=
  let size := len data in
  if (size =? 0)%N then mret tt
  else
    EnsureWriteableSize size;;
    b ← get;
    l ← deref (copy_from data (N.to_nat (write_pos_ b)) (buf_ b));
    put (mkBuffer l (read_pos_ b) (write_pos_ b));;
    HasWritten size;;
    b' ← get;
    assert_ (size <=? ReadableSize b')%N.

(** [Append(std::string_view str, std::optional<NewLine> new_line)] *)
Definition Append_str (s : str) (new_line : option NewLine) : M Buffer unit :=
  let full_str := match new_line with
                  | None => s
                  | Some NewLine_LF => s ++ [LF]
                  | Some NewLine_CRLF => s ++ [CR; LF]
                  end in
  Append full_str.

(** [Append(const Buffer& buf)] for another buffer. *)
Definition Append_buffer (o : Buffer) : M Buffer unit :=
  bytes ← of_outcome (ReadableBytes o).1;
  Append bytes.

(** The overloads for bytes, and the operators, which only forward. *)
Definition Append_list (bytes : str) : M Buffer unit := Append bytes.
Definition Append_span (bytes : str) : M Buffer unit := Append bytes.
Definition put_str (s : str) : M Buffer unit := Append_str s None.
Definition put_buffer (from : Buffer) : M Buffer unit := Append_buffer from.
Definition put_span (bytes : str) : M Buffer unit := Append_span bytes.
Definition put_list (bytes : str) : M Buffer unit := Append_list bytes.

(** [Buffer(std::span<const std::byte>)], [Buffer(std::initializer_list)],
    [Buffer(std::string_view)] *)
Definition Buffer_of_bytes (bytes : str) : outcome unit * Buffer := Append bytes Buffer_empty.
Definition Buffer_of_str (s : str) : outcome unit * Buffer := Append_str s None Buffer_empty.

(** * Specification *)

(** The representation invariant. *)
Record wf (b : Buffer) : Prop := mk_wf {
  wf_read : (read_pos_ b ≤ write_pos_ b)%N;
  wf_write : (write_pos_ b ≤ len (buf_ b))%N;
  wf_size : (len (buf_ b) ≤ max_size)%N
}.

(** The bytes a reader of the buffer will see. *)
Definition readable (b : Buffer) : str :=
  take (N.to_nat (write_pos_ b) - N.to_nat (read_pos_ b))
       (drop (N.to_nat (read_pos_ b)) (buf_ b)).

(** The storage can hold [d] after the bytes already written. *)
Definition fits (b : Buffer) (d : str) : Prop := (write_pos_ b + len d ≤ max_size)%N.

(** Free space before and after the readable bytes. *)
Definition free_space (b : Buffer) : N :=
  (len (buf_ b) - (write_pos_ b - read_pos_ b))%N.

(** * Lemmas *)

Lemma copy_from_spec data dst l :
  dst + length data ≤ length l →
  copy_from data dst l = Some (take dst l ++ data ++ drop (dst + length data) l).
Proof.
  revert dst l. induction data as [|x data IH]; intros dst l Hl; simpl in *.
  { by rewrite Nat.add_0_r, take_drop. }
  rewrite decide_True by lia. rewrite IH by (rewrite length_insert; lia).
  f_equal. rewrite (take_S_r _ _ x) by (apply list_lookup_insert_eq; lia).
  rewrite take_insert_ge by lia. rewrite drop_insert_lt by lia.
  rewrite <-app_assoc. simpl. do 3 f_equal. f_equal. lia.
Qed.

(** A downward move inside one array copies the bytes as they were before it,
    also when source and destination overlap. *)
Lemma copy_within_spec n src dst l :
  dst ≤ src → src + n ≤ length l →
  copy_within n src dst l =
    Some (take dst l ++ take n (drop src l) ++ drop (dst + n) l).
Proof.
  revert src dst l. induction n as [|n IH]; intros src dst l Hd Hl; simpl.
  { by rewrite Nat.add_0_r, take_drop. }
  destruct (lookup_lt_is_Some_2 l src) as [x Hx]; [lia|]. rewrite Hx. simpl.
  rewrite decide_True by lia. rewrite IH by (rewrite ?length_insert; lia). f_equal.
  rewrite (take_S_r _ _ x) by (apply list_lookup_insert_eq; lia).
  rewrite take_insert_ge, !drop_insert_lt by lia.
  rewrite (drop_S l x src) by done. simpl. rewrite <-app_assoc. simpl.
  do 3 f_equal. f_equal. lia.
Qed.

Lemma length_readable b : wf b →
  length (readable b) = N.to_nat (write_pos_ b) - N.to_nat (read_pos_ b).
Proof. intros []. unfold readable. len_lia. Qed.

Section Sizes.
Context (b : Buffer) (Hwf : wf b).

Lemma ReadableSize_wf : ReadableSize b = len (readable b).
Proof.
  pose proof (length_readable b Hwf) as Hl. destruct Hwf. unfold ReadableSize.
  rewrite wsub_small by len_lia. unfold len. rewrite Hl. lia.
Qed.

Lemma ReadableSize_eq : ReadableSize b = (write_pos_ b - read_pos_ b)%N.
Proof. destruct Hwf. unfold ReadableSize. rewrite wsub_small by len_lia. done. Qed.

Lemma WritableSize_eq : WritableSize b = (len (buf_ b) - write_pos_ b)%N.
Proof. destruct Hwf. unfold WritableSize. rewrite wsub_small by len_lia. done. Qed.

Lemma Empty_wf : Empty b = bool_decide (readable b = []).
Proof.
  unfold Empty. rewrite ReadableSize_wf.
  destruct (readable b); case_bool_decide; done.
Qed.

Lemma ReadableBytes_wf : returns ReadableBytes b (readable b) b.
Proof.
  unfold returns, ReadableBytes, span. mstep. rewrite ReadableSize_eq.
  destruct Hwf. rewrite decide_True by lia. unfold readable, deref, mret, M_ret.
  do 3 f_equal. lia.
Qed.

Lemma HasWritten_wf n : (n ≤ len (buf_ b) - write_pos_ b)%N →
  returns (HasWritten n) b tt (mkBuffer (buf_ b) (read_pos_ b) (write_pos_ b + n)).
Proof.
  intros Hn. unfold returns, HasWritten. mstep. rewrite WritableSize_eq.
  mrun_by @assert_true ltac:(by apply N.leb_le). destruct Hwf.
  unfold put. rewrite wadd_small by len_lia. done.
Qed.
End Sizes.

Lemma MakeSpace_grow b n :
  wf b → (write_pos_ b + n ≤ max_size)%N → (free_space b < n)%N →
  returns (MakeSpace n) b tt
    (mkBuffer (buf_ b ++ replicate (N.to_nat (write_pos_ b + n) - length (buf_ b)) NUL)
       (read_pos_ b) (write_pos_ b)).
Proof.
  intros Hwf Hmax Hfree. unfold returns, MakeSpace, free_space, PrependableSize in *. mstep.
  rewrite (WritableSize_eq b Hwf). destruct Hwf.
  rewrite !wadd_small by len_lia.
  replace (_ <? n)%N with true by (symmetry; apply N.ltb_lt; lia).
  unfold resize. mstep. rewrite (proj2 (N.ltb_ge _ _)) by done.
  unfold put. do 2 f_equal. f_equal. rewrite take_ge by len_lia. done.
Qed.

Lemma MakeSpace_compact b n :
  wf b → (n ≤ free_space b)%N →
  returns (MakeSpace n) b tt
    (mkBuffer (readable b ++ drop (length (readable b)) (buf_ b)) 0 (len (readable b))).
Proof.
  intros Hwf Hfree. unfold returns, MakeSpace, free_space, PrependableSize in *. mstep.
  rewrite (WritableSize_eq b Hwf), (ReadableSize_wf b Hwf).
  pose proof (length_readable b Hwf) as Hlen. destruct Hwf.
  rewrite (wadd_small (_ - _)) by len_lia.
  replace (_ <? n)%N with false by (symmetry; apply N.ltb_ge; lia).
  mrun_by @assert_true ltac:(by apply N.leb_le).
  mrun_by @deref_some ltac:(apply copy_within_spec; [lia|len_lia]).
  simpl. fold (readable b). rewrite <-Hlen. do 2 mstep.
  unfold ReadableSize; simpl. rewrite wadd_small by len_lia.
  rewrite wsub_small by len_lia. rewrite N.add_0_l, N.sub_0_r, N.eqb_refl. done.
Qed.

(** What [EnsureWriteableSize] guarantees, whichever way it makes room. *)
Lemma EnsureWriteableSize_wf b n :
  wf b → (write_pos_ b + n ≤ max_size)%N →
  ∃ b', returns (EnsureWriteableSize n) b tt b' ∧ wf b' ∧ readable b' = readable b ∧
    (write_pos_ b' + n ≤ len (buf_ b'))%N ∧ (write_pos_ b' ≤ write_pos_ b)%N ∧
    len (buf_ b') = (if (n <=? free_space b) then len (buf_ b) else write_pos_ b + n)%N.
Proof.
  intros Hwf Hmax. unfold returns, EnsureWriteableSize. mstep.
  rewrite (WritableSize_eq b Hwf). pose proof Hwf as [Hr Hw Hs].
  destruct (N.ltb_spec (len (buf_ b) - write_pos_ b) n) as [Hlt|Hge].
  - destruct (N.leb_spec n (free_space b)) as [Hfr|Hfr].
    + erewrite bind_done by (apply MakeSpace_compact; done).
      pose proof (length_readable b Hwf) as Hlen. unfold free_space in Hfr.
      set (b' := mkBuffer _ _ _).
      assert (wf b') as Hwf' by (split; unfold b'; simpl; len_lia).
      exists b'. rewrite <-(WritableSize_eq b) in * by done. mstep.
      rewrite WritableSize_eq by done. split_and!; try done.
      * apply assert_true, N.leb_le. unfold b'; simpl. len_lia.
      * unfold readable at 1, b'; simpl. rewrite drop_0, Nat.sub_0_r.
        unfold len. rewrite Nat2N.id. by rewrite take_app_length.
      * unfold b'; simpl. len_lia.
      * unfold b'; simpl. len_lia.
      * unfold b'; simpl. len_lia.
    + erewrite bind_done by (apply MakeSpace_grow; done).
      set (b' := mkBuffer _ _ _).
      assert (len (buf_ b') = write_pos_ b + n)%N as Hlb by (unfold b', free_space in *; simpl; len_lia).
      assert (wf b') as Hwf' by (split; unfold b' in *; simpl in *; lia).
      exists b'. mstep. rewrite WritableSize_eq by done. split_and!; try done.
      * apply assert_true, N.leb_le. rewrite Hlb. unfold b'; simpl. lia.
      * unfold readable, b'; simpl. rewrite drop_app_le by len_lia.
        rewrite take_app_le by len_lia. done.
      * rewrite Hlb. unfold b'; simpl. lia.
  - exists b. mstep. mstep. rewrite (WritableSize_eq b Hwf). split_and!; try done; try lia.
    + by apply assert_true, N.leb_le.
    + rewrite (proj2 (N.leb_le n (free_space b))); [done|]. unfold free_space. lia.
Qed.

(** [Append] on a well-formed buffer: it returns, the new bytes follow the old
    ones, and the storage grows only when the free space is too small. *)
Lemma Append_wf b d :
  wf b → fits b d →
  ∃ b', returns (Append d) b tt b' ∧ wf b' ∧ readable b' = readable b ++ d ∧
    (write_pos_ b' ≤ write_pos_ b + len d)%N ∧
    len (buf_ b') =
      (if (len d <=? free_space b) then len (buf_ b) else write_pos_ b + len d)%N.
Proof.
  intros Hwf Hfit. unfold returns, Append, fits in *.
  destruct (N.eqb_spec (len d) 0) as [Hz|Hnz].
  { exists b. destruct d; [|by unfold len in Hz].
    rewrite app_nil_r, len_nil, (proj2 (N.leb_le 0 _)) by lia. split_and!; try done. lia. }
  destruct (EnsureWriteableSize_wf b (len d) Hwf Hfit) as (b1 & H1 & Hwf1 & Hc1 & Hroom & Hw1 & Hl1).
  mrun H1. mstep.
  pose proof Hwf1 as [Hr1 Hww1 Hs1].
  mrun_by @deref_some ltac:(apply copy_from_spec; len_lia). mstep.
  set (l := _ ++ _ ++ _).
  assert (len l = len (buf_ b1)) as Hl by (unfold l; len_lia).
  assert (wf (mkBuffer l (read_pos_ b1) (write_pos_ b1))) as Hwf2
    by (split; simpl; rewrite ?Hl; done).
  erewrite bind_done by (apply HasWritten_wf; simpl; [done|rewrite Hl; lia]). simpl.
  set (b3 := mkBuffer l _ _).
  assert (wf b3) as Hwf3 by (split; unfold b3; simpl; lia).
  assert (readable b3 = readable b ++ d) as Hc3.
  { rewrite <-Hc1. unfold readable, b3, l; simpl.
    rewrite drop_app_le, skipn_firstn_comm by len_lia.
    rewrite take_app_ge by len_lia. f_equal.
    rewrite take_app_le by len_lia. apply take_ge. len_lia. }
  exists b3. mstep. split_and!; try done.
  - apply assert_true, N.leb_le. rewrite ReadableSize_wf, Hc3 by done. len_lia.
  - unfold b3; simpl. lia.
  - unfold b3; simpl. congruence.
Qed.

Lemma Append_str_wf b s nl :
  wf b → fits b (s ++ newline_text nl) →
  ∃ b', returns (Append_str s nl) b tt b' ∧ wf b' ∧
    readable b' = readable b ++ s ++ newline_text nl ∧
    (write_pos_ b' ≤ write_pos_ b + len (s ++ newline_text nl))%N.
Proof.
  intros Hwf Hfit. destruct (Append_wf b _ Hwf Hfit) as (b' & H & Hwf' & Hc & Hw & _).
  exists b'. unfold Append_str. destruct nl as [[]|]; simpl in *; try done.
  by rewrite app_nil_r in *.
Qed.

Lemma Retrieve_wf b n :
  wf b → (n ≤ len (readable b))%N →
  returns (Retrieve n) b tt (mkBuffer (buf_ b) (read_pos_ b + n) (write_pos_ b)) ∧
  wf (mkBuffer (buf_ b) (read_pos_ b + n) (write_pos_ b)) ∧
  readable (mkBuffer (buf_ b) (read_pos_ b + n) (write_pos_ b)) =
    drop (N.to_nat n) (readable b).
Proof.
  intros Hwf Hn. pose proof (ReadableSize_wf b Hwf) as Hsz.
  pose proof (length_readable b Hwf) as Hlen. pose proof Hwf as [Hr Hw Hs].
  unfold returns, Retrieve. mstep. split_and!.
  - mrun_by @assert_true ltac:(apply N.leb_le; lia). unfold put.
    rewrite wadd_small by len_lia. done.
  - split; simpl; try done. unfold len in Hn. lia.
  - unfold readable; simpl. rewrite skipn_firstn_comm, drop_drop.
    f_equal; [lia|]. f_equal. lia.
Qed.

Lemma Clear_spec b : returns Clear b tt (mkBuffer (buf_ b) 0 0).
Proof. done. Qed.

Lemma wf_cleared b : wf b → wf (mkBuffer (buf_ b) 0 0) ∧ readable (mkBuffer (buf_ b) 0 0) = [].
Proof. intros []. split; [split; simpl; lia|done]. Qed.

Lemma wf_of_size n : (n ≤ max_size)%N → wf (Buffer_of_size n).
Proof. intros Hn. split; simpl; len_lia. Qed.

(** The buffer implements the queue its clients rely on. *)
#[export, refine] Instance Buffer_queue : ByteQueue Buffer := {|
  bq_ok := wf;
  bq_contents := readable;
  bq_fits := fits;
  bq_Empty := gets Empty;
  bq_ReadableString := ReadableString;
  bq_Retrieve := Retrieve;
  bq_Append := Append_str
|}.
Proof.
  - intros b Hwf. unfold returns, gets. by rewrite Empty_wf.
  - intros b Hwf. exact (ReadableBytes_wf b Hwf).
  - intros b n Hwf Hn. destruct (Retrieve_wf b n Hwf Hn) as (H & Hwf' & Hc). by eexists; split_and!.
  - intros b d nl rest Hwf Hfit. rewrite app_assoc in Hfit.
    destruct (Append_str_wf b d nl Hwf) as (b' & H & Hwf' & Hc & Hw).
    { unfold fits in *. len_lia. }
    exists b'. split_and!; try done. unfold fits in *. len_lia.
Defined.

(** * Properties *)

(** C8: every form of [Append] puts the given bytes (with the new-line text, or
    the readable bytes of another buffer) right after the bytes already
    readable, keeps the buffer well formed, and fails no assertion, as long as
    the storage may hold them. *)
Theorem append_refines b s nl o :
  wf b → wf o → fits b (s ++ newline_text nl) → fits b (readable o) →
  (∃ b', returns (Append_str s nl) b tt b' ∧ wf b' ∧
         readable b' = readable b ++ s ++ newline_text nl) ∧
  (∃ b', returns (Append_buffer o) b tt b' ∧ wf b' ∧ readable b' = readable b ++ readable o).
Proof.
  intros Hwf Hwfo Hf1 Hf2. split.
  - destruct (Append_str_wf b s nl Hwf Hf1) as (b' & ? & ? & ? & ?). by exists b'.
  - destruct (Append_wf b (readable o) Hwf Hf2) as (b' & H & Hwf' & Hc & _).
    exists b'. unfold returns, Append_buffer. rewrite (ReadableBytes_wf o Hwfo).
    by split_and!.
Qed.

Lemma append_refines_witness :
  ∃ b o, readable b = s!"ab" ∧ readable o = s!"xyz" ∧
  (∃ b', returns (Append_str (s!"c") (Some NewLine_CRLF)) b tt b' ∧ wf b' ∧
         readable b' = readable b ++ s!"c" ++ newline_text (Some NewLine_CRLF)) ∧
  (∃ b', returns (Append_buffer o) b tt b' ∧ wf b' ∧ readable b' = readable b ++ readable o).
Proof.
  exists (mkBuffer (s!"...ab.") 3 5), (mkBuffer (s!"xyz") 0 3).
  split; [done|split; [done|]].
  apply (append_refines _ (s!"c") (Some NewLine_CRLF)); try split; vm_compute; congruence.
Defined.

(** the consuming operations. [Peek] shows the first readable byte;
    [Retrieve] and [RetrieveUntil] drop a prefix of the readable bytes, and ask
    for no more than there is; [RetrieveAll] and [RetrieveAllToString] report
    the readable bytes and leave an empty buffer. *)
Theorem consume_refines b n :
  wf b →
  returns Peek b (head (readable b)) b ∧
  ((n ≤ len (readable b))%N → ∃ b', returns (Retrieve n) b tt b' ∧ wf b' ∧
     returns (RetrieveUntil (read_pos_ b + n)) b n b' ∧
     readable b' = drop (N.to_nat n) (readable b)) ∧
  ((len (readable b) < n)%N → Retrieve n b = (Crash, b)) ∧
  (∃ b', returns RetrieveAll b (len (readable b)) b' ∧
     returns RetrieveAllToString b (readable b) b' ∧ wf b' ∧ readable b' = []).
Proof.
  intros Hwf. split_and!.
  - unfold returns, Peek. mstep. rewrite (Empty_wf b Hwf).
    case_bool_decide as He; [by rewrite He|].
    destruct (readable b) as [|x l] eqn:Hl; [done|]. simpl.
    assert (readable b !! 0 = Some x) as Hx by by rewrite Hl.
    unfold readable in Hx. rewrite lookup_take_Some, lookup_drop, Nat.add_0_r in Hx.
    by rewrite (bind_done _ _ _ _ _ (deref_some _ _ _ (proj1 Hx))).
  - intros Hn. destruct (Retrieve_wf b n Hwf Hn) as (H & Hwf' & Hc).
    eexists. split_and!; try done. unfold returns, RetrieveUntil. mstep.
    mrun_by @assert_true ltac:(apply N.leb_le; lia).
    replace (read_pos_ b + n - read_pos_ b)%N with n by lia. by mrun H.
  - intros Hn. unfold Retrieve. mstep. rewrite (ReadableSize_wf b Hwf).
    rewrite (proj2 (N.leb_gt _ _)) by done. done.
  - exists (mkBuffer (buf_ b) 0 0). unfold returns, RetrieveAll, RetrieveAllToString.
    split_and!; [..|apply wf_cleared; done|apply wf_cleared; done].
    + mstep. rewrite (ReadableSize_wf b Hwf). by mrun (Clear_spec b).
    + rewrite (bind_done ReadableString _ _ _ _ (ReadableBytes_wf b Hwf)).
      by mrun (Clear_spec b).
Qed.

Lemma consume_refines_witness :
  let b := mkBuffer (s!"..abc.") 2 5 in
  returns Peek b (Some "a"%char) b ∧
  (∃ b', returns (Retrieve 2) b tt b' ∧ readable b' = s!"c") ∧ Retrieve 4 b = (Crash, b).
Proof.
  assert (wf (mkBuffer (s!"..abc.") 2 5)) as Hwf by (split; vm_compute; congruence).
  split_and!.
  - apply (consume_refines _ 0 Hwf).
  - destruct (proj1 (proj2 (consume_refines _ 2 Hwf))) as (b' & H & _ & _ & Hc).
    { vm_compute. congruence. }
    exists b'. split; [done|]. rewrite Hc. reflexivity.
  - apply (consume_refines _ 4 Hwf). vm_compute. reflexivity.
Defined.

(** space is reused before the storage grows. If the bytes fit in the free
    space in front of and behind the readable bytes, [Append] keeps the size of
    the storage; otherwise the storage grows to exactly the bytes written plus
    the new ones. *)
Theorem append_reuses_space b d :
  wf b → fits b d →
  ∃ b', returns (Append d) b tt b' ∧
    ((len d ≤ free_space b)%N → len (buf_ b') = len (buf_ b)) ∧
    ((free_space b < len d)%N → len (buf_ b') = (write_pos_ b + len d)%N).
Proof.
  intros Hwf Hfit. destruct (Append_wf b d Hwf Hfit) as (b' & H & _ & _ & _ & Hl).
  exists b'. split_and!; [done|intros Hle|intros Hlt]; rewrite Hl.
  - by rewrite (proj2 (N.leb_le _ _)).
  - by rewrite (proj2 (N.leb_gt _ _)).
Qed.

Lemma append_reuses_space_witness :
  let b := mkBuffer (s!"..ab.") 2 4 in
  ∃ b', returns (Append (s!"cde")) b tt b' ∧
    ((len (s!"cde") ≤ free_space b)%N → len (buf_ b') = len (buf_ b)) ∧
    ((free_space b < len (s!"cde"))%N → len (buf_ b') = (write_pos_ b + len (s!"cde"))%N).
Proof.
  apply (append_reuses_space (mkBuffer (s!"..ab.") 2 4) (s!"cde"));
    [split|]; vm_compute; congruence.
Defined.

(** move construction and move assignment leave the source with the old
    offsets over an empty storage. Whatever had been written to it, the source
    is no longer a valid buffer: it still reports its old readable size, its
    writable size wraps around, and reading it is undefined. *)
Theorem move_breaks_source b :
  wf b → readable b ≠ [] →
  let '(b', o) := Buffer_move b in
  b' = b ∧ Buffer_move_assign false b' b = (b', o) ∧ ¬ wf o ∧
  ReadableSize o = len (readable b) ∧
  WritableSize o = (word_mod - write_pos_ b)%N ∧
  ReadableString o = (Crash, o).
Proof.
  intros Hwf Hne. simpl. pose proof (ReadableSize_wf b Hwf) as Hsz.
  assert (0 < len (readable b))%N as Hpos by (destruct (readable b); [done|len_lia]).
  rewrite (ReadableSize_eq b Hwf) in Hsz. pose proof Hwf as [Hr Hw Hs].
  split_and!; try by destruct b.
  - intros [_ Hw' _]. simpl in Hw'. unfold len in Hw'. simpl in Hw'. lia.
  - unfold ReadableSize; simpl. rewrite wsub_small by len_lia. done.
  - unfold WritableSize, wsub; simpl. unfold len; simpl.
    rewrite (N.mod_small (write_pos_ b)) by len_lia. apply N.mod_small. len_lia.
  - unfold ReadableString, span. mstep. simpl. rewrite decide_False; [done|].
    unfold ReadableSize; simpl. rewrite wsub_small by len_lia. unfold len; simpl. lia.
Qed.

Lemma move_breaks_source_witness :
  ¬ wf (Buffer_move (mkBuffer (s!"abc") 0 2)).2 ∧
  ReadableSize (Buffer_move (mkBuffer (s!"abc") 0 2)).2 = 2%N.
Proof.
  split.
  - apply (move_breaks_source (mkBuffer (s!"abc") 0 2)); [split; vm_compute; congruence|done].
  - apply (move_breaks_source (mkBuffer (s!"abc") 0 2)); [split; vm_compute; congruence|done].
Defined.
