(* ===== verification/Util.v ===== *)
(** The string and file utilities of [include/util.h] and [src/util/util.cpp]:
    letter case, sub-string replacement, splitting into lines, and the mapped
    read-only file. *)

From S2P Require Import Prelude.

(** * Letter case *)

(** [std::tolower] and [std::toupper] in the C locale. *)
Definition tolower (c : ascii) : ascii :=
  let n := nat_of_ascii c in
  if (65 <=? n) && (n <=? 90) then chr (n + 32) else c.
Definition toupper (c : ascii) : ascii :=
  let n := nat_of_ascii c in
  if (97 <=? n) && (n <=? 122) then chr (n - 32) else c.

Definition StringToLower (s : str) : str := map tolower s.
Definition StringToUpper (s : str) : str := map toupper s.

(** * Searching *)

Fixpoint starts_with (pat s : str) : bool :=
  match pat, s with
  | [], _ => true
  | p :: pat', c :: s' => if decide (p = c) then starts_with pat' s' else false
  | _ :: _, [] => false
  end.

(** [std::string::find]; [None] is [npos]. *)
Fixpoint str_find (pat s : str) : option nat :=
  if starts_with pat s then Some 0
  else match s with
       | [] => None
       | _ :: s' => S <$> str_find pat s'
       end.

(** [ReplaceAllSubstring]: [ss] is the output stream, [s] the rest of the
    input. *)
Fixpoint replace_loop (fuel : nat) (from to s ss : str) : outcome str :=
  match fuel with
  | 0 => OutOfFuel
  | S fuel' =>
      match s with
      | [] => Done ss
      | _ :: _ =>
          match str_find from s with
          | Some b => replace_loop fuel' from to (drop (b + length from) s)
                        (ss ++ take b s ++ to)
          | None => Done (ss ++ s)
          end
      end
  end.

(** Every iteration removes at least one byte when [from] is not empty, so one
    iteration per byte and a last one are enough. *)
Definition ReplaceAllSubstring (s from to : str) : outcome str :=
  replace_loop (S (length s)) from to s [].

(** * Splitting into lines *)

(** A match of the pattern [\r*\n] at the start of [s], by its length. *)
Fixpoint match_newline (s : str) : option nat :=
  match s with
  | [] => None
  | c :: s' =>
      if decide (c = LF) then Some 1
      else if decide (c = CR) then S <$> match_newline s'
      else None
  end.

(** [std::regex_search]: the leftmost match, by position and length. *)
Fixpoint search_newline (s : str) : option (nat * nat) :=
  match match_newline s with
  | Some n => Some (0, n)
  | None =>
      match s with
      | [] => None
      | _ :: s' => prod_map S id <$> search_newline s'
      end
  end.

(** [SplitString]: the tokens of [std::sregex_token_iterator] with sub-match
    [-1], for a pattern given by its search function: the text before each
    match, then the text after the last match unless it is empty; the whole
    string if there is no match. *)
Fixpoint split_rest (fuel : nat) (search : str → option (nat * nat)) (s : str) : list str :=
  match fuel with
  | 0 => []
  | S fuel' =>
      match search s with
      | Some (p, n) => take p s :: split_rest fuel' search (drop (p + n) s)
      | None => match s with [] => [] | _ :: _ => [s] end
      end
  end.

Definition SplitString (search : str → option (nat * nat)) (s : str) : list str :=
  match search s with
  | None => [s]
  | Some _ => split_rest (S (length s)) search s
  end.

Definition SplitStringToLines (s : str) : list str := SplitString search_newline s.

(** * Files mapped into memory *)

(** The part of [struct stat] the program reads. *)
Record Stat := mkStat { st_mode : N; st_size : N }.
Definition zero_stat : Stat := mkStat 0 0.

Definition S_IFMT : N := 61440.   (* 0170000 *)
Definition S_IFDIR : N := 16384.  (* 0040000 *)
Definition S_IREAD : N := 256.    (* 0000400 *)
Definition S_ISDIR (mode : N) : bool := (N.land mode S_IFMT =? S_IFDIR)%N.

(** The system calls of [MappedReadOnlyFile], for a file system that does not
    change meanwhile. [inl] is a failure with its [errno]; [open] gives a
    negative descriptor on failure. *)
Record FileSystem := mkFileSystem {
  fs_stat : str → Z + Stat;
  fs_open : str → Z;
  fs_mmap : Z → N → Z + str;
  strerror : Z → str
}.

(** [data_] is the mapped memory, [None] for the null pointer. *)
Record MappedReadOnlyFile := mkMapped {
  path_ : str;
  stat_ : Stat;
  data_ : option str
}.
Definition Mapped_default : MappedReadOnlyFile := mkMapped [] zero_stat None.

Definition IsValidFileDescriptor (fd : Z) : bool := (0 <=? fd)%Z.

Section File.
Context (fs : FileSystem).

Definition ThrowLastSystemError {S A} (errno : Z) : M S A :=
  throw (system_error errno) (strerror fs errno).

Definition Unmap : M MappedReadOnlyFile unit :=
  put (mkMapped [] zero_stat None).

Definition Check : M MappedReadOnlyFile unit :=
  f ← get;
  assert_ (negb (bool_decide (path_ f = [])));;
  match fs_stat fs (path_ f) with
  | inl errno => ThrowLastSystemError errno
  | inr st =>
      put (mkMapped (path_ f) st (data_ f));;
      if S_ISDIR (st_mode st)
      then throw invalid_argument (s!"'" ++ path_ f ++ s!"' is a directory")
      else if (N.land (st_mode st) S_IREAD =? 0)%N
      then throw runtime_error (s!"No permission to access '" ++ path_ f ++ s!"'")
      else mret tt
  end.

Definition Map (path : str) : M MappedReadOnlyFile str :=
  Unmap;;
  modify (λ f, mkMapped path (stat_ f) (data_ f));;
  Check;;
  f ← get;
  let fd := fs_open fs (path_ f) in
  match fs_mmap fs fd (st_size (stat_ f)) with
  | inr bytes => put (mkMapped (path_ f) (stat_ f) (Some bytes));; mret bytes
  | inl errno => ThrowLastSystemError errno
  end.
End File.

Definition Size (f : MappedReadOnlyFile) : N := st_size (stat_ f).
Definition Data (f : MappedReadOnlyFile) : option str := data_ f.

(** Moving takes the path and the mapping; the size stays in the source too. *)
Definition Mapped_move (o : MappedReadOnlyFile) : MappedReadOnlyFile * MappedReadOnlyFile :=
  (o, mkMapped [] (stat_ o) None).

(** * Specifications *)

(** [pat] occurs in [s] at position [i]. *)
Definition occurs_at (pat s : str) (i : nat) : Prop := ∃ rest, drop i s = pat ++ rest ∧ i ≤ length s.

(** [replaced from to s r]: [r] is [s] with the occurrences of [from], taken
    from the left without overlap, exchanged for [to]. *)
Inductive replaced (from to : str) : str → str → Prop :=
| replaced_none s : (∀ i, ¬ occurs_at from s i) → replaced from to s s
| replaced_one a rest r :
    (∀ i, i < length a → ¬ occurs_at from (a ++ from ++ rest) i) →
    replaced from to rest r →
    replaced from to (a ++ from ++ rest) (a ++ to ++ r).

(** [text_of ls s]: the text [s] consists of the lines [ls], each but the last
    ended by any number of carriage returns and a line feed; the last may be. *)
Inductive text_of : list str → str → Prop :=
| text_last l : LF ∉ l → text_of [l] l
| text_last_nl l k : LF ∉ l → last l ≠ Some CR → text_of [l] (l ++ replicate k CR ++ [LF])
| text_cons l k ls s : LF ∉ l → last l ≠ Some CR → text_of ls s → s ≠ [] →
    text_of (l :: ls) (l ++ replicate k CR ++ LF :: s).

(** * Lemmas: searching *)

Lemma starts_with_spec pat s : starts_with pat s = true ↔ ∃ rest, s = pat ++ rest.
Proof.
  revert s. induction pat as [|p pat IH]; intros s; simpl; [by split; [exists s|]|].
  destruct s as [|c s]; [by split; [|intros [? [=]]]|].
  case_decide as Hc; [|by split; [|intros [? [=]]]]. subst c. rewrite IH. split.
  - intros [rest ->]. by exists rest.
  - intros [rest [= ->]]. by exists rest.
Qed.

Lemma occurs_at_0 pat s : occurs_at pat s 0 ↔ starts_with pat s = true.
Proof.
  rewrite starts_with_spec. unfold occurs_at. rewrite drop_0.
  split; [intros (r & -> & _)|intros (r & ->)]; eauto with lia.
Qed.

Lemma occurs_at_cons pat c s i : occurs_at pat (c :: s) (S i) ↔ occurs_at pat s i.
Proof. unfold occurs_at. simpl. split; intros (r & ? & ?); exists r; split; auto with lia. Qed.

(** [str_find] returns the first occurrence. *)
Lemma str_find_spec pat s :
  match str_find pat s with
  | Some i => occurs_at pat s i ∧ ∀ j, j < i → ¬ occurs_at pat s j
  | None => ∀ j, ¬ occurs_at pat s j
  end.
Proof.
  induction s as [|c s IH]; simpl; destruct (starts_with _ _) eqn:Hs.
  - split; [by apply occurs_at_0|lia].
  - intros [|j] H; [apply occurs_at_0 in H; congruence|destruct H as (r & _ & H); simpl in H; lia].
  - split; [by apply occurs_at_0|lia].
  - destruct (str_find pat s) as [i|]; simpl.
    + destruct IH as [IH1 IH2]. split; [by apply occurs_at_cons|].
      intros [|j] Hj H; [apply occurs_at_0 in H; congruence|].
      apply occurs_at_cons in H. eapply IH2; [|done]. lia.
    + intros [|j] H; [apply occurs_at_0 in H; congruence|].
      apply occurs_at_cons in H. by eapply IH.
Qed.

Lemma str_find_None pat s : str_find pat s = None ↔ ∀ i, ¬ occurs_at pat s i.
Proof.
  pose proof (str_find_spec pat s) as H. destruct (str_find pat s) as [i|]; [|done].
  split; [done|]. intros Hn. by destruct (Hn i (proj1 H)).
Qed.

(** A found occurrence splits the text. *)
Lemma str_find_Some pat s i :
  str_find pat s = Some i →
  ∃ a rest, s = a ++ pat ++ rest ∧ length a = i ∧
    ∀ j, j < i → ¬ occurs_at pat s j.
Proof.
  intros H. pose proof (str_find_spec pat s) as Hs. rewrite H in Hs.
  destruct Hs as [(rest & Hd & Hl) Hfirst].
  exists (take i s), rest. rewrite <-Hd, take_drop.
  split_and!; [done|rewrite length_take; lia|done].
Qed.

Lemma str_find_first pat a rest :
  (∀ i, i < length a → ¬ occurs_at pat (a ++ pat ++ rest) i) →
  str_find pat (a ++ pat ++ rest) = Some (length a).
Proof.
  intros Hn. pose proof (str_find_spec pat (a ++ pat ++ rest)) as Hs.
  assert (occurs_at pat (a ++ pat ++ rest) (length a)) as Ho.
  { exists rest. rewrite drop_app_length, length_app. split; [done|lia]. }
  destruct (str_find pat _) as [i|]; [|by destruct (Hs _ Ho)].
  destruct Hs as [Hi Hmin]. f_equal.
  destruct (Nat.lt_trichotomy i (length a)) as [?|[?|?]]; [|done|]; exfalso.
  - by eapply Hn.
  - by eapply Hmin.
Qed.

(** * Lemmas: replacement *)

Lemma replace_loop_replaced from to s r :
  from ≠ [] → replaced from to s r →
  ∀ fuel ss, length s < fuel → replace_loop fuel from to s ss = Done (ss ++ r).
Proof.
  intros Hne. induction 1 as [s Hn|a rest r Hn Hr IH]; intros [|fuel] ss Hf; try lia; simpl.
  - rewrite (proj2 (str_find_None from s) Hn). destruct s; [by rewrite app_nil_r|done].
  - destruct (a ++ from ++ rest) as [|c l] eqn:Hs.
    { by destruct a, from. }
    rewrite <-Hs in *. rewrite str_find_first by done.
    rewrite drop_app_ge, take_app_length by lia.
    replace (length a + length from - length a) with (length from) by lia.
    rewrite drop_app_length, IH, <-!app_assoc; [done|].
    rewrite Hs in Hf. assert (length (c :: l) = length a + length from + length rest) as Hl
      by (rewrite <-Hs, !length_app; lia).
    destruct from; [done|]. simpl in *. lia.
Qed.

(** Every text has a replacement: induction on its length. *)
Lemma replaced_exists from to s : from ≠ [] → ∃ r, replaced from to s r.
Proof.
  intros Hne. induction s as [s IH] using list_length_ind.
  destruct (str_find from s) as [i|] eqn:Hf.
  - destruct (str_find_Some _ _ _ Hf) as (a & rest & -> & Hl & Hn).
    destruct (IH rest) as [r Hr].
    { rewrite !length_app. destruct from; [done|simpl; lia]. }
    exists (a ++ to ++ r). apply replaced_one; [by rewrite Hl|done].
  - exists s. apply replaced_none. by apply str_find_None.
Qed.

Lemma ReplaceAllSubstring_done from to s r :
  from ≠ [] → (ReplaceAllSubstring s from to = Done r ↔ replaced from to s r).
Proof.
  intros Hne. split.
  - destruct (replaced_exists from to s Hne) as [r' Hr']. intros H.
    unfold ReplaceAllSubstring in H.
    erewrite (replace_loop_replaced from to s r') in H by (done || lia). simplify_eq/=. done.
  - intros Hr. unfold ReplaceAllSubstring.
    erewrite replace_loop_replaced by (done || lia). done.
Qed.

(** * Lemmas: lines *)

Lemma match_newline_crs k s : match_newline (replicate k CR ++ LF :: s) = Some (S k).
Proof. induction k as [|k IH]; simpl; [done|]. by rewrite IH. Qed.

Lemma match_newline_Some s n :
  match_newline s = Some n → ∃ k rest, n = S k ∧ s = replicate k CR ++ LF :: rest.
Proof.
  revert n. induction s as [|c s IH]; intros n; simpl; [done|].
  case_decide; simplify_eq/=; [intros [= <-]; by exists 0, s|].
  case_decide; simplify_eq/=; [|done].
  destruct (match_newline s) as [m|]; [|done]. intros [= <-].
  destruct (IH m eq_refl) as (k & rest & -> & ->). by exists (S k), rest.
Qed.

Lemma match_newline_LF s : match_newline s ≠ None → LF ∈ s.
Proof.
  destruct (match_newline s) as [n|] eqn:H; [|done]. intros _.
  apply match_newline_Some in H as (k & rest & _ & ->). set_solver.
Qed.

Lemma search_newline_None s : search_newline s = None ↔ LF ∉ s.
Proof.
  induction s as [|c s IH]; [set_solver|].
  cbn [search_newline]. destruct (match_newline (c :: s)) as [n|] eqn:Hm.
  - split; [done|]. intros Hn. destruct Hn. apply match_newline_LF. congruence.
  - rewrite fmap_None, IH. simpl in Hm. case_decide; [done|]. set_solver.
Qed.

(** The text before a match neither contains a line feed nor ends in a carriage
    return. *)
Lemma search_newline_app l k s :
  LF ∉ l → last l ≠ Some CR →
  search_newline (l ++ replicate k CR ++ LF :: s) = Some (length l, S k).
Proof.
  induction l as [|c l IH]; intros Hn Hl.
  - simpl app. destruct (replicate k CR ++ LF :: s) as [|c' s'] eqn:He;
      [by destruct k|]. cbn [search_newline]. by rewrite <-He, match_newline_crs.
  - rewrite <-app_comm_cons. cbn [search_newline].
    destruct (match_newline (c :: l ++ _)) as [n|] eqn:Hm.
    { exfalso. apply match_newline_Some in Hm as ([|j] & rest & -> & He); [set_solver|].
      simpl in He. injection He as Hc He. destruct l as [|d l]; [subst; done|].
      assert (d ∈ replicate j CR ++ [LF]) as Hd.
      { destruct j; simplify_eq/=; set_solver. }
      assert (∀ l' j' r', LF ∉ l' → l' ++ replicate k CR ++ LF :: s = replicate j' CR ++ LF :: r' →
                 l' ≠ [] → last l' = Some CR) as Hall.
      { clear. induction l' as [|x l' IH]; [done|]. intros [|j'] r' Hn He _.
        - simplify_eq/=. set_solver.
        - simplify_eq/=. destruct l' as [|y l']; [done|]. simpl.
          apply (IH j' r'); [set_solver|done|done]. }
      apply Hl. simpl. apply (Hall (d :: l) j rest); [set_solver|done|done]. }
    rewrite IH; [done|set_solver|]. by destruct l.
Qed.

Lemma search_newline_Some s p n :
  search_newline s = Some (p, n) →
  ∃ l k rest, s = l ++ replicate k CR ++ LF :: rest ∧ length l = p ∧ n = S k ∧
    (LF ∉ l) ∧ last l ≠ Some CR.
Proof.
  revert p. induction s as [|c s IH]; intros p; [done|].
  cbn [search_newline]. destruct (match_newline (c :: s)) as [m|] eqn:Hm.
  - intros [= <- <-]. apply match_newline_Some in Hm as (k & rest & -> & ->).
    exists [], k, rest. split_and!; [done|done|done|set_solver|done].
  - destruct (search_newline s) as [[q m]|]; [|done]. intros [= <- <-].
    destruct (IH q eq_refl) as (l & k & rest & -> & <- & -> & Hl & Hcr).
    assert (c ≠ LF) by (simpl in Hm; by case_decide).
    exists (c :: l), k, rest. split_and!; [done|done|done|set_solver|].
    destruct l as [|d l]; [|done]. intros [= ->].
    simpl app in Hm. change (CR :: replicate k CR ++ LF :: rest)
      with (replicate (S k) CR ++ LF :: rest) in Hm.
    by rewrite match_newline_crs in Hm.
Qed.

Lemma drop_line l k (s : str) :
  drop (length l + S k) (l ++ replicate k CR ++ LF :: s) = s.
Proof.
  rewrite drop_app_ge by lia. replace (length l + S k - length l) with (S k) by lia.
  rewrite drop_app_ge by (rewrite length_replicate; lia).
  rewrite length_replicate. by replace (S k - k) with 1 by lia.
Qed.

Lemma split_rest_text ls s :
  text_of ls s → s ≠ [] → ∀ fuel, length s < fuel → split_rest fuel search_newline s = ls.
Proof.
  induction 1 as [l Hl|l k Hl Hcr|l k ls s Hl Hcr Ht IH Hs]; intros Hne [|fuel] Hf;
    try lia; cbn [split_rest].
  - rewrite (proj2 (search_newline_None l) Hl). by destruct l.
  - rewrite search_newline_app, take_app_length, drop_line by done.
    destruct fuel; [|done].
    exfalso. rewrite !length_app, length_replicate in Hf. simpl in Hf. lia.
  - rewrite search_newline_app, take_app_length, drop_line by done.
    rewrite IH; [done|done|].
    rewrite !length_app, length_replicate in Hf. simpl in Hf. lia.
Qed.

Lemma text_of_exists s : ∃ ls, text_of ls s.
Proof.
  induction s as [s IH] using list_length_ind.
  destruct (search_newline s) as [[p m]|] eqn:Hs.
  - apply search_newline_Some in Hs as (l & k & rest & -> & <- & -> & Hl & Hcr).
    destruct (decide (rest = [])) as [->|Hne]; [exists [l]; by apply text_last_nl|].
    destruct (IH rest) as [ls Hls].
    { rewrite !length_app, length_replicate. simpl. lia. }
    exists (l :: ls). by apply text_cons.
  - exists [s]. apply text_last. by apply search_newline_None.
Qed.

Lemma SplitStringToLines_text s ls : SplitStringToLines s = ls ↔ text_of ls s.
Proof.
  assert (∀ ls, text_of ls s → SplitStringToLines s = ls) as Hall.
  { clear ls. intros ls Ht. unfold SplitStringToLines, SplitString.
    destruct (search_newline s) as [[p n]|] eqn:Hs.
    - apply split_rest_text; [done| |lia]. by intros ->.
    - apply search_newline_None in Hs. inversion Ht; subst; [done|set_solver..]. }
  split; [|apply Hall]. intros <-. destruct (text_of_exists s) as [ls Hls].
  by rewrite (Hall ls Hls).
Qed.

Lemma text_of_cons ls s : text_of ls s → ls ≠ [].
Proof. by destruct 1. Qed.

(** The documented length of a mapping: as many bytes as were asked for. *)
Definition mmap_length (fs : FileSystem) : Prop :=
  ∀ path st bytes, fs_stat fs path = inr st →
    fs_mmap fs (fs_open fs path) (st_size st) = inr bytes → len bytes = st_size st.

(** A file system with one readable file, for concrete runs. *)
Definition one_file (name content : str) : FileSystem := {|
  fs_stat p := if decide (p = name) then inr (mkStat 33188 (len content))
               else inl 2%Z;
  fs_open p := if decide (p = name) then 3%Z else (-1)%Z;
  fs_mmap fd n := if (fd <? 0)%Z then inl 9%Z
                  else if (n =? 0)%N then inl 22%Z else inr (take (N.to_nat n) content);
  strerror e := if (e =? 2)%Z then s!"No such file or directory" else s!"Invalid argument"
|}.

(** * Lemmas: mapped files *)

Lemma one_file_mmap name content : mmap_length (one_file name content).
Proof.
  intros path st bytes. simpl. case_decide; [|done]. intros [= <-]. simpl.
  case_match; [done|]. intros [= <-]. unfold len. rewrite Nat2N.id, firstn_all. done.
Qed.


(** What a path refers to: an exception or the bytes of a readable file. *)
Definition file_result (fs : FileSystem) (path : str) : exn + str :=
  match fs_stat fs path with
  | inl errno => inl (Exn (system_error errno) (strerror fs errno))
  | inr st =>
      if S_ISDIR (st_mode st)
      then inl (Exn invalid_argument (s!"'" ++ path ++ s!"' is a directory"))
      else if (N.land (st_mode st) S_IREAD =? 0)%N
      then inl (Exn runtime_error (s!"No permission to access '" ++ path ++ s!"'"))
      else match fs_mmap fs (fs_open fs path) (st_size st) with
           | inl errno => inl (Exn (system_error errno) (strerror fs errno))
           | inr bytes => inr bytes
           end
  end.

Lemma Map_result fs path f :
  path ≠ [] →
  ∃ f', Map fs path f =
      (match file_result fs path with inl e => Throw e | inr bytes => Done bytes end, f') ∧
    Data f' = match file_result fs path with inl _ => None | inr bytes => Some bytes end ∧
    (mmap_length fs → ∀ bytes, file_result fs path = inr bytes → Size f' = len bytes).
Proof.
  intros Hne. unfold Map, Check, Unmap, put, modify, mbind, M_bind, get, assert_, file_result. simpl.
  rewrite bool_decide_eq_false_2 by done. simpl.
  destruct (fs_stat fs path) as [e|st] eqn:Hst; simpl; [by eexists|].
  destruct (S_ISDIR _); simpl; [by eexists|].
  destruct (_ =? 0)%N; simpl; [by eexists|].
  destruct (fs_mmap fs _ _) as [e|d] eqn:Hm; [by eexists|].
  eexists. split_and!; [done|done|]. intros Hl d' [= <-]. symmetry. exact (Hl path st d Hst Hm).
Qed.

(** * Properties *)

(** for a non-empty pattern [ReplaceAllSubstring] terminates, and its result
    is the text with every leftmost non-overlapping occurrence of the pattern
    exchanged; there is no other such text. *)
Theorem replace_all_correct s from to :
  from ≠ [] →
  ∃ r, ReplaceAllSubstring s from to = Done r ∧ replaced from to s r ∧
       ∀ r', replaced from to s r' → r' = r.
Proof.
  intros Hne. destruct (replaced_exists from to s Hne) as [r Hr].
  exists r. split_and!; [by apply ReplaceAllSubstring_done|done|].
  intros r' Hr'. apply (ReplaceAllSubstring_done from to s) in Hr, Hr'; congruence.
Qed.

Lemma replace_all_correct_witness :
  ReplaceAllSubstring (s!"a aa b") (s!"a") (s!"A") = Done (s!"A AA b") ∧
  ∃ r, ReplaceAllSubstring (s!"a aa b") (s!"a") (s!"A") = Done r ∧
       replaced (s!"a") (s!"A") (s!"a aa b") r ∧
       ∀ r', replaced (s!"a") (s!"A") (s!"a aa b") r' → r' = r.
Proof. split; [reflexivity|]. by apply (replace_all_correct (s!"a aa b") (s!"a") (s!"A")). Defined.

(** for the empty pattern and a non-empty text the loop never ends: it finds
    the pattern at position 0 again and again, whatever bound on the iterations
    is allowed. *)
Theorem replace_empty_pattern_diverges s to :
  s ≠ [] → ∀ fuel ss, replace_loop fuel [] to s ss = OutOfFuel.
Proof.
  intros Hne fuel. induction fuel as [|fuel IH]; intros ss; [done|].
  destruct s as [|c s]; [done|]. simpl. apply IH.
Qed.

Lemma replace_empty_pattern_diverges_witness :
  ReplaceAllSubstring (s!"a") [] (s!"x") = OutOfFuel ∧
  ¬ (∃ fuel r, replace_loop fuel [] (s!"x") (s!"a") [] = Done r).
Proof.
  split; [by apply (replace_empty_pattern_diverges (s!"a") (s!"x"))|].
  intros (fuel & r & Hr). revert Hr.
  rewrite (replace_empty_pattern_diverges (s!"a") (s!"x") ltac:(discriminate) fuel []). discriminate.
Defined.

(** [SplitStringToLines] implements the reading of a text as lines: it
    returns exactly the list of lines of which the text consists, so a text has
    one such list, which is never empty. *)
Theorem lines_correct s ls :
  (SplitStringToLines s = ls ↔ text_of ls s) ∧ SplitStringToLines s ≠ [].
Proof.
  split; [apply SplitStringToLines_text|].
  eapply text_of_cons. by apply (SplitStringToLines_text s).
Qed.

(** every way [Map] can end. A failing [stat] or [mmap] gives a system
    error, a directory an invalid argument, an unreadable file a runtime error,
    and in all of these no memory is mapped; otherwise the file's bytes are
    mapped and the size is the one [stat] reported. The earlier contents of the
    object do not matter. *)
Theorem map_every_branch fs path f :
  path ≠ [] →
  let '(r, f') := Map fs path f in
  match fs_stat fs path with
  | inl errno => r = Throw (Exn (system_error errno) (strerror fs errno)) ∧ Data f' = None
  | inr st =>
      if S_ISDIR (st_mode st) then
        r = Throw (Exn invalid_argument (s!"'" ++ path ++ s!"' is a directory")) ∧
        Data f' = None
      else if (N.land (st_mode st) S_IREAD =? 0)%N then
        r = Throw (Exn runtime_error (s!"No permission to access '" ++ path ++ s!"'")) ∧
        Data f' = None
      else match fs_mmap fs (fs_open fs path) (st_size st) with
      | inl errno => r = Throw (Exn (system_error errno) (strerror fs errno)) ∧ Data f' = None
      | inr bytes => r = Done bytes ∧ Data f' = Some bytes ∧ Size f' = st_size st
      end
  end.
Proof.
  intros Hne. unfold Map, Check, Unmap, put, modify, mbind, M_bind, get, assert_. simpl.
  rewrite bool_decide_eq_false_2 by done. simpl.
  destruct (fs_stat fs path) as [e|st]; simpl; [done|].
  destruct (S_ISDIR _); simpl; [done|].
  destruct (_ =? 0)%N; simpl; [done|].
  by destruct (fs_mmap _ _ _).
Qed.

Lemma map_every_branch_witness :
  let fs := one_file (s!"a.txt") (s!"hello") in
  (Map fs (s!"a.txt") Mapped_default).1 = Done (s!"hello") ∧
  (let '(r, f') := Map fs (s!"b") Mapped_default in
   r = Throw (Exn (system_error 2) (s!"No such file or directory")) ∧ Data f' = None).
Proof.
  split; [reflexivity|].
  apply (map_every_branch (one_file (s!"a.txt") (s!"hello")) (s!"b") Mapped_default). done.
Defined.
