(* ===== verification/System.v ===== *)
(** The parts of [include/util.h] and [src/util/util.cpp] that reach for the system
    or wrap others: the id of the thread, the back trace, the guard [RAII], the
    singletons, and the remaining special members of the mapped file. *)

From S2P Require Import Prelude Util.

(** * Threads *)

(** The cast of [CurrentThreadId]; [gettid] is the answer of the kernel, a
    [long]. *)
Definition CurrentThreadId (gettid : Z) : N := Z.to_N (gettid mod 4294967296).

(** * The back trace *)

(** [static_cast<int>] of a [size_t]. *)
Definition to_int (n : N) : Z :=
  let m := (n mod 4294967296)%N in
  if (m <? 2147483648)%N then Z.of_N m else (Z.of_N m - 4294967296)%Z.

Section Backtrace.
Context {Address : Type}.
(** [<execinfo.h>]: the innermost return addresses, at most as many as asked for,
    and their texts, unless memory runs out. *)
Context (backtrace : Z → list Address) (backtrace_symbols : list Address → option (list str)).

(** The loop over the texts; [i] and [ret_size] are compared as [size_t]. *)
Fixpoint push_symbols (fuel : nat) (i ret_size : N) (strs : list str) : M (list str) unit :=
  match fuel with
  | 0 => out_of_fuel
  | S fuel' =>
      if (i <? ret_size)%N then
        s ← deref (strs !! N.to_nat i);
        modify (λ stack, stack ++ [s]);;
        push_symbols fuel' (wadd i 1) ret_size strs
      else mret tt
  end.

(** [new VoidPtr[size]] throws beyond this size, which ends a [noexcept]
    function. *)
Definition max_pointers : N := max_size / 8.

Definition Backtrace_to (fuel : nat) (size skip : N) : M (list str) unit :=
  assert_ (size <=? max_pointers)%N;;
  let buffer := backtrace (to_int size) in
  match backtrace_symbols buffer with
  | Some strs => push_symbols fuel skip (len buffer) strs
  | None => mret tt
  end.

(** The overload that returns a text. *)
Definition Backtrace (fuel : nat) (size skip : N) (prefix : str) : outcome str :=
  match Backtrace_to fuel size skip [] with
  | (Done _, stack) => Done (concat (map (λ call, prefix ++ call ++ [LF]) stack))
  | (Throw e, _) => Throw e
  | (Crash, _) => Crash
  | (OutOfFuel, _) => OutOfFuel
  end.
End Backtrace.

(** * [RAII] *)

(** A block in which [RAII {obj, cleaner}] lives: however the block is left, the
    destructor runs [cleaner], which must not throw. *)
Definition scoped {S A} (cleaner : M S unit) (block : M S A) : M S A := λ s,
  match block s with
  | (Done a, s') => (noexcept cleaner;; mret a) s'
  | (Throw e, s') => (noexcept cleaner;; throw (kind e) (what e)) s'
  | (Crash, s') => (Crash, s')
  | (OutOfFuel, s') => (OutOfFuel, s')
  end.

(** * Singletons *)

(** A function-local static: [make] is the constructor with the arguments that
    are part of the type; [shared_ptr]s to the instance are its address. *)
Section Singleton.
Context {S T : Type} (make : M S T).

Definition Instance : M (option T * S) T := noexcept (
  s ← get;
  match s.1 with
  | Some ins => mret ins
  | None =>
      ins ← zoom snd (λ w x, (x.1, w)) make;
      modify (λ x, (Some ins, x.2));;
      mret ins
  end).
End Singleton.

(** * The mapped file *)

Definition Path (f : MappedReadOnlyFile) : str := path_ f.

(** Move assignment to another object; like the constructor it leaves the size
    behind, and what the target had mapped is not unmapped. *)
Definition Mapped_move_assign (this o : MappedReadOnlyFile) : MappedReadOnlyFile * MappedReadOnlyFile :=
  (mkMapped (path_ o) (stat_ o) (data_ o), mkMapped [] (stat_ o) None).

(** The destructor. *)
Definition Mapped_destroy : M MappedReadOnlyFile unit := Unmap.

(** * Lemmas *)

Lemma push_symbols_ok strs : ∀ fuel i n stack,
  (n ≤ len strs)%N → (i ≤ n)%N → (n < word_mod)%N → (N.to_nat (n - i) < fuel)%nat →
  push_symbols fuel i n strs stack =
    (Done tt, stack ++ take (N.to_nat (n - i)) (drop (N.to_nat i) strs)).
Proof.
  induction fuel as [|fuel IH]; intros i n stack Hn Hi Hw Hf; [lia|]. cbn [push_symbols].
  destruct (N.ltb_spec i n) as [Hlt|Hge].
  - assert (is_Some (strs !! N.to_nat i)) as [x Hx] by (apply lookup_lt_is_Some; len_lia).
    rewrite (bind_done _ _ _ x stack) by (by rewrite Hx). mstep. rewrite (wadd_small i 1) by (unfold word_mod in *; lia).
    rewrite IH by lia. rewrite <-app_assoc. f_equal. f_equal. rewrite (drop_S _ _ _ Hx).
    replace (N.to_nat (n - i)) with (S (N.to_nat (n - (i + 1)))) by lia.
    replace (N.to_nat (i + 1)) with (S (N.to_nat i)) by lia. done.
  - replace (N.to_nat (n - i)) with 0 by lia. by rewrite take_0, app_nil_r.
Qed.

Lemma push_symbols_skip strs fuel i n stack :
  (n ≤ i)%N → push_symbols (S fuel) i n strs stack = (Done tt, stack).
Proof. intros Hi. cbn [push_symbols]. by rewrite (proj2 (N.ltb_ge _ _) Hi). Qed.

Lemma to_int_small n : (n < 2147483648)%N → to_int n = Z.of_N n.
Proof.
  intros Hn. unfold to_int. rewrite N.mod_small by lia. by rewrite (proj2 (N.ltb_lt _ _) Hn).
Qed.

(** * Properties *)

(** The text of a back trace has one line for each frame behind the skipped ones,
    in order, each with the prefix; it is empty when more are skipped than there
    are, or when the texts cannot be had.  The loop ends within as many turns as
    there are frames, and one. *)
Theorem backtrace_lines {Address} (bt : Z → list Address) (syms : list Address → option (list str)) size skip prefix :
  (size < 2147483648)%N → (∀ n, (0 ≤ n)%Z → (Z.of_N (len (bt n)) ≤ n)%Z) →
  (∀ a l, syms a = Some l → length l = length a) →
  Backtrace bt syms (S (N.to_nat size)) size skip prefix =
    Done (match syms (bt (Z.of_N size)) with
          | Some l => concat (map (λ call, prefix ++ call ++ [LF]) (drop (N.to_nat skip) l))
          | None => []
          end).
Proof.
  intros Hsize Hbt Hsyms. unfold Backtrace, Backtrace_to.
  assert ((size <=? max_pointers)%N = true) as ->.
  { apply N.leb_le. etrans; [apply N.lt_le_incl, Hsize|]. by vm_compute. }
  rewrite to_int_small by done. mstep. set (b := bt (Z.of_N size)).
  assert (len b ≤ size)%N as Hb by (specialize (Hbt (Z.of_N size)); unfold b; lia).
  destruct (syms b) as [l|] eqn:Hl; [|done]. pose proof (Hsyms _ _ Hl) as Hlen.
  destruct (N.le_gt_cases (len b) skip) as [Hs|Hs].
  - rewrite push_symbols_skip by done. by rewrite drop_ge by (unfold len in Hs; lia).
  - rewrite push_symbols_ok by (unfold len, word_mod in *; lia). simpl. do 3 f_equal.
    apply take_ge. rewrite length_drop. unfold len. lia.
Qed.

(** The guard: the cleaner runs exactly once, behind the block, whether this
    returns or throws, and changes neither the result nor the exception; a cleaner
    that throws ends the program. *)
Theorem scoped_cleans {S A} (cleaner : M S unit) (block : M S A) s r s1 :
  block s = (r, s1) →
  match r with
  | Done _ | Throw _ =>
      (∀ s2, cleaner s1 = (Done tt, s2) → scoped cleaner block s = (r, s2)) ∧
      (∀ e s2, cleaner s1 = (Throw e, s2) → scoped cleaner block s = (Crash, s2))
  | _ => scoped cleaner block s = (r, s1)
  end.
Proof.
  intros Hb. unfold scoped. rewrite Hb.
  destruct r as [a|[k m]| |]; try done; (split; [intros s2 Hc|intros e s2 Hc]); unfold mbind, M_bind, noexcept; by rewrite Hc.
Qed.

(** A singleton is made by the first call; every later call gives the same
    instance and does nothing. *)
Theorem instance_once {S T} (make : M S T) s ins s' :
  make s = (Done ins, s') →
  Instance make (None, s) = (Done ins, (Some ins, s')) ∧
  ∀ s1, Instance make (Some ins, s1) = (Done ins, (Some ins, s1)).
Proof.
  intros Hm. split; [|done]. unfold Instance, noexcept. mstep. cbn [fst].
  rewrite (bind_done _ _ _ ins (None, s')); [done|].
  exact (zoom_done snd (λ w x, (x.1, w)) make (None, s) ins s' Hm).
Qed.
