(* ===== verification/HeapTimer.v ===== *)
(** The timer system of [include/containers/heap_timer.h]: a binary min-heap of
    nodes ordered by expiration time, with a map from keys to heap positions.
    Positions are [size_t]; time points and durations of the steady clock are
    integers (nanoseconds).  The theorems show that the heap and the map stay
    consistent, that the timer refines a finite map from keys to deadlines, and
    what [Tick] fires. *)

From S2P Require Import Prelude.

(** * State *)

Section Types.
Context (Key Callback : Type).

(** [callback] is a [std::function], which may be empty. *)
Record Node := mkNode {
  key : Key;
  expiration : Z;
  callback : option Callback
}.

Record HeapTimer `{Countable Key} := mkTimer {
  key_to_idx_ : gmap Key N;
  nodes_ : list Node
}.
End Types.

Arguments mkNode {_ _} _ _ _.
Arguments key {_ _} _.
Arguments expiration {_ _} _.
Arguments callback {_ _} _.
Arguments mkTimer {_ _ _ _} _ _.
Arguments key_to_idx_ {_ _ _ _} _.
Arguments nodes_ {_ _ _ _} _.

(** * Operations *)

Section Operations.
Context {Key : Type} `{Countable Key} {Callback : Type}.
Abbreviation Node := (Node Key Callback).
Abbreviation HeapTimer := (HeapTimer Key Callback).
Implicit Types (t : HeapTimer) (k : Key).

Definition Timer_empty : HeapTimer := mkTimer ∅ [].

Definition Clear : M HeapTimer unit := put Timer_empty.

Definition Contain (k : Key) (t : HeapTimer) : bool := bool_decide (is_Some (key_to_idx_ t !! k)).

Definition Empty : M HeapTimer bool :=
  t ← get;
  assert_ (Bool.eqb (bool_decide (nodes_ t = [])) (bool_decide (key_to_idx_ t = ∅)));;
  mret (bool_decide (nodes_ t = [])).

Definition Size : M HeapTimer N :=
  t ← get;
  assert_ (length (nodes_ t) =? size (key_to_idx_ t))%nat;;
  mret (len (nodes_ t)).

Definition ValidIndex (idx : N) : M HeapTimer bool :=
  n ← Size; mret (idx <? n)%N.

(** [nodes_[idx]]: outside the deque it is undefined. *)
Definition node_at (idx : N) : M HeapTimer Node :=
  t ← get; deref (nodes_ t !! N.to_nat idx).

Definition set_node (idx : N) (n : Node) : M HeapTimer unit :=
  t ← get; put (mkTimer (key_to_idx_ t) (<[N.to_nat idx := n]> (nodes_ t))).

(** [key_to_idx_[k] = idx] *)
Definition set_index (k : Key) (idx : N) : M HeapTimer unit :=
  modify (λ t, mkTimer (<[k := idx]> (key_to_idx_ t)) (nodes_ t)).

(** [nodes_[idx1].Swap(nodes_[idx2])]: [Node::Swap] exchanges every field. *)
Definition swap_nodes (idx1 idx2 : N) : M HeapTimer unit :=
  n1 ← node_at idx1;
  n2 ← node_at idx2;
  set_node idx1 n2;;
  set_node idx2 n1.

Definition Swap (idx1 idx2 : N) : M HeapTimer unit :=
  v1 ← ValidIndex idx1;
  v2 ← ValidIndex idx2;
  assert_ (v1 && v2);;
  if (idx1 =? idx2)%N then mret tt
  else
    swap_nodes idx1 idx2;;
    n1 ← node_at idx1;
    set_index (key n1) idx1;;
    n2 ← node_at idx2;
    set_index (key n2) idx2.

Definition Parent (idx : N) : M HeapTimer (option N) :=
  v ← ValidIndex idx;
  assert_ v;;
  mret (if (idx =? 0)%N then None else Some ((idx - 1) / 2)%N).

Definition SmallChild (idx : N) : M HeapTimer (option N) :=
  v ← ValidIndex idx;
  assert_ v;;
  let left := wadd (wmul idx 2) 1 in
  let right := wadd left 1 in
  vl ← ValidIndex left;
  if vl && (idx <? left)%N then
    vr ← ValidIndex right;
    if vr && (idx <? right)%N then
      nr ← node_at right;
      nl ← node_at left;
      mret (Some (if (expiration nr <? expiration nl)%Z then right else left))
    else mret (Some left)
  else mret None.

(** The loops of [ShiftUp] and [ShiftDown]; the index strictly decreases or
    increases within the deque, so its size bounds the iterations. *)
Fixpoint ShiftUp_loop (fuel : nat) (idx : N) : M HeapTimer unit :=
  match fuel with
  | 0 => out_of_fuel
  | S fuel' =>
      parent ← Parent idx;
      match parent with
      | None => mret tt
      | Some p =>
          assert_ (p <? idx)%N;;
          np ← node_at p;
          ni ← node_at idx;
          if (expiration ni <=? expiration np)%Z
          then Swap p idx;; ShiftUp_loop fuel' p
          else mret tt
      end
  end.

Definition ShiftUp (idx : N) : M HeapTimer unit :=
  v ← ValidIndex idx;
  assert_ v;;
  ShiftUp_loop (S (N.to_nat idx)) idx.

Fixpoint ShiftDown_loop (fuel : nat) (idx : N) : M HeapTimer unit :=
  match fuel with
  | 0 => out_of_fuel
  | S fuel' =>
      child ← SmallChild idx;
      match child with
      | None => mret tt
      | Some c =>
          assert_ (idx <? c)%N;;
          ni ← node_at idx;
          nc ← node_at c;
          if (expiration nc <? expiration ni)%Z
          then Swap c idx;; ShiftDown_loop fuel' c
          else mret tt
      end
  end.

Definition ShiftDown (idx : N) : M HeapTimer unit :=
  v ← ValidIndex idx;
  assert_ v;;
  t ← get;
  ShiftDown_loop (length (nodes_ t)) idx.

(** [key_to_idx_.at(key)] *)
Definition index_at (k : Key) : M HeapTimer N :=
  t ← get;
  match key_to_idx_ t !! k with
  | Some idx => mret idx
  | None => throw out_of_range (s!"_Map_base::at")
  end.

(** The private [Adjust]; an absent [cb] keeps the callback. *)
Definition Adjust_node (k : Key) (exp : Z) (cb : option (option Callback)) :
    M HeapTimer unit :=
  idx ← index_at k;
  match cb with
  | Some c => n ← node_at idx; set_node idx (mkNode (key n) (expiration n) c)
  | None => mret tt
  end;;
  n ← node_at idx;
  let shift_up := (exp <? expiration n)%Z in
  set_node idx (mkNode (key n) exp (callback n));;
  if shift_up then ShiftUp idx else ShiftDown idx.

(** [Adjust(key, time_point)]; the overload with a duration adds
    [Clock::now()], given here as [now]. *)
Definition Adjust (k : Key) (exp : Z) : M HeapTimer unit := Adjust_node k exp None.
Definition Adjust_after (k : Key) (now duration : Z) : M HeapTimer unit :=
  Adjust k (now + duration)%Z.

Definition Push (k : Key) (exp : Z) (cb : option Callback) : M HeapTimer unit :=
  noexcept (
    c ← gets (Contain k);
    if negb c then
      idx ← Size;
      t ← get;
      put (mkTimer (<[k := idx]> (key_to_idx_ t)) (nodes_ t ++ [mkNode k exp cb]));;
      ShiftUp idx
    else Adjust_node k exp (Some cb)).
Definition Push_after (k : Key) (now duration : Z) (cb : option Callback) :
    M HeapTimer unit :=
  Push k (now + duration)%Z cb.

(** [key_to_idx_[k]] of [std::unordered_map]: a missing key is inserted with
    the value 0. *)
Definition index_or_insert (k : Key) : M HeapTimer N :=
  t ← get;
  match key_to_idx_ t !! k with
  | Some idx => mret idx
  | None => set_index k 0;; mret 0%N
  end.

Definition RemoveByIndex (idx : N) : M HeapTimer Key :=
  v ← ValidIndex idx;
  assert_ v;;
  n ← node_at idx;
  let k := key n in
  sz ← Size;
  if (sz =? 1)%N then Clear;; mret k
  else
    set_node idx (mkNode k 0 (callback n));;
    ShiftUp idx;;
    front ← node_at 0;
    assert_ (bool_decide (key front = k));;
    let last := (sz - 1)%N in
    swap_nodes 0 last;;
    front ← node_at 0;
    back ← node_at last;
    i1 ← index_or_insert (key front);
    i2 ← index_or_insert (key back);
    set_index (key front) i2;;
    set_index (key back) i1;;
    modify (λ t, mkTimer (key_to_idx_ t) (take (N.to_nat last) (nodes_ t)));;
    modify (λ t, mkTimer (delete k (key_to_idx_ t)) (nodes_ t));;
    ShiftDown 0;;
    t ← get;
    assert_ (length (nodes_ t) =? size (key_to_idx_ t))%nat;;
    mret k.

Definition Remove (k : Key) : M HeapTimer bool :=
  c ← gets (Contain k);
  if c : bool then
    idx ← index_or_insert k;
    RemoveByIndex idx;;
    mret true
  else mret false.

Definition Pop : M HeapTimer Key :=
  e ← Empty;
  assert_ (negb e);;
  RemoveByIndex 0.
End Operations.

(** ** Operations that run callbacks *)

Section Callbacks.
Context {Key : Type} `{Countable Key} {Callback : Type} {W : Type}.
Abbreviation HeapTimer := (HeapTimer Key Callback).

(** What the timer system does not own: the steady clock, the effect of a
    callback (which may use the timer and may throw), and the logger. *)
Context (now : W → Z * W).
Context (run : Callback → Key → M (HeapTimer * W) unit).
Context (log_error : str → W → W).

Definition on_timer {A} (m : M HeapTimer A) : M (HeapTimer * W) A :=
  zoom fst (λ t s, (t, s.2)) m.

Definition read_clock : M (HeapTimer * W) Z :=
  λ s, let '(v, w) := now s.2 in (Done v, (s.1, w)).

Definition write_log (msg : str) : M (HeapTimer * W) unit :=
  modify (λ s, (s.1, log_error msg s.2)).

(** [Node::Expired] *)
Definition Expired (n : Node Key Callback) : M (HeapTimer * W) bool :=
  v ← read_clock; mret (expiration n <=? v)%Z.

(** [assert(callback); callback(key);] with its exceptions logged. *)
Definition invoke_callback (cb : option Callback) (k : Key) : M (HeapTimer * W) unit :=
  try_catch (c ← deref cb; run c k)
    (λ err, write_log (s!"Exception raised in timer's callback: " ++ what err)).

Definition Tick_body : M (HeapTimer * W) bool :=
  e ← on_timer Empty;
  if e : bool then mret false
  else
    n ← on_timer (node_at 0);
    x ← Expired n;
    if x : bool then
      on_timer Pop;;
      invoke_callback (callback n) (key n);;
      mret true
    else mret false.

Definition Tick (fuel : nat) : M (HeapTimer * W) unit := while_ fuel Tick_body.

Definition ToNextTick (fuel : nat) : M (HeapTimer * W) Z :=
  Tick fuel;;
  e ← on_timer Empty;
  if negb e then
    n ← on_timer (node_at 0);
    v ← read_clock;
    let interval := (expiration n - v)%Z in
    mret (if (0 <? interval)%Z then interval else 0%Z)
  else mret 0%Z.

Definition Invoke (k : Key) : M (HeapTimer * W) unit :=
  idx ← on_timer (index_at k);
  n ← on_timer (node_at idx);
  invoke_callback (callback n) k;;
  on_timer (RemoveByIndex idx);;
  s ← get;
  assert_ (negb (Contain k s.1)).
End Callbacks.

(** * Specification *)

Section Spec.
Context {Key : Type} `{Countable Key} {Callback : Type}.
Abbreviation Node := (Node Key Callback).
Abbreviation HeapTimer := (HeapTimer Key Callback).
Implicit Types (t : HeapTimer).

Definition node_of (t : HeapTimer) (i : N) : option Node := nodes_ t !! N.to_nat i.

(** The expiration time at a position. *)
Definition ex (t : HeapTimer) (i : N) : Z :=
  match node_of t i with Some n => expiration n | None => 0 end.

Definition par (i : N) : N := ((i - 1) / 2)%N.

(** No node expires before its parent. *)
Definition heap (t : HeapTimer) : Prop :=
  ∀ j, (0 < j < len (nodes_ t))%N → (ex t (par j) ≤ ex t j)%Z.

(** The map holds exactly the position of every key. *)
Record linked (t : HeapTimer) : Prop := mk_linked {
  linked_index k i :
    key_to_idx_ t !! k = Some i ↔ ∃ n, node_of t i = Some n ∧ key n = k;
  linked_size : size (key_to_idx_ t) = length (nodes_ t);
  linked_bound : (len (nodes_ t) ≤ max_size)%N
}.

Definition wf (t : HeapTimer) : Prop := linked t ∧ heap t.

(** The steady clock does not run before its epoch, so deadlines are not
    negative. *)
Definition nonneg (t : HeapTimer) : Prop := ∀ n, n ∈ nodes_ t → (0 ≤ expiration n)%Z.

(** The abstract state: a finite map from keys to deadline and callback. *)
Definition entries (t : HeapTimer) : gmap Key (Z * option Callback) :=
  omap (λ i, n ← node_of t i; Some (expiration n, callback n)) (key_to_idx_ t).

(** The heap property except towards the parent of [i], respectively towards
    the children of [i]. *)
Definition heap_up (t : HeapTimer) (i : N) : Prop :=
  (∀ j, (0 < j < len (nodes_ t))%N → j ≠ i → (ex t (par j) ≤ ex t j)%Z) ∧
  (∀ j, (0 < j < len (nodes_ t))%N → par j = i → (0 < i)%N → (ex t (par i) ≤ ex t j)%Z).
Definition heap_down (t : HeapTimer) (i : N) : Prop :=
  (∀ j, (0 < j < len (nodes_ t))%N → par j ≠ i → (ex t (par j) ≤ ex t j)%Z) ∧
  (∀ j, (0 < j < len (nodes_ t))%N → par j = i → (0 < i)%N → (ex t (par i) ≤ ex t j)%Z).

(** The same nodes, in any order. *)
Definition same_nodes (t t' : HeapTimer) : Prop :=
  length (nodes_ t') = length (nodes_ t) ∧ ∀ n, n ∈ nodes_ t' ↔ n ∈ nodes_ t.

Definition swapped (i j : N) (ni nj : Node) (t : HeapTimer) : HeapTimer :=
  mkTimer (<[key ni := j]> (<[key nj := i]> (key_to_idx_ t)))
          (<[N.to_nat j := ni]> (<[N.to_nat i := nj]> (nodes_ t))).
End Spec.

(** * Lemmas *)

Section Lemmas.
Context {Key : Type} `{Countable Key} {Callback : Type}.
Abbreviation Node := (Node Key Callback).
Abbreviation HeapTimer := (HeapTimer Key Callback).
Implicit Types (t : HeapTimer) (n : Node).

Lemma node_of_lt t i n : node_of t i = Some n → (i < len (nodes_ t))%N.
Proof. unfold node_of. intros Hl%lookup_lt_Some. len_lia. Qed.

Lemma node_of_is_Some t i : (i < len (nodes_ t))%N → ∃ n, node_of t i = Some n.
Proof. intros Hl. apply lookup_lt_is_Some_2. len_lia. Qed.

Lemma ex_node t i n : node_of t i = Some n → ex t i = expiration n.
Proof. unfold ex. by intros ->. Qed.

Lemma par_spec i : (0 < i)%N → (i = 2 * par i + 1)%N ∨ (i = 2 * par i + 2)%N.
Proof.
  intros Hi. unfold par. pose proof (N.div_mod (i - 1) 2 ltac:(lia)).
  pose proof (N.mod_lt (i - 1) 2 ltac:(lia)).
  generalize dependent ((i - 1) / 2)%N. generalize dependent ((i - 1) mod 2)%N. lia.
Qed.

Lemma par_lt i : (0 < i)%N → (par i < i)%N.
Proof. intros Hi. pose proof (par_spec i Hi). lia. Qed.

Section Linked.
Context (t : HeapTimer) (Hl : linked t).

Lemma Size_ok : returns Size t (len (nodes_ t)) t.
Proof.
  unfold returns, Size. mstep. rewrite (linked_size t Hl), Nat.eqb_refl. done.
Qed.

Lemma ValidIndex_ok i : returns (ValidIndex i) t (i <? len (nodes_ t))%N t.
Proof. unfold returns, ValidIndex. by mrun Size_ok. Qed.

Lemma Empty_ok : returns Empty t (bool_decide (nodes_ t = [])) t.
Proof.
  unfold returns, Empty. mstep. mrun_by @assert_true ltac:(idtac); [done|].
  apply Bool.eqb_true_iff. apply bool_decide_ext.
  rewrite <-map_size_empty_iff, (linked_size t Hl). by destruct (nodes_ t).
Qed.

Lemma Parent_ok i : (i < len (nodes_ t))%N →
  returns (Parent i) t (if (i =? 0)%N then None else Some (par i)) t.
Proof.
  intros Hi. unfold returns, Parent. mrun (ValidIndex_ok i).
  by rewrite (proj2 (N.ltb_lt _ _) Hi).
Qed.

(** Keys are unique in the deque. *)
Lemma linked_inj i j ni nj :
  node_of t i = Some ni → node_of t j = Some nj → key ni = key nj → i = j.
Proof.
  intros Hi Hj Hk.
  assert (key_to_idx_ t !! key ni = Some i) as H1 by (apply Hl; eauto).
  assert (key_to_idx_ t !! key ni = Some j) as H2 by (apply Hl; rewrite Hk; eauto).
  congruence.
Qed.

Lemma linked_node i n : node_of t i = Some n → key_to_idx_ t !! key n = Some i.
Proof. intros Hn. apply Hl. eauto. Qed.
End Linked.

Lemma node_at_ok t i n : node_of t i = Some n → returns (node_at i) t n t.
Proof. unfold returns, node_at, node_of. mstep. by intros ->. Qed.

Lemma lookup_to_nat {A} (l : list A) (i j : N) x :
  (i < len l)%N →
  <[N.to_nat i := x]> l !! N.to_nat j = if decide (i = j) then Some x else l !! N.to_nat j.
Proof.
  intros Hi. rewrite list_lookup_insert. unfold len in Hi.
  repeat case_decide; try done; lia.
Qed.

Section Swapped.
Context (t : HeapTimer) (Hl : linked t) (i j : N) (ni nj : Node).
Context (Hi : node_of t i = Some ni) (Hj : node_of t j = Some nj) (Hij : i ≠ j).

Lemma node_of_swapped m :
  node_of (swapped i j ni nj t) m =
    if decide (m = j) then Some ni else if decide (m = i) then Some nj else node_of t m.
Proof.
  clear Hij. apply node_of_lt in Hi, Hj. unfold node_of, swapped; simpl.
  rewrite !lookup_to_nat by (rewrite ?len_insert; done).
  repeat case_decide; congruence.
Qed.

Lemma length_swapped : length (nodes_ (swapped i j ni nj t)) = length (nodes_ t).
Proof. unfold swapped; simpl. by rewrite !length_insert. Qed.

Lemma swapped_linked : linked (swapped i j ni nj t).
Proof.
  assert (key ni ≠ key nj) as Hne by (intros ?; apply Hij; eauto using linked_inj).
  split.
  - intros k m. rewrite node_of_swapped. unfold swapped; simpl.
    destruct (decide (m = j)) as [->|Hmj]; [|destruct (decide (m = i)) as [->|Hmi]].
    + split; [|intros (n & [= <-] & <-); apply lookup_insert_eq].
      intros Hk. exists ni. split; [done|]. rewrite !lookup_insert in Hk.
      repeat case_decide; simplify_eq; [done|].
      apply (linked_index t Hl) in Hk as (n & Hn & <-). congruence.
    + split; [|intros (n & [= <-] & <-); by rewrite lookup_insert_ne, lookup_insert_eq].
      intros Hk. exists nj. split; [done|]. rewrite !lookup_insert in Hk.
      repeat case_decide; simplify_eq; [done|].
      apply (linked_index t Hl) in Hk as (n & Hn & <-). congruence.
    + rewrite <-(linked_index t Hl), !lookup_insert.
      pose proof (linked_node t Hl _ _ Hi). pose proof (linked_node t Hl _ _ Hj).
      repeat case_decide; simplify_eq; split; congruence.
  - rewrite length_swapped. unfold swapped; simpl.
    apply (linked_node t Hl) in Hi, Hj.
    rewrite !map_size_insert_Some; [apply Hl|by eexists|].
    rewrite lookup_insert_ne by congruence. by eexists.
  - unfold len. rewrite length_swapped. apply Hl.
Qed.

Lemma ex_swapped m :
  ex (swapped i j ni nj t) m =
    if decide (m = j) then ex t i else if decide (m = i) then ex t j else ex t m.
Proof.
  clear Hij. unfold ex. rewrite node_of_swapped. repeat case_decide; by rewrite ?Hi, ?Hj.
Qed.

Lemma swapped_same : same_nodes t (swapped i j ni nj t).
Proof.
  split; [apply length_swapped|]. intros n.
  assert (∀ t' : HeapTimer, n ∈ nodes_ t' ↔ ∃ m, node_of t' m = Some n) as Hin.
  { intros t'. rewrite list_elem_of_lookup. unfold node_of. split; [intros [m Hm]|naive_solver].
    exists (N.of_nat m). by rewrite Nat2N.id. }
  rewrite !Hin. setoid_rewrite node_of_swapped. split; intros [m Hm].
  - repeat case_decide; simplify_eq; eauto.
  - destruct (decide (m = i)) as [->|]; [exists j; by rewrite decide_True; congruence|].
    destruct (decide (m = j)) as [->|]; [exists i; rewrite decide_False, decide_True; congruence|].
    exists m. by rewrite !decide_False.
Qed.

Lemma swap_nodes_ok :
  returns (swap_nodes i j) t tt
    (mkTimer (key_to_idx_ t) (<[N.to_nat j := ni]> (<[N.to_nat i := nj]> (nodes_ t)))).
Proof.
  unfold returns, swap_nodes. mrun (node_at_ok _ _ _ Hi). mrun (node_at_ok _ _ _ Hj). done.
Qed.

Lemma Swap_ok : returns (Swap i j) t tt (swapped i j ni nj t).
Proof.
  unfold returns, Swap. mrun (ValidIndex_ok t Hl i). mrun (ValidIndex_ok t Hl j).
  rewrite (proj2 (N.ltb_lt _ _) (node_of_lt _ _ _ Hi)), (proj2 (N.ltb_lt _ _) (node_of_lt _ _ _ Hj)).
  mstep. rewrite (proj2 (N.eqb_neq _ _) Hij). mrun swap_nodes_ok.
  pose proof (node_of_swapped i) as H1. pose proof (node_of_swapped j) as H2.
  rewrite decide_False, decide_True in H1 by done. rewrite decide_True in H2 by done.
  unfold node_of, swapped in H1, H2; simpl in H1, H2.
  mrun_by @node_at_ok ltac:(exact H1). unfold set_index. mstep.
  mrun_by @node_at_ok ltac:(exact H2). done.
Qed.
End Swapped.
End Lemmas.

Section Shifting.
Context {Key : Type} `{Countable Key} {Callback : Type}.
Abbreviation HeapTimer := (HeapTimer Key Callback).
Implicit Types (t : HeapTimer).

Lemma same_nodes_refl t : same_nodes t t.
Proof. done. Qed.

Lemma same_nodes_trans t1 t2 t3 : same_nodes t1 t2 → same_nodes t2 t3 → same_nodes t1 t3.
Proof. intros [? E1] [? E2]. split; [congruence|]. intros n. by rewrite E2, E1. Qed.

Lemma same_nodes_len t t' : same_nodes t t' → len (nodes_ t') = len (nodes_ t).
Proof. intros [Hl _]. unfold len. by rewrite Hl. Qed.

(** One exchange with the parent moves the hole of the heap property up. *)
Lemma heap_up_swapped t p i np ni :
  linked t → node_of t p = Some np → node_of t i = Some ni →
  (0 < i)%N → p = par i → (ex t i ≤ ex t p)%Z →
  heap_up t i → heap_up (swapped p i np ni t) p.
Proof.
  intros Hl Hp Hi Hpos -> Hle [Hh1 Hh2]. pose proof (par_lt i Hpos) as Hlt.
  unfold heap_up, len. rewrite length_swapped. fold (len (nodes_ t)).
  setoid_rewrite (ex_swapped t _ _ _ _ Hp Hi). split.
  - intros j Hj Hjp. rewrite (decide_False (P := j = par i)) by done.
    pose proof (par_lt j ltac:(lia)).
    destruct (decide (j = i)) as [->|Hji].
    + rewrite decide_False, decide_True by lia. lia.
    + destruct (decide (par j = i)) as [Hji'|]; [by apply Hh2|].
      destruct (decide (par j = par i)) as [Hpp|]; [|by apply Hh1].
      specialize (Hh1 j Hj Hji). rewrite Hpp in Hh1. lia.
  - intros j Hj Hjp Hp0. pose proof (par_lt (par i) Hp0). pose proof (par_lt j ltac:(lia)).
    rewrite (decide_False (P := par (par i) = i)), (decide_False (P := par (par i) = par i)) by lia.
    assert (ex t (par (par i)) ≤ ex t (par i))%Z as Hg.
    { apply Hh1; [|lia]. apply node_of_lt in Hp. lia. }
    destruct (decide (j = i)) as [->|Hji]; [done|].
    rewrite decide_False by lia. etrans; [exact Hg|]. rewrite <-Hjp. by apply Hh1.
Qed.

Lemma heap_of_up t i :
  heap_up t i → (i = 0%N ∨ ((0 < i)%N ∧ (ex t (par i) ≤ ex t i)%Z)) → heap t.
Proof.
  intros [Hh1 _] Hi j Hj. destruct (decide (j = i)) as [->|]; [|by apply Hh1].
  destruct Hi as [->|[]]; [lia|done].
Qed.

(** Whatever position a node has, its expiration time is one of the deque. *)
Lemma ex_swapped_min t p i np ni z :
  node_of t p = Some np → node_of t i = Some ni →
  (∀ j, (j < len (nodes_ t))%N → (z ≤ ex t j)%Z) →
  ∀ j, (j < len (nodes_ t))%N → (z ≤ ex (swapped p i np ni t) j)%Z.
Proof.
  intros Hp Hi Hmin j Hj. rewrite (ex_swapped t _ _ _ _ Hp Hi).
  apply node_of_lt in Hp, Hi. repeat case_decide; by apply Hmin.
Qed.

Lemma ShiftUp_loop_ok fuel i t :
  linked t → (i < len (nodes_ t))%N → N.to_nat i < fuel → heap_up t i →
  ∃ t', returns (ShiftUp_loop fuel i) t tt t' ∧ wf t' ∧ same_nodes t t' ∧
    ((∀ j, (j < len (nodes_ t))%N → (ex t i ≤ ex t j)%Z) → node_of t' 0 = node_of t i).
Proof.
  revert i t. induction fuel as [|fuel IH]; intros i t Hl Hi Hf Hh; [lia|].
  unfold returns. cbn [ShiftUp_loop]. mrun (Parent_ok t Hl i Hi).
  destruct (N.eqb_spec i 0) as [->|Hnz].
  { exists t. split_and!; [done|split; [done|eapply heap_of_up; eauto]|apply same_nodes_refl|done]. }
  pose proof (par_lt i ltac:(lia)) as Hlt.
  destruct (node_of_is_Some t i Hi) as [ni Hni].
  destruct (node_of_is_Some t (par i)) as [np Hnp]; [lia|].
  mrun_by @assert_true ltac:(by apply N.ltb_lt).
  mrun (node_at_ok _ _ _ Hnp). mrun (node_at_ok _ _ _ Hni).
  destruct (Z.leb_spec (expiration ni) (expiration np)) as [Hle|Hgt].
  - rewrite (bind_done _ _ _ _ _ (Swap_ok t Hl _ _ _ _ Hnp Hni ltac:(lia))).
    assert (ex t i ≤ ex t (par i))%Z as Hex by by rewrite (ex_node _ _ _ Hni), (ex_node _ _ _ Hnp).
    destruct (IH (par i) (swapped (par i) i np ni t)) as (t' & Hr & Hwf & Hs & Hm).
    + apply swapped_linked; auto with lia.
    + unfold len. rewrite length_swapped. unfold len in *. lia.
    + lia.
    + by apply heap_up_swapped; try lia.
    + exists t'. split_and!; [done|done|..].
      * eapply same_nodes_trans; [|done]. apply swapped_same; auto with lia.
      * intros Hmin. rewrite Hm.
        -- rewrite (node_of_swapped t _ _ _ _ Hnp Hni).
           by rewrite decide_False, decide_True by lia.
        -- rewrite (ex_swapped t _ _ _ _ Hnp Hni), decide_False, decide_True by lia.
           unfold len. rewrite length_swapped. by apply ex_swapped_min.
  - exists t. split_and!; [done|split; [done|]|apply same_nodes_refl|].
    + apply (heap_of_up t i Hh). right. rewrite (ex_node _ _ _ Hni), (ex_node _ _ _ Hnp). lia.
    + intros Hmin. specialize (Hmin (par i) ltac:(lia)).
      rewrite (ex_node _ _ _ Hni), (ex_node _ _ _ Hnp) in Hmin. lia.
Qed.

Lemma ShiftUp_ok i t :
  linked t → (i < len (nodes_ t))%N → heap_up t i →
  ∃ t', returns (ShiftUp i) t tt t' ∧ wf t' ∧ same_nodes t t' ∧
    ((∀ j, (j < len (nodes_ t))%N → (ex t i ≤ ex t j)%Z) → node_of t' 0 = node_of t i).
Proof.
  intros Hl Hi Hh. unfold returns, ShiftUp. mrun (ValidIndex_ok t Hl i).
  rewrite (proj2 (N.ltb_lt _ _) Hi). mstep. apply ShiftUp_loop_ok; [done..|lia|done].
Qed.

(** The smaller child, when there is one. *)
Lemma SmallChild_ok i t :
  linked t → (i < len (nodes_ t))%N →
  ∃ c, returns (SmallChild i) t c t ∧
    match c with
    | None => ∀ j, (0 < j < len (nodes_ t))%N → par j ≠ i
    | Some c => (0 < c < len (nodes_ t))%N ∧ par c = i ∧
        ∀ j, (0 < j < len (nodes_ t))%N → par j = i → (ex t c ≤ ex t j)%Z
    end.
Proof.
  intros Hl Hi. pose proof (linked_bound t Hl) as Hb. pose proof max_size_word as Hmw.
  unfold returns, SmallChild. mrun (ValidIndex_ok t Hl i).
  rewrite (proj2 (N.ltb_lt _ _) Hi). mstep. cbv zeta.
  rewrite (wmul_small i 2), (wadd_small (i * 2) 1) by lia.
  mrun (ValidIndex_ok t Hl (i * 2 + 1)%N).
  rewrite (proj2 (N.ltb_lt i (i * 2 + 1)) ltac:(lia)), andb_true_r.
  destruct (N.ltb_spec (i * 2 + 1) (len (nodes_ t))) as [Hleft|Hleft].
  2: { exists None. split; [done|]. intros j Hj Hp. pose proof (par_spec j). lia. }
  assert (par (i * 2 + 1) = i)%N as Hpl by (pose proof (par_spec (i * 2 + 1)); lia).
  rewrite (wadd_small (i * 2 + 1) 1) by lia.
  mrun (ValidIndex_ok t Hl (i * 2 + 1 + 1)%N).
  rewrite (proj2 (N.ltb_lt i (i * 2 + 1 + 1)) ltac:(lia)), andb_true_r.
  assert (∀ j, (0 < j)%N → par j = i → j = i * 2 + 1 ∨ j = i * 2 + 1 + 1)%N as Hch.
  { intros j Hj Hp. pose proof (par_spec j). lia. }
  destruct (N.ltb_spec (i * 2 + 1 + 1) (len (nodes_ t))) as [Hright|Hright].
  2: { eexists. split; [done|]. split_and!; [lia|done|done|].
       intros j Hj Hp. destruct (Hch j) as [->| ->]; [lia|done|done|lia]. }
  assert (par (i * 2 + 1 + 1) = i)%N as Hpr by (pose proof (par_spec (i * 2 + 1 + 1)); lia).
  destruct (node_of_is_Some t _ Hright) as [nr Hnr]. destruct (node_of_is_Some t _ Hleft) as [nl Hnl].
  mrun (node_at_ok _ _ _ Hnr). mrun (node_at_ok _ _ _ Hnl).
  apply ex_node in Hnr, Hnl. eexists. split; [done|].
  destruct (Z.ltb_spec (expiration nr) (expiration nl)).
  all: split_and!; [lia|done|done|].
  all: intros j Hj Hp; destruct (Hch j) as [->| ->]; [lia|done|lia..].
Qed.

Lemma heap_down_swapped t c i nc ni :
  linked t → node_of t c = Some nc → node_of t i = Some ni →
  (0 < c)%N → par c = i → (ex t c < ex t i)%Z →
  (∀ j, (0 < j < len (nodes_ t))%N → par j = i → (ex t c ≤ ex t j)%Z) →
  heap_down t i → heap_down (swapped c i nc ni t) c.
Proof.
  intros Hl Hc Hi Hpos <- Hlt' Hmin [Hh1 Hh2]. pose proof (par_lt c Hpos) as Hlt.
  unfold heap_down, len. rewrite length_swapped. fold (len (nodes_ t)).
  setoid_rewrite (ex_swapped t _ _ _ _ Hc Hi). apply node_of_lt in Hc, Hi. split.
  - intros j Hj Hjp. pose proof (par_lt j ltac:(lia)).
    destruct (decide (par j = par c)) as [Hjc|Hjc].
    + rewrite (decide_False (P := j = par c)) by lia.
      destruct (decide (j = c)) as [->|]; [lia|]. by apply Hmin.
    + rewrite decide_False by done.
      destruct (decide (j = par c)) as [->|]; [by apply Hh2; try lia|].
      rewrite decide_False by (intros ->; done). by apply Hh1.
  - intros j Hj Hjp _. pose proof (par_lt j ltac:(lia)).
    rewrite (decide_True (P := par c = par c)), (decide_False (P := j = par c)),
      (decide_False (P := j = c)) by (done || lia).
    rewrite <-Hjp at 1. apply Hh1; [done|]. lia.
Qed.

Lemma heap_of_down t i :
  heap_down t i → (∀ j, (0 < j < len (nodes_ t))%N → par j = i → (ex t i ≤ ex t j)%Z) → heap t.
Proof.
  intros [Hh1 _] Hi j Hj. destruct (decide (par j = i)) as [<-|]; [by apply Hi|by apply Hh1].
Qed.

Lemma ShiftDown_loop_ok fuel i t :
  linked t → (i < len (nodes_ t))%N → length (nodes_ t) ≤ N.to_nat i + fuel → heap_down t i →
  ∃ t', returns (ShiftDown_loop fuel i) t tt t' ∧ wf t' ∧ same_nodes t t'.
Proof.
  revert i t. induction fuel as [|fuel IH]; intros i t Hl Hi Hf Hh; [len_lia|].
  unfold returns. cbn [ShiftDown_loop].
  destruct (SmallChild_ok i t Hl Hi) as (c & Hr & Hc). mrun Hr.
  destruct c as [c|].
  2: { exists t. split_and!; [done|split; [done|]|done]. apply (heap_of_down t i Hh).
       intros j Hj Hp. by destruct (Hc j Hj). }
  destruct Hc as (Hcl & Hp & Hmin). pose proof (par_lt c ltac:(lia)) as Hlt.
  destruct (node_of_is_Some t i Hi) as [ni Hni].
  destruct (node_of_is_Some t c) as [nc Hnc]; [lia|].
  mrun_by @assert_true ltac:(apply N.ltb_lt; lia).
  mrun (node_at_ok _ _ _ Hni). mrun (node_at_ok _ _ _ Hnc).
  pose proof (ex_node _ _ _ Hni) as Ei. pose proof (ex_node _ _ _ Hnc) as Ec.
  destruct (Z.ltb_spec (expiration nc) (expiration ni)) as [Hle|Hgt].
  - rewrite (bind_done _ _ _ _ _ (Swap_ok t Hl _ _ _ _ Hnc Hni ltac:(lia))).
    destruct (IH c (swapped c i nc ni t)) as (t' & Hr' & Hwf & Hs).
    + apply swapped_linked; auto with lia.
    + unfold len. rewrite length_swapped. fold (len (nodes_ t)). lia.
    + rewrite length_swapped. lia.
    + apply heap_down_swapped; try done; lia.
    + exists t'. split_and!; [done|done|].
      eapply same_nodes_trans; [|done]. apply swapped_same; [done|done|lia].
  - exists t. split_and!; [done|split; [done|]|done]. apply (heap_of_down t i Hh).
    intros j Hj Hpj. specialize (Hmin j Hj Hpj). lia.
Qed.

Lemma ShiftDown_ok i t :
  linked t → (i < len (nodes_ t))%N → heap_down t i →
  ∃ t', returns (ShiftDown i) t tt t' ∧ wf t' ∧ same_nodes t t'.
Proof.
  intros Hl Hi Hh. unfold returns, ShiftDown. mrun (ValidIndex_ok t Hl i).
  rewrite (proj2 (N.ltb_lt _ _) Hi). do 2 mstep. apply ShiftDown_loop_ok; [done..|lia|done].
Qed.
End Shifting.

Section Entries.
Context {Key : Type} `{Countable Key} {Callback : Type}.
Abbreviation HeapTimer := (HeapTimer Key Callback).
Abbreviation Node := (Node Key Callback).
Implicit Types (t : HeapTimer) (n : Node).

Lemma in_nodes t n : n ∈ nodes_ t ↔ ∃ i, node_of t i = Some n.
Proof.
  rewrite list_elem_of_lookup. unfold node_of. split; [intros [m Hm]|naive_solver].
  exists (N.of_nat m). by rewrite Nat2N.id.
Qed.

Lemma entries_Some t k e c : linked t → entries t !! k = Some (e, c) ↔ mkNode k e c ∈ nodes_ t.
Proof.
  intros Hl. unfold entries. rewrite lookup_omap, in_nodes. split.
  - destruct (key_to_idx_ t !! k) as [i|] eqn:Hk; [|done]. simpl.
    apply (linked_index t Hl) in Hk as (n & Hn & <-). rewrite Hn. simpl. intros [= <- <-].
    exists i. by destruct n.
  - intros [i Hi]. pose proof (linked_node t Hl _ _ Hi) as Hk. simpl in Hk.
    rewrite Hk. simpl. by rewrite Hi.
Qed.

Lemma entries_None t k : linked t → entries t !! k = None ↔ key_to_idx_ t !! k = None.
Proof.
  intros Hl. unfold entries. rewrite lookup_omap.
  destruct (key_to_idx_ t !! k) as [i|] eqn:Hk; [|done]. simpl.
  apply (linked_index t Hl) in Hk as (n & -> & <-). by split.
Qed.

Lemma entries_ext t (m : gmap Key (Z * option Callback)) :
  linked t → (∀ k e c, mkNode k e c ∈ nodes_ t ↔ m !! k = Some (e, c)) → entries t = m.
Proof.
  intros Hl Hm. apply map_eq. intros k. apply option_eq. intros [e c].
  rewrite entries_Some by done. apply Hm.
Qed.

Lemma entries_same t t' : linked t → linked t' → same_nodes t t' → entries t' = entries t.
Proof.
  intros Hl Hl' [_ Hs]. apply entries_ext; [done|]. intros k e c.
  by rewrite Hs, entries_Some.
Qed.

Lemma nonneg_same t t' : same_nodes t t' → nonneg t → nonneg t'.
Proof. intros [_ Hs] Hn n Hin. apply Hn. by apply Hs. Qed.

Lemma nonneg_ex t j : nonneg t → (0 ≤ ex t j)%Z.
Proof.
  intros Hn. unfold ex. destruct (node_of t j) as [n|] eqn:Hj; [|done].
  apply Hn, in_nodes. eauto.
Qed.

Lemma nonneg_entries t : linked t →
  nonneg t ↔ map_Forall (λ _ v, (0 ≤ v.1)%Z) (entries t).
Proof.
  intros Hl. split.
  - intros Hn k [e c] Hk. apply entries_Some in Hk; [|done]. by apply (Hn _ Hk).
  - intros Hm [k e c] Hin. apply entries_Some in Hin; [|done]. exact (Hm _ _ Hin).
Qed.

Lemma Contain_entries t k : linked t → Contain k t = bool_decide (is_Some (entries t !! k)).
Proof.
  intros Hl. unfold Contain. apply bool_decide_ext.
  rewrite <-!not_eq_None_Some, entries_None; done.
Qed.

Lemma size_entries t : linked t → size (entries t) = length (nodes_ t).
Proof.
  intros Hl. rewrite <-(linked_size t Hl). unfold entries.
  rewrite <-!size_dom. f_equal. apply set_eq. intros k.
  rewrite !elem_of_dom, <-!not_eq_None_Some. by rewrite (entries_None t k Hl).
Qed.

(** ** Replacing a node in place *)

Definition replaced_at (i : N) (n : Node) (t : HeapTimer) : HeapTimer :=
  mkTimer (key_to_idx_ t) (<[N.to_nat i := n]> (nodes_ t)).

Section ReplacedAt.
Context (t : HeapTimer) (Hl : linked t) (i : N) (n n' : Node).
Context (Hi : node_of t i = Some n) (Hk : key n' = key n).

Lemma node_of_replaced j :
  node_of (replaced_at i n' t) j = if decide (i = j) then Some n' else node_of t j.
Proof. clear Hk. apply node_of_lt in Hi. unfold node_of; simpl. by apply lookup_to_nat. Qed.

Lemma ex_replaced j :
  ex (replaced_at i n' t) j = if decide (i = j) then expiration n' else ex t j.
Proof. clear Hk. unfold ex. rewrite node_of_replaced. by case_decide. Qed.

Lemma len_replaced : len (nodes_ (replaced_at i n' t)) = len (nodes_ t).
Proof. apply len_insert. Qed.

Lemma replaced_linked : linked (replaced_at i n' t).
Proof.
  split.
  - intros k j. simpl. rewrite (linked_index t Hl), node_of_replaced.
    case_decide; [subst|done]. split; intros (m & Hm & <-); simplify_eq; eauto.
  - simpl. rewrite length_insert. apply Hl.
  - rewrite len_replaced. apply Hl.
Qed.

Lemma entries_replaced :
  entries (replaced_at i n' t) = <[key n := (expiration n', callback n')]> (entries t).
Proof.
  apply entries_ext; [apply replaced_linked|]. intros k e c.
  rewrite in_nodes. setoid_rewrite node_of_replaced.
  rewrite lookup_insert. case_decide as Hkn; split.
  - intros [j Hj]. case_decide; simplify_eq/=; [done|].
    by pose proof (linked_inj t Hl _ _ _ _ Hi Hj eq_refl).
  - intros [= <- <-]. exists i. rewrite decide_True by done. f_equal.
    destruct n'; simpl in *; congruence.
  - intros [j Hj]. apply entries_Some; [done|]. apply in_nodes.
    case_decide; [simplify_eq/=; congruence|eauto].
  - intros Hs. apply entries_Some, in_nodes in Hs as [j Hj]; [|done].
    exists j. rewrite decide_False; [done|]. intros ->. by simplify_eq/=.
Qed.

Lemma heap_up_replaced : heap t → (expiration n' ≤ expiration n)%Z →
  heap_up (replaced_at i n' t) i.
Proof.
  intros Hh Hle. rewrite <-(ex_node _ _ _ Hi) in Hle.
  unfold heap_up. rewrite len_replaced. setoid_rewrite ex_replaced. split.
  - intros j Hj Hji. rewrite (decide_False (P := i = j)) by done.
    case_decide as Hp; [|by apply Hh]. specialize (Hh j Hj). rewrite <-Hp in Hh. lia.
  - intros j Hj <- Hp. pose proof (par_lt (par j) Hp). pose proof (par_lt j ltac:(lia)).
    rewrite !decide_False by lia. etrans; [apply Hh|by apply Hh]. lia.
Qed.

Lemma heap_down_replaced : heap t → (expiration n ≤ expiration n')%Z →
  heap_down (replaced_at i n' t) i.
Proof.
  intros Hh Hle. rewrite <-(ex_node _ _ _ Hi) in Hle.
  unfold heap_down. rewrite len_replaced. setoid_rewrite ex_replaced. split.
  - intros j Hj Hp. rewrite (decide_False (P := i = par j)) by done.
    case_decide as Hij; [|by apply Hh]. specialize (Hh j Hj). subst. lia.
  - intros j Hj <- Hp. pose proof (par_lt (par j) Hp). pose proof (par_lt j ltac:(lia)).
    rewrite !decide_False by lia. etrans; [apply Hh|by apply Hh]. lia.
Qed.
End ReplacedAt.

(** ** Appending a node *)

Definition appended (n : Node) (t : HeapTimer) : HeapTimer :=
  mkTimer (<[key n := len (nodes_ t)]> (key_to_idx_ t)) (nodes_ t ++ [n]).

Section Appended.
Context (t : HeapTimer) (Hl : linked t) (n : Node).
Context (Hk : key_to_idx_ t !! key n = None) (Hroom : (len (nodes_ t) < max_size)%N).

Lemma node_of_appended j :
  node_of (appended n t) j = if decide (j = len (nodes_ t)) then Some n else node_of t j.
Proof.
  clear. unfold node_of; simpl. case_decide as Hj.
  - subst. unfold len. by rewrite Nat2N.id, list_lookup_middle.
  - destruct (decide (N.to_nat j < length (nodes_ t))).
    + by rewrite lookup_app_l.
    + rewrite !lookup_ge_None_2; [done|lia|]. rewrite length_app; simpl. unfold len in Hj. lia.
Qed.

Lemma len_appended : len (nodes_ (appended n t)) = (len (nodes_ t) + 1)%N.
Proof. clear. simpl. rewrite len_app. done. Qed.

Lemma appended_linked : linked (appended n t).
Proof.
  split.
  - intros k j. rewrite node_of_appended. simpl. rewrite lookup_insert.
    destruct (decide (key n = k)) as [<-|Hkn]; split.
    + intros [= <-]. exists n. by rewrite decide_True.
    + intros (m & Hm & Hkm). case_decide; [congruence|].
      apply (linked_node t Hl) in Hm. congruence.
    + intros Hj. apply (linked_index t Hl) in Hj as (m & Hm & <-). exists m.
      rewrite decide_False; [done|]. apply node_of_lt in Hm. lia.
    + intros (m & Hm & <-). case_decide; [congruence|]. by apply (linked_node t Hl).
  - simpl. rewrite map_size_insert_None, length_app by done. simpl.
    rewrite (linked_size t Hl). lia.
  - rewrite len_appended. lia.
Qed.

Lemma entries_appended :
  entries (appended n t) = <[key n := (expiration n, callback n)]> (entries t).
Proof.
  apply entries_ext; [apply appended_linked|]. intros k e c. simpl.
  rewrite elem_of_app, list_elem_of_singleton, lookup_insert, <-entries_Some by done.
  case_decide as Hkn; [subst k|].
  - rewrite (proj2 (entries_None t _ Hl)) by done. destruct n; naive_solver.
  - split; [intros [?|Hn]; [done|subst n; done]|eauto].
Qed.

Lemma heap_up_appended : heap t → heap_up (appended n t) (len (nodes_ t)).
Proof.
  intros Hh.
  assert (∀ j, (j < len (nodes_ t))%N → ex (appended n t) j = ex t j) as Hex.
  { intros j Hj. unfold ex. rewrite node_of_appended, decide_False; [done|lia]. }
  unfold heap_up. rewrite len_appended. split; intros j Hj.
  - intros Hne. pose proof (par_lt j ltac:(lia)). rewrite !Hex by lia. apply Hh. lia.
  - intros Hp. pose proof (par_lt j ltac:(lia)). lia.
Qed.
End Appended.

(** ** Dropping the last node *)

Definition popped (n : Node) (t : HeapTimer) : HeapTimer :=
  mkTimer (delete (key n) (key_to_idx_ t)) (take (N.to_nat (len (nodes_ t) - 1)) (nodes_ t)).

Section Popped.
Context (t : HeapTimer) (Hl : linked t) (n : Node).
Context (Hlast : node_of t (len (nodes_ t) - 1) = Some n).

Lemma node_of_popped j :
  node_of (popped n t) j = if decide (j < len (nodes_ t) - 1)%N then node_of t j else None.
Proof.
  clear. unfold node_of; simpl. case_decide.
  - rewrite lookup_take_lt; [done|lia].
  - rewrite lookup_take_ge; [done|lia].
Qed.

Lemma len_popped : len (nodes_ (popped n t)) = (len (nodes_ t) - 1)%N.
Proof. clear. simpl. unfold len. rewrite length_take. lia. Qed.

Lemma popped_linked : linked (popped n t).
Proof.
  pose proof (node_of_lt _ _ _ Hlast) as Hlt. split.
  - intros k j. rewrite node_of_popped. simpl. rewrite lookup_delete.
    destruct (decide (key n = k)) as [<-|Hkn]; split; [done|..].
    + intros (m & Hm & Hkm). case_decide; [|done].
      pose proof (linked_inj t Hl _ _ _ _ Hm Hlast Hkm). lia.
    + intros Hj. apply (linked_index t Hl) in Hj as (m & Hm & <-). exists m.
      rewrite decide_True; [done|]. pose proof (node_of_lt _ _ _ Hm).
      destruct (decide (j = len (nodes_ t) - 1)%N) as [->|]; [congruence|lia].
    + intros (m & Hm & <-). case_decide; [|done]. by apply (linked_node t Hl).
  - simpl. rewrite map_size_delete, length_take, (linked_node t Hl _ _ Hlast), (linked_size t Hl).
    unfold len in *. lia.
  - rewrite len_popped. pose proof (linked_bound t Hl). lia.
Qed.

Lemma entries_popped : entries (popped n t) = delete (key n) (entries t).
Proof.
  apply entries_ext; [apply popped_linked|]. intros k e c.
  rewrite in_nodes, lookup_delete. setoid_rewrite node_of_popped.
  destruct (decide (key n = k)) as [<-|Hkn]; split; [|done|..].
  - intros [j Hj]. case_decide; [|done].
    pose proof (linked_inj t Hl _ _ _ _ Hj Hlast eq_refl). lia.
  - intros [j Hj]. case_decide; [|done]. apply entries_Some, in_nodes; eauto.
  - intros Hs. apply entries_Some, in_nodes in Hs as [j Hj]; [|done]. exists j.
    rewrite decide_True; [done|]. pose proof (node_of_lt _ _ _ Hj).
    destruct (decide (j = len (nodes_ t) - 1)%N) as [->|]; [by simplify_eq/=|lia].
Qed.

Lemma ex_popped j : (j < len (nodes_ t) - 1)%N → ex (popped n t) j = ex t j.
Proof. clear. intros Hj. unfold ex. by rewrite node_of_popped, decide_True. Qed.
End Popped.
End Entries.

Section Results.
Context {Key : Type} `{Countable Key} {Callback : Type}.
Abbreviation HeapTimer := (HeapTimer Key Callback).
Abbreviation Node := (Node Key Callback).
Implicit Types (t : HeapTimer) (n : Node).

Lemma entries_find t k e c :
  linked t → entries t !! k = Some (e, c) →
  ∃ i n, key_to_idx_ t !! k = Some i ∧ node_of t i = Some n ∧ n = mkNode k e c.
Proof.
  intros Hl Hk. apply entries_Some, in_nodes in Hk as [i Hi]; [|done].
  exists i, (mkNode k e c). split_and!; [|done|done]. apply (linked_node t Hl _ _ Hi).
Qed.

Lemma set_node_ok t i n : returns (set_node i n) t tt (replaced_at i n t).
Proof. done. Qed.

Lemma index_at_ok t k i : key_to_idx_ t !! k = Some i → returns (index_at k) t i t.
Proof. intros Hk. unfold returns, index_at. mstep. by rewrite Hk. Qed.

Lemma replaced_replaced t i n1 n2 :
  replaced_at i n2 (replaced_at i n1 t) = replaced_at i n2 t.
Proof. unfold replaced_at; simpl. by rewrite list_insert_insert_eq. Qed.

(** After a node's deadline has changed, the shift in the right direction
    restores the heap. *)
Lemma shift_replaced t i n n' :
  wf t → node_of t i = Some n → key n' = key n →
  ∃ t', returns (if (expiration n' <? expiration n)%Z then ShiftUp i else ShiftDown i)
          (replaced_at i n' t) tt t' ∧ wf t' ∧
    entries t' = <[key n := (expiration n', callback n')]> (entries t).
Proof.
  intros [Hl Hh] Hi Hk. pose proof (node_of_lt _ _ _ Hi) as Hlt.
  pose proof (replaced_linked t Hl i n n' Hi Hk) as Hl'.
  rewrite <-(entries_replaced t Hl i n n' Hi Hk).
  destruct (Z.ltb_spec (expiration n') (expiration n)).
  - destruct (ShiftUp_ok i (replaced_at i n' t)) as (t' & Hr & Hwf & Hs & _); try done.
    + by rewrite len_replaced.
    + eapply heap_up_replaced; eauto. lia.
    + exists t'. split_and!; try done. apply entries_same; [done|apply Hwf|done].
  - destruct (ShiftDown_ok i (replaced_at i n' t)) as (t' & Hr & Hwf & Hs); try done.
    + by rewrite len_replaced.
    + eapply heap_down_replaced; eauto.
    + exists t'. split_and!; try done. apply entries_same; [done|apply Hwf|done].
Qed.

Lemma Adjust_node_ok t k e cb e0 c0 :
  wf t → entries t !! k = Some (e0, c0) →
  ∃ t', returns (Adjust_node k e cb) t tt t' ∧ wf t' ∧
    entries t' = <[k := (e, default c0 cb)]> (entries t).
Proof.
  intros Hwf Hk. pose proof Hwf as [Hl Hh].
  destruct (entries_find t k e0 c0 Hl Hk) as (i & n & Hidx & Hi & Hn).
  set (c := default c0 cb).
  destruct (shift_replaced t i n (mkNode k e c) Hwf Hi) as (t' & Hr & Hwf' & He); [by subst n|].
  subst n; simpl in *. exists t'. split_and!; try done.
  unfold returns, Adjust_node. mrun (index_at_ok t k i Hidx). destruct cb as [c1|]; simpl in c.
  - rewrite (bind_done _ _ t tt (replaced_at i (mkNode k e0 c) t)).
    2: { mrun (node_at_ok t i _ Hi). apply set_node_ok. }
    mrun_by @node_at_ok ltac:(by rewrite node_of_replaced with (n := mkNode k e0 c0), decide_True).
    mrun (set_node_ok (replaced_at i (mkNode k e0 c) t) i (mkNode k e c)).
    rewrite replaced_replaced. exact Hr.
  - mstep. mrun (node_at_ok t i _ Hi). mrun (set_node_ok t i (mkNode k e c)). exact Hr.
Qed.

Lemma Push_ok t k e cb :
  wf t → (len (nodes_ t) < max_size)%N →
  ∃ t', returns (Push k e cb) t tt t' ∧ wf t' ∧ entries t' = <[k := (e, cb)]> (entries t).
Proof.
  intros Hwf Hroom. pose proof Hwf as [Hl Hh].
  unfold returns, Push, noexcept. mstep. rewrite Contain_entries by done.
  destruct (entries t !! k) as [[e0 c0]|] eqn:Hk.
  - rewrite bool_decide_eq_true_2 by by eexists. simpl.
    destruct (Adjust_node_ok t k e (Some cb) e0 c0 Hwf Hk) as (t' & Hr & Hwf' & He).
    exists t'. by rewrite Hr.
  - rewrite bool_decide_eq_false_2 by (by intros []). simpl.
    apply entries_None in Hk; [|done].
    pose proof (appended_linked t Hl (mkNode k e cb) Hk Hroom) as Hl'.
    mrun (Size_ok t Hl). do 2 mstep. fold (appended (mkNode k e cb) t).
    destruct (ShiftUp_ok (len (nodes_ t)) (appended (mkNode k e cb) t)) as (t' & Hr & Hwf' & Hs & _).
    + done.
    + rewrite len_appended. lia.
    + by apply heap_up_appended.
    + exists t'. change (mkTimer _ _) with (appended (mkNode k e cb) t). rewrite Hr.
      split_and!; try done.
      rewrite (entries_same _ _ Hl' (proj1 Hwf') Hs). by apply (entries_appended t Hl (mkNode k e cb)).
Qed.

Lemma index_or_insert_ok t k i : key_to_idx_ t !! k = Some i → returns (index_or_insert k) t i t.
Proof. intros Hk. unfold returns, index_or_insert. mstep. by rewrite Hk. Qed.

(** The root, once the last node has replaced it, is the only node that may be
    out of order. *)
Lemma heap_down_popped t n0 nl n :
  linked t → heap t → node_of t 0 = Some n0 → node_of t (len (nodes_ t) - 1) = Some nl →
  (1 < len (nodes_ t))%N →
  heap_down (popped n (swapped 0 (len (nodes_ t) - 1) n0 nl t)) 0.
Proof.
  intros Hl Hh H0 Hlast Hlen.
  assert (∀ j, (0 < j < len (nodes_ t) - 1)%N →
    ex (popped n (swapped 0 (len (nodes_ t) - 1) n0 nl t)) j = ex t j) as Hex.
  { intros j Hj. rewrite ex_popped.
    - rewrite (ex_swapped t _ _ _ _ H0 Hlast), !decide_False by lia. done.
    - unfold len. rewrite length_swapped. fold (len (nodes_ t)). lia. }
  unfold heap_down. rewrite len_popped. unfold len at 1 3. rewrite length_swapped.
  fold (len (nodes_ t)). split; intros j Hj; [|lia].
  intros Hp. pose proof (par_lt j ltac:(lia)). rewrite !Hex by lia. apply Hh. lia.
Qed.

(** The first half of [RemoveByIndex]: the node, given the least deadline, is
    lifted to the root. *)
Lemma lift_to_root t i n :
  wf t → nonneg t → node_of t i = Some n →
  let n' := mkNode (key n) 0 (callback n) in
  ∃ t', returns (ShiftUp i) (replaced_at i n' t) tt t' ∧ wf t' ∧
    same_nodes (replaced_at i n' t) t' ∧ node_of t' 0 = Some n'.
Proof.
  intros [Hl Hh] Hnn Hi n'. pose proof (node_of_lt _ _ _ Hi) as Hlt.
  destruct (ShiftUp_ok i (replaced_at i n' t)) as (t' & Hr & Hwf & Hs & Hfront).
  - by eapply replaced_linked.
  - by rewrite len_replaced.
  - eapply heap_up_replaced; eauto. simpl. apply Hnn, in_nodes. eauto.
  - exists t'. split_and!; try done. rewrite Hfront.
    + by rewrite (node_of_replaced t _ n), decide_True.
    + intros j Hj. rewrite !(ex_replaced t _ n) by done. rewrite decide_True by done. simpl.
      case_decide; [done|]. by apply nonneg_ex.
Qed.

(** The second half: the root changes places with the last node and is dropped,
    and the new root sinks. *)
Lemma drop_root t n0 nl :
  wf t → (1 < len (nodes_ t))%N →
  node_of t 0 = Some n0 → node_of t (len (nodes_ t) - 1) = Some nl →
  ∃ t', returns (ShiftDown 0) (popped n0 (swapped 0 (len (nodes_ t) - 1) n0 nl t)) tt t' ∧
    wf t' ∧ entries t' = delete (key n0) (entries t).
Proof.
  intros [Hl Hh] Hlen H0 Hlast.
  assert (0%N ≠ (len (nodes_ t) - 1)%N) as H0l by lia.
  pose proof (swapped_linked t Hl _ _ _ _ H0 Hlast H0l) as Hl3.
  set (t3 := swapped 0 (len (nodes_ t) - 1) n0 nl t) in *.
  assert (len (nodes_ t3) = len (nodes_ t)) as Hlen3 by (unfold len, t3; by rewrite length_swapped).
  assert (node_of t3 (len (nodes_ t3) - 1) = Some n0) as H3l.
  { rewrite Hlen3. unfold t3. rewrite (node_of_swapped t _ _ _ _ H0 Hlast). by rewrite decide_True. }
  destruct (ShiftDown_ok 0 (popped n0 t3)) as (t' & Hr & Hwf & Hs).
  - by apply popped_linked.
  - rewrite len_popped. lia.
  - by apply heap_down_popped.
  - exists t'. split_and!; try done.
    rewrite (entries_same _ _ (popped_linked t3 Hl3 n0 H3l) (proj1 Hwf) Hs).
    rewrite (entries_popped t3 Hl3 n0 H3l), (entries_same t t3 Hl Hl3); [done|].
    by apply swapped_same.
Qed.

Lemma Timer_empty_wf : wf (Timer_empty : HeapTimer).
Proof.
  split; [split|].
  - intros k j. simpl. rewrite lookup_empty. by split; [|intros (? & ? & ?)].
  - simpl. apply map_size_empty.
  - done.
  - intros j Hj. unfold len in Hj; simpl in Hj. lia.
Qed.

Lemma entries_single t n :
  linked t → len (nodes_ t) = 1%N → node_of t 0 = Some n → delete (key n) (entries t) = ∅.
Proof.
  intros Hl H1 H0. apply map_eq. intros k. rewrite lookup_delete, lookup_empty.
  case_decide as Hk; [done|]. apply eq_None_not_Some. intros [[e c] Hs].
  apply entries_Some, in_nodes in Hs as [j Hj]; [|done].
  pose proof (node_of_lt _ _ _ Hj). assert (j = 0%N) as -> by lia. by simplify_eq/=.
Qed.

Lemma RemoveByIndex_ok t i n :
  wf t → nonneg t → node_of t i = Some n →
  ∃ t', returns (RemoveByIndex i) t (key n) t' ∧ wf t' ∧
    entries t' = delete (key n) (entries t).
Proof.
  intros Hwf Hnn Hi. pose proof Hwf as [Hl Hh]. pose proof (node_of_lt _ _ _ Hi) as Hlt.
  unfold returns, RemoveByIndex. mrun (ValidIndex_ok t Hl i).
  rewrite (proj2 (N.ltb_lt _ _) Hlt). mstep. mrun (node_at_ok _ _ _ Hi). cbv zeta.
  mrun (Size_ok t Hl). destruct (N.eqb_spec (len (nodes_ t)) 1) as [H1|H1].
  { exists Timer_empty. split_and!; [done|apply Timer_empty_wf|].
    assert (i = 0%N) as -> by lia. by rewrite entries_single. }
  set (n' := mkNode (key n) 0 (callback n)). mrun (set_node_ok t i n').
  destruct (lift_to_root t i n Hwf Hnn Hi) as (t2 & Hr2 & Hwf2 & Hs2 & H20).
  fold n' in Hr2, Hs2, H20. mrun Hr2. pose proof Hwf2 as [Hl2 Hh2].
  mrun (node_at_ok _ _ _ H20). simpl. rewrite bool_decide_eq_true_2 by done. mstep.
  pose proof (same_nodes_len _ _ Hs2) as Hlen. rewrite len_replaced in Hlen. rewrite <-Hlen in *.
  destruct (node_of_is_Some t2 (len (nodes_ t2) - 1)) as [nl Hnl]; [lia|].
  assert (0%N ≠ (len (nodes_ t2) - 1)%N) as H0l by lia.
  mrun (swap_nodes_ok t2 _ _ _ _ H20 Hnl).
  pose proof (node_of_swapped t2 _ _ _ _ H20 Hnl 0) as Hs0.
  pose proof (node_of_swapped t2 _ _ _ _ H20 Hnl (len (nodes_ t2) - 1)) as Hsl.
  rewrite decide_False, decide_True in Hs0 by done. rewrite decide_True in Hsl by done.
  unfold node_of, swapped in Hs0, Hsl; simpl in Hs0, Hsl.
  mrun_by @node_at_ok ltac:(exact Hs0). mrun_by @node_at_ok ltac:(exact Hsl).
  mrun_by @index_or_insert_ok ltac:(simpl; apply (linked_node t2 Hl2 _ _ Hnl)).
  mrun_by @index_or_insert_ok ltac:(simpl; apply (linked_node t2 Hl2 _ _ H20)).
  unfold set_index. do 4 mstep.
  destruct (drop_root t2 n' nl Hwf2 ltac:(lia) H20 Hnl) as (t3 & Hr3 & Hwf3 & He3).
  unfold popped in Hr3. unfold len at 2 in Hr3. rewrite length_swapped in Hr3.
  mrun Hr3. mstep. rewrite (linked_size t3 (proj1 Hwf3)), Nat.eqb_refl. mstep.
  exists t3. split_and!; [done|done|]. rewrite He3.
  pose proof (replaced_linked t Hl i n n' Hi eq_refl) as Hl1.
  rewrite (entries_same _ t2 Hl1 Hl2 Hs2), (entries_replaced t Hl i n n' Hi eq_refl).
  by rewrite delete_insert_eq.
Qed.

(** The root has the earliest deadline. *)
Lemma heap_root t : heap t → ∀ j, (j < len (nodes_ t))%N → (ex t 0 ≤ ex t j)%Z.
Proof.
  intros Hh j. induction (N.lt_wf_0 j) as [j _ IH]. intros Hj.
  destruct (decide (j = 0%N)) as [->|]; [done|]. pose proof (par_lt j ltac:(lia)).
  etrans; [apply IH|apply Hh]; lia.
Qed.

Lemma Remove_ok t k :
  wf t → nonneg t →
  ∃ t', returns (Remove k) t (bool_decide (is_Some (entries t !! k))) t' ∧ wf t' ∧
    entries t' = delete k (entries t).
Proof.
  intros Hwf Hnn. pose proof Hwf as [Hl Hh]. unfold returns, Remove. mstep.
  rewrite Contain_entries by done. destruct (entries t !! k) as [[e c]|] eqn:Hk.
  - rewrite bool_decide_eq_true_2 by by eexists.
    destruct (entries_find t k e c Hl Hk) as (i & n & Hidx & Hi & Hn).
    mrun (index_or_insert_ok t k i Hidx).
    destruct (RemoveByIndex_ok t i n Hwf Hnn Hi) as (t' & Hr & Hwf' & He).
    exists t'. mrun Hr. by subst n.
  - rewrite bool_decide_eq_false_2 by (by intros []). exists t.
    by rewrite delete_id.
Qed.

Lemma Pop_ok t n :
  wf t → nonneg t → node_of t 0 = Some n →
  ∃ t', returns Pop t (key n) t' ∧ wf t' ∧ entries t' = delete (key n) (entries t).
Proof.
  intros Hwf Hnn H0. destruct (RemoveByIndex_ok t 0 n Hwf Hnn H0) as (t' & Hr & Hwf' & He).
  exists t'. split_and!; try done. unfold returns, Pop. mrun (Empty_ok t (proj1 Hwf)).
  rewrite bool_decide_eq_false_2; [by mstep|]. intros Hn. unfold node_of in H0.
  by rewrite Hn in H0.
Qed.
End Results.

(** ** Tick *)

Section Ticking.
Context {Key : Type} `{Countable Key} {Callback : Type} {W : Type}.
Abbreviation HeapTimer := (HeapTimer Key Callback).
Abbreviation Node := (Node Key Callback).
Context (now : W → Z * W) (run : Callback → Key → M (HeapTimer * W) unit).
Context (log_error : str → W → W).
Abbreviation Tick := (Tick now run log_error).
Abbreviation Tick_body := (Tick_body now run log_error).
Implicit Types (t : HeapTimer) (w : W).

(** Deadlines are not negative and every callback can be invoked. *)
Definition ready (m : gmap Key (Z * option Callback)) : Prop :=
  map_Forall (λ _ v, (0 ≤ v.1)%Z ∧ v.2 ≠ None) m.

Lemma ready_nonneg t : linked t → ready (entries t) → nonneg t.
Proof. intros Hl Hr. apply nonneg_entries; [done|]. intros k v Hk. by apply (Hr k v). Qed.

Lemma ready_delete m k : ready m → ready (delete k m).
Proof. apply map_Forall_delete. Qed.

Lemma on_timer_ok {A} (m : M HeapTimer A) t w a t' :
  returns m t a t' → returns (on_timer m) (t, w) a (t', w).
Proof. intros Hm. unfold returns, on_timer, zoom. simpl. by rewrite Hm. Qed.

(** One iteration of the loop: either it stops, with an empty timer or a front
    node that has not expired, or it takes the front node out and runs its
    callback. *)
Lemma Tick_body_stop t w :
  wf t →
  (nodes_ t = [] ∧ returns Tick_body (t, w) false (t, w)) ∨
  (∃ n, node_of t 0 = Some n ∧
    ((now w).1 < expiration n)%Z ∧ returns Tick_body (t, w) false (t, (now w).2)) ∨
  (∃ n, node_of t 0 = Some n ∧ (expiration n ≤ (now w).1)%Z).
Proof.
  intros Hwf. destruct (decide (nodes_ t = [])) as [He|He].
  - left. split; [done|]. unfold returns, HeapTimer.Tick_body.
    mrun (on_timer_ok _ _ w _ _ (Empty_ok t (proj1 Hwf))). by rewrite bool_decide_eq_true_2.
  - right. destruct (node_of_is_Some t 0) as [n Hn].
    { destruct (nodes_ t); [done|]. unfold len; simpl. lia. }
    destruct (Z.leb_spec (expiration n) (now w).1) as [Hx|Hx]; [right; eauto|left].
    exists n. split_and!; [done|done|]. unfold returns, HeapTimer.Tick_body.
    mrun (on_timer_ok _ _ w _ _ (Empty_ok t (proj1 Hwf))). rewrite bool_decide_eq_false_2 by done.
    mrun (on_timer_ok _ _ w _ _ (node_at_ok _ _ _ Hn)).
    rewrite (bind_done _ _ _ false (t, (now w).2)); [done|].
    unfold Expired, read_clock, mbind, M_bind. simpl. destruct (now w) as [v w'].
    simpl in *. unfold mret, M_ret. by rewrite (proj2 (Z.leb_gt _ _)).
Qed.

Lemma Tick_body_fire t w n :
  wf t → ready (entries t) → node_of t 0 = Some n → (expiration n ≤ (now w).1)%Z →
  ∃ t0, wf t0 ∧ entries t0 = delete (key n) (entries t) ∧
    Tick_body (t, w) =
      (invoke_callback run log_error (callback n) (key n);; mret true) (t0, (now w).2).
Proof.
  intros Hwf Hrd Hn Hx. pose proof (ready_nonneg t (proj1 Hwf) Hrd) as Hnn.
  destruct (Pop_ok t n Hwf Hnn Hn) as (t0 & Hpop & Hwf0 & He0).
  exists t0. split_and!; [done|done|]. unfold HeapTimer.Tick_body.
  mrun (on_timer_ok _ _ w _ _ (Empty_ok t (proj1 Hwf))). rewrite bool_decide_eq_false_2.
  2: { intros He. unfold node_of in Hn. by rewrite He in Hn. }
  mrun (on_timer_ok _ _ w _ _ (node_at_ok _ _ _ Hn)).
  rewrite (bind_done _ _ _ true (t, (now w).2)).
  2: { unfold Expired, read_clock, mbind, M_bind. simpl. destruct (now w) as [v w'].
       simpl in *. unfold mret, M_ret. by rewrite (proj2 (Z.leb_le _ _)). }
  by mrun (on_timer_ok _ _ (now w).2 _ _ Hpop).
Qed.

(** The exceptions of a callback end in the log. *)
Definition logged (r : outcome unit) (w : W) : W :=
  match r with
  | Throw e => log_error (s!"Exception raised in timer's callback: " ++ what e) w
  | _ => w
  end.

Lemma invoke_callback_ok c k t w r t1 w1 :
  run c k (t, w) = (r, (t1, w1)) → (r = Done tt ∨ ∃ e, r = Throw e) →
  returns (invoke_callback run log_error (Some c) k) (t, w) tt (t1, logged r w1).
Proof.
  intros Hrun Hr. unfold returns, invoke_callback, try_catch. simpl. mstep. rewrite Hrun.
  by destruct Hr as [->|[e ->]].
Qed.

Lemma ready_node t n : linked t → ready (entries t) → node_of t 0 = Some n →
  ∃ c, callback n = Some c.
Proof.
  intros Hl Hrd Hn. destruct (callback n) as [c|] eqn:Hc; [eauto|].
  destruct (Hrd (key n) (expiration n, callback n)) as [_ []]; [|done].
  apply entries_Some, in_nodes; [done|]. exists 0%N. by destruct n.
Qed.

Lemma size_entries_pop t n : linked t → node_of t 0 = Some n →
  size (entries t) = S (size (delete (key n) (entries t))).
Proof.
  intros Hl Hn. rewrite <-(map_size_insert_None (key n) (expiration n, callback n))
    by apply lookup_delete_eq.
  f_equal. rewrite insert_delete_eq, insert_id; [done|].
  apply entries_Some, in_nodes; [done|]. exists 0%N. by destruct n.
Qed.

(** What the loop needs of the callbacks: they end, normally or with an
    exception, and leave a consistent timer with no more entries than before. *)
Definition callbacks_ok : Prop :=
  ∀ c k t w, wf t → ready (entries t) →
    ∃ r t' w', run c k (t, w) = (r, (t', w')) ∧ (r = Done tt ∨ ∃ e, r = Throw e) ∧
      wf t' ∧ ready (entries t') ∧ size (entries t') ≤ size (entries t).

(** The timer has no expired entry at the last time the clock was read. *)
Definition settled t w : Prop :=
  nodes_ t = [] ∨
  ∃ n w0, node_of t 0 = Some n ∧ w = (now w0).2 ∧ ((now w0).1 < expiration n)%Z.

Lemma Tick_ok fuel t w :
  callbacks_ok → wf t → ready (entries t) → size (entries t) < fuel →
  ∃ t' w', returns (Tick fuel) (t, w) tt (t', w') ∧ wf t' ∧ ready (entries t') ∧
    size (entries t') ≤ size (entries t) ∧ settled t' w'.
Proof.
  intros Hcb. revert t w. induction fuel as [|fuel IH]; intros t w Hwf Hrd Hf; [lia|].
  unfold returns, HeapTimer.Tick. cbn [while_].
  destruct (Tick_body_stop t w Hwf) as [[He Hr]|[(n & Hn & Hx & Hr)|(n & Hn & Hx)]].
  - mrun Hr. exists t, w. split_and!; try done. by left.
  - mrun Hr. exists t, (now w).2. split_and!; try done. right. by exists n, w.
  - destruct (Tick_body_fire t w n Hwf Hrd Hn Hx) as (t0 & Hwf0 & He0 & Hr).
    destruct (ready_node t n (proj1 Hwf) Hrd Hn) as [c Hc].
    destruct (Hcb c (key n) t0 (now w).2) as (r & t1 & w1 & Hrun & Hd & Hwf1 & Hrd1 & Hs1).
    { done. } { rewrite He0. by apply ready_delete. }
    pose proof (size_entries_pop t n (proj1 Hwf) Hn) as Hsz. rewrite He0 in Hs1.
    rewrite (bind_done _ _ _ true (t1, logged r w1)).
    2: { rewrite Hr, Hc. by mrun (invoke_callback_ok c (key n) t0 _ r t1 w1 Hrun Hd). }
    destruct (IH t1 (logged r w1) Hwf1 Hrd1 ltac:(lia)) as (t' & w' & Hr' & ? & ? & ? & ?).
    exists t', w'. split_and!; try done. lia.
Qed.
End Ticking.

(** ** Tick with callbacks that leave the timer alone *)

Section Firing.
Context {Key : Type} `{Countable Key} {Callback : Type} {W : Type}.
Abbreviation HeapTimer := (HeapTimer Key Callback).
Abbreviation entry := (Key * (Z * option Callback))%type.
Context (now : W → Z * W) (run : Callback → Key → M (HeapTimer * W) unit).
Context (log_error : str → W → W).
Context (T : Z) (res : Callback → Key → W → outcome unit) (eff : Callback → Key → W → W).
Implicit Types (t : HeapTimer) (w : W).

Definition expired (p : entry) : Prop := (p.2.1 ≤ T)%Z.
#[export] Instance expired_dec p : Decision (expired p).
Proof. unfold expired. apply _. Defined.

(** The effect of one callback on the world. *)
Definition fire (w : W) (p : entry) : W :=
  match p.2.2 with
  | Some c => logged log_error (res c p.1 w) (eff c p.1 w)
  | None => w
  end.

Definition earlier (p q : entry) : Prop := (p.2.1 ≤ q.2.1)%Z.

Lemma entries_root t n k v :
  wf t → node_of t 0 = Some n → entries t !! k = Some v → (expiration n ≤ v.1)%Z.
Proof.
  intros [Hl Hh] Hn Hk. destruct v as [e c].
  destruct (entries_find t k e c Hl Hk) as (j & m & _ & Hj & ->).
  pose proof (heap_root t Hh j (node_of_lt _ _ _ Hj)) as Hle.
  by rewrite (ex_node _ _ _ Hn), (ex_node _ _ _ Hj) in Hle.
Qed.

Lemma filter_expired_none t :
  wf t → (nodes_ t = [] ∨ ∃ n, node_of t 0 = Some n ∧ (T < expiration n)%Z) →
  filter expired (entries t) = ∅ ∧ filter (λ p, ¬ expired p) (entries t) = entries t.
Proof.
  intros Hwf Hd.
  assert (map_Forall (λ k v, ¬ expired (k, v)) (entries t)) as Hall.
  { intros k v Hk. destruct Hd as [He|(n & Hn & Hx)].
    - destruct v as [e c]. apply entries_Some in Hk; [|apply Hwf]. rewrite He in Hk. set_solver.
    - pose proof (entries_root t n k v Hwf Hn Hk). unfold expired; simpl. lia. }
  split; [|by apply map_filter_id].
  by apply map_empty_filter.
Qed.

Context (Hclock : ∀ w, now w = (T, w)).
Context (Hrun : ∀ c k t w, run c k (t, w) = (res c k w, (t, eff c k w))).
Context (Hres : ∀ c k w, res c k w = Done tt ∨ ∃ e, res c k w = Throw e).

Lemma Tick_fires fuel t w :
  wf t → ready (entries t) → size (entries t) < fuel →
  ∃ t' fired, returns (Tick now run log_error fuel) (t, w) tt (t', fold_left fire fired w) ∧
    wf t' ∧ StronglySorted earlier fired ∧
    fired ≡ₚ map_to_list (filter expired (entries t)) ∧
    entries t' = filter (λ p, ¬ expired p) (entries t).
Proof.
  revert t w. induction fuel as [|fuel IH]; intros t w Hwf Hrd Hf; [lia|].
  assert (∀ t', (nodes_ t' = [] ∨ ∃ n, node_of t' 0 = Some n ∧ (T < expiration n)%Z) → wf t' →
    returns (Tick_body now run log_error) (t', w) false (t', w) →
    ∃ t'' fired, returns (Tick now run log_error (S fuel)) (t', w) tt (t'', fold_left fire fired w) ∧
    wf t'' ∧ StronglySorted earlier fired ∧ fired ≡ₚ map_to_list (filter expired (entries t')) ∧
    entries t'' = filter (λ p, ¬ expired p) (entries t')) as Hstop.
  { intros t' Hd Hwf' Hr. destruct (filter_expired_none t' Hwf' Hd) as [H1 H2].
    exists t', []. rewrite H1, H2, map_to_list_empty. split_and!; try done; [|constructor].
    unfold returns, Tick. cbn [while_]. by mrun Hr. }
  destruct (Tick_body_stop now run log_error t w Hwf) as [[He Hr]|[(n & Hn & Hx & Hr)|(n & Hn & Hx)]];
    rewrite ?Hclock in *; simpl in *; [apply Hstop; auto|apply Hstop; eauto|].
  destruct (Tick_body_fire now run log_error t w n Hwf Hrd Hn) as (t0 & Hwf0 & He0 & Hr);
    [by rewrite Hclock|]. rewrite Hclock in Hr. simpl in Hr.
  destruct (ready_node t n (proj1 Hwf) Hrd Hn) as [c Hc].
  set (p := (key n, (expiration n, callback n))).
  assert (returns (Tick_body now run log_error) (t, w) true (t0, fire w p)) as Hb.
  { unfold returns. rewrite Hr, Hc. unfold fire, p; simpl. rewrite Hc.
    by mrun (invoke_callback_ok run log_error c (key n) t0 w _ _ _ (Hrun c (key n) t0 w) (Hres _ _ _)). }
  pose proof (size_entries_pop t n (proj1 Hwf) Hn) as Hsz.
  destruct (IH t0 (fire w p)) as (t' & fired & Hr' & Hwf' & Hsort & Hperm & He').
  { done. } { rewrite He0. by apply ready_delete. } { rewrite He0. lia. }
  assert (entries t !! key n = Some (expiration n, callback n)) as Hkn.
  { apply entries_Some, in_nodes; [apply Hwf|]. exists 0%N. by destruct n. }
  rewrite He0 in Hperm, He'. exists t', (p :: fired). split_and!; [|done|..].
  - unfold returns, Tick. cbn [while_]. mrun Hb. exact Hr'.
  - constructor; [done|]. apply Forall_forall. intros [k v] Hin. rewrite Hperm in Hin.
    apply elem_of_map_to_list, map_lookup_filter_Some in Hin as [Hin _].
    apply lookup_delete_Some in Hin as [_ Hin]. by apply (entries_root t n k v).
  - unfold p. rewrite Hperm, <-(map_to_list_insert (filter expired (delete (key n) (entries t)))).
    + rewrite <-map_filter_insert_True, insert_delete_eq, insert_id by done. done.
    + apply map_lookup_filter_None. left. apply lookup_delete_eq.
  - rewrite He'. symmetry. rewrite <-(insert_id (entries t) (key n) _ Hkn) at 1.
    rewrite <-insert_delete_eq, map_filter_insert_False; [|by intros []].
    by rewrite delete_delete_eq.
Qed.
End Firing.

(** * Properties *)

Section Properties.
Context {Key : Type} `{Countable Key} {Callback : Type} {W : Type}.
Abbreviation HeapTimer := (HeapTimer Key Callback).
Implicit Types (t : HeapTimer).

(** C7: the timer refines a finite map from keys to deadline and callback, and
    every operation keeps the heap ordered and the index map exact. [Push] of a
    new or an existing key sets its entry, [Adjust] changes the deadline and
    keeps the callback, [Remove] deletes the entry and reports whether there
    was one (it relies on deadlines not before the epoch of the clock, to which
    it moves the entry); none of them fails an assertion. *)
Theorem timer_refines_map t k e cb :
  wf t → (len (nodes_ t) < max_size)%N →
  (∃ t', returns (Push k e cb) t tt t' ∧ wf t' ∧ entries t' = <[k := (e, cb)]> (entries t)) ∧
  (∀ e0 c0, entries t !! k = Some (e0, c0) →
     ∃ t', returns (Adjust k e) t tt t' ∧ wf t' ∧ entries t' = <[k := (e, c0)]> (entries t)) ∧
  (nonneg t → ∃ t', returns (Remove k) t (bool_decide (is_Some (entries t !! k))) t' ∧
     wf t' ∧ entries t' = delete k (entries t)).
Proof.
  intros Hwf Hroom. split_and!; [by apply Push_ok| |by apply Remove_ok].
  intros e0 c0 Hk. exact (Adjust_node_ok t k e None e0 c0 Hwf Hk).
Qed.

(** [Pop] takes out an entry with the earliest deadline, and only it. *)
Theorem pop_earliest t :
  wf t → nonneg t → nodes_ t ≠ [] →
  ∃ k e c t', returns Pop t k t' ∧ wf t' ∧ entries t !! k = Some (e, c) ∧
    (∀ k' e' c', entries t !! k' = Some (e', c') → (e ≤ e')%Z) ∧
    entries t' = delete k (entries t).
Proof.
  intros Hwf Hnn Hne. destruct (node_of_is_Some t 0) as [n Hn].
  { destruct (nodes_ t); [done|]. unfold len; simpl. lia. }
  destruct (Pop_ok t n Hwf Hnn Hn) as (t' & Hr & Hwf' & He).
  exists (key n), (expiration n), (callback n), t'. split_and!; try done.
  - apply entries_Some, in_nodes; [apply Hwf|]. exists 0%N. by destruct n.
  - intros k' e' c' Hk'. exact (entries_root t n k' (e', c') Hwf Hn Hk').
Qed.

(** the error paths. [Adjust] of an unknown key throws [std::out_of_range]
    and changes nothing; [Remove] of an unknown key does nothing; [Pop] of an
    empty timer fails its assertion. *)
Theorem timer_errors t k e :
  wf t → entries t !! k = None →
  Adjust k e t = (Throw (Exn out_of_range (s!"_Map_base::at")), t) ∧
  Remove k t = (Done false, t) ∧
  (nodes_ t = [] → Pop t = (Crash, t)).
Proof.
  intros Hwf Hk. pose proof (proj1 (entries_None t k (proj1 Hwf)) Hk) as Hi. split_and!.
  - unfold Adjust, Adjust_node, index_at.
    rewrite (bind_throw _ _ t (Exn out_of_range (s!"_Map_base::at")) t); [done|].
    mstep. by rewrite Hi.
  - unfold Remove. mstep. rewrite Contain_entries, Hk by apply Hwf. done.
  - intros He. unfold Pop. mrun (Empty_ok t (proj1 Hwf)). by rewrite He.
Qed.

Context (now : W → Z * W) (run : Callback → Key → M (HeapTimer * W) unit).
Context (log_error : str → W → W).

(** [Tick] ends. Whatever the callbacks do to the timer, throwing included,
    as long as they leave it consistent and do not add entries, one iteration
    per entry and a last one are enough, and afterwards the timer is empty or
    its earliest deadline lies after the last reading of the clock. *)
Theorem tick_terminates t w fuel :
  callbacks_ok run → wf t → ready (entries t) → size (entries t) < fuel →
  ∃ t' w', returns (Tick now run log_error fuel) (t, w) tt (t', w') ∧ wf t' ∧
    size (entries t') ≤ size (entries t) ∧ settled now t' w'.
Proof.
  intros Hcb Hwf Hrd Hf.
  destruct (Tick_ok now run log_error fuel t w Hcb Hwf Hrd Hf) as (t' & w' & ? & ? & ? & ? & ?).
  by exists t', w'.
Qed.

(** C25: while the clock shows [T] and the callbacks leave the timer alone,
    [Tick] fires exactly the entries whose deadline is not after [T], each once,
    in the order of their deadlines, logging the exceptions; all other entries
    stay. *)
Theorem tick_fires_expired T res eff t w fuel :
  (∀ w, now w = (T, w)) →
  (∀ c k t w, run c k (t, w) = (res c k w, (t, eff c k w))) →
  (∀ c k w, res c k w = Done tt ∨ ∃ e, res c k w = Throw e) →
  wf t → ready (entries t) → size (entries t) < fuel →
  ∃ t' fired,
    returns (Tick now run log_error fuel) (t, w) tt (t', fold_left (fire log_error res eff) fired w) ∧
    wf t' ∧ StronglySorted earlier fired ∧
    fired ≡ₚ map_to_list (filter (expired T) (entries t)) ∧
    entries t' = filter (λ p, ¬ expired T p) (entries t).
Proof. intros H1 H2 H3. by apply Tick_fires. Qed.

(** [ToNextTick] returns the time from a last clock reading to the earliest
    remaining deadline, or zero when there is none or it has passed meanwhile;
    never a negative time. *)
Theorem to_next_tick_interval t w fuel :
  callbacks_ok run → wf t → ready (entries t) → size (entries t) < fuel →
  ∃ d t' w', returns (ToNextTick now run log_error fuel) (t, w) d (t', w') ∧ (0 ≤ d)%Z ∧
    (nodes_ t' = [] → d = 0%Z) ∧
    (∀ n, node_of t' 0 = Some n →
       ∃ w0, w' = (now w0).2 ∧ d = Z.max 0 (expiration n - (now w0).1)).
Proof.
  intros Hcb Hwf Hrd Hf.
  destruct (Tick_ok now run log_error fuel t w Hcb Hwf Hrd Hf) as (t' & w' & Hr & Hwf' & _ & _ & _).
  unfold returns, ToNextTick. mrun Hr. mrun (on_timer_ok _ _ w' _ _ (Empty_ok t' (proj1 Hwf'))).
  destruct (decide (nodes_ t' = [])) as [He|He].
  - rewrite bool_decide_eq_true_2 by done. exists 0%Z, t', w'. split_and!; try done.
    intros n Hn. unfold node_of in Hn. by rewrite He in Hn.
  - rewrite bool_decide_eq_false_2 by done. simpl.
    destruct (node_of_is_Some t' 0) as [n Hn].
    { destruct (nodes_ t'); [done|]. unfold len; simpl. lia. }
    mrun (on_timer_ok _ _ w' _ _ (node_at_ok _ _ _ Hn)).
    unfold read_clock, mbind, M_bind. simpl. destruct (now w') as [v w2] eqn:Hw.
    eexists _, t', w2. split_and!; [done|by case_match; lia|done|].
    intros m Hm. exists w'. rewrite Hw. split; [done|].
    rewrite Hn in Hm. simplify_eq. simpl. destruct (Z.ltb_spec 0 (expiration m - v)); lia.
Qed.

(** [Invoke] reads the position of the key before it runs the callback and
    uses it afterwards. If the callback itself removes its key, as the server's
    time-out callback does, [Invoke] either removes the entry of another key as
    well or fails the assertion on the index. *)
Theorem invoke_self_removing_callback t k i e c t1 w w1 :
  wf t → ready (entries t) → key_to_idx_ t !! k = Some i → entries t !! k = Some (e, Some c) →
  returns (Remove k) t true t1 → returns (run c k) (t, w) tt (t1, w1) →
  ((i < len (nodes_ t1))%N →
     ∃ k' t2, k' ≠ k ∧ is_Some (entries t !! k') ∧
       returns (Invoke run log_error k) (t, w) tt (t2, w1) ∧
       entries t2 = delete k' (delete k (entries t))) ∧
  ((len (nodes_ t1) ≤ i)%N → Invoke run log_error k (t, w) = (Crash, (t1, w1))).
Proof.
  intros Hwf Hrd Hi Hk Hrm Hrun. pose proof (ready_nonneg t (proj1 Hwf) Hrd) as Hnn.
  destruct (Remove_ok t k Hwf Hnn) as (t1' & Hrm' & Hwf1 & He1).
  assert (t1' = t1) as -> by (unfold returns in *; congruence).
  destruct (entries_find t k e (Some c) (proj1 Hwf) Hk) as (i' & n & Hi' & Hn & Hnk).
  assert (i' = i) as -> by congruence.
  assert (Invoke run log_error k (t, w) =
    (on_timer (RemoveByIndex i);; s ← get; assert_ (negb (Contain k s.1))) (t1, w1)) as HInv.
  { unfold Invoke. mrun (on_timer_ok _ _ w _ _ (index_at_ok t k i Hi)).
    mrun (on_timer_ok _ _ w _ _ (node_at_ok _ _ _ Hn)).
    subst n. simpl. by mrun (invoke_callback_ok run log_error c k t w _ _ _ Hrun (or_introl eq_refl)). }
  split; intros Hlt.
  - destruct (node_of_is_Some t1 i Hlt) as [n1 Hn1].
    assert (is_Some (entries t1 !! key n1)) as [v Hv].
    { exists (expiration n1, callback n1). apply entries_Some, in_nodes; [apply Hwf1|].
      exists i. by destruct n1. }
    rewrite He1 in Hv. apply lookup_delete_Some in Hv as [Hne Hv].
    destruct (RemoveByIndex_ok t1 i n1 Hwf1) as (t2 & Hr2 & Hwf2 & He2); [|done|].
    { apply ready_nonneg; [apply Hwf1|]. rewrite He1. by apply ready_delete. }
    exists (key n1), t2. split_and!; [congruence|by eexists| |by rewrite He2, He1].
    unfold returns. rewrite HInv. mrun (on_timer_ok _ _ w1 _ _ Hr2). mstep. simpl.
    apply assert_true. rewrite Contain_entries, He2, He1 by apply Hwf2.
    rewrite bool_decide_eq_false_2; [done|]. rewrite lookup_delete_ne by congruence.
    rewrite lookup_delete_eq. by intros [].
  - rewrite HInv. apply bind_crash. unfold on_timer, zoom. simpl. unfold RemoveByIndex.
    mrun (ValidIndex_ok t1 (proj1 Hwf1) i). by rewrite (proj2 (N.ltb_ge _ _)).
Qed.
End Properties.

(** ** Concrete runs *)

(** Three clients with deadlines 30, 10 and 20. *)
Definition push3 : HeapTimer Z nat → HeapTimer Z nat := λ t,
  (Push 2%Z 20%Z (Some 2) (Push 1%Z 10%Z (Some 1) (Push 3%Z 30%Z (Some 0) t).2).2).2.
Definition demo : HeapTimer Z nat := push3 Timer_empty.

(** The world is a log, the clock always shows 15; callback 0 leaves the timer
    alone and logs its key, callback 1 throws, the others remove their key. *)
Definition demo_now (w : list str) : Z * list str := (15%Z, w).
Definition demo_log (m : str) (w : list str) : list str := w ++ [m].
Definition demo_run (c : nat) (k : Z) : M (HeapTimer Z nat * list str) unit :=
  match c with
  | 0 => write_log demo_log (s!"closed")
  | 1 => throw runtime_error (s!"cannot close")
  | _ => on_timer (Remove k);; mret tt
  end.
Definition demo_quiet (c : nat) (k : Z) : M (HeapTimer Z nat * list str) unit :=
  match c with
  | 1 => throw runtime_error (s!"cannot close")
  | _ => write_log demo_log (s!"closed")
  end.

Lemma demo_wf : wf demo.
Proof.
  assert (∀ (t : HeapTimer Z nat) k e c, wf t → (len (nodes_ t) < max_size)%N →
    wf (Push k e c t).2) as Hpush.
  { intros t k e c Hwf Hl. destruct (Push_ok t k e c Hwf Hl) as (t' & Hr & Hwf' & _).
    by rewrite Hr. }
  unfold demo, push3. repeat (apply Hpush; [|vm_compute; reflexivity]). apply Timer_empty_wf.
Qed.

Lemma demo_ready : ready (entries demo).
Proof. unfold ready. apply (bool_decide_unpack _). vm_compute. exact I. Qed.

Lemma demo_nonneg : nonneg demo.
Proof. apply ready_nonneg; [apply demo_wf|apply demo_ready]. Qed.

Lemma demo_run_ok : callbacks_ok demo_run.
Proof.
  intros [|[|c]] k t w Hwf Hrd.
  - eexists _, t, _. split_and!; [reflexivity|by left|done|done|done].
  - eexists _, t, _. split_and!; [reflexivity|right; by eexists|done|done|done].
  - destruct (Remove_ok t k Hwf) as (t' & Hr & Hwf' & He).
    { apply ready_nonneg; [apply Hwf|done]. }
    exists (Done tt), t', w. split_and!; [|by left|done|by rewrite He; apply ready_delete|].
    + unfold demo_run. by mrun (on_timer_ok _ _ w _ _ Hr).
    + rewrite He, map_size_delete. destruct (entries t !! k); [apply Nat.le_pred_l|done].
Qed.

Lemma demo_room : (len (nodes_ demo) < max_size)%N.
Proof. vm_compute. reflexivity. Qed.

Lemma timer_refines_map_witness :
  (∃ t', returns (Push 1%Z 40%Z None) demo tt t' ∧
     entries t' = <[1%Z := (40%Z, None)]> (entries demo)) ∧
  (∃ t', returns (Adjust 1%Z 25%Z) demo tt t' ∧
     entries t' = <[1%Z := (25%Z, Some 1)]> (entries demo)) ∧
  (∃ t', returns (Remove 3%Z) demo true t' ∧ entries t' = delete 3%Z (entries demo)).
Proof.
  split_and!.
  - destruct (proj1 (timer_refines_map demo 1%Z 40%Z None demo_wf demo_room)) as (t' & ? & _ & ?).
    exists t'; split; assumption.
  - destruct (proj1 (proj2 (timer_refines_map demo 1%Z 25%Z None demo_wf demo_room)) 10%Z (Some 1))
      as (t' & ? & _ & ?); [vm_compute; reflexivity|]. exists t'; split; assumption.
  - destruct (proj2 (proj2 (timer_refines_map demo 3%Z 0%Z None demo_wf demo_room)) demo_nonneg)
      as (t' & ? & _ & ?). exists t'; split; assumption.
Defined.

Lemma pop_earliest_witness :
  ∃ k e c t', returns Pop demo k t' ∧ wf t' ∧ entries demo !! k = Some (e, c) ∧
    (∀ k' e' c', entries demo !! k' = Some (e', c') → (e ≤ e')%Z) ∧
    entries t' = delete k (entries demo).
Proof. apply (pop_earliest demo); [apply demo_wf|apply demo_nonneg|vm_compute; discriminate]. Defined.

Lemma timer_errors_witness :
  Adjust 7%Z 0%Z demo = (Throw (Exn out_of_range (s!"_Map_base::at")), demo) ∧
  Remove 7%Z demo = (Done false, demo) ∧
  Pop (Timer_empty : HeapTimer Z nat) = (Crash, Timer_empty).
Proof.
  split_and!.
  - apply (timer_errors demo 7%Z 0%Z); [apply demo_wf|vm_compute; reflexivity].
  - apply (timer_errors demo 7%Z 0%Z); [apply demo_wf|vm_compute; reflexivity].
  - apply (timer_errors (Timer_empty : HeapTimer Z nat) 7%Z 0%Z); [apply Timer_empty_wf|done|done].
Defined.

Lemma tick_terminates_witness :
  ∃ t' w', returns (Tick demo_now demo_run demo_log 4) (demo, []) tt (t', w') ∧ wf t' ∧
    size (entries t') ≤ 3 ∧ settled demo_now t' w'.
Proof.
  destruct (tick_terminates demo_now demo_run demo_log demo [] 4) as (t' & w' & ? & ? & ? & ?).
  - apply demo_run_ok.
  - apply demo_wf.
  - apply demo_ready.
  - vm_compute. lia.
  - exists t', w'. split_and!; assumption.
Defined.

(** With the clock at 15 only the entry of key 1 is due; its exception is
    logged. *)
Lemma tick_fires_expired_witness :
  ∃ t', returns (Tick demo_now demo_quiet demo_log 4) (demo, []) tt
      (t', [s!"Exception raised in timer's callback: cannot close"]) ∧
    entries t' = {[ 2%Z := (20%Z, Some 2); 3%Z := (30%Z, Some 0) ]}.
Proof.
  destruct (tick_fires_expired demo_now demo_quiet demo_log 15%Z
    (λ c k w, match c with 1 => Throw (Exn runtime_error (s!"cannot close")) | _ => Done tt end)
    (λ c k w, match c with 1 => w | _ => demo_log (s!"closed") w end)
    demo [] 4) as (t' & fired & Hr & _ & _ & Hp & He).
  - done.
  - by intros [|[|c]] k t w.
  - intros [|[|c]] k w; eauto.
  - apply demo_wf.
  - apply demo_ready.
  - vm_compute. lia.
  - assert (map_to_list (filter (expired 15%Z) (entries demo)) = [(1%Z, (10%Z, Some 1))]) as Hm
      by (vm_compute; reflexivity).
    rewrite Hm in Hp. apply Permutation_singleton_r in Hp as ->.
    exists t'. split; [exact Hr|]. rewrite He. vm_compute. reflexivity.
Defined.

Lemma to_next_tick_interval_witness :
  ∃ d t' w', returns (ToNextTick demo_now demo_run demo_log 4) (demo, []) d (t', w') ∧
    (0 ≤ d)%Z ∧ (nodes_ t' = [] → d = 0%Z) ∧
    (∀ n, node_of t' 0 = Some n →
       ∃ w0, w' = (demo_now w0).2 ∧ d = Z.max 0 (expiration n - (demo_now w0).1)).
Proof.
  apply (to_next_tick_interval demo_now demo_run demo_log demo [] 4).
  - apply demo_run_ok.
  - apply demo_wf.
  - apply demo_ready.
  - vm_compute. lia.
Defined.

(** Firing the callback of key 1 removes another client as well; firing that of
    key 2, at the last position, fails the assertion. *)
Lemma invoke_self_removing_callback_witness :
  let run := λ (_ : nat) k, on_timer (W := list str) (Remove (Callback := nat) k);; mret tt in
  (∃ k' t2, k' ≠ 1%Z ∧ is_Some (entries demo !! k') ∧
    returns (Invoke run demo_log 1%Z) (demo, []) tt (t2, []) ∧
    entries t2 = delete k' (delete 1%Z (entries demo))) ∧
  Invoke run demo_log 2%Z (demo, []) = (Crash, ((Remove 2%Z demo).2, [])).
Proof.
  intros run. split.
  - refine (proj1 (invoke_self_removing_callback run demo_log demo 1%Z 0%N 10%Z 1
             (Remove 1%Z demo).2 [] [] demo_wf demo_ready _ _ _ _) _); vm_compute; reflexivity.
  - refine (proj2 (invoke_self_removing_callback run demo_log demo 2%Z 2%N 20%Z 2
             (Remove 2%Z demo).2 [] [] demo_wf demo_ready _ _ _ _) _); vm_compute;
      try reflexivity; discriminate.
Defined.
