(* ===== verification/Http.v ===== *)
(** The protocol vocabulary of [include/http.h] and the free functions of
    [src/http/http.cpp]: status codes, methods, content types, URL decoding and
    the HTML templates. The connection itself is in [Connection.v]. *)

From S2P Require Import Prelude Util.

(** * Status codes and methods *)

Definition version : str := s!"1.1".
Definition new_line : str := crlf.

(** [std::unordered_map<std::string, std::string>]. *)
Abbreviation Parameters := (gmap str str).

Inductive StatusCode := OK | BadRequest | Forbidden | NotFound.
#[export] Instance StatusCode_eq_dec : EqDecision StatusCode.
Proof. solve_decision. Defined.

Inductive Method := Get | Post | Put | Patch | Delete.
#[export] Instance Method_eq_dec : EqDecision Method.
Proof. solve_decision. Defined.

Definition StatusCodeToMessage (code : StatusCode) : str :=
  match code with
  | OK => s!"OK"
  | BadRequest => s!"Bad Request"
  | Forbidden => s!"Forbidden"
  | NotFound => s!"Not Found"
  end.

Definition StatusCodeToInteger (code : StatusCode) : N :=
  match code with OK => 200 | BadRequest => 400 | Forbidden => 403 | NotFound => 404 end.

Definition MethodToString (m : Method) : str :=
  match m with
  | Get => s!"GET"
  | Patch => s!"PATCH"
  | Post => s!"POST"
  | Delete => s!"DELETE"
  | Put => s!"PUT"
  end.

(** [operator<<] on a stream, here the text written so far. *)
Definition print_StatusCode (code : StatusCode) : M str unit := modify (λ os, os ++ StatusCodeToMessage code).
Definition print_Method (m : Method) : M str unit := modify (λ os, os ++ MethodToString m).

Definition method_table : list (str * Method) :=
  [(s!"GET", Get); (s!"PATCH", Patch); (s!"POST", Post); (s!"DELETE", Delete); (s!"PUT", Put)].

Definition StringToMethod (s : str) : outcome Method :=
  let u := StringToUpper s in
  match table_find method_table u with
  | Some m => Done m
  | None => Throw (Exn invalid_argument (s!"Invalid HTTP method: '" ++ u ++ s!"'"))
  end.

(** * Content types *)

(** The part of [s] after the last [d], and the part from the last [d] on. *)
Fixpoint after_last (d : ascii) (s : str) : option str :=
  match s with
  | [] => None
  | c :: s' =>
      match after_last d s' with
      | Some r => Some r
      | None => if decide (c = d) then Some s' else None
      end
  end.

(** [std::filesystem::path::filename] and [extension]: a leading dot does not
    start an extension, and neither does the file name "..". *)
Definition filename (p : str) : str :=
  match after_last "/"%char p with Some f => f | None => p end.
Definition extension (p : str) : str :=
  let f := filename p in
  if decide (f = s!"..") then []
  else match f with
       | [] => []
       | _ :: f' => match after_last "."%char f' with
                    | Some e => "."%char :: e
                    | None => []
                    end
       end.

Definition type_table : list (str * str) := [
  (s!".html", s!"text/html");
  (s!".xml", s!"text/xml");
  (s!".xhtml", s!"application/xhtml+xml");
  (s!".txt", s!"text/plain");
  (s!".rtf", s!"application/rtf");
  (s!".pdf", s!"application/pdf");
  (s!".word", s!"application/nsword");
  (s!".png", s!"image/png");
  (s!".gif", s!"image/gif");
  (s!".jpg", s!"image/jpeg");
  (s!".jpeg", s!"image/jpeg");
  (s!".au", s!"audio/basic");
  (s!".mpeg", s!"video/mpeg");
  (s!".mpg", s!"video/mpeg");
  (s!".avi", s!"video/x-msvideo");
  (s!".gz", s!"application/x-gzip");
  (s!".tar", s!"application/x-tar");
  (s!".css", s!"text/css");
  (s!".js", s!"text/javascript")
].

Definition ContentTypeByFileName (name : str) : str :=
  match table_find type_table (c_str (StringToLower (extension name))) with
  | Some t => t
  | None => s!"application/octet-stream"
  end.

(** * URL decoding *)

(** [std::isspace] in the C locale. *)
Definition isspace (c : ascii) : bool :=
  let n := nat_of_ascii c in (n =? 32) || ((9 <=? n) && (n <=? 13)).

(** The value of a hexadecimal digit. *)
Definition hex_value (c : ascii) : option Z :=
  let n := nat_of_ascii c in
  if (48 <=? n) && (n <=? 57) then Some (Z.of_nat (n - 48))
  else if (65 <=? n) && (n <=? 70) then Some (Z.of_nat (n - 55))
  else if (97 <=? n) && (n <=? 102) then Some (Z.of_nat (n - 87))
  else None.

(** The digits at the start of [s]: their value after [acc], [None] for none. *)
Fixpoint hex_digits (s : str) (acc : option Z) : option Z :=
  match s with
  | [] => acc
  | c :: s' =>
      match hex_value c with
      | Some d => hex_digits s' (Some (16 * default 0 acc + d)%Z)
      | None => acc
      end
  end.

Fixpoint skip_spaces (s : str) : str :=
  match s with
  | c :: s' => if isspace c then skip_spaces s' else s
  | [] => []
  end.

(** [strtol] in base 16: spaces, a sign, an optional [0x] before a digit, and
    the longest sequence of digits; the rest is ignored. *)
Definition strtol16 (s : str) : option Z :=
  let s := skip_spaces s in
  let '(neg, s) := match s with
                   | c :: s' => if decide (c = "-"%char) then (true, s')
                                else if decide (c = "+"%char) then (false, s') else (false, s)
                   | [] => (false, [])
                   end in
  let s := match s with
           | z :: x :: d :: s' =>
               if decide (z = "0"%char ∧ tolower x = "x"%char ∧ hex_value d ≠ None)
               then d :: s' else s
           | _ => s
           end in
  (λ v, if neg : bool then (- v)%Z else v) <$> hex_digits s None.

(** [std::stoi(s, nullptr, 16)] *)
Definition stoi16 (s : str) : outcome Z :=
  match strtol16 s with
  | None => Throw (Exn invalid_argument (s!"stoi"))
  | Some v => if (-2147483648 <=? v)%Z && (v <=? 2147483647)%Z then Done v
              else Throw (Exn out_of_range (s!"stoi"))
  end.

(** [static_cast<char>] of an [int]. *)
Definition char_of_int (v : Z) : ascii := chr (Z.to_nat (v mod 256)).

Definition encoded_length : nat := 3.

Definition DecodeURLEncodedCharacter (s : str) : outcome ascii :=
  let invalid := Throw (Exn invalid_argument
    (s!"Invalid HTTP URL-encoding character: '" ++ s ++ s!"'")) in
  match s with
  | c :: rest =>
      if decide (length s = encoded_length ∧ c = "%"%char)
      then v ← stoi16 rest; Done (char_of_int v)
      else invalid
  | [] => invalid
  end.

(** [rest] is [str] from index [i] on, [ss] the output stream. *)
Fixpoint decode_loop (fuel : nat) (s rest ss : str) : outcome str :=
  match fuel with
  | 0 => OutOfFuel
  | S fuel' =>
      match rest with
      | [] => Done ss
      | c :: rest' =>
          if decide (c = "%"%char) then
            let encoded := take encoded_length rest in
            if length encoded =? encoded_length then
              d ← DecodeURLEncodedCharacter encoded;
              decode_loop fuel' s (drop encoded_length rest) (ss ++ [d])
            else Throw (Exn invalid_argument
                   (s!"Invalid HTTP URL-encoding strings: '" ++ s ++ s!"'"))
          else decode_loop fuel' s rest' (ss ++ [c])
      end
  end.

(** Every iteration consumes at least one byte. *)
Definition DecodeURLEncodedString (s : str) : outcome str := decode_loop (S (length s)) s s [].

(** * HTML templates *)

Definition HTMLPlaceholder (key : str) : str := s!"<$" ++ key ++ s!"$>".

(** The loop over the parameters, in the order [kvs] in which the container is
    iterated. *)
Fixpoint replace_params (html : str) (kvs : list (str * str)) : outcome str :=
  match kvs with
  | [] => Done html
  | (key, val) :: kvs' =>
      html' ← ReplaceAllSubstring html (HTMLPlaceholder key) val;
      replace_params html' kvs'
  end.

Section Templates.
(** The iteration order of [std::unordered_map] is unspecified. *)
Context (iter : Parameters → list (str * str)).

Definition PutParamIntoHTML (html : str) (params : Parameters) : outcome str :=
  replace_params html (iter params).
End Templates.

(** * Specifications *)

(** The value of the two characters after a percent sign: two hexadecimal
    digits, but also what [strtol] makes of a digit and another character, or of
    a space or a sign and a digit. *)
Definition escape_value (a b : ascii) : option Z :=
  match hex_value a, hex_value b with
  | Some x, Some y => Some (16 * x + y)%Z
  | Some x, None => Some x
  | None, Some y =>
      if decide (a = "-"%char) then Some (- y)%Z
      else if isspace a || bool_decide (a = "+"%char) then Some y
      else None
  | None, None => None
  end.

(** [decodes s r]: [r] is [s] with its escapes exchanged for the characters they
    stand for. *)
Inductive decodes : str → str → Prop :=
| decodes_nil : decodes [] []
| decodes_char c s r : c ≠ "%"%char → decodes s r → decodes (c :: s) (c :: r)
| decodes_escape a b v s r :
    escape_value a b = Some v → decodes s r →
    decodes ("%"%char :: a :: b :: s) (char_of_int v :: r).

(** Percent encoding: characters outside [keep] become two upper-case digits. *)
Definition hex_digit (n : nat) : ascii := if n <? 10 then chr (48 + n) else chr (55 + n).
Definition encode_char (keep : ascii → bool) (c : ascii) : str :=
  if keep c then [c]
  else ["%"%char; hex_digit (nat_of_ascii c / 16); hex_digit (nat_of_ascii c mod 16)].
Definition encode (keep : ascii → bool) (s : str) : str := s ≫= encode_char keep.

(** A template is a text with holes; the page writes a hole as a placeholder. *)
Inductive piece := Text (t : str) | Hole (key : str).
#[export] Instance piece_eq_dec : EqDecision piece.
Proof. solve_decision. Defined.

Definition html_piece (p : piece) : str :=
  match p with Text t => t | Hole k => HTMLPlaceholder k end.
Definition html_of (ps : list piece) : str := ps ≫= html_piece.

(** Fill the holes of which the parameters know the value, all at once. *)
Definition fill_piece (params : Parameters) (p : piece) : piece :=
  match p with
  | Hole k => match params !! k with Some v => Text v | None => p end
  | Text _ => p
  end.
Definition fill (params : Parameters) (ps : list piece) : list piece := fill_piece params <$> ps.

(** Texts have no dollar sign, and keys are made of ordinary characters. *)
Definition plain_text (t : str) : Prop := "$"%char ∉ t.
Definition plain_key (k : str) : Prop := ("$"%char ∉ k) ∧ ("<"%char ∉ k).
Definition plain_piece (p : piece) : Prop :=
  match p with Text t => plain_text t | Hole k => plain_key k end.

(** * Lemmas: tables *)

Lemma StringToUpper_idemp s : StringToUpper (StringToUpper s) = StringToUpper s.
Proof.
  unfold StringToUpper. rewrite map_map. apply map_ext. intros c. unfold toupper.
  destruct ((97 <=? nat_of_ascii c) && (nat_of_ascii c <=? 122)) eqn:Hc; [|by rewrite Hc].
  apply andb_true_iff in Hc as [H1 H2]. apply Nat.leb_le in H1, H2.
  unfold chr. rewrite nat_ascii_embedding by lia.
  by rewrite (proj2 (Nat.leb_gt _ _)) by lia.
Qed.

(** * Lemmas: paths *)

Lemma after_last_None d s : after_last d s = None ↔ d ∉ s.
Proof.
  induction s as [|c s IH]; simpl; [split; [set_solver|done]|].
  destruct (after_last d s) as [r|] eqn:H.
  - split; [done|]. intros Hn. destruct (decide (d ∈ s)); [set_solver|]. by destruct IH as [_ ->].
  - case_decide; [subst; split; [done|set_solver]|]. set_solver.
Qed.

Lemma after_last_app d s t : d ∉ t → after_last d (s ++ d :: t) = Some t.
Proof.
  intros Ht. induction s as [|c s IH]; simpl; [|by rewrite IH].
  rewrite (proj2 (after_last_None d t) Ht). by rewrite decide_True.
Qed.

Lemma filename_app dir f : "/"%char ∉ f → filename (dir ++ "/"%char :: f) = f.
Proof. intros Hf. unfold filename. by rewrite after_last_app. Qed.

Lemma filename_plain f : "/"%char ∉ f → filename f = f.
Proof. intros Hf. unfold filename. by rewrite (proj2 (after_last_None _ _) Hf). Qed.

Lemma extension_of f e p :
  filename p = f ++ "."%char :: e → f ≠ [] → "."%char ∉ e → e ≠ [] → extension p = "."%char :: e.
Proof.
  intros Hp Hf He Hne. unfold extension. rewrite Hp, decide_False.
  - destruct f as [|c f]; [done|]. simpl. by rewrite after_last_app.
  - intros Heq. destruct f as [|c [|d f]]; simplify_eq/=. by destruct f as [|? [|]]; simplify_eq/=.
Qed.

(** * Lemmas: URL decoding *)

Definition all_ascii : list ascii := chr <$> seq 0 256.

Lemma all_ascii_complete c : c ∈ all_ascii.
Proof.
  unfold all_ascii. apply list_elem_of_fmap. exists (nat_of_ascii c). split.
  - unfold chr. by rewrite ascii_nat_embedding.
  - apply elem_of_seq. pose proof (nat_ascii_bounded c). lia.
Qed.

(** A property of two characters, decided by trying them all. *)
Lemma ascii2_ind (P : ascii → ascii → bool) :
  forallb (λ a, forallb (P a) all_ascii) all_ascii = true → ∀ a b, P a b = true.
Proof.
  intros H a b. rewrite forallb_forall in H.
  specialize (H a (proj1 (list_elem_of_In _ _) (all_ascii_complete a))).
  rewrite forallb_forall in H. apply H. apply list_elem_of_In, all_ascii_complete.
Qed.

Lemma strtol16_pair a b : strtol16 [a; b] = escape_value a b.
Proof.
  apply (bool_decide_unpack _). revert a b.
  assert (∀ a b, bool_decide (strtol16 [a; b] = escape_value a b) = true) as H.
  { apply ascii2_ind. vm_compute. reflexivity. }
  intros a b. apply Is_true_true. apply H.
Qed.

Lemma hex_value_range c x : hex_value c = Some x → (0 ≤ x < 16)%Z.
Proof.
  unfold hex_value. repeat case_match; intros; simplify_eq;
    rewrite ?andb_true_iff, ?Nat.leb_le in *; lia.
Qed.

Lemma escape_value_range a b v : escape_value a b = Some v → (-16 < v < 256)%Z.
Proof.
  unfold escape_value.
  destruct (hex_value a) as [x|] eqn:Ha, (hex_value b) as [y|] eqn:Hb; intros Hv;
    try apply hex_value_range in Ha; try apply hex_value_range in Hb;
    repeat case_match; simplify_eq; lia.
Qed.

Lemma stoi16_pair a b :
  stoi16 [a; b] = match escape_value a b with
                  | Some v => Done v
                  | None => Throw (Exn invalid_argument (s!"stoi"))
                  end.
Proof.
  unfold stoi16. rewrite strtol16_pair. destruct (escape_value a b) as [v|] eqn:Hv; [|done].
  apply escape_value_range in Hv. case_match eqn:Hb; [done|].
  apply andb_false_iff in Hb as [Hb|Hb]; apply Z.leb_gt in Hb; lia.
Qed.

Lemma decode_character_pair a b :
  DecodeURLEncodedCharacter ["%"%char; a; b] =
    match escape_value a b with
    | Some v => Done (char_of_int v)
    | None => Throw (Exn invalid_argument (s!"stoi"))
    end.
Proof. simpl. rewrite stoi16_pair. by destruct (escape_value a b). Qed.

Lemma decodes_fun s r r' : decodes s r → decodes s r' → r = r'.
Proof.
  intros H. revert r'. induction H as [|c s r Hc H IH|a b v s r Hv H IH]; intros r' H'.
  - by inversion H'.
  - inversion H'; subst; [by f_equal; apply IH|done].
  - inversion H' as [| |? ? v']; subst; [done|]. simplify_eq. f_equal. by apply IH.
Qed.

Lemma decodes_length s r : decodes s r → length r ≤ length s ∧ length s ≤ 3 * length r.
Proof. induction 1; simpl; lia. Qed.

(** One turn of the loop. *)
Lemma decode_loop_escape fuel s a b rest ss :
  decode_loop (S fuel) s ("%"%char :: a :: b :: rest) ss =
    match escape_value a b with
    | Some v => decode_loop fuel s rest (ss ++ [char_of_int v])
    | None => Throw (Exn invalid_argument (s!"stoi"))
    end.
Proof.
  cbn [decode_loop]. rewrite decide_True by done. cbn [take encoded_length length Nat.eqb drop].
  rewrite decode_character_pair. by destruct (escape_value a b).
Qed.

Lemma decode_loop_char fuel s c rest ss :
  c ≠ "%"%char → decode_loop (S fuel) s (c :: rest) ss = decode_loop fuel s rest (ss ++ [c]).
Proof. intros Hc. cbn [decode_loop]. by rewrite decide_False. Qed.

Lemma decode_loop_decodes s rest r :
  decodes rest r → ∀ fuel ss, length rest < fuel → decode_loop fuel s rest ss = Done (ss ++ r).
Proof.
  induction 1 as [|c t r Hc H IH|a b v t r Hv H IH]; intros [|fuel] ss Hf; simpl in Hf; try lia.
  - simpl. by rewrite app_nil_r.
  - rewrite decode_loop_char, IH, <-app_assoc by (done || lia). done.
  - rewrite decode_loop_escape, Hv, IH, <-app_assoc by (done || lia). done.
Qed.

Lemma decode_loop_total s fuel rest ss :
  length rest < fuel →
  (∃ r, decodes rest r) ∨
  (∃ w, decode_loop fuel s rest ss = Throw (Exn invalid_argument w) ∧ ∀ r, ¬ decodes rest r).
Proof.
  revert rest ss. induction fuel as [|fuel IH]; intros rest ss Hf; [lia|].
  destruct rest as [|c rest]; [left; exists []; constructor|]. simpl in Hf.
  destruct (decide (c = "%"%char)) as [->|Hc].
  - destruct rest as [|a [|b rest]];
      try (right; eexists; split; [reflexivity|]; intros r Hr; by inversion Hr).
    rewrite decode_loop_escape. destruct (escape_value a b) as [v|] eqn:Hv.
    + destruct (IH rest (ss ++ [char_of_int v])) as [[r Hr]|(w & Hw & Hn)]; [simpl in Hf; lia|..].
      * left. exists (char_of_int v :: r). by constructor.
      * right. exists w. split; [done|]. intros r Hr.
        inversion Hr as [|? ? ? Hc|? ? ? ? r0 ? Hr0]; [by destruct Hc|by apply (Hn r0)].
    + right. eexists. split; [reflexivity|]. intros r Hr.
      inversion Hr as [|? ? ? Hc|? ? ? ? r0 ? Hr0]; [by destruct Hc|congruence].
  - rewrite decode_loop_char by done.
    destruct (IH rest (ss ++ [c])) as [[r Hr]|(w & Hw & Hn)]; [lia|..].
    + left. exists (c :: r). by constructor.
    + right. exists w. split; [done|]. intros r Hr.
      inversion Hr as [|? ? r0|]; subst; [by apply (Hn r0)|done].
Qed.

Lemma escape_hex c :
  escape_value (hex_digit (nat_of_ascii c / 16)) (hex_digit (nat_of_ascii c mod 16)) =
    Some (Z.of_nat (nat_of_ascii c)).
Proof.
  assert (forallb (λ c, bool_decide
    (escape_value (hex_digit (nat_of_ascii c / 16)) (hex_digit (nat_of_ascii c mod 16)) =
      Some (Z.of_nat (nat_of_ascii c)))) all_ascii = true) as H by (vm_compute; reflexivity).
  rewrite forallb_forall in H.
  specialize (H c (proj1 (list_elem_of_In _ _) (all_ascii_complete c))).
  by apply bool_decide_eq_true in H.
Qed.

Lemma char_of_int_nat c : char_of_int (Z.of_nat (nat_of_ascii c)) = c.
Proof.
  pose proof (nat_ascii_bounded c). unfold char_of_int, chr.
  rewrite Z.mod_small, Nat2Z.id by lia. apply ascii_nat_embedding.
Qed.

Lemma encode_decodes keep s : keep "%"%char = false → decodes (encode keep s) s.
Proof.
  intros Hk. unfold encode. induction s as [|c s IH]; simpl; [constructor|].
  unfold encode_char at 1. destruct (keep c) eqn:Hc; simpl.
  - constructor; [|done]. intros ->. congruence.
  - rewrite <-(char_of_int_nat c) at 3. constructor; [apply escape_hex|done].
Qed.

(** * Lemmas: templates *)

Lemma placeholder_not_nil k : HTMLPlaceholder k ≠ [].
Proof. done. Qed.

Lemma replaced_cons p v c s r :
  ¬ occurs_at p (c :: s) 0 → replaced p v s r → replaced p v (c :: s) (c :: r).
Proof.
  intros Hn Hr. revert Hn. destruct Hr as [s' Hs|a rest r' Ha Hr]; intros Hn.
  - apply replaced_none. intros [|i]; [exact Hn|]. rewrite occurs_at_cons. apply Hs.
  - apply (replaced_one p v (c :: a) rest r'); [|done].
    intros [|i] Hi; [exact Hn|]. simpl in *. rewrite occurs_at_cons. apply Ha. lia.
Qed.

Lemma placeholder_head k c s : c ≠ "<"%char → ¬ occurs_at (HTMLPlaceholder k) (c :: s) 0.
Proof. intros Hc (rest & He & _). simpl in He. by simplify_eq. Qed.

Lemma replaced_skip k v l s r :
  ("<"%char ∉ l) → replaced (HTMLPlaceholder k) v s r →
  replaced (HTMLPlaceholder k) v (l ++ s) (l ++ r).
Proof.
  induction l as [|c l IH]; intros Hl Hr; [done|]. simpl.
  apply replaced_cons; [apply placeholder_head; set_solver|]. apply IH; [set_solver|done].
Qed.

Lemma html_of_head ps : Forall plain_piece ps → head (html_of ps) ≠ Some "$"%char.
Proof.
  unfold html_of. induction 1 as [|[t|k] ps Hp _ IH]; [done| |done].
  simpl in *. destruct t as [|c t]; [done|]. unfold plain_text in Hp. simpl. set_solver.
Qed.

Lemma replaced_text k v t s r :
  plain_text t → head s ≠ Some "$"%char → replaced (HTMLPlaceholder k) v s r →
  replaced (HTMLPlaceholder k) v (t ++ s) (t ++ r).
Proof.
  unfold plain_text. intros Ht Hs Hr. induction t as [|c t IH]; [done|]. simpl.
  apply replaced_cons; [|apply IH; set_solver].
  intros (rest & He & _). simpl in He. injection He as _ He.
  destruct t as [|d t]; simpl in He; [by rewrite He in Hs|simplify_eq; set_solver].
Qed.

Lemma split_at_dollar (k k' : str) r r' :
  ("$"%char ∉ k) → ("$"%char ∉ k') → k ++ "$"%char :: r = k' ++ "$"%char :: r' → k = k' ∧ r = r'.
Proof.
  revert k'. induction k as [|c k IH]; intros [|c' k'] Hk Hk' He; simplify_eq/=.
  - done.
  - set_solver.
  - set_solver.
  - destruct (IH k') as [-> ->]; [set_solver|set_solver|done|done].
Qed.

(** Another placeholder is left as it is. *)
Lemma replaced_other k k' v s r :
  plain_key k → plain_key k' → k ≠ k' → replaced (HTMLPlaceholder k) v s r →
  replaced (HTMLPlaceholder k) v (HTMLPlaceholder k' ++ s) (HTMLPlaceholder k' ++ r).
Proof.
  intros [Hk _] [Hk' Hlt] Hne Hr. unfold HTMLPlaceholder at 2 3. simpl.
  apply replaced_cons.
  - intros (rest & He & _). simpl in He. injection He as He.
    rewrite <-!app_assoc in He. simpl in He. by destruct (split_at_dollar _ _ _ _ Hk' Hk He).
  - apply (replaced_skip k v ("$"%char :: k' ++ s!"$>") s r); [|done].
    rewrite not_elem_of_cons, not_elem_of_app. split_and!; [done|done|]. simpl. set_solver.
Qed.

(** Replacing one placeholder fills its holes and no others. *)
Lemma replaced_template k v ps :
  plain_key k → plain_text v → Forall plain_piece ps →
  replaced (HTMLPlaceholder k) v (html_of ps) (html_of (fill {[k := v]} ps)).
Proof.
  intros Hk Hv Hps. induction Hps as [|p ps Hp Hps IH].
  { change (replaced (HTMLPlaceholder k) v [] []).
    apply replaced_none. intros i (rest & He & _). by rewrite drop_nil in He. }
  unfold html_of, fill in *. simpl. destruct p as [t|k']; simpl in *.
  - apply replaced_text; [done|by apply html_of_head|done].
  - destruct (decide (k' = k)) as [->|Hne].
    + rewrite lookup_singleton_eq. simpl.
      apply (replaced_one (HTMLPlaceholder k) v [] _ _); [simpl; lia|exact IH].
    + rewrite lookup_singleton_ne by congruence. simpl. by apply replaced_other.
Qed.

Lemma fill_plain k v ps :
  plain_text v → Forall plain_piece ps → Forall plain_piece (fill {[k := v]} ps).
Proof.
  intros Hv Hps. unfold fill. rewrite Forall_fmap. eapply Forall_impl; [exact Hps|].
  intros [t|k'] Hp; [done|].
  simpl. case_match eqn:Hl; [|done]. apply lookup_singleton_Some in Hl as [_ ->]. done.
Qed.

Lemma fill_insert k v params ps :
  params !! k = None → fill params (fill {[k := v]} ps) = fill (<[k := v]> params) ps.
Proof.
  intros Hk. unfold fill. rewrite <-list_fmap_compose. apply list_fmap_ext. intros _ [t|k'] _; [done|].
  simpl. destruct (decide (k' = k)) as [->|Hne].
  - by rewrite lookup_singleton_eq, lookup_insert_eq.
  - rewrite lookup_singleton_ne, lookup_insert_ne by congruence. done.
Qed.

Lemma fill_empty ps : fill ∅ ps = ps.
Proof.
  unfold fill. rewrite <-(list_fmap_id ps) at 2. apply list_fmap_ext. intros _ [t|k] _; [done|].
  simpl. by rewrite lookup_empty.
Qed.

Definition plain_params (params : Parameters) : Prop :=
  map_Forall (λ k v, plain_key k ∧ plain_text v) params.

Lemma replace_params_fill kvs ps :
  NoDup kvs.*1 → Forall (λ p, plain_key p.1 ∧ plain_text p.2) kvs → Forall plain_piece ps →
  replace_params (html_of ps) kvs = Done (html_of (fill (list_to_map kvs) ps)).
Proof.
  revert ps. induction kvs as [|[k v] kvs IH]; intros ps Hnd Hkv Hps; simpl.
  { by rewrite fill_empty. }
  simpl in Hnd. apply NoDup_cons in Hnd as [Hk Hnd]. apply Forall_cons in Hkv as [[Hpk Hpv] Hkv].
  simpl in *. pose proof (replaced_template k v ps Hpk Hpv Hps) as Hr.
  apply ReplaceAllSubstring_done in Hr; [|apply placeholder_not_nil]. rewrite Hr. simpl.
  rewrite IH; [|done|done|by apply fill_plain]. rewrite fill_insert; [done|].
  by apply not_elem_of_list_to_map.
Qed.

Lemma replace_params_total html kvs : ∃ r, replace_params html kvs = Done r.
Proof.
  revert html. induction kvs as [|[k v] kvs IH]; intros html; [by eexists|]. simpl.
  destruct (replaced_exists (HTMLPlaceholder k) v html (placeholder_not_nil k)) as [r Hr].
  apply ReplaceAllSubstring_done in Hr; [|apply placeholder_not_nil]. rewrite Hr. simpl. apply IH.
Qed.

Lemma iter_fill iter params ps :
  (∀ m, iter m ≡ₚ map_to_list m) → plain_params params → Forall plain_piece ps →
  replace_params (html_of ps) (iter params) = Done (html_of (fill params ps)).
Proof.
  intros Hperm Hp Hps. assert (NoDup (iter params).*1) as Hnd.
  { rewrite (Hperm params). apply NoDup_fst_map_to_list. }
  rewrite (replace_params_fill (iter params)); [|done| |done].
  - assert (list_to_map (iter params) = params) as ->; [|done].
    rewrite <-(list_to_map_to_list params) at 2. by apply list_to_map_proper, Hperm.
  - rewrite (Hperm params). apply map_Forall_to_list in Hp. eapply Forall_impl; [exact Hp|].
    by intros [k v].
Qed.

(** * Properties *)

(** [StringToMethod] inverts [MethodToString] up to the case of letters, and
    throws an invalid argument on every other text. *)
Theorem method_round_trip s m :
  (StringToMethod s = Done m ↔ StringToUpper s = MethodToString m) ∧
  StringToMethod (StringToLower (MethodToString m)) = Done m ∧
  ((∀ m', StringToUpper s ≠ MethodToString m') →
     StringToMethod s = Throw (Exn invalid_argument
       (s!"Invalid HTTP method: '" ++ StringToUpper s ++ s!"'"))).
Proof.
  assert (∀ m, table_find method_table (MethodToString m) = Some m) as Hfind by (by intros []).
  unfold StringToMethod. split_and!.
  - split; [|intros ->; by rewrite Hfind].
    destruct (table_find method_table (StringToUpper s)) as [m'|] eqn:Ht; [|done].
    intros [= ->]. apply table_find_Some in Ht. unfold method_table in Ht.
    rewrite !elem_of_cons, elem_of_nil in Ht. by destruct_or! Ht; simplify_eq.
  - by destruct m.
  - intros Hn. destruct (table_find method_table (StringToUpper s)) as [m'|] eqn:Ht; [|done].
    apply table_find_Some in Ht. unfold method_table in Ht.
    rewrite !elem_of_cons, elem_of_nil in Ht. destruct_or! Ht; simplify_eq.
    + by destruct (Hn Get).
    + by destruct (Hn Patch).
    + by destruct (Hn Post).
    + by destruct (Hn Delete).
    + by destruct (Hn Put).
Qed.

Lemma method_round_trip_witness :
  StringToMethod (s!"pAtCh") = Done Patch ∧
  StringToMethod (s!"head") = Throw (Exn invalid_argument (s!"Invalid HTTP method: 'HEAD'")).
Proof.
  split; [by apply (method_round_trip (s!"pAtCh") Patch)|].
  apply (method_round_trip (s!"head") Get). by intros [].
Defined.

(** the content type is that of the extension of the last path component,
    whatever the directory, the rest of the name and the case of the letters. *)
Theorem content_type_of_extension dir f e ty :
  ("."%char :: StringToLower e, ty) ∈ type_table →
  f ≠ [] → ("/"%char ∉ f ++ e) → ("."%char ∉ e) →
  ContentTypeByFileName (dir ++ "/"%char :: f ++ "."%char :: e) = ty ∧
  ContentTypeByFileName (f ++ "."%char :: e) = ty.
Proof.
  intros Hin Hf Hs Hd. assert (e ≠ []) as He.
  { intros ->. unfold type_table in Hin. simpl in Hin.
    rewrite !elem_of_cons, elem_of_nil in Hin. by destruct_or! Hin; simplify_eq. }
  assert (∀ k, (k ∈ type_table.*1) → c_str k = k) as Hc.
  { apply Forall_forall. by repeat constructor. }
  assert ("/"%char ∉ f ++ "."%char :: e) as Hs'.
  { rewrite not_elem_of_app in Hs. rewrite not_elem_of_app, not_elem_of_cons.
    by destruct Hs. }
  assert (∀ p, filename p = f ++ "."%char :: e → ContentTypeByFileName p = ty) as Hall.
  { intros p Hp. unfold ContentTypeByFileName. rewrite (extension_of f e p) by done.
    change (StringToLower ("."%char :: e)) with ("."%char :: StringToLower e).
    rewrite Hc by (apply list_elem_of_fmap; by exists ("."%char :: StringToLower e, ty)).
    rewrite (table_find_elem type_table _ ty); [done| |done].
    apply (bool_decide_unpack _). vm_compute. exact I. }
  split; apply Hall; [by apply filename_app|by apply filename_plain].
Qed.

Lemma content_type_of_extension_witness :
  ContentTypeByFileName (s!"/a.d/x.y.PnG") = s!"image/png" ∧
  ContentTypeByFileName (s!"x.y.PnG") = s!"image/png".
Proof.
  apply (content_type_of_extension (s!"/a.d") (s!"x.y") (s!"PnG") (s!"image/png"));
    [|discriminate|apply (bool_decide_unpack _); vm_compute; exact I..].
  apply (bool_decide_unpack _). vm_compute. exact I.
Defined.

(** [DecodeURLEncodedString] terminates on every text. It returns the one
    decoded text, which is not longer than the input, if every percent sign is
    followed by two characters that [std::stoi] accepts; otherwise it throws an
    invalid argument. *)
Theorem decode_correct s :
  (∃ r, DecodeURLEncodedString s = Done r ∧ decodes s r ∧
        (∀ r', decodes s r' → r' = r) ∧ length r ≤ length s ≤ 3 * length r) ∨
  (∃ w, DecodeURLEncodedString s = Throw (Exn invalid_argument w) ∧ ∀ r, ¬ decodes s r).
Proof.
  unfold DecodeURLEncodedString.
  destruct (decode_loop_total s (S (length s)) s []) as [[r Hr]|Hw]; [lia| |by right].
  left. exists r. split_and!.
  - by rewrite (decode_loop_decodes s s r Hr) by lia.
  - done.
  - intros r' Hr'. by apply (decodes_fun s).
  - apply (decodes_length _ _ Hr).
  - apply (decodes_length _ _ Hr).
Qed.

(** C35: decoding inverts percent encoding, whichever characters besides the
    percent sign are left as they are; all 256 characters can be encoded. *)
Theorem url_round_trip keep s :
  keep "%"%char = false → DecodeURLEncodedString (encode keep s) = Done s.
Proof.
  intros Hk. unfold DecodeURLEncodedString.
  by rewrite (decode_loop_decodes _ _ s (encode_decodes keep s Hk)) by lia.
Qed.

Lemma url_round_trip_witness :
  encode (λ c, bool_decide (c = "a"%char)) (s!"a b!") = s!"a%20%62%21" ∧
  DecodeURLEncodedString (encode (λ c, bool_decide (c = "a"%char)) (s!"a b!")) = Done (s!"a b!").
Proof. split; [vm_compute; reflexivity|]. apply (url_round_trip _ (s!"a b!")). reflexivity. Defined.

(** an escape is decoded as two hexadecimal digits; but [std::stoi] also
    takes a digit followed by anything, and a sign or a space followed by a
    digit, where the documentation promises an exception. *)
Theorem decode_character_exact a b :
  DecodeURLEncodedCharacter ["%"%char; a; b] =
    match hex_value a, hex_value b with
    | Some x, Some y => Done (char_of_int (16 * x + y))
    | Some x, None => Done (char_of_int x)
    | None, Some y =>
        if decide (a = "-"%char) then Done (char_of_int (- y))
        else if isspace a || bool_decide (a = "+"%char) then Done (char_of_int y)
        else Throw (Exn invalid_argument (s!"stoi"))
    | None, None => Throw (Exn invalid_argument (s!"stoi"))
    end.
Proof.
  rewrite decode_character_pair. unfold escape_value. repeat case_match; simplify_eq; done.
Qed.

(** filling a template: if neither the text of the page nor the values contain
    a dollar sign and the keys are ordinary, [PutParamIntoHTML] fills exactly the
    holes with a known key and leaves the others, in whatever order the
    parameters are iterated. *)
Theorem template_fill iter params ps :
  (∀ m, iter m ≡ₚ map_to_list m) → plain_params params → Forall plain_piece ps →
  PutParamIntoHTML iter (html_of ps) params = Done (html_of (fill params ps)).
Proof. apply iter_fill. Qed.

Lemma template_fill_witness :
  PutParamIntoHTML map_to_list (s!"<p><$name$> said <$msg$></p>") {[s!"name" := s!"mike"]} =
    Done (s!"<p>mike said <$msg$></p>").
Proof.
  refine (eq_trans _ (eq_trans (template_fill map_to_list {[s!"name" := s!"mike"]}
    [Text (s!"<p>"); Hole (s!"name"); Text (s!" said "); Hole (s!"msg"); Text (s!"</p>")]
    _ _ _) _)); [vm_compute; reflexivity| | | |vm_compute; reflexivity].
  - intros m. reflexivity.
  - intros k v Hk. apply lookup_singleton_Some in Hk as [<- <-].
    split; [split|]; apply (bool_decide_unpack _); vm_compute; exact I.
  - repeat constructor; apply (bool_decide_unpack _); vm_compute; exact I.
Defined.

(** a value that contains a placeholder is expanded again or not, depending
    on the iteration order of the parameters: for some page and parameters two
    orders that the container may have give different results. *)
Theorem template_injection :
  ∃ html params o1 o2, o1 ≡ₚ map_to_list params ∧ o2 ≡ₚ map_to_list params ∧
    replace_params html o1 = Done (s!"hi hi") ∧ replace_params html o2 = Done (s!"<$msg$> hi").
Proof.
  set (params := <[s!"user" := s!"<$msg$>"]> {[s!"msg" := s!"hi"]} : Parameters).
  exists (s!"<$user$> <$msg$>"), params,
    [(s!"user", s!"<$msg$>"); (s!"msg", s!"hi")], [(s!"msg", s!"hi"); (s!"user", s!"<$msg$>")].
  assert ([(s!"user", s!"<$msg$>"); (s!"msg", s!"hi")] ≡ₚ map_to_list params) as Hp.
  { unfold params. rewrite map_to_list_insert, map_to_list_singleton by done. done. }
  split_and!; [done| |vm_compute; reflexivity..]. rewrite <-Hp. apply Permutation_swap.
Qed.
