(* ===== verification/Io.v ===== *)
(** The I/O objects of [include/io.h] and [src/io/io.cpp], which move bytes
    between a [Buffer] and a device: the null device, string streams and file
    descriptors. [IOBuffer] of [containers/buffer.h] calls them through the
    interface [IReadWriter], here a type class. *)

From S2P Require Import Prelude Buffer Util Http.

(** * The interface *)

(** [WriteTo] writes data of the device to a buffer, [ReadFrom] lets the device
    read from it; both return a size. [S] is the state of the device. *)
Class IReadWriter (S : Type) := {
  WriteTo : M (Buffer * S) N;
  ReadFrom : M (Buffer * S) N
}.

(** [IOBuffer::ReadFrom] and [IOBuffer::WriteTo]: the same, seen from the
    buffer. *)
Definition IOBuffer_ReadFrom {S} (io : IReadWriter S) : M (Buffer * S) N := WriteTo.
Definition IOBuffer_WriteTo {S} (io : IReadWriter S) : M (Buffer * S) N := ReadFrom.

Definition on_buf {S A} (m : M Buffer A) : M (Buffer * S) A :=
  zoom fst (λ b s, (b, s.2)) m.

(** * Null *)

Definition Null_WriteTo : M (Buffer * unit) N :=
  size ← on_buf (gets WritableSize);
  on_buf (HasWritten size);;
  mret size.

Definition Null_ReadFrom : M (Buffer * unit) N := on_buf RetrieveAll.

#[export] Instance Null : IReadWriter unit := {|
  WriteTo := Null_WriteTo;
  ReadFrom := Null_ReadFrom
|}.

(** * String streams *)

(** The text of [read_] that has not been extracted yet and whether the end was
    reached, after which the stream is no longer good; the text of [write_]. *)
Record Streams := mkStreams {
  unread : str;
  at_end : bool;
  written : str
}.

Fixpoint take_word (s : str) : str :=
  match s with
  | c :: s' => if isspace c then [] else c :: take_word s'
  | [] => []
  end.

(** [read_ >> str]: skips white space, then takes the characters up to the next
    white space. *)
Definition extract_word : M Streams str :=
  st ← get;
  if at_end st then mret []
  else
    let s := skip_spaces (unread st) in
    let word := take_word s in
    let rest := drop (length word) s in
    put (mkStreams rest (bool_decide (rest = [])) (written st));;
    mret word.

Definition on_dev {S A} (m : M S A) : M (Buffer * S) A :=
  zoom snd (λ s p, (p.1, s)) m.

Definition StringStream_WriteTo : M (Buffer * Streams) N :=
  s ← on_dev extract_word;
  on_buf (Append_str s None);;
  mret (len s).

Definition StringStream_ReadFrom : M (Buffer * Streams) N :=
  s ← on_buf RetrieveAllToString;
  on_dev (modify (λ st, mkStreams (unread st) (at_end st) (written st ++ s)));;
  mret (len s).

#[export] Instance StringStream : IReadWriter Streams := {|
  WriteTo := StringStream_WriteTo;
  ReadFrom := StringStream_ReadFrom
|}.

(** * File descriptors *)

(** The additional buffer on the stack. *)
Definition ext_size : N := 65536.

Section FileDescriptor.
Context {W : Type}.

(** The system calls. [readv fd n1 n2] fills a block of [n1] bytes and then one
    of [n2] bytes and gives the bytes read; [write fd bytes] gives the number of
    bytes taken. Failures give the [errno]. *)
Context (readv : Z → N → N → W → (Z + str) * W).
Context (write : Z → str → W → (Z + N) * W).
Context (strerror : Z → str).
Context (read_ write_ : Z).

(** The bytes [readv] puts into the first block, the writable space. *)
Definition fill_writable (bytes : str) : M Buffer unit :=
  b ← get;
  l ← deref (copy_from (take (N.to_nat (WritableSize b)) bytes) (N.to_nat (write_pos_ b)) (buf_ b));
  put (mkBuffer l (read_pos_ b) (write_pos_ b)).

Definition FileDescriptor_WriteTo : M (Buffer * W) N :=
  buf_bytes ← on_buf WritableBytes;
  r ← on_dev (λ w, let '(r, w') := readv read_ (len buf_bytes) ext_size w in (Done r, w'));
  match r with
  | inl errno => throw (system_error errno) (strerror errno)
  | inr bytes =>
      on_buf (fill_writable bytes);;
      let size := len bytes in
      (if (size <=? len buf_bytes)%N then on_buf (HasWritten size)
       else
         on_buf (HasWritten (len buf_bytes));;
         on_buf (Append (drop (length buf_bytes) bytes)));;
      mret size
  end.

Definition FileDescriptor_ReadFrom : M (Buffer * W) N :=
  bytes ← on_buf ReadableBytes;
  r ← on_dev (λ w, let '(r, w') := write write_ bytes w in (Done r, w'));
  match r with
  | inr size => on_buf (Retrieve size);; mret size
  | inl errno => throw (system_error errno) (strerror errno)
  end.

Definition FileDescriptor : IReadWriter W := {|
  WriteTo := FileDescriptor_WriteTo;
  ReadFrom := FileDescriptor_ReadFrom
|}.
End FileDescriptor.

(** * The contract of the interface *)

(** What a device promises: [WriteTo] adds as many bytes as it says behind the
    readable ones, [ReadFrom] removes as many as it says from the front; an
    exception leaves the buffer as it was. [io_bound] limits what one [WriteTo]
    appends beyond the writable space. *)
Class IOLaws (S : Type) `{!IReadWriter S} (io_bound : S → N) : Prop := {
  io_WriteTo b s : wf b → (len (buf_ b) + io_bound s ≤ max_size)%N →
    ∃ r b' s', WriteTo (b, s) = (r, (b', s')) ∧ wf b' ∧
      ((∃ d, r = Done (len d) ∧ readable b' = readable b ++ d) ∨
       (∃ e, r = Throw e ∧ b' = b));
  io_ReadFrom b s : wf b →
    ∃ r b' s', ReadFrom (b, s) = (r, (b', s')) ∧ wf b' ∧
      ((∃ n, r = Done n ∧ (n ≤ len (readable b))%N ∧
             readable b' = drop (N.to_nat n) (readable b)) ∨
       (∃ e, r = Throw e ∧ b' = b))
}.

(** * Lemmas *)

Lemma on_buf_ok {S A} (m : M Buffer A) b (s : S) a b' :
  m b = (Done a, b') → on_buf m (b, s) = (Done a, (b', s)).
Proof. unfold on_buf, zoom. simpl. by intros ->. Qed.

Lemma on_dev_ok {S A} (m : M S A) b (s : S) a s' :
  m s = (Done a, s') → on_dev m (b, s) = (Done a, (b, s')).
Proof. unfold on_dev, zoom. simpl. by intros ->. Qed.

(** Writing directly into the writable space. *)
Lemma fill_writable_ok b bytes :
  wf b →
  ∃ b', returns (fill_writable bytes) b tt b' ∧ wf b' ∧
    buf_ b' = take (N.to_nat (write_pos_ b)) (buf_ b) ++
              take (N.to_nat (WritableSize b)) bytes ++
              drop (N.to_nat (write_pos_ b) + length (take (N.to_nat (WritableSize b)) bytes)) (buf_ b) ∧
    read_pos_ b' = read_pos_ b ∧ write_pos_ b' = write_pos_ b ∧ len (buf_ b') = len (buf_ b).
Proof.
  intros Hwf. pose proof (WritableSize_eq b Hwf) as Hws. pose proof Hwf as [Hr Hw Hs].
  unfold returns, fill_writable. mstep. set (d := take _ bytes).
  assert (N.to_nat (write_pos_ b) + length d ≤ length (buf_ b)) as Hd
    by (unfold d; rewrite Hws; len_lia).
  mrun_by @deref_some ltac:(by apply copy_from_spec).
  set (l := _ ++ d ++ _). assert (len l = len (buf_ b)) as Hl by (unfold l; len_lia).
  eexists. split; [reflexivity|]. split_and!; simpl; try done.
  split; simpl; [done|by rewrite Hl|by rewrite Hl].
Qed.

(** The bytes counted as written after such a direct write. *)
Lemma filled_readable b d n l :
  wf b → N.to_nat n = length d → (n ≤ WritableSize b)%N →
  l = take (N.to_nat (write_pos_ b)) (buf_ b) ++ d ++
      drop (N.to_nat (write_pos_ b) + length d) (buf_ b) →
  readable (mkBuffer l (read_pos_ b) (write_pos_ b + n)) = readable b ++ d.
Proof.
  intros Hwf Hn Hle ->. pose proof (WritableSize_eq b Hwf) as Hws. pose proof Hwf as [Hr Hw Hs].
  unfold readable; simpl. rewrite drop_app_le, skipn_firstn_comm by len_lia.
  rewrite take_app_ge by len_lia. f_equal.
  rewrite take_app_le by len_lia. apply take_ge. len_lia.
Qed.

Lemma WritableBytes_ok b :
  wf b → ∃ bs, returns WritableBytes b bs b ∧ len bs = WritableSize b.
Proof.
  intros Hwf. pose proof (WritableSize_eq b Hwf) as Hws. pose proof Hwf as [Hr Hw Hs].
  unfold returns, WritableBytes, span. mstep. rewrite decide_True by lia.
  eexists. split; [reflexivity|]. rewrite Hws. len_lia.
Qed.

Lemma RetrieveAll_ok b : wf b → returns RetrieveAll b (len (readable b)) (mkBuffer (buf_ b) 0 0).
Proof.
  intros Hwf. unfold returns, RetrieveAll. mstep. rewrite (ReadableSize_wf b Hwf).
  by mrun (Clear_spec b).
Qed.

Lemma RetrieveAllToString_ok b :
  wf b → returns RetrieveAllToString b (readable b) (mkBuffer (buf_ b) 0 0).
Proof.
  intros Hwf. unfold returns, RetrieveAllToString.
  rewrite (bind_done ReadableString _ _ _ _ (ReadableBytes_wf b Hwf)).
  by mrun (Clear_spec b).
Qed.

Section FileDescriptorLemmas.
Context {W : Type}.
Context (readv : Z → N → N → W → (Z + str) * W).
Context (write : Z → str → W → (Z + N) * W).
Context (strerror : Z → str).
Context (read_ write_ : Z).
Abbreviation FD_WriteTo := (FileDescriptor_WriteTo readv strerror read_).
Abbreviation FD_ReadFrom := (FileDescriptor_ReadFrom write strerror write_).

(** The counting part of [WriteTo] after a successful [readv]. *)
Lemma count_written b bytes :
  wf b → fits b bytes →
  ∃ b', wf b' ∧ readable b' = readable b ++ bytes ∧ (write_pos_ b' ≤ write_pos_ b + len bytes)%N ∧
    ∀ (w : W) (bs : str), len bs = WritableSize b →
      (on_buf (fill_writable bytes);;
       (if (len bytes <=? len bs)%N then on_buf (HasWritten (len bytes))
        else on_buf (HasWritten (len bs));; on_buf (Append (drop (length bs) bytes)));;
       mret (len bytes)) (b, w) = (Done (len bytes), (b', w)).
Proof.
  intros Hwf Hfit. destruct (fill_writable_ok b bytes Hwf) as (b1 & H1 & Hwf1 & Hb1 & Hr1 & Hw1 & Hl1).
  pose proof (WritableSize_eq b Hwf) as Hws. pose proof Hwf as [Hr Hw Hs].
  assert (∀ n, (n ≤ WritableSize b)%N → returns (HasWritten n) b1 tt
    (mkBuffer (buf_ b1) (read_pos_ b1) (write_pos_ b1 + n))) as HHW.
  { intros n Hn. apply HasWritten_wf; [done|]. rewrite Hl1, Hw1. lia. }
  assert (∀ n, (n ≤ WritableSize b)%N →
    wf (mkBuffer (buf_ b1) (read_pos_ b1) (write_pos_ b1 + n))) as Hwf2.
  { intros n Hn. rewrite Hr1, Hw1. split; simpl; rewrite ?Hl1; lia. }
  destruct (N.leb_spec (len bytes) (WritableSize b)) as [Hle|Hgt].
  - eexists. split; [apply (Hwf2 _ Hle)|]. split; [|split].
    + rewrite Hr1, Hw1. apply filled_readable; [done|len_lia|done|].
      rewrite (take_ge bytes) in Hb1 by len_lia. done.
    + simpl. rewrite Hw1. lia.
    + intros w bs Hbs. mrun (on_buf_ok _ _ w _ _ H1). rewrite Hbs, (proj2 (N.leb_le _ _)) by done.
      by mrun (on_buf_ok _ _ w _ _ (HHW _ Hle)).
  - set (b2 := mkBuffer (buf_ b1) (read_pos_ b1) (write_pos_ b1 + WritableSize b)).
    destruct (Append_wf b2 (drop (N.to_nat (WritableSize b)) bytes)) as (b3 & H3 & Hwf3 & Hc3 & Hw3 & _).
    { apply Hwf2. lia. } { unfold fits, b2 in *; simpl. rewrite Hw1. len_lia. }
    exists b3. split; [done|]. split; [|split].
    + rewrite Hc3. unfold b2. rewrite Hr1, Hw1.
      rewrite (filled_readable b (take (N.to_nat (WritableSize b)) bytes)); [|done|len_lia|lia|done].
      by rewrite <-app_assoc, take_drop.
    + unfold b2 in Hw3; simpl in Hw3. rewrite Hw1 in Hw3. len_lia.
    + intros w bs Hbs. mrun (on_buf_ok _ _ w _ _ H1). rewrite Hbs, (proj2 (N.leb_gt _ _)) by done.
      erewrite bind_done.
      2:{ erewrite bind_done by (apply on_buf_ok, HHW; lia). apply on_buf_ok.
          replace (length bs) with (N.to_nat (WritableSize b)) by len_lia. exact H3. }
      done.
Qed.

Lemma FD_WriteTo_done b w bytes w' :
  wf b → readv read_ (WritableSize b) ext_size w = (inr bytes, w') → fits b bytes →
  ∃ b', returns FD_WriteTo (b, w) (len bytes) (b', w') ∧ wf b' ∧
    readable b' = readable b ++ bytes ∧ (write_pos_ b' ≤ write_pos_ b + len bytes)%N.
Proof.
  intros Hwf Hv Hfit. destruct (count_written b bytes Hwf Hfit) as (b' & Hwf' & Hc & Hw & Hrun).
  exists b'. split_and!; try done. destruct (WritableBytes_ok b Hwf) as (bs & Hbs & Hl).
  unfold returns, FileDescriptor_WriteTo. mrun (on_buf_ok _ _ w _ _ Hbs).
  mrun (on_dev_ok (λ w0, let '(r, w'0) := readv read_ (len bs) ext_size w0 in (Done r, w'0))
          b w (inr bytes) w' ltac:(by rewrite Hl, Hv)).
  by apply Hrun.
Qed.

Lemma FD_WriteTo_error b w errno w' :
  wf b → readv read_ (WritableSize b) ext_size w = (inl errno, w') →
  FD_WriteTo (b, w) = (Throw (Exn (system_error errno) (strerror errno)), (b, w')).
Proof.
  intros Hwf Hv. destruct (WritableBytes_ok b Hwf) as (bs & Hbs & Hl).
  unfold FileDescriptor_WriteTo. mrun (on_buf_ok _ _ w _ _ Hbs).
  by mrun (on_dev_ok (λ w0, let '(r, w'0) := readv read_ (len bs) ext_size w0 in (Done r, w'0))
          b w (inl errno) w' ltac:(by rewrite Hl, Hv)).
Qed.

Lemma FD_ReadFrom_done b w n w' :
  wf b → write write_ (readable b) w = (inr n, w') → (n ≤ len (readable b))%N →
  ∃ b', returns FD_ReadFrom (b, w) n (b', w') ∧ wf b' ∧
    readable b' = drop (N.to_nat n) (readable b) ∧ write_pos_ b' = write_pos_ b.
Proof.
  intros Hwf Hv Hn. destruct (Retrieve_wf b n Hwf Hn) as (H & Hwf' & Hc).
  eexists. split_and!; [|exact Hwf'|exact Hc|done].
  unfold returns, FileDescriptor_ReadFrom. mrun (on_buf_ok _ _ w _ _ (ReadableBytes_wf b Hwf)).
  mrun (on_dev_ok (λ w0, let '(r, w'0) := write write_ (readable b) w0 in (Done r, w'0))
          b w (inr n) w' ltac:(cbv beta; by rewrite Hv)).
  by mrun (on_buf_ok _ _ w' _ _ H).
Qed.

Lemma FD_ReadFrom_error b w errno w' :
  wf b → write write_ (readable b) w = (inl errno, w') →
  FD_ReadFrom (b, w) = (Throw (Exn (system_error errno) (strerror errno)), (b, w')).
Proof.
  intros Hwf Hv. unfold FileDescriptor_ReadFrom.
  mrun (on_buf_ok _ _ w _ _ (ReadableBytes_wf b Hwf)).
  by mrun (on_dev_ok (λ w0, let '(r, w'0) := write write_ (readable b) w0 in (Done r, w'0))
          b w (inl errno) w' ltac:(cbv beta; by rewrite Hv)).
Qed.

(** The documented bounds of the system calls. *)
Definition readv_bounded : Prop := ∀ fd n1 n2 w d w', readv fd n1 n2 w = (inr d, w') → (len d ≤ n1 + n2)%N.
Definition write_bounded : Prop := ∀ fd d w n w', write fd d w = (inr n, w') → (n ≤ len d)%N.

Lemma FileDescriptor_laws :
  readv_bounded → write_bounded →
  @IOLaws W (FileDescriptor readv write strerror read_ write_) (λ _, ext_size).
Proof.
  intros Hrv Hwr. split.
  - intros b w Hwf Hroom. simpl. pose proof (WritableSize_eq b Hwf) as Hws. pose proof Hwf as [Hr Hw Hs].
    destruct (readv read_ (WritableSize b) ext_size w) as [[errno|bytes] w'] eqn:Hv.
    + eexists _, b, w'. split; [by apply FD_WriteTo_error|]. split; [done|]. right. by eexists.
    + pose proof (Hrv _ _ _ _ _ _ Hv) as Hl.
      destruct (FD_WriteTo_done b w bytes w' Hwf Hv) as (b' & H & Hwf' & Hc & _).
      { unfold fits. rewrite Hws in Hl. lia. }
      eexists _, b', w'. split; [exact H|]. split; [done|]. left. by exists bytes.
  - intros b w Hwf. simpl. destruct (write write_ (readable b) w) as [[errno|n] w'] eqn:Hv.
    + eexists _, b, w'. split; [by apply FD_ReadFrom_error|]. split; [done|]. right. by eexists.
    + pose proof (Hwr _ _ _ _ _ Hv) as Hn.
      destruct (FD_ReadFrom_done b w n w' Hwf Hv Hn) as (b' & H & Hwf' & Hc & _).
      eexists _, b', w'. split; [exact H|]. split; [done|]. left. by exists n.
Qed.
End FileDescriptorLemmas.

(** ** The other devices *)

Lemma Null_laws : IOLaws unit (λ _, 0%N).
Proof.
  split; intros b [] Hwf.
  - intros _. simpl. unfold Null_WriteTo. mrun (on_buf_ok (gets WritableSize) b tt _ b eq_refl).
    pose proof (WritableSize_eq b Hwf) as Hws. pose proof Hwf as [Hr Hw Hs].
    mrun (on_buf_ok _ _ tt _ _ (HasWritten_wf b Hwf (WritableSize b) ltac:(lia))).
    eexists _, _, tt. split; [reflexivity|]. split; [split; simpl; lia|]. left.
    exists (drop (N.to_nat (write_pos_ b)) (buf_ b)). split; [f_equal; len_lia|].
    rewrite <-(filled_readable b (drop (N.to_nat (write_pos_ b)) (buf_ b)) (WritableSize b) (buf_ b));
      [done|done|len_lia|done|].
    rewrite (drop_ge _ (_ + _)), app_nil_r, take_drop by len_lia. done.
  - simpl. unfold Null_ReadFrom. eexists _, _, tt.
    split; [apply on_buf_ok, RetrieveAll_ok, Hwf|]. split; [by apply wf_cleared|]. left.
    exists (len (readable b)). split; [done|]. split; [done|].
    rewrite (proj2 (wf_cleared b Hwf)), drop_ge; [done|len_lia].
Qed.

Lemma take_word_length s : length (take_word s) ≤ length s.
Proof. induction s as [|c s IH]; simpl; [lia|]. case_match; simpl; lia. Qed.

Lemma skip_spaces_length s : length (skip_spaces s) ≤ length s.
Proof. induction s as [|c s IH]; simpl; [lia|]. case_match; simpl; lia. Qed.

(** What one extraction gives and leaves. *)
Definition next_word (st : Streams) : str := if at_end st then [] else take_word (skip_spaces (unread st)).
Definition after_word (st : Streams) : Streams :=
  if at_end st then st
  else let rest := drop (length (next_word st)) (skip_spaces (unread st)) in
       mkStreams rest (bool_decide (rest = [])) (written st).

Lemma extract_word_ok st : returns extract_word st (next_word st) (after_word st).
Proof.
  unfold returns, extract_word, next_word, after_word. mstep.
  destruct (at_end st) eqn:He; [done|]. unfold next_word. by rewrite He.
Qed.

Lemma next_word_length st : (len (next_word st) ≤ len (unread st))%N.
Proof.
  unfold next_word, len. destruct (at_end st); [simpl; lia|].
  pose proof (take_word_length (skip_spaces (unread st))).
  pose proof (skip_spaces_length (unread st)). lia.
Qed.

Lemma StringStream_WriteTo_ok b st :
  wf b → fits b (next_word st) →
  ∃ b', returns StringStream_WriteTo (b, st) (len (next_word st)) (b', after_word st) ∧ wf b' ∧
    readable b' = readable b ++ next_word st.
Proof.
  intros Hwf Hfit. destruct (Append_str_wf b (next_word st) None Hwf) as (b' & H & Hwf' & Hc & _).
  { by rewrite app_nil_r. }
  exists b'. split_and!; [|done|by rewrite Hc, app_nil_r].
  unfold returns, StringStream_WriteTo. mrun (on_dev_ok _ b _ _ _ (extract_word_ok st)).
  by mrun (on_buf_ok _ _ (after_word st) _ _ H).
Qed.

Lemma StringStream_ReadFrom_ok b st :
  wf b →
  returns StringStream_ReadFrom (b, st) (len (readable b))
    (mkBuffer (buf_ b) 0 0, mkStreams (unread st) (at_end st) (written st ++ readable b)).
Proof.
  intros Hwf. unfold returns, StringStream_ReadFrom.
  by mrun (on_buf_ok _ _ st _ _ (RetrieveAllToString_ok b Hwf)).
Qed.

Lemma StringStream_laws : IOLaws Streams (λ st, len (unread st)).
Proof.
  split; intros b st Hwf.
  - intros Hroom. pose proof (next_word_length st) as Hl. pose proof Hwf as [Hr Hw Hs].
    destruct (StringStream_WriteTo_ok b st Hwf) as (b' & H & Hwf' & Hc); [unfold fits; lia|].
    eexists _, b', _. split; [exact H|]. split; [done|]. left. by eexists.
  - eexists _, _, _. split; [by apply StringStream_ReadFrom_ok|]. split; [by apply wf_cleared|].
    left. exists (len (readable b)). split; [done|]. split; [done|].
    rewrite (proj2 (wf_cleared b Hwf)), drop_ge; [done|len_lia].
Qed.

(** * Properties *)

(** every device keeps the contract of the interface: a successful [WriteTo]
    adds exactly as many bytes as it returns, a successful [ReadFrom] takes
    exactly as many from the front, and an exception leaves the buffer alone. *)
Theorem io_contract {W} readv write strerror fd_r fd_w :
  readv_bounded (W := W) readv → write_bounded (W := W) write →
  IOLaws unit (λ _, 0%N) ∧ IOLaws Streams (λ st, len (unread st)) ∧
  @IOLaws W (FileDescriptor readv write strerror fd_r fd_w) (λ _, ext_size).
Proof. intros Hr Hw. split; [apply Null_laws|]. split; [apply StringStream_laws|by apply FileDescriptor_laws]. Qed.

(** the file descriptor on every branch: [WriteTo] puts exactly the bytes
    that [readv] delivered behind the readable ones, whether or not they fit in
    the writable space, and [ReadFrom] removes exactly the bytes that [write]
    took; the [errno] of a failed call is thrown and the buffer unchanged. *)
Theorem fd_transfer {W} readv write strerror fd_r fd_w b (w : W) :
  wf b →
  (∀ bytes w', readv fd_r (WritableSize b) ext_size w = (inr bytes, w') → fits b bytes →
     ∃ b', returns (IOBuffer_ReadFrom (FileDescriptor readv write strerror fd_r fd_w)) (b, w)
             (len bytes) (b', w') ∧ wf b' ∧ readable b' = readable b ++ bytes) ∧
  (∀ errno w', readv fd_r (WritableSize b) ext_size w = (inl errno, w') →
     IOBuffer_ReadFrom (FileDescriptor readv write strerror fd_r fd_w) (b, w) =
       (Throw (Exn (system_error errno) (strerror errno)), (b, w'))) ∧
  (∀ n w', write fd_w (readable b) w = (inr n, w') → (n ≤ len (readable b))%N →
     ∃ b', returns (IOBuffer_WriteTo (FileDescriptor readv write strerror fd_r fd_w)) (b, w)
             n (b', w') ∧ wf b' ∧ readable b' = drop (N.to_nat n) (readable b)) ∧
  (∀ errno w', write fd_w (readable b) w = (inl errno, w') →
     IOBuffer_WriteTo (FileDescriptor readv write strerror fd_r fd_w) (b, w) =
       (Throw (Exn (system_error errno) (strerror errno)), (b, w'))).
Proof.
  intros Hwf. split_and!.
  - intros bytes w' Hv Hfit.
    destruct (FD_WriteTo_done readv strerror fd_r b w bytes w' Hwf Hv Hfit) as (b' & ? & ? & ? & _).
    by exists b'.
  - intros errno w'. by apply FD_WriteTo_error.
  - intros n w' Hv Hn. destruct (FD_ReadFrom_done write strerror fd_w b w n w' Hwf Hv Hn) as (b' & ? & ? & ? & _).
    by exists b'.
  - intros errno w'. by apply FD_ReadFrom_error.
Qed.

(** A kernel with one pipe: the world is the text in the pipe; [EAGAIN] when it is
    empty. *)
Definition pipe_readv (fd : Z) (n1 n2 : N) (w : str) : (Z + str) * str :=
  match w with
  | [] => (inl 11%Z, w)
  | _ => (inr (take (N.to_nat (n1 + n2)) w), drop (N.to_nat (n1 + n2)) w)
  end.
Definition pipe_write (fd : Z) (d : str) (w : str) : (Z + N) * str := (inr (len d), w ++ d).
Definition pipe_strerror (e : Z) : str := s!"Resource temporarily unavailable".
Definition pipe_io : IReadWriter str := FileDescriptor pipe_readv pipe_write pipe_strerror 0%Z 1%Z.

Lemma io_contract_witness :
  IOLaws unit (λ _, 0%N) ∧ IOLaws Streams (λ st, len (unread st)) ∧ @IOLaws str pipe_io (λ _, ext_size).
Proof.
  apply (io_contract pipe_readv pipe_write pipe_strerror 0%Z 1%Z).
  - intros fd n1 n2 w d w'. unfold pipe_readv. destruct w as [|c w]; [done|].
    intros [= <- _]. rewrite <-(N2Nat.id (n1 + n2)) at 2. unfold len. rewrite length_take. lia.
  - intros fd d w n w' [= <- _]. lia.
Defined.

Lemma fd_transfer_witness :
  let b := mkBuffer (s!"ab..") 1%N 2%N in
  (∃ b', returns (IOBuffer_ReadFrom pipe_io) (b, s!"hello") 5%N (b', []) ∧ wf b' ∧
     readable b' = s!"bhello") ∧
  IOBuffer_ReadFrom pipe_io (b, []) =
    (Throw (Exn (system_error 11) (s!"Resource temporarily unavailable")), (b, [])) ∧
  (∃ b', returns (IOBuffer_WriteTo pipe_io) (b, s!"x") 1%N (b', s!"xb") ∧ wf b' ∧ readable b' = []).
Proof.
  set (b := mkBuffer (s!"ab..") 1%N 2%N). assert (wf b) as Hwf by (split; vm_compute; congruence).
  split_and!.
  - refine (proj1 (fd_transfer pipe_readv pipe_write pipe_strerror 0%Z 1%Z b (s!"hello") Hwf)
      (s!"hello") [] _ _); vm_compute; congruence.
  - refine (proj1 (proj2 (fd_transfer pipe_readv pipe_write pipe_strerror 0%Z 1%Z b [] Hwf))
      11%Z [] _). vm_compute. reflexivity.
  - refine (proj1 (proj2 (proj2 (fd_transfer pipe_readv pipe_write pipe_strerror 0%Z 1%Z b
      (s!"x") Hwf))) 1%N (s!"xb") _ _); vm_compute; congruence.
Defined.

(** a string stream hands over its next word, the text between white space,
    and takes the whole readable text; at the end of the stream it hands over
    nothing. *)
Theorem string_stream_transfer b st :
  wf b → fits b (next_word st) →
  (∃ b', returns (IOBuffer_ReadFrom StringStream) (b, st) (len (next_word st)) (b', after_word st) ∧
     wf b' ∧ readable b' = readable b ++ next_word st) ∧
  (∃ b', returns (IOBuffer_WriteTo StringStream) (b, st) (len (readable b))
       (b', mkStreams (unread st) (at_end st) (written st ++ readable b)) ∧
     wf b' ∧ readable b' = []) ∧
  (at_end st = false → Forall (λ c, isspace c = false) (next_word st) ∧
     ∃ sp, Forall (λ c, isspace c = true) sp ∧ unread st = sp ++ next_word st ++ unread (after_word st) ∧
       (∀ c rest, unread (after_word st) = c :: rest → isspace c = true)).
Proof.
  intros Hwf Hfit. split_and!.
  - by apply StringStream_WriteTo_ok.
  - eexists. split; [by apply StringStream_ReadFrom_ok|]. by apply wf_cleared.
  - intros He. unfold after_word, next_word. rewrite He. simpl.
    assert (∀ s, Forall (λ c, isspace c = false) (take_word s) ∧
      s = take_word s ++ drop (length (take_word s)) s ∧
      ∀ c rest, drop (length (take_word s)) s = c :: rest → isspace c = true) as Hw.
    { clear. induction s as [|c s (H1 & H2 & H3)]; [done|]. simpl.
      destruct (isspace c) eqn:Hc; simpl.
      - split_and!; [done|done|]. by intros c' rest [= <- _].
      - split_and!; [by constructor|by f_equal|done]. }
    destruct (Hw (skip_spaces (unread st))) as (H1 & H2 & H3). split; [done|].
    assert (∀ s, ∃ sp, Forall (λ c, isspace c = true) sp ∧ s = sp ++ skip_spaces s) as Hsp.
    { clear. induction s as [|c s (sp & H1 & H2)]; [by exists []|]. simpl.
      destruct (isspace c) eqn:Hc; [|by exists []].
      exists (c :: sp). split; [by constructor|]. simpl. by f_equal. }
    destruct (Hsp (unread st)) as (sp & Hs1 & Hs2). exists sp. split; [done|].
    split; [|done]. by rewrite <-H2.
Qed.

Lemma string_stream_transfer_witness :
  let b := mkBuffer (s!"ab..") 1%N 2%N in let st := mkStreams (s!"  hi you") false (s!">") in
  (∃ b', returns (IOBuffer_ReadFrom StringStream) (b, st) 2%N (b', mkStreams (s!" you") false (s!">")) ∧
     wf b' ∧ readable b' = s!"bhi") ∧
  (∃ b', returns (IOBuffer_WriteTo StringStream) (b, st) 1%N
       (b', mkStreams (s!"  hi you") false (s!">b")) ∧ wf b' ∧ readable b' = []).
Proof.
  intros b st. assert (wf b) as Hwf by (split; vm_compute; congruence).
  split; [refine (proj1 (string_stream_transfer b st Hwf _))
         |refine (proj1 (proj2 (string_stream_transfer b st Hwf _)))]; vm_compute; congruence.
Defined.
