(* ===== verification/Ip.v ===== *)
(** IP addresses: [include/ip.h] and [src/ip/ip.cpp].  The classes [IPv4Addr]
    and [IPv6Addr] differ in the version and in the sizes only, and are one
    definition here with the version as its argument. *)

From S2P Require Import Prelude.

Inductive Version := V4 | V6.
#[export] Instance Version_eq : EqDecision Version.
Proof. solve_decision. Defined.

(** [AF_INET] and [AF_INET6] *)
Definition version (v : Version) : N := match v with V4 => 2 | V6 => 10 end.
Definition loop_back (v : Version) : str := match v with V4 => s!"127.0.0.1" | V6 => s!"::1" end.
Definition any (v : Version) : str := match v with V4 => s!"0.0.0.0" | V6 => s!"::" end.
Definition max_length (v : Version) : N := match v with V4 => 15 | V6 => 45 end.

(** [sockaddr_in] and [sockaddr_in6] with the fields that the program uses; the
    port is in network order, and the address a number of 32 or 128 bits. *)
Record RawType := mkRaw { sin_family : N; sin_port : N; sin_addr : N }.

Record IPAddr := mkIPAddr { ip_ : str; raw_ : RawType }.

(** [htons] and [ntohs] of a little-endian machine, on 16 bits. *)
Definition htons (port : N) : N :=
  N.lor (N.shiftl (N.land port 255) 8) (N.land (N.shiftr port 8) 255).
Definition ntohs : N → N := htons.

Section Ip.
(** [inet_ntop] with the size of the buffer, and [inet_pton]; a failure leaves
    an [errno], which [strerror] names. *)
Context (inet_ntop : Version → N → N → Z + str) (inet_pton : Version → str → Z + N) (strerror : Z → str).

Definition ThrowLastSystemError {A} (errno : Z) : outcome A := Throw (Exn (system_error errno) (strerror errno)).

(** The constructor from a socket address. *)
Definition of_raw (v : Version) (addr : RawType) : outcome IPAddr :=
  match inet_ntop v (sin_addr addr) (max_length v + 1) with
  | inr ip => Done (mkIPAddr (c_str ip) addr)
  | inl errno => ThrowLastSystemError errno
  end.

(** The constructor from a text and a port. *)
Definition of_text (v : Version) (ip : str) (port : N) : outcome IPAddr :=
  match inet_pton v (c_str ip) with
  | inr addr => Done (mkIPAddr ip (mkRaw (version v) (htons port) addr))
  | inl errno => ThrowLastSystemError errno
  end.

Definition IPAddr_Version (v : Version) (_ : IPAddr) : N := version v.
Definition Size (v : Version) (_ : IPAddr) : N := match v with V4 => 16 | V6 => 28 end.

(** The constructors of [IPv6Addr]. *)
Definition IPv6Addr_of_raw : RawType → outcome IPAddr := of_raw V6.
Definition IPv6Addr_of_text : str → N → outcome IPAddr := of_text V6.

Definition Raw (a : IPAddr) : RawType := raw_ a.
Definition Port (a : IPAddr) : N := ntohs (sin_port (raw_ a)).
Definition IPAddress (a : IPAddr) : str := ip_ a.
End Ip.

(** * Lemmas *)

Lemma htons_testbit n i :
  N.testbit (htons n) i =
    if (i <? 8)%N then N.testbit n (i + 8)
    else if (i <? 16)%N then N.testbit n (i - 8) else false.
Proof.
  unfold htons. change 255%N with (N.ones 8). rewrite N.lor_spec, N.land_spec, N.shiftr_spec by lia.
  destruct (N.ltb_spec i 8) as [H|H].
  - rewrite N.shiftl_spec_low by done. by rewrite N.ones_spec_low, andb_true_r by done.
  - rewrite N.shiftl_spec_high by lia. rewrite N.land_spec, (N.ones_spec_high _ i), andb_false_r, orb_false_r by done.
    destruct (N.ltb_spec i 16) as [H'|H'].
    + by rewrite N.ones_spec_low, andb_true_r by lia.
    + by rewrite N.ones_spec_high, andb_false_r by lia.
Qed.

Lemma small_testbit n i : (n < 65536)%N → (16 ≤ i)%N → N.testbit n i = false.
Proof.
  intros Hn Hi. destruct (decide (n = 0%N)) as [->|H0]; [apply N.bits_0|].
  apply N.bits_above_log2, N.log2_lt_pow2; [lia|]. apply (N.lt_le_trans _ (2 ^ 16)); [done|].
  apply N.pow_le_mono_r; [done|lia].
Qed.

Lemma ntohs_htons n : (n < 65536)%N → ntohs (htons n) = n.
Proof.
  intros Hn. apply N.bits_inj. intros i. unfold ntohs. rewrite !htons_testbit.
  destruct (N.ltb_spec i 8) as [H|H].
  - rewrite (proj2 (N.ltb_ge _ _)), (proj2 (N.ltb_lt _ _)) by lia. f_equal. lia.
  - destruct (N.ltb_spec i 16) as [H'|H'].
    + rewrite (proj2 (N.ltb_lt _ _)) by lia. f_equal. lia.
    + symmetry. by apply small_testbit.
Qed.

(** * Properties *)

(** An address made from a text and a port gives both back, and its socket
    address, sent to the kernel and back, makes an equal address again when the text is the
    one that the system prints; an address that a client connected from can be made again
    from its text and its port.  Both versions behave the same. *)
Theorem address_round_trip inet_ntop inet_pton strerror v :
  (∀ addr s, inet_ntop v addr (max_length v + 1)%N = inr s → inet_pton v s = inr addr ∧ c_str s = s) →
  (∀ ip port addr, (port < 65536)%N → inet_pton v (c_str ip) = inr addr →
     ∃ a, of_text inet_pton strerror v ip port = Done a ∧ IPAddress a = ip ∧ Port a = port ∧
       sin_addr (Raw a) = addr ∧ sin_family (Raw a) = version v ∧
       (inet_ntop v addr (max_length v + 1)%N = inr ip → of_raw inet_ntop strerror v (Raw a) = Done a)) ∧
  (∀ raw a, sin_family raw = version v → (sin_port raw < 65536)%N →
     of_raw inet_ntop strerror v raw = Done a → of_text inet_pton strerror v (IPAddress a) (Port a) = Done a).
Proof.
  intros Hlaw. split.
  - intros ip port addr Hp Ha. eexists. unfold of_text. rewrite Ha. split; [done|]. unfold Port. simpl.
    rewrite ntohs_htons by done. split_and!; try done. intros Hn. unfold of_raw. simpl. rewrite Hn.
    by rewrite (proj2 (Hlaw _ _ Hn)).
  - intros raw a Hf Hp. unfold of_raw. destruct (inet_ntop v (sin_addr raw) (max_length v + 1)%N) as [e|s] eqn:Hn; [done|].
    intros [= <-]. destruct (Hlaw _ _ Hn) as [Ha Hs]. unfold of_text, IPAddress, Port. simpl.
    rewrite !Hs, Ha. unfold ntohs. change (htons (htons (sin_port raw))) with (ntohs (htons (sin_port raw))).
    rewrite ntohs_htons by done. by rewrite <-Hf; destruct raw.
Qed.

(** * Witnesses *)

(** A system that prints an address as a number. *)
Definition number_ntop (_ : Version) (addr _ : N) : Z + str := inr (dec addr).
Definition number_pton (_ : Version) (s : str) : Z + N := inr (undec s).

Lemma address_round_trip_witness : ∃ a,
  of_text number_pton (λ _, []) V4 (s!"2130706433") 10000 = Done a ∧ Port a = 10000%N ∧
  of_raw number_ntop (λ _, []) V4 (Raw a) = Done a.
Proof.
  destruct (address_round_trip number_ntop number_pton (λ _, []) V4) as [H _].
  { intros addr s [= <-]. split; [unfold number_pton; by rewrite undec_dec|apply dec_c_str]. }
  destruct (H (s!"2130706433") 10000%N 2130706433%N eq_refl eq_refl) as (a & Ha & _ & Hp & _ & _ & Hr).
  exists a. split; [exact Ha|split; [exact Hp|apply Hr; reflexivity]].
Defined.
