(* ===== verification/Regex.v ===== *)
(** The part of [std::regex] the program uses: ECMAScript patterns built from
    character classes, repetition of a class, an optional character and
    capture groups, matched by backtracking with greedy priority, as
    [std::regex_match] does. *)

From S2P Require Import Prelude.

(** * Patterns and matching *)

Inductive item :=
| Chr (p : ascii → bool)        (* one character of a class *)
| Opt (p : ascii → bool)        (* [p?] *)
| Star (p : ascii → bool)       (* [p*] *)
| Group (p : ascii → bool).     (* [(p* )], a capture *)

(** [p*] followed by the rest of the pattern [k]: the longest repetition first,
    shorter ones if the rest does not match. [taken] is what was matched so
    far. *)
Fixpoint star_match {A} (p : ascii → bool) (k : str → str → option A) (taken s : str) : option A :=
  match s with
  | c :: s' =>
      if p c then
        match star_match p k (taken ++ [c]) s' with
        | Some r => Some r
        | None => k taken s
        end
      else k taken s
  | [] => k taken s
  end.

(** The captures of a match of the whole text, in order. *)
Fixpoint regex_match (r : list item) (s : str) : option (list str) :=
  match r with
  | [] => if s is [] then Some [] else None
  | Chr p :: r' =>
      match s with
      | c :: s' => if p c then regex_match r' s' else None
      | [] => None
      end
  | Opt p :: r' =>
      match s with
      | c :: s' =>
          if p c then
            match regex_match r' s' with Some g => Some g | None => regex_match r' s end
          else regex_match r' s
      | [] => regex_match r' s
      end
  | Star p :: r' => star_match p (λ _ s', regex_match r' s') [] s
  | Group p :: r' => star_match p (λ cap s', cons cap <$> regex_match r' s') [] s
  end.

(** Classes: a given character, [[^c]], and [.], which excludes the line
    terminators. *)
Definition is_char (c : ascii) : ascii → bool := λ d, bool_decide (d = c).
Definition not_char (c : ascii) : ascii → bool := λ d, bool_decide (d ≠ c).
Definition dot : ascii → bool := λ d, bool_decide (d ≠ LF ∧ d ≠ CR).
Definition literal (s : str) : list item := (λ c, Chr (is_char c)) <$> s.

(** * Specification *)

(** [matches r s gs]: the text [s] belongs to the pattern, with captures [gs]. *)
Inductive matches : list item → str → list str → Prop :=
| m_nil : matches [] [] []
| m_chr p r c s gs : p c = true → matches r s gs → matches (Chr p :: r) (c :: s) gs
| m_opt_some p r c s gs : p c = true → matches r s gs → matches (Opt p :: r) (c :: s) gs
| m_opt_none p r s gs : matches r s gs → matches (Opt p :: r) s gs
| m_star p r l s gs : Forall (λ c, p c = true) l → matches r s gs → matches (Star p :: r) (l ++ s) gs
| m_group p r l s gs :
    Forall (λ c, p c = true) l → matches r s gs → matches (Group p :: r) (l ++ s) (l :: gs).

(** * Lemmas *)

Lemma star_match_sound {A} p (k : str → str → option A) taken s a :
  star_match p k taken s = Some a →
  ∃ l s', s = l ++ s' ∧ Forall (λ c, p c = true) l ∧ k (taken ++ l) s' = Some a.
Proof.
  revert taken. induction s as [|c s IH]; intros taken; simpl.
  { intros H. exists [], []. split_and!; [done|done|by rewrite app_nil_r]. }
  assert (k taken (c :: s) = Some a → ∃ l s', c :: s = l ++ s' ∧ Forall (λ c, p c = true) l ∧
            k (taken ++ l) s' = Some a) as Hnow.
  { intros H. exists [], (c :: s). split_and!; [done|done|by rewrite app_nil_r]. }
  destruct (p c) eqn:Hc; [|done].
  destruct (star_match p k (taken ++ [c]) s) as [r|] eqn:Hs; [|done].
  intros [= ->]. destruct (IH _ Hs) as (l & s' & -> & Hl & Hk).
  exists (c :: l), s'. split_and!; [done|by constructor|]. by rewrite <-app_assoc in Hk.
Qed.

Lemma star_match_complete {A} p (k : str → str → option A) taken l s' :
  Forall (λ c, p c = true) l → k (taken ++ l) s' ≠ None →
  star_match p k taken (l ++ s') ≠ None.
Proof.
  intros Hl. revert taken. induction Hl as [|c l Hc Hl IH]; intros taken Hk.
  - rewrite app_nil_r in Hk. simpl. destruct s' as [|d s']; [done|]. simpl.
    destruct (p d); [|done]. by destruct (star_match p k (taken ++ [d]) s').
  - simpl. rewrite Hc. specialize (IH (taken ++ [c])). rewrite <-app_assoc in IH.
    specialize (IH Hk). by destruct (star_match p k (taken ++ [c]) (l ++ s')).
Qed.

(** The matcher finds a match exactly when there is one. *)
Lemma regex_match_sound r s gs : regex_match r s = Some gs → matches r s gs.
Proof.
  revert s gs. induction r as [|[p|p|p|p] r IH]; intros s gs; cbn [regex_match].
  - destruct s; [|done]. intros [= <-]. constructor.
  - destruct s as [|c s]; [done|]. destruct (p c) eqn:Hc; [|done]. intros H. constructor; auto.
  - destruct s as [|c s]; [intros H; apply m_opt_none; auto|].
    destruct (p c) eqn:Hc; [|intros H; apply m_opt_none; auto].
    destruct (regex_match r s) as [g|] eqn:Hs; [|intros H; apply m_opt_none; auto].
    intros [= <-]. apply m_opt_some; auto.
  - intros (l & s' & -> & Hl & Hk)%star_match_sound. constructor; auto.
  - intros (l & s' & -> & Hl & Hk)%star_match_sound. simpl in Hk.
    apply fmap_Some in Hk as (g & Hg & ->). constructor; auto.
Qed.

Lemma regex_match_complete r s gs : matches r s gs → regex_match r s ≠ None.
Proof.
  induction 1 as [|p r c s gs Hc _ IH|p r c s gs Hc _ IH|p r s gs _ IH|p r l s gs Hl _ IH
                  |p r l s gs Hl _ IH]; cbn [regex_match].
  - done.
  - by rewrite Hc.
  - rewrite Hc. by destruct (regex_match r s).
  - destruct s as [|c s]; [done|]. destruct (p c); [|done]. by destruct (regex_match r s).
  - by apply star_match_complete.
  - apply star_match_complete; [done|]. simpl. by destruct (regex_match r s).
Qed.

Lemma regex_match_None r s : regex_match r s = None ↔ ∀ gs, ¬ matches r s gs.
Proof.
  split.
  - intros H gs Hm. by apply regex_match_complete in Hm.
  - intros H. destruct (regex_match r s) as [gs|] eqn:Hs; [|done].
    apply regex_match_sound in Hs. by destruct (H gs).
Qed.

(** When captures are determined by the text, the matcher returns them. *)
Lemma regex_match_Some r s gs :
  matches r s gs → (∀ gs', matches r s gs' → gs' = gs) → regex_match r s = Some gs.
Proof.
  intros Hm Huniq. destruct (regex_match r s) as [gs'|] eqn:Hs.
  - apply regex_match_sound in Hs. f_equal. by apply Huniq.
  - by apply regex_match_complete in Hm.
Qed.

Lemma matches_chr_inv p r s gs :
  matches (Chr p :: r) s gs → ∃ c s', s = c :: s' ∧ p c = true ∧ matches r s' gs.
Proof. inversion 1; subst. eauto. Qed.

Lemma matches_group_inv p r s gs :
  matches (Group p :: r) s gs →
  ∃ l s' gs', s = l ++ s' ∧ gs = l :: gs' ∧ Forall (λ c, p c = true) l ∧ matches r s' gs'.
Proof. inversion 1; subst. eauto 8. Qed.

Lemma matches_opt_inv p r s gs :
  matches (Opt p :: r) s gs →
  matches r s gs ∨ ∃ c s', s = c :: s' ∧ p c = true ∧ matches r s' gs.
Proof. inversion 1; subst; eauto 8. Qed.

Lemma matches_literal l r s gs :
  matches (literal l ++ r) s gs ↔ ∃ s', s = l ++ s' ∧ matches r s' gs.
Proof.
  revert s. induction l as [|c l IH]; intros s; simpl.
  { split; [intros H; by exists s|by intros (s' & -> & H)]. }
  split.
  - intros (d & s' & -> & Hd & H)%matches_chr_inv. apply bool_decide_eq_true in Hd as ->.
    apply IH in H as (t & -> & H). by exists t.
  - intros (s' & -> & H). constructor; [by apply bool_decide_eq_true|]. apply IH. by exists s'.
Qed.

Lemma matches_nil_inv s gs : matches [] s gs → s = [] ∧ gs = [].
Proof. by inversion 1. Qed.

Lemma not_char_all c l : Forall (λ d, not_char c d = true) l ↔ c ∉ l.
Proof.
  rewrite Forall_forall. unfold not_char. split.
  - intros H Hin. specialize (H c Hin). by apply bool_decide_eq_true in H.
  - intros H d Hd. apply bool_decide_eq_true. by intros ->.
Qed.

Lemma dot_all l : Forall (λ d, dot d = true) l ↔ (LF ∉ l) ∧ (CR ∉ l).
Proof.
  rewrite Forall_forall. unfold dot. split.
  - intros H. split; intros Hin; specialize (H _ Hin); apply bool_decide_eq_true in H; naive_solver.
  - intros [H1 H2] d Hd. apply bool_decide_eq_true. split; by intros ->.
Qed.

(** Splitting at the first occurrence of a character is unique. *)
Lemma split_first_unique (c : ascii) a b r r' :
  (c ∉ a) → (c ∉ b) → a ++ c :: r = b ++ c :: r' → a = b ∧ r = r'.
Proof.
  revert b. induction a as [|x a IH]; intros [|y b] Ha Hb He; simplify_eq/=.
  - done.
  - set_solver.
  - set_solver.
  - destruct (IH b) as [-> ->]; [set_solver|set_solver|done|done].
Qed.
