(* ===== verification/Request.v ===== *)
(** The request parser of [src/http/request.h] and [src/http/request.cpp]: a state
    machine fed with the lines of a byte queue. The parser is proved against
    the interface [ByteQueue], not against the buffer. *)

From S2P Require Import Prelude ByteQueue Util Http Regex.

(** * State *)

(** The classes derived from [Request::State]. *)
Inductive State := NotStarted | Header | Body | Finished.

#[export] Instance State_eq_dec : EqDecision State.
Proof. solve_decision. Defined.

(** [state_] is a null pointer before the first [Parse]. *)
Record Request := mkRequest {
  state_ : option State;
  method_ : Method;
  version_ : str;
  path_ : str;
  headers_ : Parameters;
  post_ : Parameters
}.

Definition Request_default : Request := mkRequest None Get [] [] ∅ ∅.

(** [std::unordered_map::emplace]: an existing entry is kept. *)
Definition emplace (k v : str) (m : Parameters) : Parameters :=
  match m !! k with Some _ => m | None => <[k := v]> m end.

(** [std::string::substr] *)
Definition substr (s : str) (pos count : nat) : str := take count (drop pos s).

(** * Queries *)

Definition PostSize (r : Request) : nat := size (post_ r).
Definition KeepAlive (r : Request) : bool :=
  match headers_ r !! s!"Connection" with
  | Some conn => bool_decide (version_ r = s!"1.1") && bool_decide (conn = s!"keep-alive")
  | None => false
  end.
Definition Request_Header (key : str) (r : Request) : option str := headers_ r !! c_str key.
Definition Request_Post (key : str) (r : Request) : option str := post_ r !! c_str key.

(** * Operations *)

Definition SetState (st : State) : M Request unit :=
  modify (λ r, mkRequest (Some st) (method_ r) (version_ r) (path_ r) (headers_ r) (post_ r)).

Definition Clear : M Request unit :=
  SetState NotStarted;;
  modify (λ r, mkRequest (state_ r) Get [] [] ∅ ∅).

(** The pattern of [ParseStatusLine]: three texts without spaces, the last after
    [HTTP/]. *)
Definition status_pattern : list item :=
  Group (not_char SP) :: literal [SP] ++ Group (not_char SP) :: literal (s!" HTTP/") ++
  [Group (not_char SP)].

(** The pattern of [Header::Parse]: a text without colons, a colon, perhaps a
    space, and the rest of the line. *)
Definition header_pattern : list item :=
  Group (not_char ":"%char) :: literal (s!":") ++ [Opt (is_char SP); Group dot].

Definition ParseStatusLine (line : str) : M Request unit :=
  match regex_match status_pattern line with
  | Some [m1; m2; m3] =>
      m ← of_outcome (StringToMethod m1);
      modify (λ r, mkRequest (state_ r) m (version_ r) (path_ r) (headers_ r) (post_ r));;
      modify (λ r, mkRequest (state_ r) (method_ r) (version_ r) m2 (headers_ r) (post_ r));;
      modify (λ r, mkRequest (state_ r) (method_ r) m3 (path_ r) (headers_ r) (post_ r));;
      SetState Header
  | _ => throw invalid_argument (s!"Invalid HTTP status line: '" ++ line ++ s!"'")
  end.

Definition Header_Parse (line : str) : M Request unit :=
  match regex_match header_pattern line with
  | Some [k; v] =>
      modify (λ r, mkRequest (state_ r) (method_ r) (version_ r) (path_ r)
                     (emplace k v (headers_ r)) (post_ r))
  | _ =>
      if decide (line = []) then SetState Body
      else throw invalid_argument
             (s!"There must be an empty line between HTTP headers and the body")
  end.

Definition emplace_post (k v : str) : M Request unit :=
  modify (λ r, mkRequest (state_ r) (method_ r) (version_ r) (path_ r) (headers_ r)
                 (emplace k v (post_ r))).

Definition invalid_post {A} (body : str) : M Request A :=
  throw invalid_argument (s!"Invalid HTTP POST data: '" ++ body ++ s!"'").

Section Post.
(** What [std::move] leaves in a key given to [emplace], by whether the entry was
    new; the standard does not specify it. *)
Context (moved : bool → str → str).

(** The loop over the decoded body [d], which is modified under the view; [n]
    characters are left. It gives the final body, key and start position. *)
Fixpoint post_loop (n : nat) (body d key : str) (begin_ end_ : nat) : M Request (str * str * nat) :=
  match n with
  | 0 => mret (d, key, begin_)
  | S n' =>
      c ← deref (d !! end_);
      if decide (c = "="%char) then
        post_loop n' body d (substr d begin_ (end_ - begin_)) (S end_) (S end_)
      else if decide (c = "+"%char) then
        post_loop n' body (<[end_ := SP]> d) key begin_ (S end_)
      else if decide (c = "&"%char) then
        let val := substr d begin_ (end_ - begin_) in
        if decide (key ≠ []) then
          r ← get;
          let fresh := bool_decide (post_ r !! key = None) in
          emplace_post key val;;
          post_loop n' body d (moved fresh key) (S end_) (S end_)
        else invalid_post body
      else post_loop n' body d key begin_ (S end_)
  end.

Definition ParseURLEncodedPost (body : str) : M Request unit :=
  decoded_body ← of_outcome (DecodeURLEncodedString body);
  let size := length decoded_body in
  '(d, key, begin_) ← post_loop size body decoded_body [] 0 0;
  assert_ (begin_ <=? size)%nat;;
  let val := substr d begin_ (size - begin_) in
  r ← get;
  if decide (key ≠ [] ∧ post_ r !! key = None ∧ val ≠ [])
  then emplace_post key val
  else invalid_post body.

Definition ParsePost (body : str) : M Request unit :=
  r ← get;
  let content_type := default [] (Request_Header (s!"Content-Type") r) in
  if decide (content_type = s!"application/x-www-form-urlencoded")
  then ParseURLEncodedPost body
  else throw invalid_argument (s!"Unsupported HTTP content type: '" ++ content_type ++ s!"'").

Definition Body_Parse (body : str) : M Request unit :=
  r ← get;
  match method_ r with
  | Post => ParsePost body
  | m => throw invalid_argument (s!"Unsupported HTTP method: '" ++ MethodToString m ++ s!"'")
  end;;
  SetState Finished.

(** [state_->Parse(line)] *)
Definition State_Parse (line : str) : M Request unit :=
  r ← get;
  match state_ r with
  | None => crash
  | Some NotStarted => ParseStatusLine line
  | Some Header => Header_Parse line
  | Some Body => Body_Parse line
  | Some Finished => throw invalid_argument (s!"The parsing shoud have finished")
  end.

(** ** Reading from the buffer *)

Section Queue.
Context {B : Type} `{!ByteQueue B}.

Definition on_request {A} (m : M Request A) : M (Request * B) A := zoom fst (λ r s, (r, s.2)) m.
Definition on_queue {A} (m : M B A) : M (Request * B) A := zoom snd (λ b s, (s.1, b)) m.

Fixpoint parse_loop (fuel : nat) (content : str) : M (Request * B) unit :=
  match fuel with
  | 0 => out_of_fuel
  | S fuel' =>
      if decide (content = []) then mret tt
      else
        let line_end := str_find new_line content in
        let line := match line_end with Some i => take i content | None => content end in
        on_request (State_Parse line);;
        on_queue (bq_Retrieve (len line));;
        let content := drop (length line) content in
        match line_end with
        | Some _ =>
            on_queue (bq_Retrieve (len new_line));;
            parse_loop fuel' (drop (length new_line) content)
        | None => parse_loop fuel' content
        end
  end.

(** Each turn consumes a line and its end, or the rest of the content. *)
Definition Parse : M (Request * B) unit :=
  on_request Clear;;
  e ← on_queue bq_Empty;
  if e : bool then throw invalid_argument (s!"The buffer is empty")
  else
    content ← on_queue bq_ReadableString;
    parse_loop (S (length content)) content.

(** [Request::Request(Buffer& buf)] *)
Definition Request_of_buffer (b : B) : outcome unit * (Request * B) := Parse (Request_default, b).
End Queue.
End Post.

(** * Specifications *)

(** [l] is the first line of [s]. *)
Definition first_line (l s : str) : Prop :=
  (∃ rest, s = l ++ crlf ++ rest ∧ ∀ i, i < length l → ¬ occurs_at crlf s i) ∨
  (s = l ∧ ∀ i, ¬ occurs_at crlf s i).

(** Feeding the lines of a text to the state machine: the parser in state [r]
    that reads [s] ends with [res] in state [r'], leaving [s'] unread. A line
    that is rejected stays unread, and so does what follows it. *)
Inductive run (moved : bool → str → str) : Request → str → outcome unit → Request → str → Prop :=
| run_end r : run moved r [] (Done tt) r []
| run_line r l rest r1 res r2 s :
    (∀ i, i < length l → ¬ occurs_at crlf (l ++ crlf ++ rest) i) →
    State_Parse moved l r = (Done tt, r1) → run moved r1 rest res r2 s →
    run moved r (l ++ crlf ++ rest) res r2 s
| run_last r l r1 :
    l ≠ [] → (∀ i, ¬ occurs_at crlf l i) → State_Parse moved l r = (Done tt, r1) →
    run moved r l (Done tt) r1 []
| run_fail r s l e r1 :
    s ≠ [] → first_line l s → State_Parse moved l r = (Throw e, r1) →
    run moved r s (Throw e) r1 s.

Definition with_post (post : Parameters) (r : Request) : Request :=
  mkRequest (state_ r) (method_ r) (version_ r) (path_ r) (headers_ r) post.

(** The request right after [Clear]. *)
Definition fresh_request : Request := mkRequest (Some NotStarted) Get [] [] ∅ ∅.

(** ** Forms *)

Definition space_of (c : ascii) : ascii := if decide (c = "+"%char) then SP else c.
Definition spaces (s : str) : str := space_of <$> s.

Fixpoint split_on (c : ascii) (s : str) : list str :=
  match s with
  | [] => [[]]
  | d :: s' =>
      if decide (d = c) then [] :: split_on c s'
      else match split_on c s' with
           | l :: ls => (d :: l) :: ls
           | [] => [[d]]
           end
  end.

(** The text between the last two equality signs of a segment, and the text after
    the last one. *)
Fixpoint segment (cur : str) (key : option str) (s : str) : option str * str :=
  match s with
  | [] => (key, cur)
  | c :: s' =>
      if decide (c = "="%char) then segment [] (Some cur) s' else segment (cur ++ [c]) key s'
  end.

Section Form.
Context (moved : bool → str → str).

(** The meaning of a form, segment by segment: every segment adds its value
    under its key; a segment without equality sign reuses what is left of the
    key before. The last segment needs a new key and a value. *)
Fixpoint form_ref (segs : list str) (key : str) (post : Parameters) : Parameters * bool :=
  match segs with
  | [] => (post, false)
  | s :: segs' =>
      let '(k, v) := segment [] None s in
      let key := default key k in
      match segs' with
      | [] => if decide (key ≠ [] ∧ post !! key = None ∧ v ≠ [])
              then (<[key := v]> post, true) else (post, false)
      | _ :: _ =>
          if decide (key ≠ [])
          then form_ref segs' (moved (bool_decide (post !! key = None)) key) (emplace key v post)
          else (post, false)
      end
  end.

(** The same in one pass: [cur] is the text since the last separator. *)
Fixpoint form_scan (rest cur key : str) (post : Parameters) : option (str * str) * Parameters :=
  match rest with
  | [] => (Some (cur, key), post)
  | c :: rest' =>
      if decide (c = "="%char) then form_scan rest' [] cur post
      else if decide (c = "+"%char) then form_scan rest' (cur ++ [SP]) key post
      else if decide (c = "&"%char) then
        if decide (key ≠ [])
        then form_scan rest' [] (moved (bool_decide (post !! key = None)) key) (emplace key cur post)
        else (None, post)
      else form_scan rest' (cur ++ [c]) key post
  end.

Definition form_end (r : option (str * str) * Parameters) : Parameters * bool :=
  match r with
  | (Some (cur, key), post) =>
      if decide (key ≠ [] ∧ post !! key = None ∧ cur ≠ [])
      then (<[key := cur]> post, true) else (post, false)
  | (None, post) => (post, false)
  end.
End Form.

(** A form written out: pairs joined by ampersands. *)
Fixpoint form_text (ps : list (str * str)) : str :=
  match ps with
  | [] => []
  | [(k, v)] => k ++ "="%char :: v
  | (k, v) :: ps' => k ++ "="%char :: v ++ "&"%char :: form_text ps'
  end.

(** No separator in a key or a value. *)
Definition form_field (s : str) : Prop := ("="%char ∉ s) ∧ ("&"%char ∉ s).

(** * Lemmas: forms *)

Section FormLemmas.
Context (moved : bool → str → str).

Lemma substr_app pre cur rest : substr (pre ++ cur ++ rest) (length pre) (length cur) = cur.
Proof. unfold substr. by rewrite drop_app_length, take_app_length. Qed.

(** The loop over positions follows the one-pass scan. *)
Lemma post_loop_scan body rest : ∀ pre cur key r,
  match form_scan moved rest cur key (post_ r) with
  | (Some (cur', key'), post') => ∃ pre',
      post_loop moved (length rest) body (pre ++ cur ++ rest) key (length pre) (length pre + length cur) r =
        (Done (pre' ++ cur', key', length pre'), with_post post' r) ∧
      length (pre' ++ cur') = length (pre ++ cur ++ rest)
  | (None, post') =>
      post_loop moved (length rest) body (pre ++ cur ++ rest) key (length pre) (length pre + length cur) r =
        (invalid_post body : M Request (str * str * nat)) (with_post post' r)
  end.
Proof.
  induction rest as [|c rest IH]; intros pre cur key r.
  { simpl. exists pre. rewrite !app_nil_r. by destruct r. }
  cbn [length form_scan post_loop].
  rewrite (bind_done _ _ r c r).
  2:{ apply deref_some. rewrite app_assoc, lookup_app_r by (rewrite length_app; lia).
      by rewrite length_app, Nat.sub_diag. }
  assert (pre ++ cur ++ c :: rest = (pre ++ cur ++ [c]) ++ [] ++ rest) as Hcut by by rewrite <-!app_assoc.
  assert (S (length pre + length cur) = length (pre ++ cur ++ [c]) + length (@nil ascii)) as Hend
    by (rewrite !length_app; simpl; lia).
  assert (S (length pre + length cur) = length (pre ++ cur ++ [c])) as Hend' by (simpl in Hend; lia).
  assert (length pre + length cur - length pre = length cur) as Hcount by lia.
  case_decide as He; [|case_decide as Hp; [|case_decide as Ha]].
  - rewrite Hcount, substr_app, Hcut. specialize (IH (pre ++ cur ++ [c]) [] cur r).
    rewrite <-Hend, <-Hend' in IH. exact IH.
  - specialize (IH pre (cur ++ [SP]) key r). rewrite length_app in IH. simpl in IH.
    replace (length pre + (length cur + 1)) with (S (length pre + length cur)) in IH by lia.
    rewrite <-!app_assoc in IH. simpl in IH.
    assert (<[length pre + length cur := SP]> (pre ++ cur ++ c :: rest) = pre ++ cur ++ SP :: rest) as ->.
    { rewrite insert_app_r, <-(Nat.add_0_r (length cur)), insert_app_r. done. }
    replace (length (pre ++ cur ++ c :: rest)) with (length (pre ++ cur ++ SP :: rest))
      by (rewrite !length_app; done).
    exact IH.
  - rewrite Hcount, substr_app. case_decide as Hk; [|by destruct r].
    mstep. unfold emplace_post. mstep. rewrite Hcut.
    specialize (IH (pre ++ cur ++ [c]) [] (moved (bool_decide (post_ r !! key = None)) key)
                  (with_post (emplace key cur (post_ r)) r)).
    rewrite <-Hend, <-Hend' in IH. exact IH.
  - specialize (IH pre (cur ++ [c]) key r). rewrite length_app in IH. simpl in IH.
    replace (length pre + (length cur + 1)) with (S (length pre + length cur)) in IH by lia.
    rewrite <-!app_assoc in IH. exact IH.
Qed.

Lemma split_on_not_nil c s : split_on c s ≠ [].
Proof. destruct s as [|d s]; simpl; [done|]. case_decide; [done|]. by destruct (split_on c s). Qed.

Lemma segment_Some cur key s :
  segment cur (Some key) s = (Some (default key (segment cur None s).1), (segment cur None s).2).
Proof.
  revert cur key. induction s as [|c s IH]; intros cur key; simpl; [done|].
  case_decide; [|apply IH]. rewrite !(IH [] _). done.
Qed.

(** [form_ref] when [cur] of the first segment has been read. *)
Definition form_from (cur : str) (segs : list str) (key : str) (post : Parameters) : Parameters * bool :=
  match segs with
  | [] => (post, false)
  | s :: segs' => form_ref moved ((cur ++ s) :: segs') key post
  end.

Lemma segment_app cur s t :
  ("="%char ∉ s) → segment cur None (s ++ t) = segment (cur ++ s) None t.
Proof.
  revert cur. induction s as [|c s IH]; intros cur Hs; simpl; [by rewrite app_nil_r|].
  rewrite decide_False by set_solver. rewrite IH by set_solver. by rewrite <-app_assoc.
Qed.

Lemma segment_plain cur : ("="%char ∉ cur) → segment [] None cur = (None, cur).
Proof. intros Hc. pose proof (segment_app [] cur [] Hc) as H. by rewrite app_nil_r in H. Qed.

(** The one-pass scan computes the meaning of the segments. *)
Lemma form_scan_ref rest : ∀ cur key post,
  ("="%char ∉ cur) →
  form_end (form_scan moved rest cur key post) =
    form_from cur (split_on "&"%char (spaces rest)) key post.
Proof.
  assert (∀ s cur, ("="%char ∉ cur) → segment [] None (cur ++ "="%char :: s) =
    (Some (default cur (segment [] None s).1), (segment [] None s).2)) as Hseg.
  { intros s cur Hc. rewrite segment_app by done. simpl. by rewrite segment_Some. }
  induction rest as [|c rest IH]; intros cur key post Hcur.
  { cbn [form_scan split_on spaces fmap list_fmap form_from form_ref].
    by rewrite app_nil_r, (segment_plain cur) by done. }
  cbn [form_scan]. change (spaces (c :: rest)) with (space_of c :: spaces rest). cbn [split_on].
  destruct (split_on "&"%char (spaces rest)) as [|s segs] eqn:Hsp; [by apply split_on_not_nil in Hsp|].
  case_decide as He; [|case_decide as Hp; [|case_decide as Ha]].
  - subst c. rewrite decide_False by done. rewrite IH by set_solver. unfold form_from.
    change (space_of "="%char) with "="%char. cbn [form_ref app].
    rewrite (Hseg s cur) by done. by destruct (segment [] None s) as [k v].
  - subst c. rewrite decide_False by done. rewrite IH by set_solver. unfold form_from.
    change (space_of "+"%char) with SP. by rewrite <-app_assoc.
  - subst c. rewrite (decide_True (P := space_of "&"%char = "&"%char)) by done.
    unfold form_from. cbn [form_ref].
    rewrite app_nil_r, (segment_plain cur) by done. simpl.
    case_decide; [|done]. rewrite IH by set_solver. done.
  - assert (space_of c = c) as -> by (unfold space_of; by rewrite decide_False).
    rewrite decide_False by done. rewrite IH by set_solver. unfold form_from. by rewrite <-app_assoc.
Qed.

(** [ParseURLEncodedPost] on a body that can be decoded. *)
Lemma ParseURLEncodedPost_ref body d r :
  DecodeURLEncodedString body = Done d →
  ParseURLEncodedPost moved body r =
    let '(post, ok) := form_ref moved (split_on "&"%char (spaces d)) [] (post_ r) in
    if ok : bool then (Done tt, with_post post r)
    else (invalid_post body : M Request unit) (with_post post r).
Proof.
  intros Hd. unfold ParseURLEncodedPost. rewrite Hd.
  rewrite (bind_done (of_outcome (Done d)) _ r d r eq_refl).
  pose proof (post_loop_scan body d [] [] [] r) as Hl. cbn [app length Nat.add] in Hl.
  pose proof (form_scan_ref d [] [] (post_ r) ltac:(set_solver)) as Href.
  destruct (split_on "&"%char (spaces d)) as [|s segs] eqn:Hsp; [by apply split_on_not_nil in Hsp|].
  change (form_from [] (s :: segs)) with (form_ref moved (s :: segs)) in Href. rewrite <-Href. destruct (form_scan moved d [] [] (post_ r)) as [[[cur key]|] post].
  - destruct Hl as (pre & Hl & Hlen). mrun Hl.
    mrun_by @assert_true ltac:(apply Nat.leb_le; rewrite <-Hlen, length_app; lia).
    mstep. simpl. rewrite <-Hlen, length_app.
    replace (length pre + length cur - length pre) with (length cur) by lia.
    unfold substr. rewrite drop_app_length, take_ge by lia.
    case_decide as Hc; [|done]. unfold emplace_post, emplace. simpl.
    destruct Hc as (_ & Hn & _). unfold modify, with_post; simpl. by rewrite Hn.
  - rewrite (bind_throw _ _ _ _ _ Hl). done.
Qed.

Lemma emplace_union k v post : emplace k v post = post ∪ {[k := v]}.
Proof.
  apply map_eq. intros j. unfold emplace. destruct (post !! k) as [w|] eqn:Hk.
  - destruct (decide (j = k)) as [->|Hne].
    + rewrite Hk. symmetry. by apply lookup_union_Some_l.
    + rewrite lookup_union, lookup_singleton_ne by done. by destruct (post !! j).
  - destruct (decide (j = k)) as [->|Hne].
    + rewrite lookup_insert_eq, lookup_union_r by done. by rewrite lookup_singleton_eq.
    + rewrite lookup_insert_ne by done. rewrite lookup_union, lookup_singleton_ne by done.
      by destruct (post !! j).
Qed.

Lemma segment_pair k v : ("="%char ∉ k) → ("="%char ∉ v) → segment [] None (k ++ "="%char :: v) = (Some k, v).
Proof.
  intros Hk Hv. rewrite segment_app by done. simpl. by rewrite segment_Some, segment_plain.
Qed.

(** Pairs: all but the last are stored, where the first of equal keys wins; then the
    last one, if it has a value and a new key. *)
Lemma form_ref_all ps k v : ∀ key post,
  Forall (λ p, ("="%char ∉ p.1) ∧ ("="%char ∉ p.2) ∧ p.1 ≠ []) (ps ++ [(k, v)]) →
  form_ref moved ((λ p : str * str, p.1 ++ "="%char :: p.2) <$> (ps ++ [(k, v)])) key post =
    if decide (v ≠ [] ∧ (k ∉ ps.*1) ∧ post !! k = None)
    then (post ∪ list_to_map (ps ++ [(k, v)]), true) else (post ∪ list_to_map ps, false).
Proof.
  induction ps as [|[k1 v1] ps IH]; intros key post Hall.
  - apply Forall_cons in Hall as [(H1 & H2 & H3) _]. simpl in *.
    rewrite segment_pair by done. simpl. rewrite (right_id_L ∅ (∪)).
    destruct (decide (k ≠ [] ∧ post !! k = None ∧ v ≠ [])) as [(_ & Hpost & Hv)|Hn].
    + rewrite decide_True by (split_and!; [done|set_solver|done]).
      f_equal. rewrite insert_empty, <-emplace_union. unfold emplace. by rewrite Hpost.
    + rewrite decide_False; [done|]. intros (Hv & _ & Hpost). by apply Hn.
  - rewrite <-app_comm_cons in *. apply Forall_cons in Hall as [(H1 & H2 & H3) Hall].
    rewrite fmap_cons in *. cbn [form_ref fst snd] in *.
    rewrite segment_pair by done. cbn [default].
    destruct (_ <$> (ps ++ [(k, v)])) as [|x xs] eqn:Hx.
    { apply (f_equal length) in Hx. rewrite length_fmap, length_app in Hx. simpl in Hx. lia. }
    rewrite decide_True by done. rewrite IH by done.
    assert (emplace k1 v1 post !! k = None ↔ k ≠ k1 ∧ post !! k = None) as Hlk.
    { rewrite emplace_union, lookup_union_None. split; intros [Ha Hb].
      - split; [|done]. intros ->. by rewrite lookup_singleton_eq in Hb.
      - by rewrite lookup_singleton_ne. }
    assert (∀ l, emplace k1 v1 post ∪ list_to_map l = post ∪ list_to_map ((k1, v1) :: l)) as Hun.
    { intros l. rewrite emplace_union, <-(assoc_L (∪)). f_equal. by rewrite <-insert_union_singleton_l. }
    change (id k1) with k1. rewrite !Hun. apply decide_ext. cbn [fmap list_fmap fst]. rewrite not_elem_of_cons, Hlk. naive_solver.
Qed.

Lemma spaces_app s t : spaces (s ++ t) = spaces s ++ spaces t.
Proof. apply fmap_app. Qed.

Lemma spaces_cons_sep c s : c ≠ "+"%char → spaces (c :: s) = c :: spaces s.
Proof. intros Hc. unfold spaces. simpl. unfold space_of at 1. by rewrite decide_False. Qed.

Lemma spaces_field s : form_field s → form_field (spaces s).
Proof.
  unfold form_field, spaces. intros [H1 H2]. split; intros (c & Hc & Hin)%list_elem_of_fmap;
    unfold space_of in Hc; case_decide; simplify_eq; done.
Qed.

Lemma split_on_field c s t : (c ∉ s) → split_on c (s ++ c :: t) = s :: split_on c t.
Proof.
  induction s as [|d s IH]; intros Hs; simpl; [by rewrite decide_True|].
  rewrite decide_False by set_solver. by rewrite IH by set_solver.
Qed.

Lemma split_on_last c s : (c ∉ s) → split_on c s = [s].
Proof.
  induction s as [|d s IH]; intros Hs; simpl; [done|].
  rewrite decide_False by set_solver. by rewrite IH by set_solver.
Qed.

Lemma split_form ps :
  ps ≠ [] → Forall (λ p, form_field p.1 ∧ form_field p.2) ps →
  split_on "&"%char (spaces (form_text ps)) =
    (λ p : str * str, p.1 ++ "="%char :: p.2) <$> (prod_map spaces spaces <$> ps).
Proof.
  intros Hne Hall. induction Hall as [|[k v] ps [Hk Hv] Hall IH]; [done|]. simpl in Hk, Hv.
  apply spaces_field in Hk as [Hk1 Hk2], Hv as [Hv1 Hv2].
  destruct ps as [|p ps].
  - simpl. rewrite spaces_app, spaces_cons_sep by done. apply split_on_last.
    rewrite not_elem_of_app, not_elem_of_cons. done.
  - change (form_text ((k, v) :: p :: ps)) with
      (k ++ "="%char :: v ++ "&"%char :: form_text (p :: ps)).
    rewrite spaces_app, spaces_cons_sep, spaces_app, spaces_cons_sep by done.
    change (spaces k ++ "="%char :: spaces v ++ "&"%char :: spaces (form_text (p :: ps)))
      with (spaces k ++ ("="%char :: spaces v) ++ "&"%char :: spaces (form_text (p :: ps))).
    rewrite app_assoc, split_on_field, IH by (rewrite ?not_elem_of_app, ?not_elem_of_cons; done).
    done.
Qed.
End FormLemmas.

(** * Lemmas: the state machine *)

(** How a line handler ends: it returns or throws an invalid argument, and the
    parser stays in some state. *)
Definition handled (m : M Request unit) (r : Request) : Prop :=
  ∃ r', state_ r' ≠ None ∧
    (m r = (Done tt, r') ∨ ∃ w, m r = (Throw (Exn invalid_argument w), r')).

Lemma handled_done (m : M Request unit) r r' : m r = (Done tt, r') → state_ r' ≠ None → handled m r.
Proof. intros H Hs. exists r'. auto. Qed.

Lemma handled_throw (m : M Request unit) r w r' :
  m r = (Throw (Exn invalid_argument w), r') → state_ r' ≠ None → handled m r.
Proof. intros H Hs. exists r'. eauto. Qed.

Lemma StringToMethod_total s :
  (∃ m, StringToMethod s = Done m) ∨ (∃ w, StringToMethod s = Throw (Exn invalid_argument w)).
Proof. unfold StringToMethod. case_match; eauto. Qed.

Lemma ParseStatusLine_handled line r : state_ r ≠ None → handled (ParseStatusLine line) r.
Proof.
  intros Hs. unfold handled, ParseStatusLine.
  destruct (regex_match status_pattern line) as [[|m1 [|m2 [|m3 [|]]]]|];
    try (eapply handled_throw; [reflexivity|done]).
  destruct (StringToMethod_total m1) as [[m Hm]|[w Hm]]; rewrite Hm.
  - by eapply handled_done.
  - by eapply handled_throw.
Qed.

Lemma Header_Parse_handled line r : state_ r ≠ None → handled (Header_Parse line) r.
Proof.
  intros Hs. unfold Header_Parse.
  destruct (regex_match header_pattern line) as [[|k [|v [|]]]|];
    try case_decide; try (by eapply handled_throw); by eapply handled_done.
Qed.

Section Machine.
Context (moved : bool → str → str).

Lemma ParseURLEncodedPost_handled body r :
  state_ r ≠ None → handled (ParseURLEncodedPost moved body) r.
Proof.
  intros Hs. destruct (decode_loop_total body (S (length body)) body []) as [[d Hd]|(w & Hw & _)]; [lia|..].
  - assert (DecodeURLEncodedString body = Done d) as Hdec.
    { unfold DecodeURLEncodedString. by rewrite (decode_loop_decodes _ _ d Hd) by lia. }
    pose proof (ParseURLEncodedPost_ref moved body d r Hdec) as Href.
    destruct (form_ref moved _ _ _) as [post []].
    + eapply handled_done; [exact Href|done].
    + eapply handled_throw; [exact Href|done].
  - eapply handled_throw; [|exact Hs]. unfold ParseURLEncodedPost.
    erewrite bind_throw; [reflexivity|]. unfold of_outcome, DecodeURLEncodedString. by rewrite Hw.
Qed.

Lemma Body_Parse_handled body r : state_ r ≠ None → handled (Body_Parse moved body) r.
Proof.
  intros Hs. unfold Body_Parse, handled. mstep.
  assert (∀ m : M Request unit, handled m r → handled (m;; SetState Finished) r) as Hthen.
  { intros m (r' & Hr' & [Hm|[w Hm]]).
    - eapply handled_done; [by rewrite (bind_done _ _ _ _ _ Hm)|done].
    - eapply handled_throw; [by rewrite (bind_throw _ _ _ _ _ Hm)|done]. }
  apply Hthen. destruct (method_ r); try (by eapply handled_throw).
  unfold ParsePost, handled. mstep. case_decide; [by apply ParseURLEncodedPost_handled|].
  by eapply handled_throw.
Qed.

(** A line never makes the parser fail an assertion or loop. *)
Lemma State_Parse_handled line r : state_ r ≠ None → handled (State_Parse moved line) r.
Proof.
  intros Hs. unfold State_Parse, handled. mstep. destruct (state_ r) as [[]|] eqn:Hst; [..|done].
  - apply ParseStatusLine_handled. congruence.
  - apply Header_Parse_handled. congruence.
  - apply Body_Parse_handled. congruence.
  - eapply handled_throw; [reflexivity|congruence].
Qed.

Lemma first_line_exists s : s ≠ [] → ∃ l, first_line l s ∧
  str_find new_line s = (if decide (s = l) then None else Some (length l)) ∧
  (s = l ∨ ∃ rest, s = l ++ crlf ++ rest).
Proof.
  intros Hne. destruct (str_find new_line s) as [i|] eqn:Hf.
  - destruct (str_find_Some _ _ _ Hf) as (l & rest & -> & <- & Hn).
    exists l. split; [left; by exists rest|]. rewrite decide_False; [eauto|].
    intros Heq. apply (f_equal length) in Heq. rewrite !length_app in Heq. simpl in Heq. lia.
  - exists s. split; [right; split; [done|by apply str_find_None]|]. rewrite decide_True by done. auto.
Qed.

(** Every text has a run. *)
Lemma run_exists s r : state_ r ≠ None → ∃ res r' s',
  run moved r s res r' s' ∧ state_ r' ≠ None ∧
  (res = Done tt ∨ ∃ w, res = Throw (Exn invalid_argument w)).
Proof.
  revert r. induction s as [s IH] using list_length_ind. intros r Hr.
  destruct (decide (s = [])) as [->|Hne]; [exists (Done tt), r, []; split; [constructor|auto]|].
  destruct (first_line_exists s Hne) as (l & Hl & Hfind & Hshape).
  destruct (State_Parse_handled l r Hr) as (r1 & Hr1 & [Hd|[w Hw]]).
  - destruct Hl as [(rest & -> & Hn)|[-> Hn]].
    + destruct (IH rest) with (r := r1) as (res & r2 & s2 & Hrun & Hr2 & Hres); [|done|].
      { rewrite !length_app. simpl. lia. }
      exists res, r2, s2. split; [by eapply run_line|done].
    + exists (Done tt), r1, []. split; [by apply run_last|auto].
  - exists (Throw (Exn invalid_argument w)), r1, s. split; [by eapply run_fail|eauto].
Qed.
End Machine.

(** ** The loop over the buffer *)

Section Loop.
Context (moved : bool → str → str).
Context {B : Type} `{!ByteQueue B}.
Implicit Types (b : B).

Lemma on_request_done {A} (m : M Request A) r b a r' :
  m r = (Done a, r') → on_request m (r, b) = (Done a, (r', b)).
Proof. unfold on_request, zoom. simpl. by intros ->. Qed.

Lemma on_request_throw {A} (m : M Request A) r b e r' :
  m r = (Throw e, r') → on_request m (r, b) = (Throw e, (r', b)).
Proof. unfold on_request, zoom. simpl. by intros ->. Qed.

Lemma on_queue_done {A} (m : M B A) r b a b' :
  m b = (Done a, b') → on_queue m (r, b) = (Done a, (r, b')).
Proof. unfold on_queue, zoom. simpl. by intros ->. Qed.

Lemma retrieve_prefix b l s :
  bq_ok b → bq_contents b = l ++ s →
  ∃ b', (∀ r : Request, on_queue (bq_Retrieve (len l)) (r, b) = (Done tt, (r, b'))) ∧ bq_ok b' ∧
    bq_contents b' = s ∧ leaves_room b [] b'.
Proof.
  intros Hok Hc. destruct (bq_Retrieve_spec b (len l) Hok) as (b' & H & Hok' & Hc' & Hroom).
  { rewrite Hc, len_app. lia. }
  exists b'. split; [intros r; by apply on_queue_done|]. split; [done|]. split; [|exact Hroom].
  rewrite Hc', Hc. unfold len. by rewrite Nat2N.id, drop_app_length.
Qed.

(** One turn that accepts the line [l] before a line end. *)
Lemma parse_loop_line fuel r r1 l rest b :
  (∀ i, i < length l → ¬ occurs_at crlf (l ++ crlf ++ rest) i) →
  State_Parse moved l r = (Done tt, r1) → bq_ok b → bq_contents b = l ++ crlf ++ rest →
  ∃ b', parse_loop moved (S fuel) (l ++ crlf ++ rest) (r, b) = parse_loop moved fuel rest (r1, b') ∧
    bq_ok b' ∧ bq_contents b' = rest ∧ leaves_room b [] b'.
Proof.
  intros Hn Hl Hok Hc.
  destruct (retrieve_prefix b l (crlf ++ rest) Hok Hc) as (b1 & H1 & Hok1 & Hc1 & Hr1).
  destruct (retrieve_prefix b1 crlf rest Hok1 Hc1) as (b2 & H2 & Hok2 & Hc2 & Hr2).
  exists b2. split; [|split_and!; [done..|by apply (leaves_room_trans b [] b1 [])]]. cbn [parse_loop].
  rewrite decide_False by by destruct l. unfold new_line.
  rewrite str_find_first by done. rewrite take_app_length.
  mrun (on_request_done _ r b tt r1 Hl). mrun (H1 r1). rewrite drop_app_length.
  mrun (H2 r1). by rewrite drop_app_length.
Qed.

(** The rejected line and what follows it stay in the queue. *)
Lemma parse_loop_fail fuel r r1 l s e b :
  s ≠ [] → first_line l s → State_Parse moved l r = (Throw e, r1) →
  parse_loop moved (S fuel) s (r, b) = (Throw e, (r1, b)).
Proof.
  intros Hne Hfl Hl. cbn [parse_loop]. rewrite decide_False by done.
  assert (match str_find new_line s with Some i => take i s | None => s end = l) as ->.
  { destruct Hfl as [(rest & -> & Hn)|[-> Hn]].
    - unfold new_line. by rewrite str_find_first, take_app_length.
    - unfold new_line. by rewrite (proj2 (str_find_None crlf l) Hn). }
  by rewrite (bind_throw _ _ _ _ _ (on_request_throw _ r b e r1 Hl)).
Qed.

(** The loop implements the runs. *)
Lemma parse_loop_run r s res r' s' :
  run moved r s res r' s' →
  ∀ fuel b, bq_ok b → bq_contents b = s → length s < fuel →
  ∃ b', parse_loop moved fuel s (r, b) = (res, (r', b')) ∧ bq_ok b' ∧ bq_contents b' = s' ∧ leaves_room b [] b'.
Proof.
  induction 1 as [r|r l rest r1 res r2 s Hn Hl Hrun IH|r l r1 Hne Hn Hl|r s l e r1 Hne Hfl Hl];
    intros [|fuel] b Hok Hc Hf; try lia.
  - exists b. split_and!; [done..|apply leaves_room_refl].
  - destruct (parse_loop_line fuel r r1 l rest b Hn Hl Hok Hc) as (b1 & H1 & Hok1 & Hc1 & Hr1).
    destruct (IH fuel b1 Hok1 Hc1) as (b2 & H2 & Hok2 & Hc2 & Hr2).
    { rewrite !length_app in Hf. simpl in Hf. lia. }
    exists b2. rewrite H1. split_and!; [done..|by apply (leaves_room_trans b [] b1 [])].
  - destruct (retrieve_prefix b l [] Hok) as (b1 & H1 & Hok1 & Hc1 & Hr1); [by rewrite app_nil_r|].
    exists b1. split; [|done]. cbn [parse_loop]. rewrite decide_False by done. unfold new_line.
    rewrite (proj2 (str_find_None crlf l) Hn). mrun (on_request_done _ r b tt r1 Hl).
    mrun (H1 r1). rewrite drop_all. destruct fuel; [|done].
    destruct l; [done|simpl in Hf; lia].
  - exists b. rewrite (parse_loop_fail fuel r r1 l s e b Hne Hfl Hl). split_and!; [done..|apply leaves_room_refl].
Qed.

Lemma Parse_empty r b :
  bq_ok b → bq_contents b = [] →
  Parse moved (r, b) = (Throw (Exn invalid_argument (s!"The buffer is empty")), (fresh_request, b)).
Proof.
  intros Hok Hc. unfold Parse.
  rewrite (bind_done _ _ _ _ _ (on_request_done Clear r b tt fresh_request eq_refl)).
  mrun (on_queue_done bq_Empty fresh_request b _ b (bq_Empty_spec b Hok)).
  by rewrite bool_decide_eq_true_2.
Qed.

Lemma Parse_run_room r b res r' s' :
  bq_ok b → bq_contents b ≠ [] → run moved fresh_request (bq_contents b) res r' s' →
  ∃ b', Parse moved (r, b) = (res, (r', b')) ∧ bq_ok b' ∧ bq_contents b' = s' ∧ leaves_room b [] b'.
Proof.
  intros Hok Hne Hrun. unfold Parse.
  rewrite (bind_done _ _ _ _ _ (on_request_done Clear r b tt fresh_request eq_refl)).
  mrun (on_queue_done bq_Empty fresh_request b _ b (bq_Empty_spec b Hok)).
  rewrite bool_decide_eq_false_2 by done.
  mrun (on_queue_done bq_ReadableString fresh_request b _ b (bq_ReadableString_spec b Hok)).
  by apply (parse_loop_run _ _ _ _ _ Hrun); [| |lia].
Qed.

Lemma Parse_run r b res r' s' :
  bq_ok b → bq_contents b ≠ [] → run moved fresh_request (bq_contents b) res r' s' →
  ∃ b', Parse moved (r, b) = (res, (r', b')) ∧ bq_ok b' ∧ bq_contents b' = s'.
Proof.
  intros Hok Hne Hrun. destruct (Parse_run_room r b res r' s' Hok Hne Hrun) as (b' & H & Hok' & Hc & _). by exists b'.
Qed.
End Loop.

(** * Lemmas: lines of a request *)

Lemma status_pattern_matches line gs :
  matches status_pattern line gs ↔
  ∃ a b c, line = a ++ SP :: b ++ s!" HTTP/" ++ c ∧ (SP ∉ a) ∧ (SP ∉ b) ∧ (SP ∉ c) ∧ gs = [a; b; c].
Proof.
  unfold status_pattern. split.
  - intros (a & s1 & gs1 & -> & -> & Ha & H1)%matches_group_inv.
    apply matches_literal in H1 as (s2 & -> & H1).
    apply matches_group_inv in H1 as (b & s3 & gs2 & -> & -> & Hb & H2).
    apply matches_literal in H2 as (s4 & -> & H2).
    apply matches_group_inv in H2 as (c & s5 & gs3 & -> & -> & Hc & H3).
    apply matches_nil_inv in H3 as [-> ->]. rewrite app_nil_r.
    apply not_char_all in Ha, Hb, Hc. by exists a, b, c.
  - intros (a & b & c & -> & Ha & Hb & Hc & ->). apply not_char_all in Ha, Hb, Hc.
    constructor; [done|]. apply matches_literal. exists (b ++ s!" HTTP/" ++ c). split; [done|].
    constructor; [done|]. apply matches_literal. exists c. split; [done|].
    rewrite <-(app_nil_r c) at 1. constructor; [done|constructor].
Qed.

Lemma status_line_match a b c :
  (SP ∉ a) → (SP ∉ b) → (SP ∉ c) →
  regex_match status_pattern (a ++ SP :: b ++ s!" HTTP/" ++ c) = Some [a; b; c].
Proof.
  intros Ha Hb Hc. apply regex_match_Some.
  - apply status_pattern_matches. by exists a, b, c.
  - intros gs (a' & b' & c' & He & Ha' & Hb' & Hc' & ->)%status_pattern_matches.
    apply split_first_unique in He as [-> He]; [|done|done].
    simpl in He. apply split_first_unique in He as [-> He]; [|done|done].
    by simplify_eq.
Qed.

Lemma header_pattern_matches line gs :
  matches header_pattern line gs ↔
  ∃ k v, (line = k ++ ":"%char :: v ∨ line = k ++ ":"%char :: SP :: v) ∧
    (":"%char ∉ k) ∧ (LF ∉ v) ∧ (CR ∉ v) ∧ gs = [k; v].
Proof.
  unfold header_pattern. split.
  - intros (k & s1 & gs1 & -> & -> & Hk & H1)%matches_group_inv.
    apply matches_literal in H1 as (s2 & -> & H1). apply not_char_all in Hk.
    assert (∀ s gs, matches [Group dot] s gs → gs = [s] ∧ (LF ∉ s) ∧ (CR ∉ s)) as Hdot.
    { clear. intros s gs (v & s3 & gs2 & -> & -> & Hv & H2)%matches_group_inv.
      apply matches_nil_inv in H2 as [-> ->]. rewrite app_nil_r. by apply dot_all in Hv. }
    apply matches_opt_inv in H1 as [H1|(c & s3 & -> & Hc & H1)];
      apply Hdot in H1 as (Hgs & ? & ?); rewrite Hgs.
    + exists k, s2. split; [by left|done].
    + apply bool_decide_eq_true in Hc as ->. exists k, s3. split; [by right|done].
  - intros (k & v & Hline & Hk & Hlf & Hcr & ->). apply not_char_all in Hk.
    assert (matches [Group dot] v [v]) as Hv.
    { rewrite <-(app_nil_r v) at 1. constructor; [by apply dot_all|constructor]. }
    destruct Hline as [-> | ->]; (constructor; [done|]); apply matches_literal.
    + exists v. split; [done|by apply m_opt_none].
    + exists (SP :: v). split; [done|]. by apply m_opt_some.
Qed.

(** The optional space is taken when there is one. *)
Lemma header_line_match k v :
  (":"%char ∉ k) → (LF ∉ v) → (CR ∉ v) →
  regex_match header_pattern (k ++ s!": " ++ v) = Some [k; v] ∧
  (head v ≠ Some SP → regex_match header_pattern (k ++ s!":" ++ v) = Some [k; v]).
Proof.
  intros Hk Hlf Hcr.
  assert (∀ gs, regex_match header_pattern (k ++ s!": " ++ v) = Some gs → gs = [k; v]) as Hgreedy.
  { intros gs Hm. unfold header_pattern in Hm. cbn [regex_match] in Hm.
    apply star_match_sound in Hm as (l & s' & He & Hl & Hm).
    apply fmap_Some in Hm as (gs' & Hm & ->). simpl in Hm.
    destruct s' as [|c s']; [done|]. destruct (is_char ":"%char c) eqn:Hc; [|done].
    apply bool_decide_eq_true in Hc as ->. apply not_char_all in Hl.
    apply split_first_unique in He as [-> <-]; [|done|done]. simpl in Hm.
    destruct (star_match dot _ [] v) as [g|] eqn:Hv.
    - simplify_eq. apply star_match_sound in Hv as (v1 & v2 & -> & Hv1 & Hv).
      destruct v2; [|done]. simplify_eq/=. by rewrite app_nil_r.
    - exfalso. revert Hv. rewrite <-(app_nil_r v). apply star_match_complete; [by apply dot_all|done]. }
  split.
  - destruct (regex_match header_pattern (k ++ s!": " ++ v)) as [gs|] eqn:Hm; [by rewrite (Hgreedy gs)|].
    exfalso. revert Hm. apply (regex_match_complete _ _ [k; v]). apply header_pattern_matches.
    exists k, v. split; [by right|done].
  - intros Hsp. apply regex_match_Some.
    + apply header_pattern_matches. exists k, v. split; [by left|done].
    + intros gs (k' & v' & Hline & Hk' & Hlf' & Hcr' & ->)%header_pattern_matches.
      destruct Hline as [He|He]; apply split_first_unique in He as [-> He]; try done; simpl in He.
      * by subst.
      * subst v. by destruct Hsp.
Qed.

(** * Lemmas: whole requests *)

(** A request as a client writes it. *)
Definition status_line (m : Method) (path ver : str) : str :=
  MethodToString m ++ SP :: path ++ s!" HTTP/" ++ ver.
Definition header_line (h : str * str) : str := h.1 ++ s!": " ++ h.2.
Fixpoint header_text (hs : list (str * str)) : str :=
  match hs with
  | [] => []
  | h :: hs' => header_line h ++ crlf ++ header_text hs'
  end.
Definition request_text (m : Method) (path ver : str) (hs : list (str * str)) (body : str) : str :=
  status_line m path ver ++ crlf ++ header_text hs ++ crlf ++ body.

(** What may stand in the parts of a request. *)
Definition word (s : str) : Prop := (SP ∉ s) ∧ (CR ∉ s).
Definition header_ok (h : str * str) : Prop :=
  (":"%char ∉ h.1) ∧ (CR ∉ h.1) ∧ (LF ∉ h.2) ∧ (CR ∉ h.2).

Lemma no_cr_line l rest : (CR ∉ l) → ∀ i, i < length l → ¬ occurs_at crlf (l ++ crlf ++ rest) i.
Proof.
  intros Hl i Hi (t & He & _). apply Hl.
  assert ((l ++ crlf ++ rest) !! i = Some CR) as Hc.
  { rewrite <-(Nat.add_0_r i), <-lookup_drop, He. done. }
  rewrite lookup_app_l in Hc by done. by eapply list_elem_of_lookup_2.
Qed.

Lemma no_cr_last l : (CR ∉ l) → ∀ i, ¬ occurs_at crlf l i.
Proof.
  intros Hl i (t & He & _). apply Hl.
  assert (l !! i = Some CR) as Hc by (rewrite <-(Nat.add_0_r i), <-lookup_drop, He; done).
  by eapply list_elem_of_lookup_2.
Qed.

Lemma MethodToString_find m : StringToMethod (MethodToString m) = Done m.
Proof. by destruct m. Qed.

Lemma MethodToString_word m : word (MethodToString m).
Proof. destruct m; split; apply (bool_decide_unpack _); vm_compute; exact I. Qed.

Section Requests.
Context (moved : bool → str → str).

Lemma status_line_parsed m path ver r :
  state_ r = Some NotStarted → word path → word ver →
  State_Parse moved (status_line m path ver) r =
    (Done tt, mkRequest (Some Header) m ver path (headers_ r) (post_ r)).
Proof.
  intros Hr [Hp _] [Hv _]. unfold State_Parse. mstep. rewrite Hr. unfold ParseStatusLine, status_line.
  rewrite status_line_match by (done || apply MethodToString_word).
  by rewrite (bind_done (of_outcome _) _ r m r) by (unfold of_outcome; by rewrite MethodToString_find).
Qed.

Lemma header_line_parsed h r :
  state_ r = Some Header → header_ok h →
  State_Parse moved (header_line h) r =
    (Done tt, mkRequest (Some Header) (method_ r) (version_ r) (path_ r)
                (emplace h.1 h.2 (headers_ r)) (post_ r)).
Proof.
  intros Hr (Hk & _ & Hlf & Hcr). unfold State_Parse. mstep. rewrite Hr. unfold Header_Parse, header_line.
  rewrite (proj1 (header_line_match h.1 h.2 Hk Hlf Hcr)). unfold modify. by rewrite Hr.
Qed.

Lemma empty_line_parsed r :
  state_ r = Some Header →
  State_Parse moved [] r =
    (Done tt, mkRequest (Some Body) (method_ r) (version_ r) (path_ r) (headers_ r) (post_ r)).
Proof. intros Hr. unfold State_Parse. mstep. by rewrite Hr. Qed.

Lemma header_lines_run hs : ∀ r rest res r' s',
  state_ r = Some Header → Forall header_ok hs →
  run moved (mkRequest (Some Header) (method_ r) (version_ r) (path_ r)
               (headers_ r ∪ list_to_map hs) (post_ r)) rest res r' s' →
  run moved r (header_text hs ++ rest) res r' s'.
Proof.
  induction hs as [|h hs IH]; intros r rest res r' s' Hr Hhs Hrun.
  { simpl in *. rewrite (right_id_L ∅ (∪)) in Hrun. destruct r; simpl in *; by subst. }
  apply Forall_cons in Hhs as [Hh Hhs]. cbn [header_text]. rewrite <-!app_assoc.
  pose proof Hh as (_ & Hk & _ & Hv).
  eapply run_line; [|by apply header_line_parsed|].
  - apply no_cr_line. unfold header_line. rewrite !not_elem_of_app. split; [done|]. split; [|done].
    apply (bool_decide_unpack _). vm_compute. exact I.
  - apply IH; [done|done|]. simpl. rewrite emplace_union, <-(assoc_L (∪)), <-insert_union_singleton_l.
    destruct h. exact Hrun.
Qed.

(** Status line, headers and empty line bring the parser to the body. *)
Lemma request_head_run m path ver hs body res r' s' :
  word path → word ver → Forall header_ok hs →
  run moved (mkRequest (Some Body) m ver path (list_to_map hs) ∅) body res r' s' →
  run moved fresh_request (request_text m path ver hs body) res r' s'.
Proof.
  intros Hp Hv Hhs Hrun. unfold request_text.
  eapply run_line; [|by apply status_line_parsed|].
  - apply no_cr_line. unfold status_line.
    pose proof (MethodToString_word m) as [_ Hm]. destruct Hp as [_ Hp], Hv as [_ Hv].
    rewrite !not_elem_of_app, not_elem_of_cons, !not_elem_of_app. split_and!; try done.
    apply (bool_decide_unpack _). vm_compute. exact I.
  - apply header_lines_run; [done|done|]. simpl. rewrite (left_id_L ∅ (∪)).
    apply (run_line moved _ [] body (mkRequest (Some Body) m ver path (list_to_map hs) ∅));
      [simpl; lia|by rewrite empty_line_parsed|done].
Qed.

Lemma Body_Parse_all r body ps k v :
  state_ r = Some Body → method_ r = Post → post_ r = ∅ →
  headers_ r !! s!"Content-Type" = Some (s!"application/x-www-form-urlencoded") →
  DecodeURLEncodedString body = Done (form_text (ps ++ [(k, v)])) →
  Forall (λ p, form_field p.1 ∧ form_field p.2 ∧ p.1 ≠ []) (ps ++ [(k, v)]) →
  State_Parse moved body r =
    if decide (v ≠ [] ∧ (spaces k ∉ spaces <$> ps.*1))
    then (Done tt, mkRequest (Some Finished) Post (version_ r) (path_ r) (headers_ r)
            (list_to_map (prod_map spaces spaces <$> (ps ++ [(k, v)]))))
    else (Throw (Exn invalid_argument (s!"Invalid HTTP POST data: '" ++ body ++ s!"'")),
          mkRequest (Some Body) Post (version_ r) (path_ r) (headers_ r) (list_to_map (prod_map spaces spaces <$> ps))).
Proof.
  intros Hr Hm Hpost Hct Hdec Hps. unfold State_Parse. mstep. rewrite Hr.
  unfold Body_Parse. mstep. rewrite Hm. unfold ParsePost, Request_Header.
  change (c_str (s!"Content-Type")) with (s!"Content-Type").
  pose proof (ParseURLEncodedPost_ref moved body _ r Hdec) as Hform.
  rewrite split_form in Hform; [|by destruct ps|eapply Forall_impl; [exact Hps|naive_solver]].
  rewrite fmap_app in Hform. cbn [fmap list_fmap] in Hform.
  change (prod_map spaces spaces (k, v)) with (spaces k, spaces v) in Hform.
  rewrite form_ref_all, Hpost, !(left_id_L ∅ (∪)), lookup_empty in Hform.
  2: { change [(spaces k, spaces v)] with (prod_map spaces spaces <$> [(k, v)]). rewrite <-fmap_app.
       apply Forall_fmap. eapply Forall_impl; [exact Hps|]. intros [k1 v1] (H1 & H2 & H3). simpl in *.
       apply spaces_field in H1, H2. split; [apply H1|]. split; [apply H2|]. by destruct k1. }
  assert ((prod_map spaces spaces <$> ps).*1 = spaces <$> ps.*1) as Hkeys
    by by rewrite <-list_fmap_compose, <-(list_fmap_compose fst spaces).
  rewrite Hkeys in Hform. assert (spaces v = [] ↔ v = []) as Hv by (by destruct v).
  rewrite fmap_app. cbn [fmap list_fmap]. change (prod_map spaces spaces (k, v)) with (spaces k, spaces v).
  destruct (decide (v ≠ [] ∧ (spaces k ∉ spaces <$> ps.*1))) as [[Hne Hnew]|Hbad].
  - rewrite decide_True in Hform by (split_and!; [by rewrite Hv|done|done]).
    erewrite bind_done; [|mstep; rewrite Hct; cbn [default]; rewrite decide_True by done; exact Hform].
    unfold SetState, modify, with_post. simpl. by rewrite Hm.
  - rewrite decide_False in Hform by (rewrite Hv; naive_solver).
    erewrite bind_throw; [|mstep; rewrite Hct; cbn [default]; rewrite decide_True by done; exact Hform].
    unfold with_post. by rewrite Hr, Hm.
Qed.

Lemma Body_Parse_form r body d ps k v :
  state_ r = Some Body → method_ r = Post → post_ r = ∅ →
  headers_ r !! s!"Content-Type" = Some (s!"application/x-www-form-urlencoded") →
  DecodeURLEncodedString body = Done (form_text (ps ++ [(k, v)])) →
  Forall (λ p, form_field p.1 ∧ form_field p.2 ∧ p.1 ≠ []) (ps ++ [(k, v)]) → v ≠ [] →
  (spaces k ∉ spaces <$> ps.*1) →
  d = list_to_map (prod_map spaces spaces <$> (ps ++ [(k, v)])) →
  State_Parse moved body r = (Done tt, mkRequest (Some Finished) Post (version_ r) (path_ r) (headers_ r) d).
Proof. intros Hr Hm Hpost Hct Hdec Hps Hv Hk ->. rewrite (Body_Parse_all r body ps k v) by done. by rewrite decide_True. Qed.

Lemma form_text_not_nil ps : ps ≠ [] → form_text ps ≠ [].
Proof. intros Hne. destruct ps as [|[k v] [|p ps]]; [done|by destruct k..]. Qed.

(** A text cut after one of its lines. *)
Lemma run_prefix r s res r' s' :
  run moved r s res r' s' → res = Done tt →
  ∀ p q, s = p ++ crlf ++ q → ∃ r'', run moved r (p ++ crlf) (Done tt) r'' [].
Proof.
  induction 1 as [r|r l rest r1 res r2 s' Hn Hl Hrun IH|r l r1 Hne Hn Hl|r s l e r1 Hne Hfl Hl];
    intros Hres p q Hs; [by destruct p| | |done].
  - assert (occurs_at crlf (l ++ crlf ++ rest) (length p)) as Hocc.
    { exists q. rewrite Hs, drop_app_length, length_app. split; [done|lia]. }
    assert (length l ≤ length p) as Hle by (apply not_lt; intros Hlt; by apply (Hn (length p))).
    destruct (decide (length p = length l)) as [Heq|Hneq].
    + apply app_inj_1 in Hs as [-> Hs]; [|done]. exists r1.
      rewrite <-(app_nil_r crlf). eapply run_line; [|done|constructor].
      intros i Hi (t & He & Hi'). apply (Hn i Hi).
      exists (t ++ rest). rewrite app_nil_r in He. rewrite app_assoc, drop_app_le by (rewrite length_app; lia).
      rewrite He, <-app_assoc. split; [done|]. rewrite !length_app. lia.
    + assert (∃ t, p = l ++ t) as [t ->].
      { exists (drop (length l) p). rewrite <-(take_drop (length l) p) at 1. f_equal.
        apply (f_equal (take (length l))) in Hs. by rewrite take_app_length, take_app_le in Hs by done. }
      rewrite <-app_assoc in Hs. apply app_inv_head in Hs. rewrite length_app in *.
      destruct t as [|c1 [|c2 t]]; [simpl in *; lia|by simplify_eq/=|].
      simpl in Hs. injection Hs as <- <- Hs. destruct (IH Hres t q Hs) as [r'' Hr''].
      exists r''. rewrite <-app_assoc. apply (run_line moved r l (t ++ crlf) r1); [|done|done].
      intros i Hi (u & He & Hi'). apply (Hn i Hi). exists (u ++ q).
      assert (l ++ crlf ++ rest = (l ++ crlf ++ t ++ crlf) ++ q) as ->
        by (rewrite Hs, <-!app_assoc; done).
      rewrite drop_app_le by (rewrite length_app; lia). rewrite He, <-app_assoc.
      split; [done|]. rewrite !length_app in *. lia.
  - exfalso. apply (Hn (length p)). exists q. rewrite Hs, drop_app_length, length_app.
    split; [done|lia].
Qed.
End Requests.

(** * Properties *)

(** C5: the parser on every input and over every byte queue: it ends, it fails no
    assertion, and it throws nothing but invalid arguments. Its result, its
    state and what it leaves in the queue are those of the state machine fed
    with the lines of the text. *)
Theorem parse_refines moved {B} `{!ByteQueue B} (r : Request) (b : B) :
  bq_ok b →
  ∃ res r' b', Parse moved (r, b) = (res, (r', b')) ∧ bq_ok b' ∧
    (res = Done tt ∨ ∃ w, res = Throw (Exn invalid_argument w)) ∧
    (bq_contents b = [] → res = Throw (Exn invalid_argument (s!"The buffer is empty")) ∧ b' = b) ∧
    (bq_contents b ≠ [] → run moved fresh_request (bq_contents b) res r' (bq_contents b')).
Proof.
  intros Hok. destruct (decide (bq_contents b = [])) as [He|Hne].
  - eexists _, _, b. split; [by apply Parse_empty|]. split_and!; [done|by right; eexists|done|done].
  - destruct (run_exists moved (bq_contents b) fresh_request) as (res & r' & s' & Hrun & _ & Hres); [done|].
    destruct (Parse_run moved r b res r' s' Hok Hne Hrun) as (b' & H & Hok' & Hc).
    exists res, r', b'. split_and!; [done|done|done|done|by rewrite Hc].
Qed.

Lemma parse_refines_witness :
  ∃ res r' b', Parse (λ _ _, []) (Request_default, s!"GET / HTTP/1.1") = (res, (r', b')) ∧
    run (λ _ _, []) fresh_request (s!"GET / HTTP/1.1") res r' b'.
Proof.
  destruct (parse_refines (λ _ _, []) Request_default (s!"GET / HTTP/1.1" : str))
    as (res & r' & b' & H & _ & _ & _ & Hrun); [exact I|].
  exists res, r', b'. split; [exact H|]. apply Hrun. discriminate.
Defined.

(** a request that a client writes is parsed to its parts: method, path,
    version and headers, of which the first wins where a name is repeated. The
    parser then waits for a body and has read everything. *)
Theorem request_parsed moved {B} `{!ByteQueue B} (r : Request) (b : B) m path ver hs :
  bq_ok b → word path → word ver → Forall header_ok hs →
  bq_contents b = request_text m path ver hs [] →
  ∃ b', Parse moved (r, b) =
      (Done tt, (mkRequest (Some Body) m ver path (list_to_map hs) ∅, b')) ∧
    bq_ok b' ∧ bq_contents b' = [].
Proof.
  intros Hok Hp Hv Hhs Hc. apply Parse_run; [done|rewrite Hc; by destruct m|].
  rewrite Hc. apply request_head_run; [done..|]. constructor.
Qed.

Lemma request_parsed_witness :
  ∃ b', Parse (λ _ _, []) (Request_default, s!"GET /a HTTP/1.1" ++ crlf ++ s!"Host: x" ++ crlf ++ crlf) =
      (Done tt, (mkRequest (Some Body) Get (s!"1.1") (s!"/a") (list_to_map [(s!"Host", s!"x")]) ∅, b')) ∧
    bq_contents b' = [].
Proof.
  destruct (request_parsed (λ _ _, []) Request_default
    (s!"GET /a HTTP/1.1" ++ crlf ++ s!"Host: x" ++ crlf ++ crlf : str) Get (s!"/a") (s!"1.1")
    [(s!"Host", s!"x")]) as (b' & H & _ & Hc).
  - exact I.
  - split; apply (bool_decide_unpack _); vm_compute; exact I.
  - split; apply (bool_decide_unpack _); vm_compute; exact I.
  - repeat constructor; apply (bool_decide_unpack _); vm_compute; exact I.
  - vm_compute. reflexivity.
  - exists b'. split; [exact H|exact Hc].
Defined.

(** C24: What becomes of a form that a client posts.  Its names and values may hold any
    characters except "=" and "&", and names are not empty.  The client chooses which
    characters of the text of the form it sends as they are, and percent-encodes the
    others; it encodes "%", and leaves no carriage return.  If the last value is not
    empty and the last name is new, the request is finished, with all the variables, in
    which the first value of a repeated name is kept; otherwise the body is refused,
    and the variables before the last one are kept.  In both cases every "+" has become
    a space, even one that was encoded. *)
Theorem post_parsed moved {B} `{!ByteQueue B} (r : Request) (b : B) path ver hs keep ps k v :
  bq_ok b → word path → word ver → Forall header_ok hs →
  (list_to_map hs : Parameters) !! s!"Content-Type" = Some (s!"application/x-www-form-urlencoded") →
  keep "%"%char = false → (CR ∉ encode keep (form_text (ps ++ [(k, v)]))) →
  Forall (λ p, form_field p.1 ∧ form_field p.2 ∧ p.1 ≠ []) (ps ++ [(k, v)]) →
  let body := encode keep (form_text (ps ++ [(k, v)])) in
  bq_contents b = request_text Post path ver hs body →
  let request state vars := mkRequest (Some state) Post ver path (list_to_map hs) (list_to_map (prod_map spaces spaces <$> vars)) in
  let accepted := decide (v ≠ [] ∧ (spaces k ∉ spaces <$> ps.*1)) in
  ∃ b', Parse moved (r, b) =
      (if accepted then (Done tt, (request Finished (ps ++ [(k, v)]), b'))
       else (Throw (Exn invalid_argument (s!"Invalid HTTP POST data: '" ++ body ++ s!"'")), (request Body ps, b'))) ∧
    bq_ok b' ∧ bq_contents b' = if accepted then [] else body.
Proof.
  intros Hok Hp Hv Hhs Hct Hkeep Hcr Hps body Hc request accepted.
  apply encode_decodes with (s := form_text (ps ++ [(k, v)])) in Hkeep as Hdec. fold body in Hdec, Hcr.
  assert (body ≠ []) as Hne.
  { intros He. rewrite He in Hdec. apply decodes_length in Hdec as [Hlen _].
    apply (form_text_not_nil (ps ++ [(k, v)])); [by destruct ps|]. apply nil_length_inv. simpl in Hlen. lia. }
  pose proof (Body_Parse_all moved (mkRequest (Some Body) Post ver path (list_to_map hs) ∅) body ps k v
    eq_refl eq_refl eq_refl Hct) as Hb. cbn [version_ path_ headers_] in Hb. fold accepted in Hb.
  unfold DecodeURLEncodedString in Hb. rewrite (decode_loop_decodes _ _ _ Hdec) in Hb by lia.
  specialize (Hb eq_refl Hps).
  assert (∀ res r' s', run moved (mkRequest (Some Body) Post ver path (list_to_map hs) ∅) body res r' s' →
    ∃ b', Parse moved (r, b) = (res, (r', b')) ∧ bq_ok b' ∧ bq_contents b' = s') as Hrun.
  { intros res r' s' Hr. apply Parse_run; [done|by rewrite Hc|]. rewrite Hc. by apply request_head_run. }
  destruct accepted; apply Hrun.
  - apply (run_last moved _ body); [done|by apply no_cr_last|exact Hb].
  - apply (run_fail moved _ body body); [done|right; split; [done|by apply no_cr_last]|exact Hb].
Qed.

Definition demo_post (body : str) : str :=
  s!"POST /f HTTP/1.1" ++ crlf ++ s!"Content-Type: application/x-www-form-urlencoded" ++ crlf ++ crlf ++ body.
Definition demo_keep (c : ascii) : bool := negb (bool_decide (c = "!"%char ∨ c = "%"%char)).

(** A form, and one whose last name is repeated. *)
Lemma post_parsed_witness :
  (∃ b', Parse (λ _ _, []) (Request_default, demo_post (s!"id=1&name=mike+chen&msg=hello%21")) =
    (Done tt, (mkRequest (Some Finished) Post (s!"1.1") (s!"/f")
      (list_to_map [(s!"Content-Type", s!"application/x-www-form-urlencoded")])
      (list_to_map [(s!"id", s!"1"); (s!"name", s!"mike chen"); (s!"msg", s!"hello!")]), b')) ∧
    bq_contents b' = []) ∧
  ∃ r b', Parse (λ _ _, []) (Request_default, demo_post (s!"id=1&id=2")) =
    (Throw (Exn invalid_argument (s!"Invalid HTTP POST data: 'id=1&id=2'")), (r, b')) ∧
    post_ r = list_to_map [(s!"id", s!"1")].
Proof.
  pose proof (λ ps k v, post_parsed (λ _ _, []) Request_default (demo_post (encode demo_keep (form_text (ps ++ [(k, v)]))))
    (s!"/f") (s!"1.1") [(s!"Content-Type", s!"application/x-www-form-urlencoded")] demo_keep ps k v I) as H.
  assert (word (s!"/f") ∧ word (s!"1.1") ∧
    Forall header_ok [(s!"Content-Type", s!"application/x-www-form-urlencoded")]) as (H1 & H2 & H3).
  { split_and!; repeat constructor; apply (bool_decide_unpack _); vm_compute; exact I. }
  split.
  - destruct (H [(s!"id", s!"1"); (s!"name", s!"mike+chen")] (s!"msg") (s!"hello!") H1 H2 H3) as (b' & Hr & _ & Hc).
    1: reflexivity. 1: reflexivity. 1: apply (bool_decide_unpack _); vm_compute; exact I.
    1: repeat constructor; try discriminate; apply (bool_decide_unpack _); vm_compute; exact I.
    1: vm_compute; reflexivity.
    assert (s!"hello!" ≠ [] ∧ (spaces (s!"msg") ∉ spaces <$> [(s!"id", s!"1"); (s!"name", s!"mike+chen")].*1)) as Hacc
      by (split; [discriminate|apply (bool_decide_unpack _); vm_compute; exact I]).
    rewrite decide_True in Hr by exact Hacc. rewrite decide_True in Hc by exact Hacc.
    exists b'. split; [exact Hr|exact Hc].
  - destruct (H [(s!"id", s!"1")] (s!"id") (s!"2") H1 H2 H3) as (b' & Hr & _ & Hc).
    1: reflexivity. 1: reflexivity. 1: apply (bool_decide_unpack _); vm_compute; exact I.
    1: repeat constructor; try discriminate; apply (bool_decide_unpack _); vm_compute; exact I.
    1: vm_compute; reflexivity.
    rewrite decide_False in Hr by (intros [_ Hn]; apply Hn; left).
    eexists _, b'. split; [exact Hr|reflexivity].
Defined.

(** C26: the loop over the body, with its indices and the view that aliases the
    modified string, computes the segment-wise meaning of the decoded text:
    split at ampersands first, each segment at its last equality sign. The
    variables stored before an error stay. *)
Theorem form_equivalence moved body r :
  (∀ d, DecodeURLEncodedString body = Done d →
     ParseURLEncodedPost moved body r =
       let '(post, ok) := form_ref moved (split_on "&"%char (spaces d)) [] (post_ r) in
       ((if ok : bool then Done tt
         else Throw (Exn invalid_argument (s!"Invalid HTTP POST data: '" ++ body ++ s!"'"))),
        with_post post r)) ∧
  (∀ e, DecodeURLEncodedString body = Throw e → ParseURLEncodedPost moved body r = (Throw e, r)).
Proof.
  split.
  - intros d Hd. rewrite (ParseURLEncodedPost_ref moved body d r Hd).
    by destruct (form_ref moved _ _ _) as [post []].
  - intros e He. unfold ParseURLEncodedPost. apply bind_throw. unfold of_outcome. by rewrite He.
Qed.

Lemma form_equivalence_witness :
  ParseURLEncodedPost (λ _ _, []) (s!"a=b=1&c=%2B") fresh_request =
    (Done tt, with_post (list_to_map [(s!"b", s!"1"); (s!"c", s!" ")]) fresh_request) ∧
  ParseURLEncodedPost (λ _ _, []) (s!"a=1&b=") fresh_request =
    (Throw (Exn invalid_argument (s!"Invalid HTTP POST data: 'a=1&b='")),
     with_post {[s!"a" := s!"1"]} fresh_request).
Proof.
  split.
  - rewrite (proj1 (form_equivalence (λ _ _, []) (s!"a=b=1&c=%2B") fresh_request) (s!"a=b=1&c=+"))
      by reflexivity. vm_compute. reflexivity.
  - rewrite (proj1 (form_equivalence (λ _ _, []) (s!"a=1&b=") fresh_request) (s!"a=1&b="))
      by reflexivity. vm_compute. reflexivity.
Defined.

(** the separators of a form are searched in the decoded text. A value that
    contains an ampersand or an equality sign is therefore split even when the
    client has encoded it: two bodies with the same decoded text have the same
    variables. *)
Theorem form_separators_decoded moved b1 b2 d r :
  DecodeURLEncodedString b1 = Done d → DecodeURLEncodedString b2 = Done d →
  (ParseURLEncodedPost moved b1 r).2 = (ParseURLEncodedPost moved b2 r).2 ∧
  ((ParseURLEncodedPost moved b1 r).1 = Done tt ↔ (ParseURLEncodedPost moved b2 r).1 = Done tt).
Proof.
  intros H1 H2. rewrite (ParseURLEncodedPost_ref moved b1 d r H1), (ParseURLEncodedPost_ref moved b2 d r H2).
  by destruct (form_ref moved _ _ _) as [post []].
Qed.

Lemma form_separators_decoded_witness :
  post_ (ParseURLEncodedPost (λ _ _, []) (s!"msg=x%26user%3Droot") fresh_request).2 =
    {[s!"msg" := s!"x"; s!"user" := s!"root"]}.
Proof.
  rewrite (proj1 (form_separators_decoded (λ _ _, []) (s!"msg=x%26user%3Droot") (s!"msg=x&user=root")
    (s!"msg=x&user=root") fresh_request eq_refl eq_refl)). vm_compute. reflexivity.
Defined.

(** A request whose first line is no status line stays in the buffer, so the
    connection never recovers: whatever arrives behind it, parsing again fails
    in the same way and removes nothing. *)
Theorem rejected_request_sticks moved {B} `{!ByteQueue B} (r : Request) (b : B) l rest more :
  bq_ok b → (CR ∉ l) → regex_match status_pattern l = None →
  bq_contents b = l ++ crlf ++ rest ++ more →
  Parse moved (r, b) =
    (Throw (Exn invalid_argument (s!"Invalid HTTP status line: '" ++ l ++ s!"'")), (fresh_request, b)).
Proof.
  intros Hok Hcr Hl Hc. assert (bq_contents b ≠ []) as Hne by (rewrite Hc; by destruct l).
  unfold Parse. rewrite (bind_done _ _ _ _ _ (on_request_done Clear r b tt fresh_request eq_refl)).
  mrun (on_queue_done bq_Empty fresh_request b _ b (bq_Empty_spec b Hok)).
  rewrite bool_decide_eq_false_2 by done.
  mrun (on_queue_done bq_ReadableString fresh_request b _ b (bq_ReadableString_spec b Hok)).
  apply (parse_loop_fail moved _ _ _ l); [done| |].
  - left. exists (rest ++ more). split; [done|]. rewrite Hc. by apply no_cr_line.
  - unfold State_Parse. mstep. simpl. unfold ParseStatusLine. by rewrite Hl.
Qed.

Lemma rejected_request_sticks_witness :
  Parse (λ _ _, []) (Request_default, s!"hello" ++ crlf) =
    (Throw (Exn invalid_argument (s!"Invalid HTTP status line: 'hello'")), (fresh_request, s!"hello" ++ crlf)) ∧
  Parse (λ _ _, []) (Request_default, s!"hello" ++ crlf ++ s!"GET / HTTP/1.1" ++ crlf ++ crlf) =
    (Throw (Exn invalid_argument (s!"Invalid HTTP status line: 'hello'")),
     (fresh_request, s!"hello" ++ crlf ++ s!"GET / HTTP/1.1" ++ crlf ++ crlf)).
Proof.
  split.
  - apply (rejected_request_sticks (λ _ _, []) Request_default (s!"hello" ++ crlf : str) (s!"hello") [] []).
    + exact I.
    + apply (bool_decide_unpack _). vm_compute. exact I.
    + vm_compute. reflexivity.
    + reflexivity.
  - apply (rejected_request_sticks (λ _ _, []) Request_default
      (s!"hello" ++ crlf ++ s!"GET / HTTP/1.1" ++ crlf ++ crlf : str) (s!"hello") []
      (s!"GET / HTTP/1.1" ++ crlf ++ crlf)).
    + exact I.
    + apply (bool_decide_unpack _). vm_compute. exact I.
    + vm_compute. reflexivity.
    + reflexivity.
Defined.

(** C40: A request that has arrived only in part is taken for a complete one: if a
    text is accepted, so is what precedes any of its line ends, before the
    headers are finished and before the body is there, and it is removed from
    the buffer. *)
Theorem truncated_request_accepted moved {B} `{!ByteQueue B} (r : Request) (b b1 : B) s1 p q :
  bq_ok b → bq_ok b1 → bq_contents b = p ++ crlf ++ q → bq_contents b1 = p ++ crlf →
  Parse moved (r, b) = (Done tt, s1) →
  ∃ r' b', Parse moved (r, b1) = (Done tt, (r', b')) ∧ bq_contents b' = [].
Proof.
  intros Hok Hok1 Hc Hc1 HP.
  assert (bq_contents b ≠ []) as Hne by (rewrite Hc; by destruct p).
  destruct (run_exists moved (bq_contents b) fresh_request) as (res & r1 & s' & Hrun & _ & _); [done|].
  destruct (Parse_run moved r b res r1 s' Hok Hne Hrun) as (b2 & H2 & _ & _).
  rewrite HP in H2. injection H2 as <- _.
  destruct (run_prefix moved _ _ _ _ _ Hrun eq_refl p q Hc) as (r'' & Hr'').
  rewrite <-Hc1 in Hr''. destruct (Parse_run moved r b1 _ _ _ Hok1 ltac:(rewrite Hc1; by destruct p) Hr'')
    as (b3 & H3 & _ & Hc3). by exists r'', b3.
Qed.

Lemma truncated_request_accepted_witness :
  ∃ r' b', Parse (λ _ _, []) (Request_default, s!"POST / HTTP/1.1" ++ crlf) = (Done tt, (r', b')) ∧
    bq_contents b' = [].
Proof.
  refine (truncated_request_accepted (λ _ _, []) Request_default
    (s!"POST / HTTP/1.1" ++ crlf ++ s!"Host: x" ++ crlf ++ crlf : str)
    (s!"POST / HTTP/1.1" ++ crlf : str) _ (s!"POST / HTTP/1.1")
    (s!"Host: x" ++ crlf ++ crlf) I I eq_refl eq_refl _).
  vm_compute. reflexivity.
Defined.
