(* ===== verification/Response.v ===== *)
(** The response builder of [src/http/response.h] and [src/http/response.cpp]. It
    appends to a byte queue, maps files through [MappedReadOnlyFile] and fills
    HTML templates; the file system and the iteration order of the parameters
    are parameters of the model. *)

From S2P Require Import Prelude ByteQueue Util Http.

(** * Paths ([std::filesystem::path] on POSIX) *)

(** [relative_path]: without the root directory. *)
Fixpoint relative_path (p : str) : str :=
  match p with
  | c :: p' => if decide (c = "/"%char) then relative_path p' else p
  | [] => []
  end.

(** [operator/]: an absolute right operand replaces the left one; a separator is
    put in when the left one ends with a file name. *)
Definition path_append (a b : str) : str :=
  match b, a with
  | "/"%char :: _, _ => b
  | _, [] => b
  | _, _ => if decide (last a = Some "/"%char) then a ++ b else a ++ "/"%char :: b
  end.

(** * State *)

Record Response := mkResponse {
  root_dir_ : str;
  file_path_ : str;
  file_ : MappedReadOnlyFile;
  keep_alive_ : bool;
  status_code_ : StatusCode
}.

Definition Response_of_root (root_dir : str) : Response :=
  mkResponse root_dir [] Mapped_default false OK.

(** * Operations *)

Section Operations.
Context (fs : FileSystem) (iter : Parameters → list (str * str)).
Context {B : Type} `{!ByteQueue B}.

Definition set_file (f : MappedReadOnlyFile) (r : Response) : Response :=
  mkResponse (root_dir_ r) (file_path_ r) f (keep_alive_ r) (status_code_ r).
Definition set_status (c : StatusCode) (r : Response) : Response :=
  mkResponse (root_dir_ r) (file_path_ r) (file_ r) (keep_alive_ r) c.
Definition set_path (p : str) (r : Response) : Response :=
  mkResponse (root_dir_ r) p (file_ r) (keep_alive_ r) (status_code_ r).

Definition on_resp {A} (m : M Response A) : M (Response * B) A := zoom fst (λ r s, (r, s.2)) m.
Definition on_file {A} (m : M MappedReadOnlyFile A) : M (Response * B) A :=
  on_resp (zoom file_ set_file m).
Definition on_buf {A} (m : M B A) : M (Response * B) A := zoom snd (λ b s, (s.1, b)) m.
Definition append (s : str) (nl : option NewLine) : M (Response * B) unit := on_buf (bq_Append s nl).

Definition Clear : M (Response * B) unit :=
  on_file Unmap;;
  on_resp (modify (set_status OK));;
  on_resp (modify (set_path [])).

Definition SetKeepAlive (set : bool) (r : Response) : Response :=
  mkResponse (root_dir_ r) (file_path_ r) (file_ r) set (status_code_ r).

Definition AddStatusLine : M (Response * B) unit :=
  s ← get;
  let code := status_code_ s.1 in
  append (s!"HTTP/" ++ version ++ s!" " ++ dec (StatusCodeToInteger code) ++ s!" " ++
          StatusCodeToMessage code) (Some NewLine_CRLF).

Definition AddHeaders : M (Response * B) unit :=
  append (s!"Connection: ") None;;
  s ← get;
  if keep_alive_ s.1 then
    append (s!"keep-alive") (Some NewLine_CRLF);;
    append (s!"keep-alive: max=6, timeout=120") (Some NewLine_CRLF)
  else append (s!"close") (Some NewLine_CRLF).

Definition AddMappedContent : M (Response * B) unit :=
  s ← get;
  assert_ (bool_decide (is_Some (Data (file_ s.1))));;
  append (s!"Content-type: " ++ ContentTypeByFileName (c_str (file_path_ s.1))) (Some NewLine_CRLF);;
  append (s!"Content-length: " ++ dec (Size (file_ s.1))) (Some NewLine_CRLF);;
  append new_line None.

(** The loop that appends the lines: a line end after each but the last. *)
Fixpoint append_lines (lines : list str) : M (Response * B) unit :=
  match lines with
  | [] => mret tt
  | [l] => append l None
  | l :: lines' => append l (Some NewLine_CRLF);; append_lines lines'
  end.

Definition lines_length (lines : list str) : N :=
  fold_left (λ n l, wadd n (len l)) lines (wmul (len new_line) (wsub (len lines) 1)).

Definition AddParamContent (params : Parameters) : M (Response * B) unit :=
  s ← get;
  assert_ (bool_decide (is_Some (Data (file_ s.1))));;
  append (s!"Content-type: " ++ ContentTypeByFileName (c_str (file_path_ s.1))) (Some NewLine_CRLF);;
  d ← deref (Data (file_ s.1));
  let content := take (N.to_nat (Size (file_ s.1))) d in
  content ← of_outcome (replace_params content (iter params));
  let lines := SplitStringToLines content in
  append (s!"Content-length: " ++ dec (lines_length lines)) (Some NewLine_CRLF);;
  append new_line None;;
  append_lines lines.

Definition AddPredefinedErrorContent (msg : str) : M (Response * B) unit :=
  append (s!"Content-type: text/html") (Some NewLine_CRLF);;
  s ← get;
  let code := status_code_ s.1 in
  let body :=
    s!"<html>" ++ new_line ++
    s!"<title>ERROR</title>" ++ new_line ++
    s!"<body>" ++ new_line ++
    (s!"<p>" ++ dec (StatusCodeToInteger code) ++ s!" : " ++ StatusCodeToMessage code ++ s!"</p>") ++
    new_line ++
    (if bool_decide (msg = []) then [] else (s!"<p>" ++ msg ++ s!"</p>") ++ new_line) ++
    s!"</body>" ++ new_line ++
    s!"</html>" in
  append (s!"Content-length: " ++ dec (len body)) (Some NewLine_CRLF);;
  append new_line None;;
  append body None.

(** The private [Build]. *)
Definition Build (params : option Parameters) : M (Response * B) unit := noexcept (
  s ← get;
  let r := s.1 in
  error_msg ← try_catch
    ((if bool_decide (root_dir_ r ≠ [])
      then on_file (Map fs (path_append (root_dir_ r) (relative_path (file_path_ r))))
      else on_file (Map fs (file_path_ r)));;
     mret None)
    (λ err, on_resp (modify (set_status BadRequest));; mret (Some (what err)));
  AddStatusLine;;
  AddHeaders;;
  match error_msg with
  | None =>
      match params with
      | Some p => AddParamContent p
      | None => AddMappedContent
      end
  | Some msg => AddPredefinedErrorContent msg
  end).

(** The public overloads: a file, an HTML page with parameters, a status. The
    first two also give the status code. *)
Definition Build_file (file : str) : M (Response * B) (option MappedReadOnlyFile * StatusCode) :=
  Clear;;
  on_resp (modify (set_path file));;
  on_resp (modify (set_status OK));;
  Build None;;
  s ← get;
  let code := status_code_ s.1 in
  match Data (file_ s.1) with
  | Some _ =>
      let '(f, rest) := Mapped_move (file_ s.1) in
      on_resp (modify (set_file rest));; mret (Some f, code)
  | None => mret (None, code)
  end.

Definition Build_html (html : str) (params : Parameters) : M (Response * B) StatusCode :=
  Clear;;
  on_resp (modify (set_path html));;
  on_resp (modify (set_status OK));;
  Build (Some params);;
  s ← get;
  mret (status_code_ s.1).

Definition Build_status (code : StatusCode) (msg : str) : M (Response * B) unit :=
  Clear;;
  on_resp (modify (set_status code));;
  on_resp (modify (set_path (s!"/http-status.html")));;
  let params := list_to_map [(s!"status-code", dec (StatusCodeToInteger code));
                             (s!"status", StatusCodeToMessage code);
                             (s!"msg", msg)] in
  Build (Some params).
End Operations.

(** * Specifications *)

(** The file a request path refers to. *)
Definition target (root path : str) : str :=
  if bool_decide (root ≠ []) then path_append root (relative_path path) else path.

Definition connection_text (keep : bool) : str :=
  s!"Connection: " ++
  (if keep then s!"keep-alive" ++ crlf ++ s!"keep-alive: max=6, timeout=120" else s!"close") ++ crlf.

(** Status line, headers and empty line of a response whose body has [n] bytes. *)
Definition head_text (code : StatusCode) (keep : bool) (type : str) (n : N) : str :=
  (s!"HTTP/1.1 " ++ dec (StatusCodeToInteger code) ++ s!" " ++ StatusCodeToMessage code ++ crlf) ++
  connection_text keep ++
  (s!"Content-type: " ++ type ++ crlf) ++ (s!"Content-length: " ++ dec n ++ crlf) ++ crlf.

Fixpoint join_lines (ls : list str) : str :=
  match ls with
  | [] => []
  | [l] => l
  | l :: ls' => l ++ crlf ++ join_lines ls'
  end.

Definition error_page (code : StatusCode) (msg : str) : str :=
  s!"<html>" ++ crlf ++ s!"<title>ERROR</title>" ++ crlf ++ s!"<body>" ++ crlf ++
  (s!"<p>" ++ dec (StatusCodeToInteger code) ++ s!" : " ++ StatusCodeToMessage code ++ s!"</p>") ++ crlf ++
  (if bool_decide (msg = []) then [] else (s!"<p>" ++ msg ++ s!"</p>") ++ crlf) ++
  s!"</body>" ++ crlf ++ s!"</html>".

(** The page a template gives: its holes filled, its line ends normalised. *)
Definition page_of (iter : Parameters → list (str * str)) (html : str) (params : Parameters) (page : str) : Prop :=
  ∃ content, replace_params html (iter params) = Done content ∧
             page = join_lines (SplitStringToLines content).

(** * Lemmas: writing *)

Section Writing.
Context {B : Type} `{!ByteQueue B}.
Implicit Types (m : M (Response * B) unit) (r : Response).

(** [m] started with the builder in state [r] appends [text] and leaves [r']. *)
Definition writes m r (text : str) r' : Prop :=
  ∀ b rest, bq_ok b → bq_fits b (text ++ rest) →
  ∃ b', m (r, b) = (Done tt, (r', b')) ∧ bq_ok b' ∧ bq_fits b' rest ∧
        bq_contents b' = bq_contents b ++ text.

Lemma writes_append s nl r : writes (append s nl) r (s ++ newline_text nl) r.
Proof.
  intros b rest Hok Hfit. rewrite <-app_assoc in Hfit.
  destruct (bq_Append_spec b s nl rest Hok Hfit) as (b' & H & Hok' & Hfit' & Hc).
  exists b'. split_and!; [|done..]. unfold append, on_buf, zoom. simpl. by rewrite H.
Qed.

Lemma writes_ret r : writes (mret tt) r [] r.
Proof. intros b rest Hok Hfit. exists b. by rewrite app_nil_r. Qed.

Lemma writes_seq m k r r1 r2 t1 t2 :
  writes m r t1 r1 → writes k r1 t2 r2 → writes (m;; k) r (t1 ++ t2) r2.
Proof.
  intros Hm Hk b rest Hok Hfit. rewrite <-app_assoc in Hfit.
  destruct (Hm b _ Hok Hfit) as (b1 & H1 & Hok1 & Hfit1 & Hc1).
  destruct (Hk b1 rest Hok1 Hfit1) as (b2 & H2 & Hok2 & Hfit2 & Hc2).
  exists b2. mrun H1. split_and!; [done..|]. by rewrite Hc2, Hc1, app_assoc.
Qed.

Lemma writes_get (f : Response * B → M (Response * B) unit) r t r' :
  (∀ b, writes (f (r, b)) r t r') → writes (get ≫= f) r t r'.
Proof. intros H b rest. exact (H b b rest). Qed.

Lemma writes_text m r t t' r' : writes m r t r' → t = t' → writes m r t' r'.
Proof. by intros ? <-. Qed.

Lemma writes_pure {A} (g : M (Response * B) A) (k : A → M (Response * B) unit) a r r1 r2 t :
  (∀ b, g (r, b) = (Done a, (r1, b))) → writes (k a) r1 t r2 → writes (g ≫= k) r t r2.
Proof.
  intros Hg Hk b rest Hok Hfit. destruct (Hk b rest Hok Hfit) as (b' & H & ?).
  exists b'. by mrun (Hg b).
Qed.

Lemma AddStatusLine_writes r :
  writes AddStatusLine r (s!"HTTP/1.1 " ++ dec (StatusCodeToInteger (status_code_ r)) ++ s!" " ++
    StatusCodeToMessage (status_code_ r) ++ crlf) r.
Proof.
  apply writes_get. intros b. eapply writes_text; [apply writes_append|].
  simpl. by rewrite <-!app_assoc.
Qed.

Lemma AddHeaders_writes r : writes AddHeaders r (connection_text (keep_alive_ r)) r.
Proof.
  unfold AddHeaders, connection_text. eapply writes_text.
  - eapply writes_seq; [apply writes_append|]. apply writes_get. intros b. simpl.
    instantiate (1 := (if keep_alive_ r then s!"keep-alive" ++ crlf ++ s!"keep-alive: max=6, timeout=120"
                       else s!"close") ++ crlf).
    destruct (keep_alive_ r); [|apply writes_append].
    eapply writes_text; [eapply writes_seq; apply writes_append|]. reflexivity.
  - reflexivity.
Qed.

Lemma append_lines_writes ls r : writes (append_lines ls) r (join_lines ls) r.
Proof.
  induction ls as [|l [|l' ls] IH]; [apply writes_ret|eapply writes_text; [apply writes_append|]|].
  - apply app_nil_r.
  - change (append_lines (l :: l' :: ls)) with (append l (Some NewLine_CRLF);; append_lines (l' :: ls)).
    eapply writes_text; [eapply writes_seq; [apply writes_append|exact IH]|].
    simpl. by rewrite <-app_assoc.
Qed.

Fixpoint total (ls : list str) : N :=
  match ls with [] => 0 | l :: ls' => len l + total ls' end.

Lemma len_join ls : ls ≠ [] → len (join_lines ls) = (2 * (len ls - 1) + total ls)%N.
Proof.
  induction ls as [|l [|l' ls] IH]; intros Hne; [done|simpl; len_lia|].
  change (join_lines (l :: l' :: ls)) with (l ++ crlf ++ join_lines (l' :: ls)).
  rewrite !len_app, IH by done. simpl total. unfold len. simpl length. lia.
Qed.

Lemma fold_wadd ls n :
  (n + total ls < word_mod)%N → fold_left (λ n l, wadd n (len l)) ls n = (n + total ls)%N.
Proof.
  revert n. induction ls as [|l ls IH]; intros n Hn; simpl in *; [lia|].
  rewrite wadd_small by lia. rewrite IH by lia. lia.
Qed.

Lemma lines_length_join ls :
  ls ≠ [] → (len (join_lines ls) < word_mod)%N → lines_length ls = len (join_lines ls).
Proof.
  intros Hne Hw. rewrite len_join in * by done. unfold lines_length.
  assert (0 < len ls)%N as Hpos by (destruct ls; [done|len_lia]).
  assert (2 < word_mod)%N as Hw2 by reflexivity.
  rewrite wsub_small by lia. change (len new_line) with 2%N. rewrite wmul_small by lia.
  by apply fold_wadd.
Qed.

(** ** Content *)

Context (iter : Parameters → list (str * str)).

Lemma AddMappedContent_writes r d :
  Data (file_ r) = Some d →
  writes AddMappedContent r
    ((s!"Content-type: " ++ ContentTypeByFileName (c_str (file_path_ r)) ++ crlf) ++
     (s!"Content-length: " ++ dec (Size (file_ r)) ++ crlf) ++ crlf) r.
Proof.
  intros Hd. apply writes_get. intros b0. simpl.
  eapply writes_pure; [intros b; apply assert_true; by rewrite Hd|].
  eapply writes_text; [eapply writes_seq; [apply writes_append|eapply writes_seq; apply writes_append]|].
  simpl. by rewrite <-!app_assoc.
Qed.

Lemma AddParamContent_writes r d params page :
  Data (file_ r) = Some d → Size (file_ r) = len d → page_of iter d params page →
  (len page < word_mod)%N →
  writes (AddParamContent iter params) r
    ((s!"Content-type: " ++ ContentTypeByFileName (c_str (file_path_ r)) ++ crlf) ++
     (s!"Content-length: " ++ dec (len page) ++ crlf) ++ crlf ++ page) r.
Proof.
  intros Hd Hs (content & Hp & ->) Hw. apply writes_get. intros b0. simpl.
  eapply writes_pure; [intros b; apply assert_true; by rewrite Hd|].
  eapply writes_text.
  - eapply writes_seq; [apply writes_append|].
    eapply writes_pure; [intros b; apply deref_some; by rewrite Hd|].
    rewrite Hs. unfold len at 1. rewrite Nat2N.id, firstn_all.
    eapply writes_pure; [intros b; unfold of_outcome; by rewrite Hp|]. cbv zeta.
    rewrite lines_length_join; [|by apply text_of_cons with content, SplitStringToLines_text|done].
    eapply writes_seq; [apply writes_append|]. eapply writes_seq; [apply writes_append|].
    apply append_lines_writes.
  - simpl. by rewrite <-!app_assoc.
Qed.

Lemma AddPredefinedErrorContent_writes r msg :
  writes (AddPredefinedErrorContent msg) r
    ((s!"Content-type: text/html" ++ crlf) ++
     (s!"Content-length: " ++ dec (len (error_page (status_code_ r) msg)) ++ crlf) ++ crlf ++
     error_page (status_code_ r) msg) r.
Proof.
  eapply writes_text.
  - eapply writes_seq; [apply writes_append|]. apply writes_get. intros b. cbv zeta.
    match goal with |- context [len ?x] => change x with (error_page (status_code_ r) msg) end.
    eapply writes_seq; [apply writes_append|]. eapply writes_seq; apply writes_append.
  - simpl newline_text. by rewrite <-!app_assoc, !app_nil_r.
Qed.
End Writing.

(** ** The whole response *)

Section Building.
Context (fs : FileSystem) (iter : Parameters → list (str * str)).
Context {B : Type} `{!ByteQueue B}.
Implicit Types (r : Response).
Hypothesis Hmmap : mmap_length fs.

Lemma noexcept_writes (m : M (Response * B) unit) r t r' : writes m r t r' → writes (noexcept m) r t r'.
Proof.
  intros Hm b rest Hok Hfit. destruct (Hm b rest Hok Hfit) as (b' & H & ?).
  exists b'. unfold noexcept. by rewrite H.
Qed.

(** The mapping step of [Build] and its handler. *)
Definition map_step (r : Response) : M (Response * B) (option str) :=
  try_catch
    ((if bool_decide (root_dir_ r ≠ [])
      then on_file (Map fs (path_append (root_dir_ r) (relative_path (file_path_ r))))
      else on_file (Map fs (file_path_ r)));;
     mret None)
    (λ err, on_resp (modify (set_status BadRequest));; mret (Some (what err))).

Lemma map_step_ok r :
  target (root_dir_ r) (file_path_ r) ≠ [] →
  ∃ f', match file_result fs (target (root_dir_ r) (file_path_ r)) with
        | inr d => (∀ b, map_step r (r, b) = (Done None, (set_file f' r, b))) ∧
                   Data f' = Some d ∧ Size f' = len d
        | inl e => (∀ b, map_step r (r, b) =
                      (Done (Some (what e)), (set_status BadRequest (set_file f' r), b))) ∧
                   Data f' = None
        end.
Proof.
  intros Hne. destruct (Map_result fs _ (file_ r) Hne) as (f' & HM & HD & HS).
  exists f'. unfold target in *. unfold map_step.
  assert (∀ (b : B), (if bool_decide (root_dir_ r ≠ [])
      then on_file (Map fs (path_append (root_dir_ r) (relative_path (file_path_ r))))
      else on_file (Map fs (file_path_ r))) (r, b) =
    (match file_result fs (if bool_decide (root_dir_ r ≠ [])
       then path_append (root_dir_ r) (relative_path (file_path_ r)) else file_path_ r) with
     | inl e => Throw e | inr bytes => Done bytes end, (set_file f' r, b))) as Hrun.
  { intros b. destruct (bool_decide (root_dir_ r ≠ []));
      unfold on_file, on_resp, zoom; simpl; by rewrite HM. }
  destruct (file_result fs _) as [e|d] eqn:Hf.
  - split; [|done]. intros b. unfold try_catch. by rewrite (bind_throw _ _ _ _ _ (Hrun b)).
  - split; [|by split; [|apply HS]]. intros b. unfold try_catch. by mrun (Hrun b).
Qed.

Lemma Build_ok params r d body :
  target (root_dir_ r) (file_path_ r) ≠ [] →
  file_result fs (target (root_dir_ r) (file_path_ r)) = inr d →
  match params with
  | Some p => page_of iter d p body ∧ (len body < word_mod)%N
  | None => body = []
  end →
  ∃ f', Data f' = Some d ∧ Size f' = len d ∧
    writes (Build fs iter params) r
      (head_text (status_code_ r) (keep_alive_ r) (ContentTypeByFileName (c_str (file_path_ r)))
         (match params with Some _ => len body | None => len d end) ++ body)
      (set_file f' r).
Proof.
  intros Hne Hf Hbody. destruct (map_step_ok r Hne) as (f' & Hm). rewrite Hf in Hm.
  destruct Hm as (Hm & Hd & Hs). exists f'. split_and!; [done|done|].
  apply noexcept_writes, writes_get. intros b0. cbn [fst]. cbv zeta.
  eapply writes_pure; [apply Hm|]. destruct params as [p|].
  - destruct Hbody as [Hpage Hw]. eapply writes_text.
    + eapply writes_seq; [apply AddStatusLine_writes|]. eapply writes_seq; [apply AddHeaders_writes|].
      by apply (AddParamContent_writes iter _ d p body).
    + unfold head_text. cbn [status_code_ keep_alive_ file_path_ set_file]. by rewrite <-!app_assoc.
  - subst body. rewrite <-Hs. eapply writes_text.
    + eapply writes_seq; [apply AddStatusLine_writes|]. eapply writes_seq; [apply AddHeaders_writes|].
      by apply (AddMappedContent_writes _ d).
    + unfold head_text. cbn [status_code_ keep_alive_ file_path_ set_file].
      by rewrite <-!app_assoc, !app_nil_r.
Qed.

Lemma Build_error params r e :
  target (root_dir_ r) (file_path_ r) ≠ [] →
  file_result fs (target (root_dir_ r) (file_path_ r)) = inl e →
  ∃ f', Data f' = None ∧
    writes (Build fs iter params) r
      (head_text BadRequest (keep_alive_ r) (s!"text/html") (len (error_page BadRequest (what e))) ++
       error_page BadRequest (what e))
      (set_status BadRequest (set_file f' r)).
Proof.
  intros Hne Hf. destruct (map_step_ok r Hne) as (f' & Hm). rewrite Hf in Hm.
  destruct Hm as (Hm & Hd). exists f'. split; [done|].
  apply noexcept_writes, writes_get. intros b0. cbn [fst]. cbv zeta.
  eapply writes_pure; [apply Hm|]. eapply writes_text.
  - eapply writes_seq; [apply AddStatusLine_writes|]. eapply writes_seq; [apply AddHeaders_writes|].
    apply AddPredefinedErrorContent_writes.
  - unfold head_text. cbn [status_code_ keep_alive_ file_path_ set_file set_status].
    by rewrite <-!app_assoc.
Qed.

(** [Clear] and the assignments before the private [Build]. *)
Definition prepared (path : str) (code : StatusCode) r : Response :=
  mkResponse (root_dir_ r) path (mkMapped [] zero_stat None) (keep_alive_ r) code.

Lemma Build_html_writes html params r t r' :
  writes (Build fs iter (Some params)) (prepared html OK r) t r' →
  ∀ b rest, bq_ok b → bq_fits b (t ++ rest) →
  ∃ b', Build_html fs iter html params (r, b) = (Done (status_code_ r'), (r', b')) ∧ bq_ok b' ∧
    bq_fits b' rest ∧ bq_contents b' = bq_contents b ++ t.
Proof.
  intros Hw b rest Hok Hfit. destruct (Hw b rest Hok Hfit) as (b' & H & ?). exists b'. split; [|done].
  change (Build_html fs iter html params (r, b)) with
    ((Build fs iter (Some params);; s ← get; mret (status_code_ s.1)) (prepared html OK r, b)).
  by mrun H.
Qed.

Lemma Build_status_writes code msg r t r' :
  writes (Build fs iter (Some (list_to_map [(s!"status-code", dec (StatusCodeToInteger code));
    (s!"status", StatusCodeToMessage code); (s!"msg", msg)])))
    (prepared (s!"/http-status.html") code r) t r' →
  writes (Build_status fs iter code msg) r t r'.
Proof. intros Hw b rest Hok Hfit. exact (Hw b rest Hok Hfit). Qed.

Lemma Build_file_writes file r t r' :
  writes (Build fs iter None) (prepared file OK r) t r' →
  ∀ b rest, bq_ok b → bq_fits b (t ++ rest) →
  ∃ b', (match Data (file_ r') with
         | Some _ => Build_file fs iter file (r, b) =
             (Done (Some (file_ r'), status_code_ r'), (set_file (Mapped_move (file_ r')).2 r', b'))
         | None => Build_file fs iter file (r, b) = (Done (None, status_code_ r'), (r', b'))
         end) ∧ bq_ok b' ∧ bq_fits b' rest ∧ bq_contents b' = bq_contents b ++ t.
Proof.
  intros Hw b rest Hok Hfit. destruct (Hw b rest Hok Hfit) as (b' & H & ?). exists b'. split; [|done].
  assert (Build_file fs iter file (r, b) =
    (s ← get;
     match Data (file_ s.1) with
     | Some _ => let '(f, rest) := Mapped_move (file_ s.1) in
                 on_resp (modify (set_file rest));; mret (Some f, status_code_ s.1)
     | None => mret (None, status_code_ s.1)
     end) (r', b')) as ->.
  { change (Build_file fs iter file (r, b)) with
      ((Build fs iter None;; s ← get;
        match Data (file_ s.1) with
        | Some _ => let '(f, rest) := Mapped_move (file_ s.1) in
                    on_resp (modify (set_file rest));; mret (Some f, status_code_ s.1)
        | None => mret (None, status_code_ s.1)
        end) (prepared file OK r, b)).
    by mrun H. }
  mstep. simpl. by destruct (Data (file_ r')).
Qed.
End Building.

(** * Properties *)

(** C23: an HTML page with parameters: the response is the status line, the
    headers and the page, with holes filled and line ends normalised; the
    Content-length is the number of bytes of the page that follow. *)
Theorem page_response fs iter {B} `{!ByteQueue B} html params (r : Response) (b : B) d page :
  mmap_length fs → target (root_dir_ r) html ≠ [] →
  file_result fs (target (root_dir_ r) html) = inr d →
  page_of iter d params page → (len page < word_mod)%N →
  let text := head_text OK (keep_alive_ r) (ContentTypeByFileName (c_str html)) (len page) ++ page in
  bq_ok b → bq_fits b text →
  ∃ r' b', Build_html fs iter html params (r, b) = (Done OK, (r', b')) ∧ bq_ok b' ∧
    bq_contents b' = bq_contents b ++ text.
Proof.
  intros Hl Hne Hf Hpage Hw text Hok Hfit.
  destruct (Build_ok fs iter Hl (B := B) (Some params) (prepared html OK r) d page Hne Hf (conj Hpage Hw))
    as (f' & _ & _ & Hwr).
  destruct (Build_html_writes fs iter html params r _ _ Hwr b [] Hok) as (b' & H & Hok' & _ & Hc).
  { by rewrite app_nil_r. }
  by eexists _, b'.
Qed.

Lemma page_response_witness :
  ∃ r' b', Build_html (one_file (s!"www/index.html") (s!"<p><$user$></p>" ++ [LF])) map_to_list
      (s!"/index.html") {[s!"user" := s!"ann"]} (Response_of_root (s!"www"), []) = (Done OK, (r', b')) ∧
    b' = s!"HTTP/1.1 200 OK" ++ crlf ++ s!"Connection: close" ++ crlf ++
         s!"Content-type: text/html" ++ crlf ++ s!"Content-length: 10" ++ crlf ++ crlf ++ s!"<p>ann</p>".
Proof.
  destruct (page_response (one_file (s!"www/index.html") (s!"<p><$user$></p>" ++ [LF])) map_to_list
    (s!"/index.html") {[s!"user" := s!"ann"]}
    (Response_of_root (s!"www")) ([] : str) (s!"<p><$user$></p>" ++ [LF]) (s!"<p>ann</p>"))
    as (r' & b' & H & _ & Hc).
  - apply one_file_mmap.
  - discriminate.
  - vm_compute. reflexivity.
  - exists (s!"<p>ann</p>" ++ [LF]). split; vm_compute; reflexivity.
  - vm_compute. reflexivity.
  - exact I.
  - exact I.
  - exists r', b'. split; [exact H|]. rewrite <-(app_nil_l b'). etransitivity; [exact Hc|].
    vm_compute. reflexivity.
Defined.

(** a file: the response is the status line and the headers, whose
    Content-length is the number of bytes of the file that is returned mapped
    for sending behind them. *)
Theorem file_response fs iter {B} `{!ByteQueue B} file (r : Response) (b : B) d :
  mmap_length fs → target (root_dir_ r) file ≠ [] →
  file_result fs (target (root_dir_ r) file) = inr d →
  let text := head_text OK (keep_alive_ r) (ContentTypeByFileName (c_str file)) (len d) in
  bq_ok b → bq_fits b text →
  ∃ f r' b', Build_file fs iter file (r, b) = (Done (Some f, OK), (r', b')) ∧ bq_ok b' ∧
    Data f = Some d ∧ Size f = len d ∧ bq_contents b' = bq_contents b ++ text.
Proof.
  intros Hl Hne Hf text Hok Hfit.
  destruct (Build_ok fs iter Hl (B := B) None (prepared file OK r) d [] Hne Hf eq_refl)
    as (f' & Hd & Hs & Hwr).
  destruct (Build_file_writes fs iter file r _ _ Hwr b [] Hok) as (b' & H & Hok' & _ & Hc).
  { by rewrite !app_nil_r. }
  simpl in H. rewrite Hd in H. rewrite app_nil_r in Hc. by eexists f', _, b'.
Qed.

Lemma file_response_witness :
  ∃ f r' b', Build_file (one_file (s!"www/a.png") (s!"PNG")) map_to_list (s!"/a.png")
      (SetKeepAlive true (Response_of_root (s!"www")), s!"old") = (Done (Some f, OK), (r', b')) ∧
    Data f = Some (s!"PNG") ∧
    b' = s!"oldHTTP/1.1 200 OK" ++ crlf ++ s!"Connection: keep-alive" ++ crlf ++
         s!"keep-alive: max=6, timeout=120" ++ crlf ++
         s!"Content-type: image/png" ++ crlf ++ s!"Content-length: 3" ++ crlf ++ crlf.
Proof.
  destruct (file_response (one_file (s!"www/a.png") (s!"PNG")) map_to_list (s!"/a.png")
    (SetKeepAlive true (Response_of_root (s!"www"))) (s!"old" : str) (s!"PNG"))
    as (f & r' & b' & H & _ & Hd & _ & Hc).
  - apply one_file_mmap.
  - discriminate.
  - vm_compute. reflexivity.
  - exact I.
  - exact I.
  - exists f, r', b'. split; [exact H|]. split; [exact Hd|].
    etransitivity; [exact Hc|]. vm_compute. reflexivity.
Defined.

(** when the file cannot be mapped, all three overloads answer 400 with the
    predefined page, whatever status was asked for: the page shows the
    exception, its Content-length is right, and no file is returned. *)
Theorem error_response fs iter {B} `{!ByteQueue B} (r : Response) (b : B) file params code msg e :
  mmap_length fs → target (root_dir_ r) file ≠ [] → target (root_dir_ r) (s!"/http-status.html") ≠ [] →
  file_result fs (target (root_dir_ r) file) = inl e →
  file_result fs (target (root_dir_ r) (s!"/http-status.html")) = inl e →
  let page := error_page BadRequest (what e) in
  let text := head_text BadRequest (keep_alive_ r) (s!"text/html") (len page) ++ page in
  bq_ok b → bq_fits b text →
  (∃ r' b', Build_file fs iter file (r, b) = (Done (None, BadRequest), (r', b')) ∧ bq_ok b' ∧
     bq_contents b' = bq_contents b ++ text) ∧
  (∃ r' b', Build_html fs iter file params (r, b) = (Done BadRequest, (r', b')) ∧ bq_ok b' ∧
     bq_contents b' = bq_contents b ++ text) ∧
  (∃ r' b', Build_status fs iter code msg (r, b) = (Done tt, (r', b')) ∧ bq_ok b' ∧
     bq_contents b' = bq_contents b ++ text).
Proof.
  intros Hl Hne Hne' Hf Hf' page text Hok Hfit. rewrite <-(app_nil_r text) in Hfit. split_and!.
  - destruct (Build_error fs iter Hl (B := B) None (prepared file OK r) e Hne Hf) as (f' & Hd & Hwr).
    destruct (Build_file_writes fs iter file r _ _ Hwr b [] Hok Hfit) as (b' & H & Hok' & _ & Hc).
    simpl in H. rewrite Hd in H. by eexists _, b'.
  - destruct (Build_error fs iter Hl (B := B) (Some params) (prepared file OK r) e Hne Hf) as (f' & Hd & Hwr).
    destruct (Build_html_writes fs iter file params r _ _ Hwr b [] Hok Hfit) as (b' & H & Hok' & _ & Hc).
    by eexists _, b'.
  - destruct (Build_error fs iter Hl (B := B) (Some (list_to_map
      [(s!"status-code", dec (StatusCodeToInteger code)); (s!"status", StatusCodeToMessage code);
       (s!"msg", msg)])) (prepared (s!"/http-status.html") code r) e Hne' Hf') as (f' & Hd & Hwr).
    destruct (Build_status_writes fs iter code msg r _ _ Hwr b [] Hok Hfit) as (b' & H & Hok' & _ & Hc).
    by eexists _, b'.
Qed.

Lemma error_response_witness :
  (∃ r' b', Build_status (one_file (s!"x") []) map_to_list OK (s!"hello") (Response_of_root [], []) =
     (Done tt, (r', b')) ∧
   b' = s!"HTTP/1.1 400 Bad Request" ++ crlf ++ s!"Connection: close" ++ crlf ++
        s!"Content-type: text/html" ++ crlf ++ s!"Content-length: 114" ++ crlf ++ crlf ++
        s!"<html>" ++ crlf ++ s!"<title>ERROR</title>" ++ crlf ++ s!"<body>" ++ crlf ++
        s!"<p>400 : Bad Request</p>" ++ crlf ++ s!"<p>No such file or directory</p>" ++ crlf ++
        s!"</body>" ++ crlf ++ s!"</html>").
Proof.
  destruct (error_response (one_file (s!"x") []) map_to_list (Response_of_root []) ([] : str)
    (s!"non_existing_file") ∅ OK (s!"hello") (Exn (system_error 2) (s!"No such file or directory")))
    as (_ & _ & r' & b' & H & _ & Hc).
  - apply one_file_mmap.
  - discriminate.
  - discriminate.
  - vm_compute. reflexivity.
  - vm_compute. reflexivity.
  - exact I.
  - exact I.
  - exists r', b'. split; [exact H|]. rewrite <-(app_nil_l b'). etransitivity; [exact Hc|].
    vm_compute. reflexivity.
Defined.

(** a path is not confined to the root directory: the parent components of a
    request path are kept, so a readable file outside is served. *)
Theorem path_not_confined fs iter {B} `{!ByteQueue B} (r : Response) (b : B) secret d :
  mmap_length fs → root_dir_ r ≠ [] → last (root_dir_ r) ≠ Some "/"%char →
  file_result fs (root_dir_ r ++ s!"/../" ++ secret) = inr d →
  bq_ok b → (∀ t, bq_fits b t) →
  ∃ f r' b', Build_file fs iter (s!"/../" ++ secret) (r, b) = (Done (Some f, OK), (r', b')) ∧
    Data f = Some d.
Proof.
  intros Hl Hr Hlast Hf Hok Hfit.
  assert (target (root_dir_ r) (s!"/../" ++ secret) = root_dir_ r ++ s!"/../" ++ secret) as Ht.
  { unfold target. rewrite bool_decide_eq_true_2 by done. simpl.
    destruct (root_dir_ r) as [|c l] eqn:He; [done|]. unfold path_append. by rewrite decide_False. }
  assert (target (root_dir_ r) (s!"/../" ++ secret) ≠ []) as Hne by (rewrite Ht; by destruct (root_dir_ r)).
  rewrite <-Ht in Hf.
  destruct (Build_ok fs iter Hl (B := B) None (prepared (s!"/../" ++ secret) OK r) d [] Hne Hf eq_refl)
    as (f' & Hd & _ & Hwr).
  destruct (Build_file_writes fs iter _ r _ _ Hwr b [] Hok (Hfit _)) as (b' & H & _).
  cbn [file_ set_file] in H. rewrite Hd in H. by eexists f', _, b'.
Qed.

Lemma path_not_confined_witness :
  ∃ f r' b', Build_file (one_file (s!"/srv/www/../passwd") (s!"root")) map_to_list (s!"/../passwd")
      (Response_of_root (s!"/srv/www"), []) = (Done (Some f, OK), (r', b')) ∧ Data f = Some (s!"root").
Proof.
  apply (path_not_confined (one_file (s!"/srv/www/../passwd") (s!"root")) map_to_list
    (Response_of_root (s!"/srv/www")) ([] : str) (s!"passwd") (s!"root")).
  - apply one_file_mmap.
  - discriminate.
  - discriminate.
  - vm_compute. reflexivity.
  - exact I.
  - intros t. exact I.
Defined.
