(* ===== verification/Connection.v ===== *)
(** The HTTP connection: [ConnectionImpl] of [include/http.h] and
    [src/http/http.cpp]. It reads a request from a socket into a buffer, parses it,
    builds the response in a second buffer and sends that buffer and a mapped
    file. *)

From S2P Require Import Prelude ByteQueue Buffer Util Http Io Regex.
From S2P Require Request Response.

(** * State *)

Record Connection := mkConnection {
  socket_ : Z;
  keep_alive_ : bool;
  read_buf_ : Buffer;
  write_buf_ : Buffer;
  file_ : MappedReadOnlyFile
}.

Definition invalid_file_descriptor : Z := -1.

(** The constructor, which asserts that the socket is valid. *)
Definition Connection_of_socket (socket : Z) : outcome Connection :=
  if IsValidFileDescriptor socket
  then Done (mkConnection socket false Buffer_default Buffer_default Mapped_default)
  else Crash.

Definition Socket (c : Connection) : Z := socket_ c.
Definition KeepAlive (c : Connection) : bool := keep_alive_ c.
Definition Valid (c : Connection) : bool := IsValidFileDescriptor (socket_ c).

Definition set_socket (s : Z) (c : Connection) : Connection :=
  mkConnection s (keep_alive_ c) (read_buf_ c) (write_buf_ c) (file_ c).
Definition set_keep_alive (k : bool) (c : Connection) : Connection :=
  mkConnection (socket_ c) k (read_buf_ c) (write_buf_ c) (file_ c).
Definition set_read_buf (b : Buffer) (c : Connection) : Connection :=
  mkConnection (socket_ c) (keep_alive_ c) b (write_buf_ c) (file_ c).
Definition set_write_buf (b : Buffer) (c : Connection) : Connection :=
  mkConnection (socket_ c) (keep_alive_ c) (read_buf_ c) b (file_ c).
Definition set_file (f : MappedReadOnlyFile) (c : Connection) : Connection :=
  mkConnection (socket_ c) (keep_alive_ c) (read_buf_ c) (write_buf_ c) f.

(** * The user's message *)

Definition user_tag : str := s!"user".
Definition msg_tag : str := s!"msg".

(** The strings are copied from C strings. *)
Definition ExtractUserMessage (request : Request.Request) : option Parameters :=
  let user := default [] (Request.Request_Post user_tag request) in
  let msg := default [] (Request.Request_Post msg_tag request) in
  if negb (bool_decide (user = [])) && negb (bool_decide (user = []))
  then Some (list_to_map [(user_tag, c_str user); (msg_tag, c_str msg)])
  else None.

(** * Processing a request *)

Definition index_page : str := s!"/index.html".
Definition hide_msg_tag : str := s!"hide-msg".
Definition true_tag : str := s!"true".
Definition false_tag : str := s!"false".

Section Process.
Context (fs : FileSystem) (iter : Parameters → list (str * str)) (moved : bool → str → str).
Context (root_dir_ : str).

(** Calls of the request parser and of the response builder, which work on the
    buffers of the connection. *)
Definition with_read_buf {A} (request : Request.Request) (m : M (Request.Request * Buffer) A) :
    M Connection (outcome A * Request.Request) := λ c,
  let '(r, (request', b)) := m (request, read_buf_ c) in
  (Done (r, request'), set_read_buf b c).
Definition with_write_buf {A} (response : Response.Response)
    (m : M (Response.Response * Buffer) A) : M Connection A := λ c,
  let '(r, (_, b)) := m (response, write_buf_ c) in (r, set_write_buf b c).

Definition Process : M Connection bool := noexcept (
  c ← get;
  let '(_, f) := Unmap (file_ c) in
  modify (set_file f);;
  if (ReadableSize (read_buf_ c) =? 0)%N then mret false
  else
    let response := Response.Response_of_root root_dir_ in
    '(parsed, request) ← with_read_buf Request.Request_default (Request.Parse moved);
    error_msg ← match parsed with
                | Done _ => mret None
                | Throw err => mret (Some (what err))
                | Crash => crash
                | OutOfFuel => out_of_fuel
                end;
    let keep := Request.KeepAlive request in
    modify (set_keep_alive keep);;
    let response := Response.SetKeepAlive keep response in
    match error_msg with
    | None =>
        let path := Request.path_ request in
        let path := if decide (path = [] ∨ path = s!"/") then index_page else path in
        if decide (path = index_page) then
          let params := default ∅ (ExtractUserMessage request) in
          let params := Request.emplace hide_msg_tag
                          (if decide (params = ∅) then true_tag else false_tag) params in
          with_write_buf response (Response.Build_html fs iter index_page params);;
          mret tt
        else
          '(file, _) ← with_write_buf response (Response.Build_file fs iter path);
          match file with
          | Some f => modify (set_file f)
          | None => mret tt
          end
    | Some msg => with_write_buf response (Response.Build_status fs iter BadRequest msg)
    end;;
    mret true).
End Process.

(** * Sockets *)

Section Sockets.
Context {W : Type}.
Context (readv : Z → N → N → W → (Z + str) * W).
Context (write : Z → str → W → (Z + N) * W).
Context (close : Z → W → W).
Context (strerror : Z → str).

Definition on_read_buf {A} (m : M (Buffer * W) A) : M (Connection * W) A :=
  zoom (λ s, (read_buf_ s.1, s.2)) (λ t s, (set_read_buf t.1 s.1, t.2)) m.
Definition on_write_buf {A} (m : M (Buffer * W) A) : M (Connection * W) A :=
  zoom (λ s, (write_buf_ s.1, s.2)) (λ t s, (set_write_buf t.1 s.1, t.2)) m.

Definition Close : M (Connection * W) unit :=
  s ← get;
  if IsValidFileDescriptor (socket_ s.1)
  then put (set_socket invalid_file_descriptor s.1, close (socket_ s.1) s.2)
  else mret tt.

(** The destructor. *)
Definition Connection_destroy : M (Connection * W) unit := noexcept Close.

Definition EAGAIN : Z := 11.
Definition try_again (e : exn) : bool :=
  match kind e with system_error code => (code =? EAGAIN)%Z | _ => false end.

(** The loop of [Receive]; it ends by an exception only. *)
Fixpoint receive_loop (fuel : nat) (size : N) : M (Connection * W) N :=
  match fuel with
  | 0 => out_of_fuel
  | S fuel' =>
      s ← get;
      let socket := socket_ s.1 in
      r ← try_catch
            (n ← on_read_buf (IOBuffer_ReadFrom (FileDescriptor readv write strerror socket socket));
             mret (Some n))
            (λ err, if try_again err then mret None else throw (kind err) (what err));
      match r with
      | Some n => receive_loop fuel' (wadd size n)
      | None => mret size
      end
  end.

Definition Receive (fuel : nat) : M (Connection * W) N := receive_loop fuel 0.

Fixpoint send_header (fuel : nat) (size : N) : M (Connection * W) N :=
  match fuel with
  | 0 => out_of_fuel
  | S fuel' =>
      s ← get;
      let socket := socket_ s.1 in
      if Empty (write_buf_ s.1) then mret size
      else
        n ← on_write_buf (IOBuffer_WriteTo (FileDescriptor readv write strerror socket socket));
        send_header fuel' (wadd size n)
  end.

Fixpoint send_file (fuel : nat) (file_size : N) : M (Connection * W) N :=
  match fuel with
  | 0 => out_of_fuel
  | S fuel' =>
      s ← get;
      let f := file_ s.1 in
      if (file_size <? Size f)%N then
        d ← deref (Data f);
        let bytes := take (N.to_nat (wsub (Size f) file_size)) (drop (N.to_nat file_size) d) in
        r ← (λ s, let '(r, w') := write (socket_ s.1) bytes s.2 in (Done r, (s.1, w')));
        match r with
        | inr size => send_file fuel' (wadd file_size size)
        | inl errno => throw (system_error errno) (strerror errno)
        end
      else mret file_size
  end.

(** [fuel] bounds the iterations of each loop. *)
Definition Send (fuel : nat) : M (Connection * W) N :=
  header_size ← send_header fuel 0;
  file_size ← send_file fuel 0;
  mret (wadd header_size file_size).
End Sockets.

(** * Specifications *)

Section Reply.
Context (fs : FileSystem) (iter : Parameters → list (str * str)) (root : str).

(** A template with its holes filled and its line ends normalised. *)
Definition render (html : str) (params : Parameters) : str :=
  match replace_params html (iter params) with
  | Done content => Response.join_lines (SplitStringToLines content)
  | _ => []
  end.

Definition error_reply (keep : bool) (e : exn) : str :=
  let page := Response.error_page BadRequest (what e) in
  Response.head_text BadRequest keep (s!"text/html") (len page) ++ page.

(** The response to a request for a page, respectively for a file. *)
Definition page_reply (code : StatusCode) (keep : bool) (path : str) (params : Parameters) : str :=
  match file_result fs (Response.target root path) with
  | inr d =>
      Response.head_text code keep (ContentTypeByFileName (c_str path)) (len (render d params)) ++
      render d params
  | inl e => error_reply keep e
  end.
Definition file_reply (keep : bool) (path : str) : str :=
  match file_result fs (Response.target root path) with
  | inr d => Response.head_text OK keep (ContentTypeByFileName (c_str path)) (len d)
  | inl e => error_reply keep e
  end.

(** The parameters of the index page and of the status page. *)
Definition index_params (request : Request.Request) : Parameters :=
  match ExtractUserMessage request with
  | Some params => <[hide_msg_tag := false_tag]> params
  | None => {[hide_msg_tag := true_tag]}
  end.
Definition status_params (code : StatusCode) (msg : str) : Parameters :=
  list_to_map [(s!"status-code", dec (StatusCodeToInteger code));
               (s!"status", StatusCodeToMessage code); (s!"msg", msg)].

Definition requested_path (request : Request.Request) : str :=
  let path := Request.path_ request in
  if decide (path = [] ∨ path = s!"/") then index_page else path.

(** What is written, and the data of the file to send behind it. *)
Definition reply_text (parsed : outcome unit) (request : Request.Request) : str :=
  let keep := Request.KeepAlive request in
  match parsed with
  | Throw e => page_reply BadRequest keep (s!"/http-status.html") (status_params BadRequest (what e))
  | _ => if decide (requested_path request = index_page)
         then page_reply OK keep index_page (index_params request)
         else file_reply keep (requested_path request)
  end.
Definition reply_file (parsed : outcome unit) (request : Request.Request) : option str :=
  match parsed with
  | Throw _ => None
  | _ => if decide (requested_path request = index_page) then None
         else match file_result fs (Response.target root (requested_path request)) with
              | inr d => Some d
              | inl _ => None
              end
  end.
End Reply.

(** * Lemmas: processing *)

Section ProcessLemmas.
Context (fs : FileSystem) (iter : Parameters → list (str * str)) (moved : bool → str → str).
Context (root : str).
Hypothesis Hmmap : mmap_length fs.
Implicit Types (c : Connection).

Lemma path_append_not_nil a b : a ≠ [] → Response.path_append a b ≠ [].
Proof.
  intros Ha. unfold Response.path_append. destruct b as [|x b]; destruct a as [|y a]; try done.
  - by case_decide.
  - repeat case_match; done.
Qed.

Lemma target_not_nil path : path ≠ [] → Response.target root path ≠ [].
Proof.
  intros Hp. unfold Response.target. case_bool_decide; [by apply path_append_not_nil|done].
Qed.

Lemma render_page_of d params : Response.page_of iter d params (render iter d params).
Proof.
  destruct (replace_params_total d (iter params)) as [content Hc]. exists content.
  unfold render. by rewrite Hc.
Qed.

Lemma fits_len (b : Buffer) t : fits b t → (len t < word_mod)%N.
Proof. unfold fits. pose proof max_size_word. lia. Qed.

Lemma fits_app (b : Buffer) t more : fits b (t ++ more) → fits b t.
Proof. unfold fits. rewrite len_app. lia. Qed.

Lemma fits_more (b b' : Buffer) n t : (write_pos_ b' ≤ write_pos_ b + n)%N → (n ≤ len t)%N → leaves_room b t b'.
Proof. intros Hw Hn d. simpl. unfold fits. rewrite len_app. lia. Qed.

(** Pages and files written by the builder. *)
Lemma build_page code keep f path params :
  path ≠ [] → (len (page_reply fs iter root code keep path params) < word_mod)%N →
  ∃ r', Response.writes (B := Buffer) (Response.Build fs iter (Some params))
    (Response.mkResponse root path f keep code) (page_reply fs iter root code keep path params) r'.
Proof.
  intros Hne Hlen. pose proof (target_not_nil _ Hne) as Ht. unfold page_reply in *.
  set (r := Response.mkResponse root path f keep code).
  destruct (file_result fs (Response.target root path)) as [e|d] eqn:Hf.
  - destruct (Response.Build_error fs iter Hmmap (B := Buffer) (Some params) r e Ht Hf) as (f' & _ & Hw).
    eexists. exact Hw.
  - destruct (Response.Build_ok fs iter Hmmap (B := Buffer) (Some params) r d (render iter d params) Ht Hf)
      as (f' & _ & _ & Hw); [|eexists; exact Hw].
    split; [apply render_page_of|]. rewrite len_app in Hlen. lia.
Qed.

Lemma build_file_reply keep path c more :
  path ≠ [] → wf (write_buf_ c) → fits (write_buf_ c) (file_reply fs root keep path ++ more) →
  ∃ f code b', with_write_buf (Response.SetKeepAlive keep (Response.Response_of_root root))
      (Response.Build_file fs iter path) c = (Done (f, code), set_write_buf b' c) ∧ wf b' ∧ fits b' more ∧
    readable b' = readable (write_buf_ c) ++ file_reply fs root keep path ∧
    match file_result fs (Response.target root path) with
    | inr d => ∃ m, f = Some m ∧ Data m = Some d ∧ Size m = len d
    | inl _ => f = None
    end.
Proof.
  intros Hne Hwf Hfit. pose proof (target_not_nil _ Hne) as Ht. unfold file_reply in *.
  set (r := Response.SetKeepAlive keep (Response.Response_of_root root)).
  set (p := Response.prepared path OK r).
  destruct (file_result fs (Response.target root path)) as [e|d] eqn:Hf.
  - destruct (Response.Build_error fs iter Hmmap (B := Buffer) None p e Ht Hf) as (f' & Hd & Hw).
    destruct (Response.Build_file_writes fs iter path r _ _ Hw (write_buf_ c) more Hwf Hfit)
      as (b' & H & Hwf' & Hfit' & Hc).
    simpl in H. rewrite Hd in H. exists None, BadRequest, b'. split_and!; try done.
    unfold with_write_buf. by rewrite H.
  - destruct (Response.Build_ok fs iter Hmmap (B := Buffer) None p d [] Ht Hf eq_refl) as (f' & Hd & Hs & Hw).
    rewrite app_nil_r in Hw.
    destruct (Response.Build_file_writes fs iter path r _ _ Hw (write_buf_ c) more Hwf Hfit)
      as (b' & H & Hwf' & Hfit' & Hc).
    simpl in H. rewrite Hd in H. exists (Some f'), OK, b'. split_and!; [|done|done|done|by exists f'].
    unfold with_write_buf. by rewrite H.
Qed.

Lemma build_index_reply keep params c more :
  wf (write_buf_ c) → fits (write_buf_ c) (page_reply fs iter root OK keep index_page params ++ more) →
  ∃ code b', with_write_buf (Response.SetKeepAlive keep (Response.Response_of_root root))
      (Response.Build_html fs iter index_page params) c = (Done code, set_write_buf b' c) ∧ wf b' ∧ fits b' more ∧
    readable b' = readable (write_buf_ c) ++ page_reply fs iter root OK keep index_page params.
Proof.
  intros Hwf Hfit. set (r := Response.SetKeepAlive keep (Response.Response_of_root root)).
  destruct (build_page OK keep (mkMapped [] zero_stat None) index_page params) as [r' Hw];
    [done|by eapply fits_len, fits_app|].
  destruct (Response.Build_html_writes fs iter index_page params r _ _ Hw (write_buf_ c) more Hwf Hfit)
    as (b' & H & Hwf' & Hfit' & Hc).
  eexists _, b'. split_and!; [|done..]. unfold with_write_buf. by rewrite H.
Qed.

Lemma build_status_reply keep msg c more :
  wf (write_buf_ c) →
  fits (write_buf_ c)
    (page_reply fs iter root BadRequest keep (s!"/http-status.html") (status_params BadRequest msg) ++ more) →
  ∃ b', with_write_buf (Response.SetKeepAlive keep (Response.Response_of_root root))
      (Response.Build_status fs iter BadRequest msg) c = (Done tt, set_write_buf b' c) ∧ wf b' ∧ fits b' more ∧
    readable b' = readable (write_buf_ c) ++
      page_reply fs iter root BadRequest keep (s!"/http-status.html") (status_params BadRequest msg).
Proof.
  intros Hwf Hfit. set (r := Response.SetKeepAlive keep (Response.Response_of_root root)).
  destruct (build_page BadRequest keep (mkMapped [] zero_stat None) (s!"/http-status.html")
    (status_params BadRequest msg)) as [r' Hw]; [done|by eapply fits_len, fits_app|].
  destruct (Response.Build_status_writes fs iter BadRequest msg r _ _ Hw (write_buf_ c) more Hwf Hfit)
    as (b' & H & Hwf' & Hfit' & Hc).
  exists b'. split_and!; [|done..]. unfold with_write_buf. by rewrite H.
Qed.

Lemma index_params_emplace request :
  let params := default ∅ (ExtractUserMessage request) in
  Request.emplace hide_msg_tag (if decide (params = ∅) then true_tag else false_tag) params =
    index_params request.
Proof.
  unfold index_params, ExtractUserMessage.
  set (user := default [] (Request.Request_Post user_tag request)).
  set (msg := default [] (Request.Request_Post msg_tag request)).
  destruct (negb (bool_decide (user = [])) && negb (bool_decide (user = []))); cbn [default].
  - rewrite decide_False; [|by apply insert_non_empty]. unfold Request.emplace, id.
    assert ((list_to_map [(user_tag, c_str user); (msg_tag, c_str msg)] : Parameters) !! hide_msg_tag = None)
      as ->; [|done].
    apply not_elem_of_list_to_map. apply (bool_decide_unpack _). vm_compute. exact I.
  - by rewrite decide_True.
Qed.

(** Without anything to read, [Process] only drops the mapped file. *)
Lemma Process_nothing c :
  wf (read_buf_ c) → readable (read_buf_ c) = [] →
  Process fs iter moved root c = (Done false, set_file Mapped_default c).
Proof.
  intros Hr He. unfold Process, noexcept. mstep. cbn [Unmap put]. mstep.
  by rewrite (ReadableSize_wf _ Hr), He.
Qed.

(** The steps of [Process] after the request has been parsed. *)
Lemma Process_parsed c res request rb more :
  wf (read_buf_ c) → wf (write_buf_ c) → readable (read_buf_ c) ≠ [] →
  Request.Parse moved (Request.Request_default, read_buf_ c) = (res, (request, rb)) →
  (res = Done tt ∨ ∃ e, res = Throw e) →
  fits (write_buf_ c) (reply_text fs iter root res request ++ more) →
  ∃ c', Process fs iter moved root c = (Done true, c') ∧ socket_ c' = socket_ c ∧
    keep_alive_ c' = Request.KeepAlive request ∧ read_buf_ c' = rb ∧ wf (write_buf_ c') ∧ fits (write_buf_ c') more ∧
    readable (write_buf_ c') = readable (write_buf_ c) ++ reply_text fs iter root res request ∧
    Data (file_ c') = reply_file fs root res request ∧
    Size (file_ c') = from_option len 0%N (Data (file_ c')).
Proof.
  intros Hr Hw Hne HP Hres Hfit. unfold Process, noexcept. mstep. cbn [Unmap put]. mstep.
  rewrite (ReadableSize_wf _ Hr).
  rewrite (proj2 (N.eqb_neq _ 0)) by (destruct (readable (read_buf_ c)); [done|len_lia]).
  set (keep := Request.KeepAlive request).
  set (c1 := set_read_buf rb (set_file (mkMapped [] zero_stat None) c)).
  rewrite (bind_done _ _ _ (res, request) c1).
  2:{ unfold with_read_buf. simpl. by rewrite HP. }
  set (c2 := set_keep_alive keep c1).
  destruct Hres as [->|[e ->]]; cbn [reply_text reply_file] in *; fold keep in Hfit |- *.
  - do 2 mstep. unfold requested_path in *.
    set (path := if decide _ then index_page else _) in *.
    destruct (decide (path = index_page)) as [Hp|Hp].
    + cbv zeta. rewrite index_params_emplace.
      destruct (build_index_reply keep (index_params request) c2 more Hw Hfit) as (code & b' & H & Hwf' & Hfit' & Hc).
      rewrite (bind_done _ _ _ tt (set_write_buf b' c2)); [|by mrun H].
      eexists. by split_and!.
    + assert (path ≠ []) as Hpne by (unfold path; case_decide; naive_solver).
      destruct (build_file_reply keep path c2 more Hpne Hw Hfit) as (f & code & b' & H & Hwf' & Hfit' & Hc & Hf).
      destruct (file_result fs (Response.target root path)) as [e|d].
      * subst f. rewrite (bind_done _ _ _ tt (set_write_buf b' c2)); [|by mrun H].
        eexists. by split_and!.
      * destruct Hf as (m & -> & Hd & Hs).
        rewrite (bind_done _ _ _ tt (set_file m (set_write_buf b' c2))); [|by mrun H].
        eexists. split_and!; try done. simpl. by rewrite Hd, Hs.
  - do 2 mstep. destruct (build_status_reply keep (what e) c2 more Hw Hfit) as (b' & H & Hwf' & Hfit' & Hc).
    rewrite (bind_done _ _ _ tt (set_write_buf b' c2)); [|exact H].
    eexists. by split_and!.
Qed.
End ProcessLemmas.

(** * Lemmas: sockets *)

Section SocketLemmas.
Context {W : Type}.
Context (readv : Z → N → N → W → (Z + str) * W).
Context (write : Z → str → W → (Z + N) * W).
Context (strerror : Z → str).
Implicit Types (c : Connection) (w : W).




(** [delivers fd w ds errno w']: in the world [w] successive reads of the socket
    give the chunks [ds] and then fail with [errno]. *)
Inductive delivers (fd : Z) : W → list str → Z → W → Prop :=
| delivers_stop w errno w' :
    (∀ n, readv fd n ext_size w = (inl errno, w')) → delivers fd w [] errno w'
| delivers_chunk w d w1 ds errno w' :
    (∀ n, readv fd n ext_size w = (inr d, w1)) → delivers fd w1 ds errno w' →
    delivers fd w (d :: ds) errno w'.

Lemma on_read_buf_eq {A} (m : M (Buffer * W) A) c w r b' w' :
  m (read_buf_ c, w) = (r, (b', w')) → on_read_buf m (c, w) = (r, (set_read_buf b' c, w')).
Proof. intros H. unfold on_read_buf, zoom. simpl. by rewrite H. Qed.

Lemma on_write_buf_eq {A} (m : M (Buffer * W) A) c w r b' w' :
  m (write_buf_ c, w) = (r, (b', w')) → on_write_buf m (c, w) = (r, (set_write_buf b' c, w')).
Proof. intros H. unfold on_write_buf, zoom. simpl. by rewrite H. Qed.

(** One turn of [Receive] that reads the chunk [d]. *)
Lemma receive_chunk fuel size c w d w1 :
  wf (read_buf_ c) → fits (read_buf_ c) d → (∀ n, readv (socket_ c) n ext_size w = (inr d, w1)) →
  ∃ b', wf b' ∧ readable b' = readable (read_buf_ c) ++ d ∧
    (write_pos_ b' ≤ write_pos_ (read_buf_ c) + len d)%N ∧
    receive_loop readv write strerror (S fuel) size (c, w) = receive_loop readv write strerror fuel (wadd size (len d)) (set_read_buf b' c, w1).
Proof.
  intros Hwf Hfit Hv.
  destruct (FD_WriteTo_done readv strerror (socket_ c) (read_buf_ c) w d w1 Hwf (Hv _) Hfit)
    as (b' & H & Hwf' & Hc & Hw).
  exists b'. split_and!; [done..|]. cbn [receive_loop]. mstep.
  rewrite (bind_done _ _ _ (Some (len d)) (set_read_buf b' c, w1)); [done|].
  unfold try_catch. by mrun (on_read_buf_eq _ c w _ _ _ H).
Qed.

Lemma receive_loop_ok w ds errno w' fd :
  delivers fd w ds errno w' → ∀ fuel size c,
  socket_ c = fd → wf (read_buf_ c) → fits (read_buf_ c) (concat ds) →
  (size + len (concat ds) < word_mod)%N → length ds < fuel →
  ∃ b', wf b' ∧ readable b' = readable (read_buf_ c) ++ concat ds ∧ leaves_room (read_buf_ c) (concat ds) b' ∧
    receive_loop readv write strerror fuel size (c, w) =
      (if (errno =? EAGAIN)%Z then Done (size + len (concat ds))%N
       else Throw (Exn (system_error errno) (strerror errno)), (set_read_buf b' c, w')).
Proof.
  induction 1 as [w errno w' Hv|w d w1 ds errno w' Hv Hds IH]; intros [|fuel] size c Hs Hwf Hfit Hsz Hf;
    try (simpl in Hf; lia); subst fd.
  - exists (read_buf_ c). rewrite app_nil_r. split_and!; [done..|apply leaves_room_refl|].
    pose proof (FD_WriteTo_error readv strerror (socket_ c) (read_buf_ c) w errno w' Hwf (Hv _)) as H.
    cbn [receive_loop]. mstep. unfold try_catch.
    rewrite N.add_0_r. destruct (errno =? EAGAIN)%Z eqn:He.
    + rewrite (bind_done _ _ _ None (set_read_buf (read_buf_ c) c, w')); [done|].
      rewrite (bind_throw _ _ _ _ _ (on_read_buf_eq _ c w _ _ _ H)). unfold try_again. simpl. by rewrite He.
    + apply bind_throw. rewrite (bind_throw _ _ _ _ _ (on_read_buf_eq _ c w _ _ _ H)).
      unfold try_again. simpl. by rewrite He.
  - simpl concat in *. rewrite len_app in Hsz. unfold fits in Hfit. rewrite len_app in Hfit.
    destruct (receive_chunk fuel size c w d w1 Hwf) as (b1 & Hwf1 & Hc1 & Hw1 & H1); [unfold fits; lia|done|].
    destruct (IH fuel (wadd size (len d)) (set_read_buf b1 c)) as (b2 & Hwf2 & Hc2 & Hroom2 & H2).
    { done. } { done. } { unfold fits. simpl. lia. } { rewrite wadd_small by lia. lia. }
    { simpl in Hf. lia. }
    exists b2. split_and!; [done|simpl in Hc2; by rewrite Hc2, Hc1, app_assoc|
      by apply (leaves_room_trans _ _ b1); [eapply fits_more|]|].
    rewrite H1, H2. rewrite wadd_small, len_app by lia. by rewrite N.add_assoc.
Qed.

(** At the end of the stream the loop never stops. *)
Lemma receive_loop_eof w fuel : ∀ size c,
  wf (read_buf_ c) → (∀ n, readv (socket_ c) n ext_size w = (inr [], w)) →
  (receive_loop readv write strerror fuel size (c, w)).1 = OutOfFuel.
Proof.
  induction fuel as [|fuel IH]; intros size c Hwf Hv; [done|].
  destruct (receive_chunk fuel size c w [] w Hwf) as (b1 & Hwf1 & Hc1 & Hw1 & H1); [|done|].
  { unfold fits. destruct Hwf. unfold len at 1. simpl. lia. }
  rewrite H1. by apply IH.
Qed.

(** A kernel that takes at least one byte of every write; [sent] is what it has
    taken. *)
Definition accepts (sent : W → str) : Prop :=
  ∀ fd d w, d ≠ [] → ∃ n w', write fd d w = (inr n, w') ∧ (1 ≤ n ≤ len d)%N ∧
    sent w' = sent w ++ take (N.to_nat n) d.

Lemma send_header_ok sent : accepts sent → ∀ fuel size c w,
  wf (write_buf_ c) → length (readable (write_buf_ c)) < fuel →
  (size + len (readable (write_buf_ c)) < word_mod)%N →
  ∃ b' w', send_header readv write strerror fuel size (c, w) =
      (Done (size + len (readable (write_buf_ c)))%N, (set_write_buf b' c, w')) ∧
    wf b' ∧ readable b' = [] ∧ sent w' = sent w ++ readable (write_buf_ c) ∧ leaves_room (write_buf_ c) [] b'.
Proof.
  intros Hacc. induction fuel as [|fuel IH]; intros size c w Hwf Hf Hsz; [lia|].
  cbn [send_header]. mstep. cbn [fst]. rewrite (Empty_wf _ Hwf).
  destruct (decide (readable (write_buf_ c) = [])) as [He|Hne].
  - rewrite bool_decide_eq_true_2 by done. exists (write_buf_ c), w. rewrite He.
    rewrite app_nil_r, N.add_0_r. split_and!; [by destruct c|done..|apply leaves_room_refl].
  - rewrite bool_decide_eq_false_2 by done.
    destruct (Hacc (socket_ c) _ w Hne) as (n & w1 & Hw & Hn & Hsent).
    destruct (FD_ReadFrom_done write strerror (socket_ c) (write_buf_ c) w n w1 Hwf Hw)
      as (b1 & H1 & Hwf1 & Hc1 & Hw1); [lia|].
    mrun (on_write_buf_eq _ c w _ _ _ H1).
    destruct (IH (wadd size n) (set_write_buf b1 c) w1) as (b2 & w2 & H2 & Hwf2 & Hc2 & Hs2 & Hr2).
    { done. } { simpl. rewrite Hc1. len_lia. } { simpl. rewrite Hc1, wadd_small by lia. len_lia. }
    simpl in H2, Hs2. rewrite Hc1 in H2, Hs2. exists b2, w2. split_and!; [|done|done| |].
    + rewrite H2. rewrite wadd_small by lia. do 2 f_equal. len_lia.
    + by rewrite Hs2, Hsent, <-app_assoc, take_drop.
    + apply (leaves_room_trans _ [] b1 []); [|exact Hr2]. apply (fits_more _ _ 0); [rewrite Hw1|]; lia.
Qed.

Lemma send_file_ok sent d : accepts sent → (len d < word_mod)%N → ∀ fuel pos c w,
  Data (file_ c) = Some d → Size (file_ c) = len d → (pos ≤ len d)%N →
  length d - N.to_nat pos < fuel →
  ∃ w', send_file write strerror fuel pos (c, w) = (Done (len d), (c, w')) ∧
    sent w' = sent w ++ drop (N.to_nat pos) d.
Proof.
  intros Hacc Hd. induction fuel as [|fuel IH]; intros pos c w HD HS Hp Hf; [lia|].
  cbn [send_file]. mstep. cbn [fst]. rewrite HS.
  destruct (N.ltb_spec pos (len d)) as [Hlt|Hge].
  - mrun_by @deref_some ltac:(exact HD). cbv zeta. rewrite wsub_small by lia.
    assert (take (N.to_nat (len d - pos)) (drop (N.to_nat pos) d) = drop (N.to_nat pos) d) as ->
      by (apply take_ge; len_lia).
    destruct (Hacc (socket_ c) (drop (N.to_nat pos) d) w) as (n & w1 & Hw & Hn & Hsent).
    { intros He. apply (f_equal length) in He. revert He. len_lia. }
    rewrite (bind_done _ _ _ (inr n) (c, w1)); [|simpl; by rewrite Hw].
    assert (len (drop (N.to_nat pos) d) = len d - pos)%N as Hl by len_lia. rewrite Hl in Hn.
    destruct (IH (wadd pos n) c w1 HD HS) as (w2 & H2 & Hs2); rewrite ?wadd_small by lia; [lia|len_lia|].
    rewrite wadd_small in H2, Hs2 by lia. exists w2. split; [done|]. rewrite Hs2, Hsent, <-app_assoc. f_equal.
    rewrite <-(take_drop (N.to_nat n) (drop (N.to_nat pos) d)) at 2. rewrite drop_drop.
    do 2 f_equal. lia.
  - exists w. assert (pos = len d) as -> by lia. split; [done|].
    rewrite drop_ge by len_lia. by rewrite app_nil_r.
Qed.

Lemma send_no_file fuel c w :
  Size (file_ c) = 0%N → send_file write strerror (S fuel) 0 (c, w) = (Done 0%N, (c, w)).
Proof. intros Hs. cbn [send_file]. mstep. cbn [fst]. by rewrite Hs. Qed.
End SocketLemmas.

(** ** A posted message *)

Section Message.
Context (moved : bool → str → str).

Definition message_form (user msg : str) : str := Request.form_text [(user_tag, user); (msg_tag, msg)].
Definition message_post (user msg : str) : Parameters :=
  list_to_map [(user_tag, Request.spaces user); (msg_tag, Request.spaces msg)].
Definition message_request (ver : str) (hs : list (str * str)) (user msg : str) : Request.Request :=
  Request.mkRequest (Some Request.Finished) Post ver (s!"/") (list_to_map hs) (message_post user msg).

Lemma message_run ver hs keep user msg :
  Request.word ver → Forall Request.header_ok hs →
  (list_to_map hs : Parameters) !! s!"Content-Type" = Some (s!"application/x-www-form-urlencoded") →
  keep "%"%char = false → (CR ∉ encode keep (message_form user msg)) →
  Request.form_field user → Request.form_field msg → msg ≠ [] →
  Request.run moved Request.fresh_request
    (Request.request_text Post (s!"/") ver hs (encode keep (message_form user msg)))
    (Done tt) (message_request ver hs user msg) [].
Proof.
  intros Hver Hhs Hct Hkeep Hcr Hu Hmsg Hmne.
  assert (DecodeURLEncodedString (encode keep (message_form user msg)) = Done (message_form user msg)) as Hdec.
  { unfold DecodeURLEncodedString. by rewrite (decode_loop_decodes _ _ _ (encode_decodes keep _ Hkeep)) by lia. }
  apply Request.request_head_run; [|done|done|].
  { split; apply (bool_decide_unpack _); vm_compute; exact I. }
  eapply Request.run_last; [|by apply Request.no_cr_last|].
  - intros He. by rewrite He in Hdec.
  - refine (Request.Body_Parse_form moved (Request.mkRequest (Some Request.Body) Post ver (s!"/")
      (list_to_map hs) ∅) _ _ [(user_tag, user)] msg_tag msg eq_refl eq_refl eq_refl Hct Hdec _ Hmne _ eq_refl).
    + repeat constructor; simpl; try apply Hu; try apply Hmsg; try done;
        apply (bool_decide_unpack _); vm_compute; exact I.
    + apply (bool_decide_unpack _). vm_compute. exact I.
Qed.

Lemma KeepAlive_header r v :
  Request.headers_ r !! s!"Connection" = v →
  Request.KeepAlive r = bool_decide (Request.version_ r = s!"1.1") && bool_decide (v = Some (s!"keep-alive")).
Proof.
  intros <-. unfold Request.KeepAlive. destruct (Request.headers_ r !! _) as [v|].
  - destruct (decide (v = s!"keep-alive")) as [->|Hv].
    + by rewrite !(bool_decide_eq_true_2 (_ = s!"keep-alive")), (bool_decide_eq_true_2 (Some _ = Some _)).
    + rewrite !(bool_decide_eq_false_2 (v = _)) by done.
      by rewrite (bool_decide_eq_false_2 (Some v = _)) by congruence.
  - by rewrite (bool_decide_eq_false_2 (None = _)), andb_false_r by done.
Qed.

Lemma message_params ver hs user msg :
  user ≠ [] →
  index_params (message_request ver hs user msg) =
    <[hide_msg_tag := false_tag]>
      (list_to_map [(user_tag, c_str (Request.spaces user)); (msg_tag, c_str (Request.spaces msg))]).
Proof.
  intros Hu. unfold index_params, ExtractUserMessage, Request.Request_Post.
  change (c_str user_tag) with user_tag. change (c_str msg_tag) with msg_tag. simpl Request.post_.
  assert (message_post user msg !! user_tag = Some (Request.spaces user)) as -> by done.
  assert (message_post user msg !! msg_tag = Some (Request.spaces msg)) as -> by done.
  cbn [default]. rewrite bool_decide_eq_false_2; [done|]. by destruct user.
Qed.
End Message.

(** * Lemmas: the socket never changes *)

Section SocketKept.
Context {W : Type}.
Context (fs : FileSystem) (iter : Parameters → list (str * str)) (moved : bool → str → str).
Context (root : str) (readv : Z → N → N → W → (Z + str) * W) (write : Z → str → W → (Z + N) * W).
Context (strerror : Z → str) (fd : Z).

Abbreviation here := (λ c : Connection, socket_ c = fd).
Abbreviation there := (λ s : Connection * W, socket_ s.1 = fd).

Lemma with_read_buf_socket {A} req (m : M (Request.Request * Buffer) A) :
  keeps here (with_read_buf req m).
Proof. intros c Hc. unfold keeps_at, with_read_buf. destruct (m _) as [r [q b]]. by right. Qed.

Lemma with_write_buf_socket {A} res (m : M (Response.Response * Buffer) A) :
  keeps here (with_write_buf res m).
Proof. intros c Hc. unfold keeps_at, with_write_buf. destruct (m _) as [r [q b]]. by right. Qed.

Lemma on_read_buf_socket {A} (m : M (Buffer * W) A) : keeps there (on_read_buf m).
Proof. by apply keeps_zoom. Qed.

Lemma on_write_buf_socket {A} (m : M (Buffer * W) A) : keeps there (on_write_buf m).
Proof. by apply keeps_zoom. Qed.

#[local] Hint Resolve with_read_buf_socket with_write_buf_socket on_read_buf_socket on_write_buf_socket
  : keeps.

Lemma Process_socket : keeps here (Process fs iter moved root).
Proof. unfold Process. repeat keep_step; by apply keeps_modify. Qed.

Lemma Receive_socket fuel : keeps there (Receive readv write strerror fuel).
Proof.
  unfold Receive. generalize 0%N. induction fuel as [|fuel IH]; intros n; simpl; repeat keep_step.
Qed.

Lemma Send_socket fuel : keeps there (Send readv write strerror fuel).
Proof.
  unfold Send. apply keeps_bind; [|intros a; apply keeps_bind; [|intros b; auto with keeps]].
  - generalize 0%N. induction fuel as [|fuel IH]; intros n; simpl; repeat keep_step.
  - generalize 0%N. induction fuel as [|fuel IH]; intros n; simpl; repeat keep_step.
    intros s1 Hs1. right. by destruct (write _ _ _).
Qed.
End SocketKept.

(** * Properties *)

(** C1: [Process] answers every input. With nothing to read it returns [false]
    and drops the mapped file; otherwise it returns [true] and, whatever the
    bytes in the buffer are, appends exactly one complete response to the write
    buffer: the page or file the parsed request asks for, or the status page
    with the parser's message, or the predefined error page. The file to be
    sent behind it is kept mapped, and nothing fails an assertion. *)
Theorem process_replies fs iter moved root c :
  mmap_length fs → wf (read_buf_ c) → wf (write_buf_ c) →
  (readable (read_buf_ c) = [] →
     Process fs iter moved root c = (Done false, set_file Mapped_default c)) ∧
  (readable (read_buf_ c) ≠ [] →
     ∃ res request rb, wf rb ∧
       Request.run moved Request.fresh_request (readable (read_buf_ c)) res request (readable rb) ∧
       (fits (write_buf_ c) (reply_text fs iter root res request) →
        ∃ c', Process fs iter moved root c = (Done true, c') ∧ socket_ c' = socket_ c ∧
          keep_alive_ c' = Request.KeepAlive request ∧ read_buf_ c' = rb ∧ wf (write_buf_ c') ∧
          readable (write_buf_ c') = readable (write_buf_ c) ++ reply_text fs iter root res request ∧
          Data (file_ c') = reply_file fs root res request ∧
          Size (file_ c') = from_option len 0%N (Data (file_ c')))).
Proof.
  intros Hm Hr Hw. split.
  - intros He. by apply Process_nothing.
  - intros Hne. destruct (Request.run_exists moved (readable (read_buf_ c)) Request.fresh_request)
      as (res & request & s' & Hrun & _ & Hres); [done|].
    destruct (@Request.Parse_run moved Buffer Buffer_queue Request.Request_default (read_buf_ c) _ _ _ Hr Hne Hrun)
      as (rb & HP & Hrb & Hc).
    exists res, request, rb. split; [done|]. split; [by rewrite <-Hc in Hrun|].
    intros Hfit. destruct (Process_parsed fs iter moved root Hm c res request rb [])
      as (c' & H & Hs & Hk & Hrb' & Hw' & _ & Hrest);
      [done..|destruct Hres as [->|[e ->]]; eauto|by rewrite app_nil_r|]. by exists c'.
Qed.

(** One connection with a request in its buffer and a site of one page. *)
Definition demo_fs : FileSystem := one_file (s!"www/index.html") (s!"<p><$user$>: <$msg$></p>").
Definition demo_conn (text : str) : Connection :=
  mkConnection 4 false (Buffer_of_str text).2 Buffer_default Mapped_default.

Lemma demo_conn_wf text : (len text ≤ max_size)%N → wf (read_buf_ (demo_conn text)) ∧
  readable (read_buf_ (demo_conn text)) = text.
Proof.
  intros Hl. destruct (Append_str_wf Buffer_empty text None) as (b & H & Hwf & Hc & _).
  - split; vm_compute; congruence.
  - unfold fits. simpl. rewrite app_nil_r. lia.
  - unfold demo_conn, Buffer_of_str. rewrite H. simpl. rewrite Hc. simpl. by rewrite app_nil_r.
Qed.

Lemma demo_write_wf text : wf (write_buf_ (demo_conn text)).
Proof. unfold demo_conn. cbn [write_buf_]. apply (wf_of_size default_size). vm_compute. discriminate. Qed.

Lemma demo_mmap : mmap_length demo_fs.
Proof. apply one_file_mmap. Qed.

Lemma process_replies_witness :
  Process demo_fs map_to_list (λ _ _, []) (s!"www") (demo_conn []) =
    (Done false, set_file Mapped_default (demo_conn [])) ∧
  ∃ res request rb, wf rb ∧
    Request.run (λ _ _, []) Request.fresh_request (readable (read_buf_ (demo_conn (s!"hi")))) res request
      (readable rb).
Proof.
  assert (∀ text, (len text <=? 10)%N = true → wf (read_buf_ (demo_conn text)) ∧
    readable (read_buf_ (demo_conn text)) = text) as Hwf.
  { intros text Hl. apply demo_conn_wf. apply N.leb_le in Hl. unfold max_size. lia. }
  destruct (Hwf [] eq_refl) as [H1 H2]. destruct (Hwf (s!"hi") eq_refl) as [H3 H4]. split.
  - apply (proj1 (process_replies demo_fs map_to_list (λ _ _, []) (s!"www") (demo_conn [])
      demo_mmap H1 (demo_write_wf []))). exact H2.
  - destruct (proj2 (process_replies demo_fs map_to_list (λ _ _, []) (s!"www") (demo_conn (s!"hi"))
      demo_mmap H3 (demo_write_wf (s!"hi")))) as (res & request & rb & Hrb & Hrun & _).
    + rewrite H4. discriminate.
    + exists res, request, rb. split; [exact Hrb|exact Hrun].
Defined.

(** C13: from the socket's bytes to the page: a client that posts its name and a
    message to the root gets the index page with both filled in and the message
    shown, and the request is removed from the buffer. *)
Theorem message_echoed fs iter moved root c hs keep user msg ver :
  mmap_length fs → wf (read_buf_ c) → wf (write_buf_ c) →
  Request.word ver → Forall Request.header_ok hs →
  (list_to_map hs : Parameters) !! s!"Content-Type" = Some (s!"application/x-www-form-urlencoded") →
  keep "%"%char = false → (CR ∉ encode keep (message_form user msg)) →
  Request.form_field user → Request.form_field msg → msg ≠ [] → user ≠ [] →
  readable (read_buf_ c) =
    Request.request_text Post (s!"/") ver hs (encode keep (message_form user msg)) →
  let alive := bool_decide (ver = s!"1.1") &&
               bool_decide ((list_to_map hs : Parameters) !! s!"Connection" = Some (s!"keep-alive")) in
  let params := <[hide_msg_tag := false_tag]>
    (list_to_map [(user_tag, c_str (Request.spaces user)); (msg_tag, c_str (Request.spaces msg))]) in
  fits (write_buf_ c) (page_reply fs iter root OK alive index_page params) →
  ∃ c', Process fs iter moved root c = (Done true, c') ∧ keep_alive_ c' = alive ∧
    readable (read_buf_ c') = [] ∧ Data (file_ c') = None ∧
    readable (write_buf_ c') = readable (write_buf_ c) ++ page_reply fs iter root OK alive index_page params.
Proof.
  intros Hm Hr Hw Hver Hhs Hct Hkeep Hcr Hu Hmsg Hmne Hune Hc alive params Hfit.
  pose proof (message_run moved ver hs keep user msg Hver Hhs Hct Hkeep Hcr Hu Hmsg Hmne) as Hrun.
  rewrite <-Hc in Hrun. assert (readable (read_buf_ c) ≠ []) as Hne by by rewrite Hc.
  destruct (@Request.Parse_run moved Buffer Buffer_queue Request.Request_default (read_buf_ c) _ _ _ Hr Hne Hrun)
    as (rb & HP & Hrb & Hrc).
  assert (Request.KeepAlive (message_request ver hs user msg) = alive) as Hka by by apply KeepAlive_header.
  assert (requested_path (message_request ver hs user msg) = index_page) as Hpath.
  { unfold requested_path. cbn [Request.path_ message_request]. rewrite decide_True; [done|by right]. }
  assert (reply_text fs iter root (Done tt) (message_request ver hs user msg) =
    page_reply fs iter root OK alive index_page params) as Hreply.
  { unfold reply_text. by rewrite Hpath, decide_True, Hka, message_params by done. }
  destruct (Process_parsed fs iter moved root Hm c (Done tt) (message_request ver hs user msg) rb [])
    as (c' & H & _ & Hk & Hrb' & _ & _ & Hwb & Hd & _);
    [done|done|done|exact HP|by left|by rewrite Hreply, app_nil_r|].
  exists c'. rewrite Hreply in Hwb. rewrite Hrb', Hd. split_and!; [done|congruence|done| |done].
  unfold reply_file. by rewrite Hpath, decide_True.
Qed.

Definition demo_message : str :=
  s!"POST / HTTP/1.1" ++ crlf ++ s!"Content-Type: application/x-www-form-urlencoded" ++ crlf ++ crlf ++
  s!"user=Ann+B&msg=hi%21".

Lemma message_echoed_witness :
  ∃ c', Process demo_fs map_to_list (λ _ _, []) (s!"www") (demo_conn demo_message) = (Done true, c') ∧
    readable (read_buf_ c') = [] ∧
    readable (write_buf_ c') =
      s!"HTTP/1.1 200 OK" ++ crlf ++ s!"Connection: close" ++ crlf ++ s!"Content-type: text/html" ++ crlf ++
      s!"Content-length: 17" ++ crlf ++ crlf ++ s!"<p>Ann B: hi!</p>".
Proof.
  destruct (demo_conn_wf demo_message) as [Hwf Hc]; [vm_compute; discriminate|].
  destruct (message_echoed demo_fs map_to_list (λ _ _, []) (s!"www") (demo_conn demo_message)
    [(s!"Content-Type", s!"application/x-www-form-urlencoded")]
    (λ c, negb (bool_decide (c = "!"%char ∨ c = "%"%char))) (s!"Ann+B") (s!"hi!") (s!"1.1"))
    as (c' & H & _ & Hr & _ & Hw).
  - exact demo_mmap.
  - exact Hwf.
  - apply demo_write_wf.
  - split; apply (bool_decide_unpack _); vm_compute; exact I.
  - repeat constructor; apply (bool_decide_unpack _); vm_compute; exact I.
  - vm_compute. reflexivity.
  - reflexivity.
  - apply (bool_decide_unpack _). vm_compute. exact I.
  - split; apply (bool_decide_unpack _); vm_compute; exact I.
  - split; apply (bool_decide_unpack _); vm_compute; exact I.
  - discriminate.
  - discriminate.
  - rewrite Hc. vm_compute. reflexivity.
  - vm_compute. discriminate.
  - exists c'. split; [exact H|]. split; [exact Hr|].
    etransitivity; [exact Hw|]. vm_compute. reflexivity.
Defined.

(** whether a request counts as a user's message depends on the user name
    alone; the message may be empty or absent. *)
Theorem message_not_required request :
  ExtractUserMessage request = None ↔ default [] (Request.Request_Post user_tag request) = [].
Proof.
  unfold ExtractUserMessage. by destruct (default [] (Request.Request_Post user_tag request)).
Qed.

(** [Receive] reads everything the socket delivers: the buffer gains the
    chunks in order, and the result is their total length if the socket would
    block, the socket's error otherwise, in which case the bytes read before it
    stay in the buffer. *)
Theorem receive_reads_all {W} readv write strerror (w : W) ds errno w' c fuel :
  delivers readv (socket_ c) w ds errno w' → wf (read_buf_ c) → fits (read_buf_ c) (concat ds) →
  length ds < fuel →
  ∃ b', wf b' ∧ readable b' = readable (read_buf_ c) ++ concat ds ∧ leaves_room (read_buf_ c) (concat ds) b' ∧
    Receive readv write strerror fuel (c, w) =
      (if (errno =? EAGAIN)%Z then Done (len (concat ds))
       else Throw (Exn (system_error errno) (strerror errno)), (set_read_buf b' c, w')).
Proof.
  intros Hd Hwf Hfit Hf.
  apply (receive_loop_ok readv write strerror w ds errno w' (socket_ c) Hd fuel 0 c); try done.
  pose proof max_size_word. unfold fits in Hfit. lia.
Qed.

(** A socket as a script of reads; the last one repeats. *)
Definition script_readv (fd : Z) (n1 n2 : N) (w : list (Z + str)) : (Z + str) * list (Z + str) :=
  match w with
  | [] => (inl EAGAIN, [])
  | [r] => (r, [r])
  | r :: w' => (r, w')
  end.
Definition no_write (fd : Z) (d : str) (w : list (Z + str)) : (Z + N) * list (Z + str) := (inl 32%Z, w).

Lemma receive_reads_all_witness :
  ∃ b', readable b' = s!"GET / HTTP/1.1" ∧
    Receive script_readv no_write (λ _, []) 3 (demo_conn [], [inr (s!"GET /"); inr (s!" HTTP/1.1"); inl EAGAIN]) =
      (Done 14%N, (set_read_buf b' (demo_conn []), [inl EAGAIN])).
Proof.
  destruct (demo_conn_wf []) as [Hwf Hc]; [vm_compute; discriminate|].
  destruct (receive_reads_all script_readv no_write (λ _, [])
    [inr (s!"GET /"); inr (s!" HTTP/1.1"); inl EAGAIN] [s!"GET /"; s!" HTTP/1.1"] EAGAIN [inl EAGAIN]
    (demo_conn []) 3) as (b' & _ & Hb & _ & H).
  - repeat (econstructor; [intros n; reflexivity|]). constructor. intros n. reflexivity.
  - exact Hwf.
  - vm_compute. discriminate.
  - simpl. lia.
  - exists b'. split; [rewrite Hb, Hc; reflexivity|exact H].
Defined.

(** when the peer has closed the connection, [readv] gives zero bytes again
    and again and [Receive] does not end, whatever bound on its iterations is
    allowed. *)
Theorem receive_eof_spins {W} readv write strerror (w : W) c fuel :
  wf (read_buf_ c) → (∀ n, readv (socket_ c) n ext_size w = (inr [], w)) →
  (Receive readv write strerror fuel (c, w)).1 = OutOfFuel.
Proof. intros Hwf Hv. by apply receive_loop_eof. Qed.

Lemma receive_eof_spins_witness :
  ¬ ∃ fuel n, (Receive script_readv no_write (λ _, []) fuel (demo_conn [], [inr []])).1 = Done n.
Proof.
  intros (fuel & n & H).
  rewrite (receive_eof_spins script_readv no_write (λ _, []) [inr []] (demo_conn []) fuel) in H.
  - discriminate H.
  - apply demo_conn_wf. vm_compute. discriminate.
  - intros k. reflexivity.
Defined.

(** [Send] ends and sends the whole response: if every [write] takes at least
    one byte, the bytes sent are the write buffer and then the mapped file, and
    the result is their number. *)
Theorem send_all {W} readv write strerror (sent : W → str) c (w : W) d fuel :
  accepts write sent → wf (write_buf_ c) → (len d ≤ max_size)%N →
  (Data (file_ c) = Some d ∧ Size (file_ c) = len d ∨ d = [] ∧ Size (file_ c) = 0%N) →
  length (readable (write_buf_ c)) < fuel → length d < fuel →
  ∃ b' w', Send readv write strerror fuel (c, w) =
      (Done (len (readable (write_buf_ c)) + len d)%N, (set_write_buf b' c, w')) ∧
    wf b' ∧ readable b' = [] ∧ sent w' = sent w ++ readable (write_buf_ c) ++ d ∧
    leaves_room (write_buf_ c) [] b'.
Proof.
  intros Hacc Hwf Hd Hfile Hf1 Hf2. pose proof max_size_word as Hmw.
  assert (len (readable (write_buf_ c)) ≤ max_size)%N as Hlen.
  { pose proof (length_readable _ Hwf). destruct Hwf. unfold len in *. lia. }
  destruct (send_header_ok readv write strerror sent Hacc fuel 0 c w Hwf Hf1) as (b' & w1 & H1 & Hwf' & Hc & Hs1 & Hroom);
    [lia|].
  assert (∃ w2, send_file write strerror fuel 0 (set_write_buf b' c, w1) =
    (Done (len d), (set_write_buf b' c, w2)) ∧ sent w2 = sent w1 ++ d) as (w2 & H2 & Hs2).
  { destruct Hfile as [[HD HS]|[-> HS]].
    - destruct (send_file_ok write strerror sent d Hacc ltac:(lia) fuel 0 (set_write_buf b' c) w1 HD HS)
        as (w2 & H2 & Hs2); [lia|lia|]. by exists w2.
    - destruct fuel; [lia|]. exists w1. rewrite app_nil_r. split; [|done]. by apply send_no_file. }
  exists b', w2. split_and!; [|done|done|by rewrite Hs2, Hs1, <-app_assoc|done].
  unfold Send. mrun H1. mrun H2. rewrite N.add_0_l, wadd_small by lia. done.
Qed.

(** A kernel that takes two bytes at a time. *)
Definition two_bytes (fd : Z) (d : str) (w : str) : (Z + N) * str :=
  (inr (N.min 2 (len d)), w ++ take 2 d).
Definition no_read (fd : Z) (n1 n2 : N) (w : str) : (Z + str) * str := (inl EAGAIN, w).

Lemma send_all_witness :
  let c := set_file (mkMapped (s!"f") (mkStat 0 3) (Some (s!"PNG")))
             (set_write_buf (mkBuffer (s!"head") 0 4) (demo_conn [])) in
  ∃ b' w', Send no_read two_bytes (λ _, []) 9 (c, []) = (Done 7%N, (set_write_buf b' c, w')) ∧
    w' = s!"headPNG".
Proof.
  intros c. destruct (send_all no_read two_bytes (λ _, []) id c [] (s!"PNG") 9) as (b' & w' & H & _ & _ & Hs & _).
  - intros fd d w Hne. exists (N.min 2 (len d)), (w ++ take 2 d).
    assert (0 < len d)%N by (destruct d; [done|len_lia]).
    split; [reflexivity|]. split; [lia|]. unfold id. f_equal.
    destruct (N.min_spec 2 (len d)) as [[_ ->]|[Hle ->]]; [reflexivity|].
    rewrite !take_ge; [reflexivity|len_lia..].
  - split; vm_compute; congruence.
  - vm_compute. discriminate.
  - left. split; reflexivity.
  - vm_compute. lia.
  - simpl. lia.
  - exists b', w'. split; [exact H|exact Hs].
Defined.
