(* ===== verification/LogField.v ===== *)
(** The formatting half of the logging system: [src/log/field.h],
    [src/log/field.cpp], and the levels, events and formatters of [log.h] and
    [log.cpp].  A pattern such as ["[%p] %m%n"] is parsed into raw fields,
    these become sub-formatters, and a formatter prints an event by running
    them in order. *)

From S2P Require Import Prelude Util.

(** * Levels and appender types *)

Inductive Level := Debug | Info | Warn | Error | Fatal.
#[export] Instance Level_eq_dec : EqDecision Level.
Proof. solve_decision. Defined.

(** The integer value of the enumerator, by which [>=] compares. *)
Definition Level_value (l : Level) : nat :=
  match l with Debug => 0 | Info => 1 | Warn => 2 | Error => 3 | Fatal => 4 end.

Definition LevelToString (l : Level) : str :=
  match l with
  | Debug => s!"Debug"
  | Info => s!"Info"
  | Warn => s!"Warn"
  | Error => s!"Error"
  | Fatal => s!"Fatal"
  end.

Definition level_table : list (str * Level) := [
  (s!"DEBUG", Debug); (s!"INFO", Info); (s!"WARN", Warn);
  (s!"ERROR", Error); (s!"FATAL", Fatal)].

Definition quoted (msg s : str) : str := msg ++ s!"'" ++ s ++ s!"'".

Definition StringToLevel (s : str) : outcome Level :=
  let s := StringToUpper s in
  match table_find level_table s with
  | Some l => Done l
  | None => Throw (Exn invalid_argument (quoted (s!"Invalid log level: ") s))
  end.

Inductive AppenderType := StdOut | File.
#[export] Instance AppenderType_eq_dec : EqDecision AppenderType.
Proof. solve_decision. Defined.

Definition AppenderTypeToString (t : AppenderType) : str :=
  match t with StdOut => s!"StdOut" | File => s!"File" end.

Definition appender_type_table : list (str * AppenderType) :=
  [(s!"STDOUT", StdOut); (s!"FILE", File)].

Definition StringToAppenderType (s : str) : outcome AppenderType :=
  let s := StringToUpper s in
  match table_find appender_type_table s with
  | Some t => Done t
  | None => Throw (Exn invalid_argument (quoted (s!"Invalid log appender type: ") s))
  end.

(** * Events *)

(** [time] is the count of nanoseconds of [system_clock::time_point]. *)
Record Event := mkEvent {
  event_level : Level;
  file_name : str;
  line_num : N;
  thread_id : N;
  time : Z;
  message : str
}.

(** [Event::Create]: the message stream starts empty; [operator<<] and
    [MessageStream] append to it. *)
Definition Event_Create (l : Level) (file : str) (line tid : N) (t : Z) : Event :=
  mkEvent l file line tid t [].

(** The queries of an event. *)
Definition Event_Level (e : Event) : Level := event_level e.
Definition FileName (e : Event) : str := file_name e.
Definition LineNum (e : Event) : N := line_num e.
Definition ThreadId (e : Event) : N := thread_id e.
Definition Time (e : Event) : Z := time e.
Definition Message (e : Event) : str := message e.

(** [to_string] goes through a C string; [operator<<] writes to a stream, here
    the text written so far. *)
Definition Level_to_string (l : Level) : str := c_str (LevelToString l).
Definition AppenderType_to_string (t : AppenderType) : str := c_str (AppenderTypeToString t).
Definition print_Level (l : Level) : M str unit := modify (λ os, os ++ LevelToString l).
Definition print_AppenderType (t : AppenderType) : M str unit := modify (λ os, os ++ AppenderTypeToString t).
Definition write_message (e : Event) (m : str) : Event :=
  mkEvent (event_level e) (file_name e) (line_num e) (thread_id e) (time e) (message e ++ m).

(** [system_clock::to_time_t]: seconds, truncated towards zero. *)
Definition to_time_t (t : Z) : Z := Z.quot t 1000000000.

(** * Raw fields *)

Record RawField := mkRaw { raw_str : bool; content : str; format : str }.
#[export] Instance RawField_eq_dec : EqDecision RawField.
Proof. solve_decision. Defined.

(** [std::isalpha] in the C locale. *)
Definition isalpha (c : ascii) : bool :=
  let n := nat_of_ascii c in
  (65 <=? n) && (n <=? 90) || (97 <=? n) && (n <=? 122).

Definition PERCENT : ascii := "%"%char.
Definition OPEN : ascii := "{"%char.
Definition CLOSE : ascii := "}"%char.

Definition same (c d : ascii) : bool := bool_decide (c = d).

(** [pattern.substr(pos, n)] for [pos] within the pattern, and
    [pattern.substr(pos)]. *)
Definition substr (pos n : nat) (s : str) : str := take n (drop pos s).

(** The local variables of the inner loop of [ParsePattern]. *)
Record scan := mkScan {
  sj : nat; stype : str; sfmt : str; processing : bool; fmt_begin : nat
}.

(** The inner loop of [ParsePattern]: [i] is the index of the percent sign. *)
Fixpoint scan_field (fuel : nat) (pattern : str) (i : nat) (v : scan) : outcome scan :=
  match fuel with
  | 0 => OutOfFuel
  | S fuel' =>
      match pattern !! sj v with
      | None => Done v
      | Some c =>
          if negb (processing v) && negb (isalpha c) && negb (same c OPEN) && negb (same c CLOSE)
          then Done (mkScan (sj v) (substr (i + 1) (sj v - i - 1) pattern)
                       (sfmt v) (processing v) (fmt_begin v))
          else if negb (processing v) && same c OPEN
          then scan_field fuel' pattern i
                 (mkScan (sj v + 1) (substr (i + 1) (sj v - i - 1) pattern) (sfmt v) true (sj v))
          else if processing v && same c CLOSE
          then Done (mkScan (sj v + 1) (stype v)
                       (substr (fmt_begin v + 1) (sj v - fmt_begin v - 1) pattern)
                       false (fmt_begin v))
          else
            let j := sj v + 1 in
            scan_field fuel' pattern i
              (mkScan j
                 (if bool_decide (j = length pattern) && bool_decide (stype v = [])
                  then drop (i + 1) pattern else stype v)
                 (sfmt v) (processing v) (fmt_begin v))
      end
  end.

(** The outer loop of [ParsePattern].  Its indices are of type [int]; natural numbers
    differ from them only for a pattern of more than 2147483647 characters. *)
Fixpoint parse_loop (fuel : nat) (pattern : str) (i : nat) (raw : str)
    (raw_fields : list RawField) : outcome (list RawField) :=
  match fuel with
  | 0 => OutOfFuel
  | S fuel' =>
      match pattern !! i with
      | None => Done (if decide (raw = []) then raw_fields else raw_fields ++ [mkRaw true raw []])
      | Some c =>
          if negb (same c PERCENT) || bool_decide (pattern !! (i + 1) = Some PERCENT)
          then parse_loop fuel' pattern (i + 1) (raw ++ [c]) raw_fields
          else
            let raw_fields :=
              if decide (raw = []) then raw_fields else raw_fields ++ [mkRaw true raw []] in
            v ← scan_field (S (length pattern)) pattern i (mkScan (i + 1) [] [] false 0);
            if processing v
            then Throw (Exn invalid_argument
                          (quoted (s!"Invalid log format pattern: ") (drop i pattern)))
            else parse_loop fuel' pattern (sj v - 1 + 1) []
                   (raw_fields ++ [mkRaw false (stype v) (sfmt v)])
      end
  end.

(** Both indices grow with every iteration, so one iteration per byte and a
    last one are enough. *)
Definition ParsePattern (pattern : str) : outcome (list RawField) :=
  parse_loop (S (length pattern)) pattern 0 [] [].

(** * Sub-formatters *)

Module field.
(** The classes derived from [Formatter::Field]. *)
Inductive Field :=
| Message
| Level
| ThreadId
| NewLine
| LoggerName
| DateTime (format_ : str)
| FileName
| LineNum
| Tab
| RawString (content_ : str).

Definition default_format : str := s!"%Y-%m-%d %H:%M:%S".

Definition make_DateTime (format : str) : Field :=
  DateTime (if decide (format = []) then default_format else format).

Definition Tag (f : Field) : str :=
  match f with
  | Message => s!"m"
  | Level => s!"p"
  | ThreadId => s!"t"
  | NewLine => s!"n"
  | LoggerName => s!"c"
  | DateTime _ => s!"d"
  | FileName => s!"f"
  | LineNum => s!"l"
  | Tab => s!"T"
  | RawString _ => []
  end.

(** The table of [RawFieldsToFormatFields]. *)
Definition supported_fields : list (str * (str → Field)) := [
  (s!"m", λ _, Message); (s!"p", λ _, Level); (s!"t", λ _, ThreadId);
  (s!"n", λ _, NewLine); (s!"c", λ _, LoggerName); (s!"d", make_DateTime);
  (s!"f", λ _, FileName); (s!"l", λ _, LineNum); (s!"T", λ _, Tab)].
End field.

Definition field_of_raw (r : RawField) : outcome field.Field :=
  if raw_str r then Done (field.RawString (content r))
  else match table_find field.supported_fields (content r) with
       | Some make => Done (make (format r))
       | None => Throw (Exn invalid_argument (quoted (s!"Invalid log format field: ") (content r)))
       end.

Fixpoint RawFieldsToFormatFields (raw_fields : list RawField) : outcome (list field.Field) :=
  match raw_fields with
  | [] => Done []
  | r :: rs =>
      f ← field_of_raw r;
      fs ← RawFieldsToFormatFields rs;
      Done (f :: fs)
  end.

(** * Formatters *)

Record Formatter := mkFormatter { pattern_ : str; fields_ : list field.Field }.

Definition make_Formatter (pattern : str) : outcome Formatter :=
  raw ← ParsePattern pattern;
  fields ← RawFieldsToFormatFields raw;
  Done (mkFormatter pattern fields).

Definition default_pattern : str :=
  s!"%d{%Y-%m-%d %H:%M:%S}%T%t%T[%p]%T[%c]%T<%f:%l>%T%m%n".

Definition Formatter_Default : outcome Formatter := make_Formatter default_pattern.

Definition Pattern (f : Formatter) : str := pattern_ f.

Section Format.
(** The C library's [strftime] applied to [localtime]: the text found in a
    zeroed buffer of the given size, for a format and a time in seconds. *)
Context (strftime : N → str → Z → str).

(** [Field::Format]: what each class writes; a logger is used only for its
    name. *)
Definition Field_Format (f : field.Field) (logger : str) (e : Event) : str :=
  match f with
  | field.Message => message e
  | field.Level => LevelToString (event_level e)
  | field.ThreadId => dec (thread_id e)
  | field.NewLine => [LF]
  | field.LoggerName => logger
  | field.DateTime fmt => strftime 96 (c_str fmt) (to_time_t (time e))
  | field.FileName => file_name e
  | field.LineNum => dec (line_num e)
  | field.Tab => [chr 9]
  | field.RawString s => s
  end.

Definition Format (f : Formatter) (logger : str) (e : Event) : str :=
  fold_left (λ out fld, out ++ Field_Format fld logger e) (fields_ f) [].
End Format.

(** * Reference grammar of patterns *)

Definition tagchar (c : ascii) : bool := isalpha c || same c CLOSE.

(** A literal ends at the end of the pattern or at a percent sign that no
    second one follows. *)
Definition literal_end (p : str) : Prop :=
  p = [] ∨ ∃ q, p = PERCENT :: q ∧ head q ≠ Some PERCENT.

(** [s] is a literal when [p] follows: percent signs only at its end, each of
    them followed by another one. *)
Definition literal_run (s p : str) : Prop :=
  literal_end p ∧
  ∃ t k, s = t ++ replicate k PERCENT ∧ (PERCENT ∉ t) ∧ (p = [] → k = 0).

(** A tag without a format ends before [p]. *)
Definition tag_end (tag p : str) : Prop :=
  ∀ c, head p = Some c → tagchar c = false ∧ c ≠ OPEN ∧ (tag = [] → c ≠ PERCENT).

(** The raw fields of a pattern. *)
Inductive pattern_fields : str → list RawField → Prop :=
| pf_nil : pattern_fields [] []
| pf_literal s p fs :
    s ≠ [] → literal_run s p → pattern_fields p fs →
    pattern_fields (s ++ p) (mkRaw true s [] :: fs)
| pf_tag tag p fs :
    Forall (λ c, tagchar c = true) tag → tag_end tag p → pattern_fields p fs →
    pattern_fields (PERCENT :: tag ++ p) (mkRaw false tag [] :: fs)
| pf_format tag fmt p fs :
    Forall (λ c, tagchar c = true) tag → CLOSE ∉ fmt → pattern_fields p fs →
    pattern_fields (PERCENT :: tag ++ OPEN :: fmt ++ CLOSE :: p) (mkRaw false tag fmt :: fs).

(** A format that is never closed. *)
Definition unclosed (q : str) : Prop :=
  ∃ tag fmt, q = PERCENT :: tag ++ OPEN :: fmt ∧
    Forall (λ c, tagchar c = true) tag ∧ (CLOSE ∉ fmt).

(** * Lemmas: the inner loop *)

Lemma same_spec c d : same c d = true ↔ c = d.
Proof. unfold same. apply bool_decide_eq_true. Qed.

Lemma same_false c d : same c d = false ↔ c ≠ d.
Proof. unfold same. apply bool_decide_eq_false. Qed.

Lemma tagchar_open : tagchar OPEN = false.
Proof. reflexivity. Qed.

Lemma tagchar_percent : tagchar PERCENT = false.
Proof. reflexivity. Qed.

(** The text between the percent sign and the position [j]. *)
Lemma substr_tag pre c tag rest :
  substr (length pre + 1) (length pre + 1 + length tag - length pre - 1) (pre ++ c :: tag ++ rest) = tag.
Proof.
  unfold substr. replace (length pre + 1 + length tag - length pre - 1) with (length tag) by lia.
  rewrite <-drop_drop, drop_app_length. simpl. by rewrite drop_0, take_app_length.
Qed.

Lemma scan_tagchar fuel pattern i j c :
  pattern !! j = Some c → tagchar c = true →
  scan_field (S fuel) pattern i (mkScan j [] [] false 0) =
  scan_field fuel pattern i
    (mkScan (j + 1) (if bool_decide (j + 1 = length pattern) then drop (i + 1) pattern else [])
       [] false 0).
Proof.
  intros Hj Hc. cbn [scan_field sj processing stype sfmt fmt_begin]. rewrite Hj.
  assert (same c OPEN = false) as Ho
    by (apply same_false; intros ->; by rewrite tagchar_open in Hc).
  unfold tagchar in Hc. rewrite Ho. cbn [negb andb].
  destruct (isalpha c); destruct (same c CLOSE); simpl in Hc; try done;
    cbn [negb andb]; by rewrite (bool_decide_true ([] = [])), andb_true_r by done.
Qed.

(** Scanning a tag: its text is stored early only when it ends the pattern. *)
Lemma scan_tags pre done tag rest fuel :
  Forall (λ c, tagchar c = true) tag → rest ≠ [] →
  let pattern := pre ++ PERCENT :: done ++ tag ++ rest in
  scan_field (length tag + fuel) pattern (length pre)
    (mkScan (length pre + 1 + length done) [] [] false 0) =
  scan_field fuel pattern (length pre)
    (mkScan (length pre + 1 + length (done ++ tag)) [] [] false 0).
Proof.
  intros Ht Hr. revert done. induction Ht as [|c tag Hc Ht IH]; intros done pattern.
  { by rewrite app_nil_r. }
  cbn [length Nat.add]. rewrite (scan_tagchar _ _ _ _ c); [|..|done].
  - rewrite bool_decide_false.
    + replace (length pre + 1 + length done + 1) with (length pre + 1 + length (done ++ [c])) by len_lia.
      specialize (IH (done ++ [c])). rewrite <-!app_assoc in IH. exact IH.
    + subst pattern. destruct rest; [done|]. repeat (rewrite length_app; cbn [length]). lia.
  - subst pattern. rewrite <-Nat.add_assoc, lookup_suffix.
    change ((done ++ c :: tag ++ rest) !! length done = Some c). by apply list_lookup_middle.
Qed.

Lemma scan_tag_last pre done tag fuel :
  Forall (λ c, tagchar c = true) tag → tag ≠ [] →
  let pattern := pre ++ PERCENT :: done ++ tag in
  scan_field (length tag + S fuel) pattern (length pre)
    (mkScan (length pre + 1 + length done) [] [] false 0) =
  Done (mkScan (length pattern) (done ++ tag) [] false 0).
Proof.
  intros Ht. destruct tag as [|c tag _] using rev_ind; [done|]. intros _ pattern.
  apply Forall_app in Ht as [Ht [Hc _]%Forall_cons].
  rewrite length_app. simpl (length [c]). rewrite <-Nat.add_assoc.
  subst pattern. rewrite scan_tags by done. rewrite (scan_tagchar _ _ _ _ c); [|..|exact Hc].
  - rewrite bool_decide_true by (repeat (rewrite length_app; cbn [length]); lia).
    cbn [scan_field sj processing stype sfmt fmt_begin].
    rewrite lookup_ge_None_2 by (repeat (rewrite length_app; cbn [length]); lia).
    do 2 f_equal; [repeat (rewrite length_app; cbn [length]); lia|].
    by rewrite <-drop_drop, drop_app_length.
  - rewrite <-Nat.add_assoc, lookup_suffix, (app_assoc done).
    change (((done ++ tag) ++ [c]) !! length (done ++ tag) = Some c). by apply list_lookup_middle.
Qed.

(** Scanning a format up to its closing brace. *)
Lemma scan_body A fmt rest t b fuel i :
  CLOSE ∉ fmt → (t ≠ [] ∨ rest ≠ []) →
  let pattern := A ++ fmt ++ rest in
  scan_field (length fmt + fuel) pattern i (mkScan (length A) t [] true b) =
  scan_field fuel pattern i (mkScan (length A + length fmt) t [] true b).
Proof.
  intros Hf Hr. revert A Hf. induction fmt as [|c fmt IH]; intros A Hf pattern.
  { by rewrite Nat.add_0_r. }
  apply not_elem_of_cons in Hf as [Hc Hf].
  cbn [length Nat.add scan_field sj processing stype sfmt fmt_begin].
  assert (pattern !! length A = Some c) as -> by (by apply list_lookup_middle).
  assert (same c CLOSE = false) as -> by (apply same_false; done). cbn [negb andb].
  assert (bool_decide (length A + 1 = length pattern) && bool_decide (t = []) = false) as ->.
  { apply andb_false_iff. destruct Hr as [Ht|Hr]; [right; by apply bool_decide_false|left].
    apply bool_decide_false. subst pattern. destruct rest; [done|]. len_lia. }
  specialize (IH (A ++ [c])). rewrite <-!app_assoc in IH.
  replace (length A + 1) with (length (A ++ [c])) by len_lia.
  etrans; [exact (IH Hf)|]. subst pattern. do 2 f_equal. len_lia.
Qed.

(** A format that is not closed leaves [processing] set. *)
Lemma scan_open A fmt t b fuel i :
  CLOSE ∉ fmt → length fmt < fuel →
  ∃ v, scan_field fuel (A ++ fmt) i (mkScan (length A) t [] true b) = Done v ∧ processing v = true.
Proof.
  revert A t fuel. induction fmt as [|c fmt IH]; intros A t [|fuel] Hf Hl; try (simpl in Hl; lia).
  - cbn [scan_field sj]. rewrite lookup_ge_None_2 by len_lia. eexists. split; [reflexivity|done].
  - apply not_elem_of_cons in Hf as [Hc Hf].
    cbn [scan_field sj processing stype sfmt fmt_begin].
    rewrite list_lookup_middle by done.
    assert (same c CLOSE = false) as -> by (apply same_false; done). cbn [negb andb].
    replace (length A + 1) with (length (A ++ [c])) by len_lia.
    replace (A ++ c :: fmt) with ((A ++ [c]) ++ fmt) by (by rewrite <-app_assoc).
    apply IH; [done|simpl in Hl; lia].
Qed.

(** ** What the inner loop finds at a percent sign *)

Lemma scan_start fuel pre tag rest :
  Forall (λ c, tagchar c = true) tag → rest ≠ [] →
  let pattern := pre ++ PERCENT :: tag ++ rest in
  length tag < fuel →
  scan_field fuel pattern (length pre) (mkScan (length pre + 1) [] [] false 0) =
  scan_field (fuel - length tag) pattern (length pre)
    (mkScan (length pre + 1 + length tag) [] [] false 0).
Proof.
  intros Ht Hr pattern Hf. replace fuel with (length tag + (fuel - length tag)) at 1 by lia.
  pose proof (scan_tags pre [] tag rest (fuel - length tag) Ht Hr) as H.
  simpl in H. by rewrite Nat.add_0_r in H.
Qed.

Lemma lookup_after_tag (pre tag rest : str) :
  (pre ++ PERCENT :: tag ++ rest) !! (length pre + 1 + length tag) = head rest.
Proof.
  rewrite <-Nat.add_assoc, lookup_suffix. change (1 + length tag) with (S (length tag)).
  change ((PERCENT :: tag ++ rest) !! S (length tag)) with ((tag ++ rest) !! length tag).
  rewrite lookup_app_r, Nat.sub_diag by lia. by destruct rest.
Qed.

Lemma scan_no_format fuel pre tag p :
  Forall (λ c, tagchar c = true) tag → tag_end tag p → length tag + 1 < fuel →
  scan_field fuel (pre ++ PERCENT :: tag ++ p) (length pre)
    (mkScan (length pre + 1) [] [] false 0) =
  Done (mkScan (length pre + 1 + length tag) tag [] false 0).
Proof.
  intros Ht Hp Hf. destruct p as [|c p].
  - rewrite app_nil_r. destruct (decide (tag = [])) as [->|Hne].
    + destruct fuel; [lia|]. cbn [scan_field sj].
      rewrite lookup_ge_None_2 by len_lia. by rewrite Nat.add_0_r.
    + pose proof (scan_tag_last pre [] tag (fuel - length tag - 1) Ht Hne) as H. simpl in H.
      rewrite Nat.add_0_r in H.
      replace (length tag + S (fuel - length tag - 1)) with fuel in H by lia.
      rewrite H. do 2 f_equal. len_lia.
  - rewrite scan_start by (done || lia). destruct (Hp c eq_refl) as (Hc & Ho & _).
    destruct (fuel - length tag) as [|n] eqn:Hn; [lia|].
    cbn [scan_field sj processing stype sfmt fmt_begin]. rewrite lookup_after_tag. cbn [head].
    apply orb_false_iff in Hc as [Ha Hcl]. rewrite Ha, Hcl, (proj2 (same_false _ _) Ho).
    cbn [negb andb]. by rewrite substr_tag.
Qed.

Lemma scan_with_format fuel pre tag fmt p :
  Forall (λ c, tagchar c = true) tag → CLOSE ∉ fmt →
  length tag + length fmt + 2 < fuel →
  ∃ b, scan_field fuel (pre ++ PERCENT :: tag ++ OPEN :: fmt ++ CLOSE :: p) (length pre)
    (mkScan (length pre + 1) [] [] false 0) =
  Done (mkScan (length pre + 1 + length tag + 1 + length fmt + 1) tag fmt false b).
Proof.
  intros Ht Hcl Hf. exists (length pre + 1 + length tag).
  rewrite scan_start by (done || lia).
  destruct (fuel - length tag) as [|n] eqn:Hn; [lia|].
  cbn [scan_field sj processing stype sfmt fmt_begin]. rewrite lookup_after_tag.
  change (head (OPEN :: fmt ++ CLOSE :: p)) with (Some OPEN). cbn -[substr scan_field].
  rewrite substr_tag. set (j := length pre + 1 + length tag).
  set (A := pre ++ PERCENT :: tag ++ [OPEN]).
  assert (pre ++ PERCENT :: tag ++ OPEN :: fmt ++ CLOSE :: p = A ++ fmt ++ CLOSE :: p) as ->.
  { subst A. rewrite <-!app_assoc. simpl. by rewrite <-app_assoc. }
  assert (length A = j + 1) as HA by (subst A j; len_lia). rewrite <-HA.
  replace n with (length fmt + S (n - length fmt - 1)) by lia.
  rewrite scan_body by (done || by right).
  cbn [scan_field sj processing stype sfmt fmt_begin].
  assert ((A ++ fmt ++ CLOSE :: p) !! (length A + length fmt) = Some CLOSE) as ->.
  { rewrite lookup_suffix. by apply list_lookup_middle. }
  change (same CLOSE CLOSE) with true. cbn [negb andb].
  do 2 f_equal. unfold substr. rewrite <-HA, drop_app_length.
  replace (length A + length fmt - j - 1) with (length fmt) by lia. apply take_app_length.
Qed.

Lemma scan_unclosed fuel pre tag fmt :
  Forall (λ c, tagchar c = true) tag → CLOSE ∉ fmt →
  length tag + length fmt + 2 < fuel →
  ∃ v, scan_field fuel (pre ++ PERCENT :: tag ++ OPEN :: fmt) (length pre)
    (mkScan (length pre + 1) [] [] false 0) = Done v ∧ processing v = true.
Proof.
  intros Ht Hcl Hf. rewrite scan_start by (done || lia).
  destruct (fuel - length tag) as [|n] eqn:Hn; [lia|].
  cbn [scan_field sj processing stype sfmt fmt_begin]. rewrite lookup_after_tag.
  change (head (OPEN :: fmt)) with (Some OPEN). cbn -[substr scan_field].
  rewrite substr_tag. set (A := pre ++ PERCENT :: tag ++ [OPEN]).
  replace (pre ++ PERCENT :: tag ++ OPEN :: fmt) with (A ++ fmt)
    by (subst A; rewrite <-!app_assoc; simpl; by rewrite <-app_assoc).
  replace (length pre + 1 + length tag + 1) with (length A) by (subst A; len_lia).
  apply scan_open; [done|lia].
Qed.

(** * Lemmas: the outer loop *)

(** The literal collected so far becomes a raw field when it is not empty. *)
Definition flush (raw : str) : list RawField :=
  if decide (raw = []) then [] else [mkRaw true raw []].

Lemma flush_app (raw : str) fs :
  (if decide (raw = []) then fs else fs ++ [mkRaw true raw []]) = fs ++ flush raw.
Proof. unfold flush. case_decide; by rewrite ?app_nil_r. Qed.

Lemma parse_char fuel pre c p raw acc :
  c ≠ PERCENT ∨ head p = Some PERCENT →
  parse_loop (S fuel) (pre ++ c :: p) (length pre) raw acc =
  parse_loop fuel ((pre ++ [c]) ++ p) (length (pre ++ [c])) (raw ++ [c]) acc.
Proof.
  intros H. cbn [parse_loop]. rewrite list_lookup_middle by done.
  replace ((pre ++ c :: p) !! (length pre + 1)) with (head p)
    by (rewrite lookup_suffix; by destruct p).
  assert (negb (same c PERCENT) || bool_decide (head p = Some PERCENT) = true) as ->.
  { apply orb_true_iff. destruct H as [H|H].
    - left. apply negb_true_iff. by apply same_false.
    - right. by apply bool_decide_true. }
  rewrite <-app_assoc. f_equal. len_lia.
Qed.

Lemma parse_literal_text t : ∀ fuel pre p raw acc,
  PERCENT ∉ t →
  parse_loop (length t + fuel) (pre ++ t ++ p) (length pre) raw acc =
  parse_loop fuel ((pre ++ t) ++ p) (length (pre ++ t)) (raw ++ t) acc.
Proof.
  induction t as [|c t IH]; intros fuel pre p raw acc Ht; [by rewrite !app_nil_r|].
  apply not_elem_of_cons in Ht as [Hc Ht]. cbn [length Nat.add app].
  rewrite parse_char by (left; congruence). rewrite IH by done. by rewrite <-!app_assoc.
Qed.

Lemma parse_percents k : ∀ fuel pre q raw acc,
  parse_loop (k + fuel) (pre ++ replicate k PERCENT ++ PERCENT :: q) (length pre) raw acc =
  parse_loop fuel ((pre ++ replicate k PERCENT) ++ PERCENT :: q)
    (length (pre ++ replicate k PERCENT)) (raw ++ replicate k PERCENT) acc.
Proof.
  induction k as [|k IH]; intros fuel pre q raw acc; [by rewrite !app_nil_r|].
  cbn [replicate Nat.add app]. rewrite parse_char by (right; by destruct k).
  rewrite IH. by rewrite <-!app_assoc.
Qed.

Lemma parse_literal s p fuel pre raw acc :
  literal_run s p →
  parse_loop (length s + fuel) (pre ++ s ++ p) (length pre) raw acc =
  parse_loop fuel ((pre ++ s) ++ p) (length (pre ++ s)) (raw ++ s) acc.
Proof.
  intros [Hp (t & k & -> & Ht & Hk)]. rewrite length_app, length_replicate, <-!app_assoc.
  rewrite <-Nat.add_assoc, parse_literal_text by done.
  destruct Hp as [->|(q & -> & _)].
  - rewrite Hk by done. by rewrite !app_nil_r.
  - rewrite parse_percents. by rewrite <-!app_assoc.
Qed.

(** One step of the outer loop at a percent sign that starts a field. *)
Lemma parse_percent fuel pre q raw acc :
  head q ≠ Some PERCENT →
  parse_loop (S fuel) (pre ++ PERCENT :: q) (length pre) raw acc =
  (v ← scan_field (S (length (pre ++ PERCENT :: q))) (pre ++ PERCENT :: q) (length pre)
         (mkScan (length pre + 1) [] [] false 0);
   if processing v
   then Throw (Exn invalid_argument
                 (quoted (s!"Invalid log format pattern: ") (PERCENT :: q)))
   else parse_loop fuel (pre ++ PERCENT :: q) (sj v - 1 + 1) []
          ((acc ++ flush raw) ++ [mkRaw false (stype v) (sfmt v)])).
Proof.
  intros Hq. cbn [parse_loop]. rewrite list_lookup_middle by done.
  replace ((pre ++ PERCENT :: q) !! (length pre + 1)) with (head q)
    by (rewrite lookup_suffix; by destruct q).
  rewrite bool_decide_false by done. change (same PERCENT PERCENT) with true. cbn [negb orb].
  by rewrite flush_app, drop_app_length.
Qed.

Lemma tag_head tag p :
  Forall (λ c, tagchar c = true) tag → (tag = [] → head p ≠ Some PERCENT) →
  head (tag ++ p) ≠ Some PERCENT.
Proof.
  intros Ht Hp. destruct Ht as [|c tag Hc _]; [by apply Hp|]. simpl. intros [= ->].
  by rewrite tagchar_percent in Hc.
Qed.

Lemma tag_end_head tag p : tag_end tag p → tag = [] → head p ≠ Some PERCENT.
Proof. intros H Ht Hp. by destruct (H _ Hp) as (_ & _ & []). Qed.

(** A literal cannot be pending where another one starts. *)
Lemma literal_run_end s p : s ≠ [] → literal_run s p → ¬ literal_end (s ++ p).
Proof.
  intros Hs [Hp (t & k & -> & Ht & Hk)] [Hn|(q & Hq & Hh)].
  { by apply app_eq_nil in Hn as [? _]. }
  destruct t as [|c t].
  - destruct k as [|k]; [done|]. simpl in *. injection Hq as <-.
    destruct Hp as [->|(q' & -> & _)]; [by specialize (Hk eq_refl)|].
    by destruct k.
  - simpl in *. injection Hq as ->. set_solver.
Qed.

(** The loop computes the fields of the grammar. *)
Lemma parse_loop_fields p fs : pattern_fields p fs → ∀ pre fuel raw acc,
  length p < fuel → (raw = [] ∨ literal_end p) →
  parse_loop fuel (pre ++ p) (length pre) raw acc = Done (acc ++ flush raw ++ fs).
Proof.
  induction 1 as [|s p fs Hs Hrun _ IH|tag p fs Ht Hend _ IH|tag fmt p fs Ht Hc _ IH];
    intros pre fuel raw acc Hf Hraw.
  - destruct fuel; [simpl in Hf; lia|]. cbn [parse_loop].
    rewrite lookup_ge_None_2 by len_lia. by rewrite flush_app, app_nil_r.
  - destruct Hraw as [->|Hraw]; [|by destruct (literal_run_end s p)].
    rewrite length_app in Hf. replace fuel with (length s + (fuel - length s)) by lia.
    rewrite parse_literal by done. rewrite IH; [|lia|right; apply Hrun].
    unfold flush at 1. by rewrite decide_False.
  - destruct fuel; [simpl in Hf; lia|].
    rewrite parse_percent by (apply tag_head; [done|by apply tag_end_head]).
    rewrite scan_no_format; [|done|done|len_lia]. cbn [mbind outcome_bind processing sj stype sfmt].
    replace (length pre + 1 + length tag - 1 + 1) with (length (pre ++ PERCENT :: tag)) by len_lia.
    replace (pre ++ PERCENT :: tag ++ p) with ((pre ++ PERCENT :: tag) ++ p) by (by rewrite <-app_assoc).
    rewrite IH; [|len_lia|by left]. by rewrite <-!app_assoc.
  - destruct fuel; [simpl in Hf; lia|].
    rewrite parse_percent by (by apply tag_head).
    edestruct (scan_with_format (S (length (pre ++ PERCENT :: tag ++ OPEN :: fmt ++ CLOSE :: p)))
      pre tag fmt p) as [b ->]; [done|done|len_lia|].
    cbn [mbind outcome_bind processing sj stype sfmt].
    set (A := pre ++ PERCENT :: tag ++ OPEN :: fmt ++ [CLOSE]).
    replace (length pre + 1 + length tag + 1 + length fmt + 1 - 1 + 1) with (length A)
      by (subst A; len_lia).
    replace (pre ++ PERCENT :: tag ++ OPEN :: fmt ++ CLOSE :: p) with (A ++ p)
      by (subst A; rewrite <-!app_assoc; simpl; rewrite <-!app_assoc; simpl; by rewrite <-!app_assoc).
    rewrite IH; [|len_lia|by left]. by rewrite <-!app_assoc.
Qed.

(** * Lemmas: every pattern is accepted or has an unclosed format *)

(** [p] makes the loop throw, quoting its unclosed suffix [q]. *)
Definition parse_throws (p q : str) : Prop :=
  ∀ pre fuel raw acc, length p < fuel → (raw = [] ∨ literal_end p) →
  parse_loop fuel (pre ++ p) (length pre) raw acc =
  Throw (Exn invalid_argument (quoted (s!"Invalid log format pattern: ") q)).

Lemma literal_cases p :
  literal_end p ∨ ∃ s r, p = s ++ r ∧ s ≠ [] ∧ literal_run s r.
Proof.
  destruct (span_exists (λ c, negb (same c PERCENT)) p) as (t & b & -> & Ht & Hb).
  assert (PERCENT ∉ t) as Hnt.
  { rewrite Forall_forall in Ht. intros Hin. by specialize (Ht _ Hin). }
  destruct b as [|c b].
  { destruct (decide (t = [])) as [->|Hne]; [by left; left|right].
    exists t, []. split_and!; [done|done|]. split; [by left|].
    exists t, 0. by rewrite app_nil_r. }
  specialize (Hb c eq_refl). apply negb_false_iff, same_spec in Hb as ->.
  destruct (span_exists (λ c, same c PERCENT) b) as (ps & q & -> & Hps & Hq).
  assert (∃ k, ps = replicate k PERCENT) as [k ->].
  { exists (length ps). clear -Hps. induction Hps as [|x l Hx _ IH]; [done|].
    apply same_spec in Hx as ->. simpl. by f_equal. }
  assert (head q ≠ Some PERCENT) as Hhq by (intros H; by specialize (Hq _ H)).
  assert (PERCENT :: replicate k PERCENT ++ q = replicate k PERCENT ++ PERCENT :: q) as Hsh.
  { clear. induction k; simpl; [done|by f_equal]. }
  rewrite Hsh, app_assoc. destruct (decide (t ++ replicate k PERCENT = [])) as [Hnil|Hne].
  - left. rewrite Hnil. right. by exists q.
  - right. exists (t ++ replicate k PERCENT), (PERCENT :: q). split_and!; [done|done|].
    split; [right; by exists q|]. by exists t, k.
Qed.

Lemma parse_throws_literal s r q :
  s ≠ [] → literal_run s r → parse_throws r q → parse_throws (s ++ r) q.
Proof.
  intros Hs Hrun Hr pre fuel raw acc Hf [->|Hend]; [|by destruct (literal_run_end s r)].
  rewrite length_app in Hf. replace fuel with (length s + (fuel - length s)) by lia.
  rewrite parse_literal by done. apply Hr; [lia|right; apply Hrun].
Qed.

Lemma parse_throws_tag tag r q :
  Forall (λ c, tagchar c = true) tag → tag_end tag r → parse_throws r q →
  parse_throws (PERCENT :: tag ++ r) q.
Proof.
  intros Ht Hend Hr pre fuel raw acc Hf _. destruct fuel; [simpl in Hf; lia|].
  rewrite parse_percent by (apply tag_head; [done|by apply tag_end_head]).
  rewrite scan_no_format; [|done|done|len_lia]. cbn [mbind outcome_bind processing sj stype sfmt].
  replace (length pre + 1 + length tag - 1 + 1) with (length (pre ++ PERCENT :: tag)) by len_lia.
  replace (pre ++ PERCENT :: tag ++ r) with ((pre ++ PERCENT :: tag) ++ r) by (by rewrite <-app_assoc).
  apply Hr; [len_lia|by left].
Qed.

Lemma parse_throws_format tag fmt r q :
  Forall (λ c, tagchar c = true) tag → CLOSE ∉ fmt → parse_throws r q →
  parse_throws (PERCENT :: tag ++ OPEN :: fmt ++ CLOSE :: r) q.
Proof.
  intros Ht Hc Hr pre fuel raw acc Hf _. destruct fuel; [simpl in Hf; lia|].
  rewrite parse_percent by (by apply tag_head).
  edestruct (scan_with_format (S (length (pre ++ PERCENT :: tag ++ OPEN :: fmt ++ CLOSE :: r)))
    pre tag fmt r) as [b ->]; [done|done|len_lia|].
  cbn [mbind outcome_bind processing sj stype sfmt].
  set (A := pre ++ PERCENT :: tag ++ OPEN :: fmt ++ [CLOSE]).
  replace (length pre + 1 + length tag + 1 + length fmt + 1 - 1 + 1) with (length A)
    by (subst A; len_lia).
  replace (pre ++ PERCENT :: tag ++ OPEN :: fmt ++ CLOSE :: r) with (A ++ r)
    by (subst A; rewrite <-!app_assoc; simpl; rewrite <-!app_assoc; simpl; by rewrite <-!app_assoc).
  apply Hr; [len_lia|by left].
Qed.

Lemma parse_throws_unclosed q : unclosed q → parse_throws q q.
Proof.
  intros (tag & fmt & -> & Ht & Hc) pre fuel raw acc Hf _. destruct fuel; [simpl in Hf; lia|].
  rewrite parse_percent by (by apply tag_head).
  edestruct (scan_unclosed (S (length (pre ++ PERCENT :: tag ++ OPEN :: fmt)))
    pre tag fmt) as (v & -> & Hv); [done|done|len_lia|].
  cbn [mbind outcome_bind]. by rewrite Hv.
Qed.

(** What follows a percent sign that starts a field. *)
Lemma field_cases q :
  head q ≠ Some PERCENT →
  unclosed (PERCENT :: q) ∨ ∃ tag, Forall (λ c, tagchar c = true) tag ∧
    ((∃ r, q = tag ++ r ∧ tag_end tag r) ∨
     (∃ fmt r, q = tag ++ OPEN :: fmt ++ CLOSE :: r ∧ CLOSE ∉ fmt)).
Proof.
  intros Hq. destruct (span_exists tagchar q) as (tag & b & -> & Ht & Hb).
  destruct b as [|c b].
  { right. exists tag. split; [done|left]. exists []. split; [done|]. by intros c. }
  specialize (Hb c eq_refl). destruct (decide (c = OPEN)) as [->|Ho].
  - destruct (span_exists (λ c, negb (same c CLOSE)) b) as (fmt & r & -> & Hf & Hr).
    assert (CLOSE ∉ fmt) as Hc.
    { rewrite Forall_forall in Hf. intros Hin. by specialize (Hf _ Hin). }
    destruct r as [|x r].
    + left. exists tag, fmt. by rewrite app_nil_r.
    + specialize (Hr x eq_refl). apply negb_false_iff, same_spec in Hr as ->.
      right. exists tag. split; [done|right]. by exists fmt, r.
  - right. exists tag. split; [done|left]. exists (c :: b). split; [done|].
    intros d [= <-]. split_and!; [done|done|]. intros -> ->. by destruct Hq.
Qed.

Lemma parse_cases p :
  (∃ fs, pattern_fields p fs) ∨ ∃ A q, p = A ++ q ∧ unclosed q ∧ parse_throws p q.
Proof.
  induction p as [p IH] using list_length_ind.
  destruct (literal_cases p) as [[->|(q & -> & Hq)]|(s & r & -> & Hs & Hrun)].
  - left. exists []. constructor.
  - destruct (field_cases q Hq) as [Hu|(tag & Ht & [(r & -> & He)|(fmt & r & -> & Hc)])].
    + right. exists [], (PERCENT :: q). split_and!; [done|done|by apply parse_throws_unclosed].
    + destruct (IH r) as [[fs Hfs]|(A & q & -> & Hu & Hth)]; [len_lia|..].
      * left. exists (mkRaw false tag [] :: fs). by constructor.
      * right. exists (PERCENT :: tag ++ A), q. split_and!; [simpl; by rewrite app_assoc|done|].
        by apply parse_throws_tag.
    + destruct (IH r) as [[fs Hfs]|(A & q & -> & Hu & Hth)]; [len_lia|..].
      * left. exists (mkRaw false tag fmt :: fs). by constructor.
      * right. exists (PERCENT :: tag ++ OPEN :: fmt ++ CLOSE :: A), q.
        split_and!; [by simplify_list_eq|done|by apply parse_throws_format].
  - destruct (IH r) as [[fs Hfs]|(A & q & -> & Hu & Hth)].
    + destruct s; [done|len_lia].
    + left. exists (mkRaw true s [] :: fs). by constructor.
    + right. exists (s ++ A), q. split_and!; [by rewrite app_assoc|done|].
      by apply parse_throws_literal.
Qed.

Lemma ParsePattern_fields p fs : pattern_fields p fs → ParsePattern p = Done fs.
Proof. intros H. apply (parse_loop_fields p fs H [] _ [] []); [lia|by left]. Qed.

Lemma ParsePattern_cases p :
  (∃ fs, pattern_fields p fs ∧ ParsePattern p = Done fs) ∨
  (∃ A q, p = A ++ q ∧ unclosed q ∧ (∀ fs, ¬ pattern_fields p fs) ∧
     ParsePattern p = Throw (Exn invalid_argument (quoted (s!"Invalid log format pattern: ") q))).
Proof.
  destruct (parse_cases p) as [[fs H]|(A & q & Hp & Hu & Hth)].
  - left. exists fs. split; [done|by apply ParsePattern_fields].
  - right. exists A, q.
    assert (ParsePattern p =
      Throw (Exn invalid_argument (quoted (s!"Invalid log format pattern: ") q))) as Ht
      by (apply (Hth [] _ [] []); [lia|by left]).
    split_and!; [done|done| |done]. intros fs H%ParsePattern_fields. congruence.
Qed.

(** * What a pattern prints *)

Section RawText.
Context (strftime : N → str → Z → str).

(** The text of one raw field, read off the table at the top of [log.h];
    [None] for a tag that is not in it. *)
Definition raw_text (logger : str) (e : Event) (r : RawField) : option str :=
  if raw_str r then Some (content r)
  else if decide (s!"m" = content r) then Some (message e)
  else if decide (s!"p" = content r) then Some (LevelToString (event_level e))
  else if decide (s!"t" = content r) then Some (dec (thread_id e))
  else if decide (s!"n" = content r) then Some [LF]
  else if decide (s!"c" = content r) then Some logger
  else if decide (s!"d" = content r) then
    Some (strftime 96 (c_str (if decide (format r = []) then field.default_format else format r))
            (to_time_t (time e)))
  else if decide (s!"f" = content r) then Some (file_name e)
  else if decide (s!"l" = content r) then Some (dec (line_num e))
  else if decide (s!"T" = content r) then Some [chr 9]
  else None.

Lemma field_of_raw_text r logger e :
  match field_of_raw r with
  | Done f => raw_text logger e r = Some (Field_Format strftime f logger e)
  | Throw x => kind x = invalid_argument ∧ raw_text logger e r = None
  | _ => False
  end.
Proof.
  unfold field_of_raw, raw_text. destruct (raw_str r); [done|].
  unfold field.supported_fields. cbn [table_find].
  repeat (case_decide; [done|]). done.
Qed.

Lemma raw_fields_text rs logger e :
  match RawFieldsToFormatFields rs with
  | Done fs => Forall2 (λ r t, raw_text logger e r = Some t) rs
                 ((λ f, Field_Format strftime f logger e) <$> fs)
  | Throw x => kind x = invalid_argument ∧ ∃ r, r ∈ rs ∧ raw_text logger e r = None
  | _ => False
  end.
Proof.
  induction rs as [|r rs IH]; simpl; [constructor|].
  pose proof (field_of_raw_text r logger e) as Hr.
  destruct (field_of_raw r) as [f|x| |]; simpl; [|destruct Hr; split; [done|]; exists r; set_solver|done|done].
  destruct (RawFieldsToFormatFields rs) as [fs|x| |]; simpl; [by constructor| |done|done].
  destruct IH as (? & y & ? & ?). split; [done|]. exists y. set_solver.
Qed.

Lemma Format_concat f logger e :
  Format strftime f logger e = concat ((λ fld, Field_Format strftime fld logger e) <$> fields_ f).
Proof.
  unfold Format. destruct f as [p fs]. cbn [fields_].
  assert (∀ out, fold_left (λ out fld, out ++ Field_Format strftime fld logger e) fs out =
    out ++ concat ((λ fld, Field_Format strftime fld logger e) <$> fs)) as H; [|apply H].
  induction fs as [|fld fs IH]; intros out; cbn; [by rewrite app_nil_r|].
  by rewrite IH, <-app_assoc.
Qed.
End RawText.

(** * Properties *)

(** C27: [ParsePattern] computes the grammar of patterns.  It returns the
    raw fields [fs] exactly when the grammar assigns them to the pattern, and
    otherwise throws [invalid_argument], quoting a suffix of the pattern that
    starts a format and never closes it.  It always ends, and there is no third
    case. *)
Theorem parse_pattern_correct p :
  (∀ fs, ParsePattern p = Done fs ↔ pattern_fields p fs) ∧
  ((∃ fs, ParsePattern p = Done fs) ∨
   ∃ A q, p = A ++ q ∧ unclosed q ∧
     ParsePattern p = Throw (Exn invalid_argument (quoted (s!"Invalid log format pattern: ") q))).
Proof.
  destruct (ParsePattern_cases p) as [(fs & Hfs & Hp)|(A & q & Hp & Hu & Hn & Ht)].
  - split; [|left; by exists fs]. intros fs'. rewrite Hp.
    split; [intros [= <-]; done|]. intros H%ParsePattern_fields. congruence.
  - split; [|right; by exists A, q]. intros fs. rewrite Ht. split; [done|]. by intros H%Hn.
Qed.

(** From a pattern to the printed line.  A formatter can be built
    exactly when the pattern is in the grammar and every tag is in the table of
    [log.h]; it then keeps the pattern and prints an event as the
    concatenation of the texts of its fields, in order.  Otherwise the
    constructor throws [invalid_argument]. *)
Theorem format_correct strftime p logger e :
  match make_Formatter p with
  | Done f => pattern_ f = p ∧ ∃ fs ts, pattern_fields p fs ∧
      Forall2 (λ r t, raw_text strftime logger e r = Some t) fs ts ∧
      Format strftime f logger e = concat ts
  | Throw x => kind x = invalid_argument ∧
      ∀ fs, pattern_fields p fs → ∃ r, r ∈ fs ∧ raw_text strftime logger e r = None
  | _ => False
  end.
Proof.
  unfold make_Formatter.
  destruct (ParsePattern_cases p) as [(fs & Hfs & Hp)|(A & q & Hp & _ & Hn & Ht)].
  - rewrite Hp. cbn [mbind outcome_bind].
    pose proof (raw_fields_text strftime fs logger e) as H.
    destruct (RawFieldsToFormatFields fs) as [flds|x| |]; cbn [mbind outcome_bind]; [| |done|done].
    + split; [done|]. eexists fs, _. split_and!; [done|exact H|]. by rewrite Format_concat.
    + destruct H as [Hk Hr]. split; [done|]. intros fs' Hfs'%ParsePattern_fields.
      rewrite Hp in Hfs'. by injection Hfs' as <-.
  - rewrite Ht. cbn [mbind outcome_bind]. split; [done|]. by intros fs H%Hn.
Qed.

(** The default formatter exists, so [Formatter::Default], which is
    [noexcept], does not terminate the program, and its line is: date, tab,
    thread, tab, level in brackets, tab, logger in brackets, tab, place in
    angle brackets, tab, message, newline. *)
Theorem default_format strftime :
  ∃ f, Formatter_Default = Done f ∧ ∀ logger e,
    Format strftime f logger e =
    strftime 96%N (s!"%Y-%m-%d %H:%M:%S") (to_time_t (time e)) ++ [chr 9] ++
    dec (thread_id e) ++ [chr 9] ++
    s!"[" ++ LevelToString (event_level e) ++ s!"]" ++ [chr 9] ++
    s!"[" ++ logger ++ s!"]" ++ [chr 9] ++
    s!"<" ++ file_name e ++ s!":" ++ dec (line_num e) ++ s!">" ++ [chr 9] ++
    message e ++ [LF].
Proof.
  eexists. split; [vm_compute; reflexivity|]. intros logger e. rewrite Format_concat.
  cbn [fields_ fmap list_fmap concat Field_Format].
  match goal with |- context [c_str ?x] => replace (c_str x) with (s!"%Y-%m-%d %H:%M:%S") by reflexivity end.
  change ([LF] ++ []) with [LF]. reflexivity.
Qed.

(** A doubled percent sign does not print one percent sign.  The first
    sign becomes a literal and the second one still starts a field, so a text
    that ends with two signs is refused, and ["%%m"] prints a percent sign and
    then the message. *)
Theorem percent_not_escaped t :
  PERCENT ∉ t →
  make_Formatter (t ++ s!"%%") =
    Throw (Exn invalid_argument (quoted (s!"Invalid log format field: ") [])) ∧
  make_Formatter (t ++ s!"%%m") =
    Done (mkFormatter (t ++ s!"%%m") [field.RawString (t ++ s!"%"); field.Message]).
Proof.
  intros Ht.
  assert (∀ p fs, head p ≠ Some PERCENT → pattern_fields (PERCENT :: p) fs →
    ParsePattern (t ++ PERCENT :: PERCENT :: p) = Done (mkRaw true (t ++ [PERCENT]) [] :: fs)) as H.
  { intros p fs Hp Hfs. apply ParsePattern_fields. rewrite (cons_middle PERCENT t), app_assoc.
    apply pf_literal; [by destruct t| |done]. split; [right; by exists p|].
    exists t, 1. by split_and!. }
  assert (pattern_fields [] []) as Hnil by constructor.
  unfold make_Formatter. change (s!"%%") with [PERCENT; PERCENT].
  change (s!"%%m") with [PERCENT; PERCENT; "m"%char]. split.
  - rewrite (H [] [mkRaw false [] []]); [done|done|].
    by apply (pf_tag [] [] []).
  - rewrite (H [_] [mkRaw false (s!"m") []]); [done|done|].
    apply (pf_tag (s!"m") [] []); [by repeat constructor|done|done].
Qed.

Lemma percent_not_escaped_witness :
  make_Formatter (s!"100%%") =
    Throw (Exn invalid_argument (quoted (s!"Invalid log format field: ") [])).
Proof.
  assert (PERCENT ∉ s!"100") as H by (apply (bool_decide_unpack _); vm_compute; exact I).
  destruct (percent_not_escaped _ H) as [H1 _]. exact H1.
Defined.

(** The names of levels and of appender types read back in any letter
    case, and every other text is refused with [invalid_argument]. *)
Theorem level_names_round_trip s :
  (∀ l, StringToLevel s = Done l ↔ StringToUpper s = StringToUpper (LevelToString l)) ∧
  (∀ t, StringToAppenderType s = Done t ↔ StringToUpper s = StringToUpper (AppenderTypeToString t)) ∧
  ((∀ l, StringToUpper s ≠ StringToUpper (LevelToString l)) →
     ∃ w, StringToLevel s = Throw (Exn invalid_argument w)) ∧
  ((∀ t, StringToUpper s ≠ StringToUpper (AppenderTypeToString t)) →
     ∃ w, StringToAppenderType s = Throw (Exn invalid_argument w)).
Proof.
  assert (∀ l, table_find level_table (StringToUpper (LevelToString l)) = Some l) as Hl by (by intros []).
  assert (∀ t, table_find appender_type_table (StringToUpper (AppenderTypeToString t)) = Some t) as Ha
    by (by intros []).
  assert (∀ u l, table_find level_table u = Some l → u = StringToUpper (LevelToString l)) as Hl'.
  { intros u l H%table_find_Some. unfold level_table in H. set_unfold. naive_solver. }
  assert (∀ u t, table_find appender_type_table u = Some t → u = StringToUpper (AppenderTypeToString t)) as Ha'.
  { intros u t H%table_find_Some. unfold appender_type_table in H. set_unfold. naive_solver. }
  unfold StringToLevel, StringToAppenderType. split_and!.
  - intros l. split; [|by intros ->; rewrite Hl]. destruct (table_find _ _) eqn:H; [|done].
    intros [= ->]. by apply Hl'.
  - intros t. split; [|by intros ->; rewrite Ha]. destruct (table_find _ _) eqn:H; [|done].
    intros [= ->]. by apply Ha'.
  - intros Hn. destruct (table_find _ _) as [l|] eqn:H; [|by eexists]. by destruct (Hn l), (Hl' _ _ H).
  - intros Hn. destruct (table_find _ _) as [t|] eqn:H; [|by eexists]. by destruct (Hn t), (Ha' _ _ H).
Qed.

Lemma level_names_round_trip_witness :
  StringToLevel (s!"wArN") = Done Warn ∧ ∃ w, StringToLevel (s!"warning") = Throw (Exn invalid_argument w).
Proof.
  split.
  - destruct (level_names_round_trip (s!"wArN")) as (H & _). apply H. reflexivity.
  - destruct (level_names_round_trip (s!"warning")) as (_ & _ & H & _). apply H. by intros [].
Defined.
