(* ===== verification/Yaml.v ===== *)
(** The YAML library, as an interface: what the program uses of
    [YAML::Load], [YAML::Node] and the printing of nodes, with the documented
    behaviour its theorems rely on; and the two helpers of [src/util/util.cpp]
    that wrap it. *)

From stdpp Require Import countable.
From S2P Require Import Prelude LogField.

(** * The interface *)

(** A node is a value here: the program never changes a node that it shares.
    [emit] prints a node as [operator<<] does.  [subscript n k] is [n[k]], with
    [None] for a node that is not defined; [set_field n k v] is [n] after
    [n[k] = v], and [push_back] likewise. *)
Class Yaml := {
  Node : Type;
  YAML_Load : str → outcome Node;
  emit : Node → str;
  IsMap : Node → bool;
  IsSequence : Node → bool;
  IsScalar : Node → bool;
  map_items : Node → list (Node * Node);
  seq_items : Node → list Node;
  subscript : Node → str → outcome (option Node);
  as_string : Node → outcome str;
  as_size : Node → outcome N;
  null_node : Node;
  scalar_node : str → Node;
  push_back : Node → Node → Node;
  set_field : Node → str → Node → Node
}.

(** A node that a sequence, or a map, can be built up from. *)
Definition sequence_like `{Yaml} (n : Node) : Prop := n = null_node ∨ IsSequence n = true.
Definition map_like `{Yaml} (n : Node) : Prop := n = null_node ∨ IsMap n = true.

(** Printing a node gives a text that loads as the same node; a number is
    printed as it is; loading fails with the library's own exception; built
    sequences and maps hold what was put into them. *)
Class YamlLaws `{Yaml} := {
  Load_emit n : YAML_Load (emit n) = Done n;
  emit_text n : c_str (emit n) = emit n;
  emit_number k : emit (scalar_node (dec k)) = dec k;
  Load_result s : (∃ n, YAML_Load s = Done n) ∨ ∃ w, YAML_Load s = Throw (Exn runtime_error w);
  seq_null : seq_items null_node = [];
  seq_push n x : sequence_like n →
    IsSequence (push_back n x) = true ∧ seq_items (push_back n x) = seq_items n ++ [x];
  map_null : map_items null_node = [];
  field_null k : subscript null_node k = Done None;
  map_set n k v : map_like n →
    IsMap (set_field n k v) = true ∧
    (∀ k', subscript (set_field n k v) k' = if decide (k' = k) then Done (Some v) else subscript n k') ∧
    (subscript n k = Done None → map_items (set_field n k v) = map_items n ++ [(scalar_node k, v)]);
  null_kind : IsSequence null_node = false ∧ IsMap null_node = false;
  scalar_kind s : IsScalar (scalar_node s) = true ∧ IsSequence (scalar_node s) = false ∧
    IsMap (scalar_node s) = false;
  scalar_string s : as_string (scalar_node s) = Done s;
  scalar_size k : (k < word_mod)%N → as_size (scalar_node (dec k)) = Done k
}.

(** * Helpers of [util.cpp] *)

Section Helpers.
Context `{Yaml}.

(** [LoadYamlString] *)
Definition check_field (s : str) (node : Node) (ok : outcome unit) (field : str) : outcome unit :=
  ok;;
  f ← subscript node field;
  match f with
  | Some _ => Done tt
  | None => Throw (Exn invalid_argument (quoted (s!"Invalid YAML value: ") s))
  end.
Definition LoadYamlString (s : str) (required_fields : list str) : outcome Node :=
  node ← YAML_Load (c_str s);
  fold_left (check_field s node) required_fields (Done tt);;
  Done node.

Definition ThrowIfYamlFieldIsNotScalar (node : Node) (field : str) : outcome unit :=
  f ← subscript node field;
  match f with
  | Some n => if IsScalar n then Done tt else Throw (Exn invalid_argument (quoted (s!"Invalid YAML field: ") field))
  | None => Throw (Exn invalid_argument (quoted (s!"Invalid YAML field: ") field))
  end.

(** [ss << n; ss.str()] followed by [LoadYamlString] gives the node back. *)
Lemma LoadYamlString_emit `{!YamlLaws} n : LoadYamlString (emit n) [] = Done n.
Proof. unfold LoadYamlString. by rewrite emit_text, Load_emit. Qed.

Lemma Load_number `{!YamlLaws} k : YAML_Load (dec k) = Done (scalar_node (dec k)).
Proof. rewrite <-(emit_number k) at 1. apply Load_emit. Qed.
End Helpers.

(** * A concrete library

    Trees, printed as their text where that is possible and otherwise as an
    exclamation mark and the digits of a code of the tree.  It satisfies the laws,
    so they can hold. *)

Fixpoint pos_bits (p : positive) : str :=
  match p with
  | xH => []
  | xO p' => "0"%char :: pos_bits p'
  | xI p' => "1"%char :: pos_bits p'
  end.
Fixpoint bits_pos (s : str) : positive :=
  match s with
  | [] => xH
  | c :: s' => if decide (c = "0"%char) then xO (bits_pos s') else xI (bits_pos s')
  end.

Lemma bits_pos_bits p : bits_pos (pos_bits p) = p.
Proof. induction p as [p IH|p IH|]; simpl; by rewrite ?IH. Qed.

Lemma pos_bits_text p : c_str (pos_bits p) = pos_bits p.
Proof. induction p as [p IH|p IH|]; [| |done]; cbn [pos_bits c_str]; rewrite decide_False by done; by rewrite IH. Qed.

Abbreviation tree := (gen_tree str).

Fixpoint pairs {A} (l : list A) : list (A * A) :=
  match l with k :: v :: l' => (k, v) :: pairs l' | _ => [] end.
Fixpoint set_pair (k : str) (v : tree) (l : list tree) : list tree :=
  match l with
  | x :: y :: l' => if decide (x = GenLeaf k) then x :: v :: l' else x :: y :: set_pair k v l'
  | _ => [GenLeaf k; v]
  end.

Definition plain (s : str) : bool := bool_decide (c_str s = s ∧ head s ≠ Some "!"%char).

Definition tree_items (n : nat) (t : tree) : list tree :=
  match t with GenNode k l => if decide (k = n) then l else [] | _ => [] end.

Fixpoint find_pair (k : str) (l : list tree) : option tree :=
  match l with
  | x :: y :: l' => if decide (x = GenLeaf k) then Some y else find_pair k l'
  | _ => None
  end.

#[local] Instance tree_yaml : Yaml := {|
  Node := tree;
  YAML_Load s := match s with
    | "!"%char :: s' => match decode (bits_pos s') with
        | Some t => Done t | None => Throw (Exn runtime_error (s!"bad code")) end
    | _ => Done (GenLeaf s) end;
  emit t := match t with GenLeaf s => if plain s then s else "!"%char :: pos_bits (encode t)
    | _ => "!"%char :: pos_bits (encode t) end;
  IsMap t := match t with GenNode 1 _ => true | _ => false end;
  IsSequence t := match t with GenNode 0 _ => true | _ => false end;
  IsScalar t := match t with GenLeaf _ => true | _ => false end;
  map_items t := pairs (tree_items 1 t);
  seq_items t := tree_items 0 t;
  subscript t k := match t with GenLeaf _ => Throw (Exn runtime_error (s!"bad subscript"))
    | _ => Done (find_pair k (tree_items 1 t)) end;
  as_string t := match t with GenLeaf s => Done s | _ => Throw (Exn runtime_error (s!"bad conversion")) end;
  as_size t := match t with GenLeaf s => Done (undec s) | _ => Throw (Exn runtime_error (s!"bad conversion")) end;
  null_node := GenNode 2 [];
  scalar_node s := GenLeaf s;
  push_back t x := GenNode 0 (tree_items 0 t ++ [x]);
  set_field t k v := GenNode 1 (set_pair k v (tree_items 1 t))
|}.

Lemma list_pair_ind {A} (P : list A → Prop) :
  P [] → (∀ x, P [x]) → (∀ x y l, P l → P (x :: y :: l)) → ∀ l, P l.
Proof.
  intros H0 H1 H2. fix IH 1. intros [|x [|y l]]; [done|apply H1|apply H2, IH].
Qed.

Lemma pairs_set_pair k v l :
  find_pair k l = None → pairs (set_pair k v l) = pairs l ++ [(GenLeaf k, v)].
Proof.
  induction l as [|x|x y l IH] using list_pair_ind; simpl; [done|done|].
  case_decide; [done|]. intros Hf. simpl. f_equal. by apply IH.
Qed.

Lemma find_set_pair k v l k' :
  find_pair k' (set_pair k v l) = if decide (k' = k) then Some v else find_pair k' l.
Proof.
  induction l as [|x|x y l IH] using list_pair_ind; simpl.
  1-2: destruct (decide (k' = k)) as [->|Hne]; [by rewrite decide_True|rewrite decide_False; congruence].
  destruct (decide (x = GenLeaf k)) as [->|Hx]; simpl.
  - destruct (decide (k' = k)) as [->|Hne]; [by rewrite decide_True|].
    rewrite decide_False by congruence. symmetry. by rewrite decide_False by congruence.
  - rewrite IH. destruct (decide (k' = k)) as [->|Hne]; [by rewrite decide_False|done].
Qed.

Lemma plain_dec n : plain (dec n) = true.
Proof.
  apply bool_decide_eq_true. split; [apply dec_c_str|]. pose proof (dec_digits n) as H.
  destruct (dec n) as [|c s]; [done|]. apply Forall_cons in H as [Hc _]. by intros [= ->].
Qed.

Lemma code_text (t : tree) : c_str ("!"%char :: pos_bits (encode t)) = "!"%char :: pos_bits (encode t).
Proof. cbn [c_str]. by rewrite decide_False, pos_bits_text. Qed.

#[local] Instance tree_yaml_laws : YamlLaws.
Proof.
  assert (∀ t : tree, YAML_Load ("!"%char :: pos_bits (encode t)) = Done t) as Hcode.
  { intros t. simpl. by rewrite bits_pos_bits, decode_encode. }
  split.
  - intros [s|n l]; [|apply Hcode]. simpl emit. destruct (plain s) eqn:Hp; [|apply Hcode].
    apply bool_decide_eq_true in Hp as [_ Hp]. destruct s as [|c s]; [done|]. simpl in Hp |- *.
    destruct c as [[] [] [] [] [] [] [] []]; done.
  - intros [s|n l]; [|apply code_text]. simpl. destruct (plain s) eqn:Hp; [|apply code_text].
    by apply bool_decide_eq_true in Hp as [Hp _].
  - intros k. simpl. by rewrite plain_dec.
  - intros s. destruct s as [|c s]; [left; by eexists|]. simpl.
    destruct c as [[] [] [] [] [] [] [] []]; try (left; by eexists).
    destruct (decode (bits_pos s)); [left|right]; by eexists.
  - done.
  - intros n x [->|Hn]; [done|]. by destruct n as [|[]].
  - done.
  - done.
  - intros n k v Hn. assert (tree_items 1 n = match n with GenNode 1 l => l | _ => [] end) as Hi.
    { by destruct n as [|[|[]]]. }
    split; [done|]. split.
    + intros k'. simpl. rewrite find_set_pair. destruct Hn as [->|Hn].
      * by destruct (decide (k' = k)).
      * destruct n as [|[|[]]]; try done. by destruct (decide (k' = k)).
    + intros Hs. simpl. rewrite pairs_set_pair; [done|]. destruct Hn as [->|Hn]; [done|].
      destruct n as [|[|[]]]; try done. by injection Hs.
  - done.
  - done.
  - done.
  - intros k _. simpl. by rewrite undec_dec.
Qed.
