(* ===== verification/Convert.v ===== *)
(** The conversions between configuration values and YAML text: the
    [VarConverter] templates of [include/config.h]. *)

From S2P Require Import Prelude LogField Yaml.
From S2P Require Http.

(** A type that can be read from a string and printed as one. *)
Class VarConverter (T : Type) := {
  FromStr : str → outcome T;
  ToStr : T → outcome str
}.

(** [noexcept] on a function without state. *)
Definition no_throw {A} (m : outcome A) : outcome A :=
  match m with Throw _ => Crash | _ => m end.

(** * Scalars *)

(** [istringstream >> val] for an unsigned type with the given maximum: white
    space, a sign, digits; what follows the digits is not read.  A number that is
    too large fails; a negative one wraps. *)
Fixpoint take_digits (s : str) : str :=
  match s with c :: s' => if is_digit c then c :: take_digits s' else [] | [] => [] end.

Definition read_sign (s : str) : bool * str :=
  match s with
  | c :: s' => if decide (c = "-"%char) then (true, s')
               else if decide (c = "+"%char) then (false, s') else (false, s)
  | [] => (false, [])
  end.

Definition read_unsigned (max : N) (s : str) : option N :=
  let '(negative, s) := read_sign (Http.skip_spaces s) in
  let digits := take_digits s in
  if decide (digits = []) then None
  else
    let m := undec digits in
    if (max <? m)%N then None
    else Some (if negative then ((max + 1 - m) mod (max + 1))%N else m).

Definition uint16_max : N := 65535.
Definition size_max : N := 18446744073709551615.

(** [VarConverter<std::string, To>] and [VarConverter<From, std::string>] for
    unsigned integers. *)
Definition unsigned_converter (max : N) : VarConverter N := {|
  FromStr s := match read_unsigned max (c_str s) with
    | Some n => Done n
    | None => Throw (Exn invalid_argument (quoted (s!"Invalid value: ") s)) end;
  ToStr n := Done (dec n)
|}.

(** [VarConverter<std::string, std::string>]: [return val.data()]. *)
#[export] Instance string_converter : VarConverter str := {|
  FromStr s := Done (c_str s);
  ToStr s := Done (c_str s)
|}.

(** * Containers *)

Section Containers.
Context `{Yaml} {T : Type} `{!VarConverter T}.

Definition mismatched {A} (s : str) : outcome A :=
  Throw (Exn invalid_argument (quoted (s!"Mismatched type: ") s)).

(** [std::list] and [std::vector] *)
Definition list_FromStr (s : str) : outcome (list T) :=
  node ← LoadYamlString s [];
  if IsSequence node then mapM (λ child, FromStr (emit child)) (seq_items node)
  else mismatched s.

Fixpoint list_node (vals : list T) (node : Node) : outcome Node :=
  match vals with
  | [] => Done node
  | val :: vals' => s ← ToStr val; child ← LoadYamlString s []; list_node vals' (push_back node child)
  end.

Definition list_ToStr (vals : list T) : outcome str :=
  no_throw (node ← list_node vals null_node; Done (emit node)).

#[export] Instance list_converter : VarConverter (list T) := {|
  FromStr := list_FromStr; ToStr := list_ToStr
|}.

(** [std::set] and [std::unordered_set]; [order] enumerates a set as the
    container does. *)
Definition set_converter `{Countable T} (order : gset T → list T) : VarConverter (gset T) := {|
  FromStr s := vals ← list_FromStr s; Done (list_to_set vals);
  ToStr vals := list_ToStr (order vals)
|}.

(** [std::map] and [std::unordered_map] with keys of type [std::string];
    [emplace] leaves a key that exists. *)
Definition emplace (k : str) (v : T) (m : gmap str T) : gmap str T :=
  match m !! k with Some _ => m | None => <[k := v]> m end.

Fixpoint map_values (items : list (Node * Node)) (vals : gmap str T) : outcome (gmap str T) :=
  match items with
  | [] => Done vals
  | (key, val) :: items' => v ← FromStr (emit val); map_values items' (emplace (emit key) v vals)
  end.

Definition map_FromStr (s : str) : outcome (gmap str T) :=
  node ← LoadYamlString s [];
  if IsMap node then map_values (map_items node) ∅ else mismatched s.

Fixpoint map_node (vals : list (str * T)) (node : Node) : outcome Node :=
  match vals with
  | [] => Done node
  | (key, val) :: vals' =>
      s ← ToStr val; child ← LoadYamlString s []; map_node vals' (set_field node key child)
  end.

Definition map_ToStr (vals : list (str * T)) : outcome str :=
  no_throw (node ← map_node vals null_node; Done (emit node)).

Definition map_converter (order : gmap str T → list (str * T)) : VarConverter (gmap str T) := {|
  FromStr := map_FromStr; ToStr vals := map_ToStr (order vals)
|}.
End Containers.

(** * Lemmas *)

(** A value that survives being printed, both directly and as a part of a
    document, which is loaded and printed again on the way. *)
Definition round_trips `{Yaml} {T} (cv : VarConverter T) (x : T) : Prop :=
  ∃ t n, ToStr x = Done t ∧ LoadYamlString t [] = Done n ∧ FromStr t = Done x ∧ FromStr (emit n) = Done x.

Section Lemmas.
Context `{YamlLaws} {T : Type} (cv : VarConverter T).
#[local] Existing Instance cv.

Lemma list_node_ok vals : ∀ node,
  sequence_like node → Forall (round_trips cv) vals →
  ∃ node' ns, list_node vals node = Done node' ∧ seq_items node' = seq_items node ++ ns ∧
    (vals ≠ [] → IsSequence node' = true) ∧ mapM (λ n, FromStr (emit n)) ns = Done vals.
Proof.
  induction vals as [|x vals IH]; intros node Hn Hall.
  { exists node, []. rewrite app_nil_r. by split_and!. }
  apply Forall_cons in Hall as [(t & n & Ht & Hl & _ & Hf) Hall]. destruct (seq_push node n Hn) as [Hs Hi].
  destruct (IH (push_back node n) (or_intror Hs) Hall) as (node' & ns & Hr & Hi' & Hseq & Hm).
  exists node', (n :: ns). cbn [list_node]. rewrite Ht. cbn [mbind outcome_bind]. rewrite Hl.
  cbn [mbind outcome_bind]. split; [done|]. split; [by rewrite Hi', Hi, <-app_assoc|]. split.
  - intros _. destruct vals as [|y vals]; [simpl in Hr; by injection Hr as <-|by apply Hseq].
  - cbn [mapM]. rewrite Hf. cbn [mbind outcome_bind]. by rewrite Hm.
Qed.

(** Lists of such values are such values, except the empty one. *)
Lemma list_ToStr_ok vals :
  vals ≠ [] → Forall (round_trips cv) vals →
  ∃ node, list_ToStr vals = Done (emit node) ∧ list_FromStr (emit node) = Done vals.
Proof.
  intros Hne Hall. destruct (list_node_ok vals null_node (or_introl eq_refl) Hall)
    as (node & ns & Hr & Hi & Hseq & Hm).
  exists node. unfold list_ToStr, list_FromStr. rewrite Hr. split; [done|].
  rewrite LoadYamlString_emit. cbn [mbind outcome_bind]. rewrite (Hseq Hne), Hi, seq_null. exact Hm.
Qed.

Lemma list_round_trips vals : vals ≠ [] → Forall (round_trips cv) vals → round_trips list_converter vals.
Proof.
  intros Hne Hall. destruct (list_ToStr_ok vals Hne Hall) as (node & Ht & Hf).
  exists (emit node), node. split_and!; [done|apply LoadYamlString_emit|done|done].
Qed.

Lemma list_empty : ToStr (VarConverter := list_converter) (@nil T) = Done (emit null_node) ∧
  FromStr (VarConverter := list_converter (T := T)) (emit null_node) = mismatched (emit null_node).
Proof.
  split; [done|]. simpl. unfold list_FromStr. rewrite LoadYamlString_emit. cbn [mbind outcome_bind].
  by rewrite (proj1 null_kind).
Qed.

Lemma empty_set_refused `{Countable T} (order : gset T → list T) : (∀ X, order X ≡ₚ elements X) →
  ToStr (VarConverter := set_converter order) ∅ = Done (emit null_node) ∧
  FromStr (VarConverter := set_converter order) (emit null_node) = mismatched (emit null_node).
Proof.
  intros Ho. destruct list_empty as [Ht Hf]. simpl in *.
  assert (order ∅ = []) as -> by (apply Permutation_nil_r; by rewrite Ho, elements_empty).
  split; [exact Ht|]. by rewrite Hf.
Qed.

Lemma empty_map_refused (order : gmap str T → list (str * T)) : (∀ m, order m ≡ₚ map_to_list m) →
  ToStr (VarConverter := map_converter order) ∅ = Done (emit null_node) ∧
  FromStr (VarConverter := map_converter order) (emit null_node) = mismatched (emit null_node).
Proof.
  intros Ho. simpl. assert (order ∅ = []) as -> by (apply Permutation_nil_r; by rewrite Ho, map_to_list_empty).
  split; [done|]. unfold map_FromStr. rewrite LoadYamlString_emit. cbn [mbind outcome_bind].
  by rewrite (proj2 null_kind).
Qed.

Lemma set_round_trips `{Countable T} (order : gset T → list T) X :
  (∀ X, order X ≡ₚ elements X) → X ≠ ∅ → set_Forall (round_trips cv) X → round_trips (set_converter order) X.
Proof.
  intros Ho Hne Hall.
  assert (order X ≠ []) as Hne'.
  { intros He. apply Hne, leibniz_equiv, elements_empty_iff, Permutation_nil. by rewrite <-He, Ho. }
  assert (Forall (round_trips cv) (order X)) as Hall'.
  { rewrite Ho. apply Forall_forall. intros x Hx%elem_of_elements. by apply Hall. }
  destruct (list_ToStr_ok (order X) Hne' Hall') as (node & Ht & Hf).
  exists (emit node), node. simpl. rewrite Hf. cbn [mbind outcome_bind].
  assert (list_to_set (order X) = X) as Hset.
  { apply set_eq. intros x. by rewrite elem_of_list_to_set, Ho, elem_of_elements. }
  rewrite Hset. split_and!; [done|apply LoadYamlString_emit|done|done].
Qed.

Lemma map_node_ok vals : ∀ node,
  map_like node → NoDup vals.*1 → (∀ k, k ∈ vals.*1 → subscript node k = Done None) →
  Forall (λ p, round_trips cv p.2) vals →
  ∃ node' ns, map_node vals node = Done node' ∧
    map_items node' = map_items node ++ zip (scalar_node <$> vals.*1) ns ∧
    (vals ≠ [] → IsMap node' = true) ∧ Forall2 (λ p n, FromStr (emit n) = Done p.2) vals ns.
Proof.
  induction vals as [|[k x] vals IH]; intros node Hn Hnd Hnew Hall.
  { exists node, []. rewrite app_nil_r. by split_and!. }
  apply Forall_cons in Hall as [(t & n & Ht & Hl & _ & Hf) Hall]. simpl in *.
  apply NoDup_cons in Hnd as [Hk Hnd]. destruct (map_set node k n Hn) as (Hm & Hsub & Hi).
  destruct (IH (set_field node k n)) as (node' & ns & Hr & Hi' & Hmap & Hall'); [by right|done| |done|].
  { intros k' Hk'. rewrite Hsub, decide_False by (by intros ->). apply Hnew. by right. }
  exists node', (n :: ns). cbn [map_node]. rewrite Ht. cbn [mbind outcome_bind]. rewrite Hl.
  cbn [mbind outcome_bind]. split; [done|]. split.
  { rewrite Hi', Hi, <-app_assoc by (apply Hnew; by left). done. }
  split; [|by constructor]. intros _. destruct vals as [|y vals]; [simpl in Hr; by injection Hr as <-|by apply Hmap].
Qed.

Lemma map_values_ok vals ns : ∀ m,
  Forall2 (λ p n, FromStr (emit n) = Done p.2) vals ns →
  Forall (λ k, emit (scalar_node k) = k) vals.*1 → NoDup vals.*1 → (∀ k, k ∈ vals.*1 → m !! k = None) →
  map_values (zip (scalar_node <$> vals.*1) ns) m = Done (list_to_map vals ∪ m).
Proof.
  intros m Hall. revert m. induction Hall as [|[k x] n vals ns Hx _ IH]; intros m Hk Hnd Hm; simpl in *.
  { by rewrite (left_id_L ∅ (∪)). }
  apply Forall_cons in Hk as [Hk1 Hk]. apply NoDup_cons in Hnd as [Hni Hnd].
  rewrite Hx. cbn [mbind outcome_bind]. unfold emplace. rewrite Hk1, (Hm k) by by left. rewrite IH; [|done..|].
  - f_equal. rewrite <-insert_union_l, insert_union_r; [done|].
    by apply not_elem_of_list_to_map_1.
  - intros k' Hk'. rewrite lookup_insert_ne; [apply Hm; by right|]. by intros ->.
Qed.

Lemma map_round_trips (order : gmap str T → list (str * T)) m :
  (∀ m, order m ≡ₚ map_to_list m) → m ≠ ∅ →
  map_Forall (λ k x, emit (scalar_node k) = k ∧ round_trips cv x) m → round_trips (map_converter order) m.
Proof.
  intros Ho Hne Hall.
  assert (Forall (λ p, emit (scalar_node p.1) = p.1 ∧ round_trips cv p.2) (order m)) as Hall'.
  { rewrite Ho. apply Forall_forall. intros [k x] Hx%elem_of_map_to_list. by apply Hall. }
  assert (NoDup (order m).*1) as Hnd by (rewrite Ho; apply NoDup_fst_map_to_list).
  destruct (map_node_ok (order m) null_node (or_introl eq_refl) Hnd) as (node & ns & Hr & Hi & Hmap & Hf).
  { intros k _. apply field_null. }
  { eapply Forall_impl; [exact Hall'|]. by intros p []. }
  assert (map_FromStr (emit node) = Done m) as Hread.
  { unfold map_FromStr. rewrite LoadYamlString_emit. cbn [mbind outcome_bind]. rewrite Hmap.
    - rewrite Hi, map_null. simpl. rewrite (map_values_ok (order m) ns ∅ Hf).
      + rewrite (right_id_L ∅ (∪)). f_equal. rewrite <-(list_to_map_to_list m) at 2.
        by apply list_to_map_proper.
      + apply Forall_fmap. eapply Forall_impl; [exact Hall'|]. by intros p [].
      + done.
      + intros k _. apply lookup_empty.
    - intros He. apply Hne, map_to_list_empty_iff, Permutation_nil. by rewrite <-He, Ho. }
  exists (emit node), node. simpl. unfold map_ToStr. rewrite Hr.
  split_and!; [done|apply LoadYamlString_emit|done|done].
Qed.
End Lemmas.

(** ** Numbers *)

Lemma take_digits_all s rest :
  Forall (λ c, is_digit c = true) s → (∀ c, head rest = Some c → is_digit c = false) →
  take_digits (s ++ rest) = s.
Proof.
  induction 1 as [|c s Hc _ IH]; intros Hr; simpl.
  - destruct rest as [|c rest]; [done|]. simpl. by rewrite (Hr c eq_refl).
  - rewrite Hc. f_equal. by apply IH.
Qed.

Lemma digit_head s rest :
  s ≠ [] → Forall (λ c, is_digit c = true) s →
  Http.skip_spaces (s ++ rest) = s ++ rest ∧ read_sign (s ++ rest) = (false, s ++ rest).
Proof.
  intros Hne Hs. destruct s as [|c s]; [done|]. apply Forall_cons in Hs as [Hc _]. simpl.
  assert (Http.isspace c = false) as Hsp.
  { destruct c as [[] [] [] [] [] [] [] []]; done. }
  rewrite Hsp. split; [done|]. rewrite !decide_False; [done|by intros ->..].
Qed.

Lemma read_unsigned_dec max n rest :
  (∀ c, head rest = Some c → is_digit c = false) →
  read_unsigned max (dec n ++ rest) = if (max <? n)%N then None else Some n.
Proof.
  intros Hr. destruct (digit_head (dec n) rest (dec_nonempty n) (dec_digits n)) as [Hsp Hsg].
  unfold read_unsigned. rewrite Hsp, Hsg, take_digits_all by (done || apply dec_digits).
  rewrite decide_False by apply dec_nonempty. by rewrite undec_dec.
Qed.

Lemma read_unsigned_minus max n rest :
  (∀ c, head rest = Some c → is_digit c = false) →
  read_unsigned max ("-"%char :: dec n ++ rest) =
    if (max <? n)%N then None else Some ((max + 1 - n) mod (max + 1))%N.
Proof.
  intros Hr. unfold read_unsigned. change (Http.skip_spaces ("-"%char :: dec n ++ rest)) with ("-"%char :: dec n ++ rest).
  cbn [read_sign]. rewrite decide_True by done. rewrite take_digits_all by (done || apply dec_digits).
  rewrite decide_False by apply dec_nonempty. by rewrite undec_dec.
Qed.

Lemma c_str_app_text s rest : Forall (λ c, c ≠ NUL) s → c_str (s ++ rest) = s ++ c_str rest.
Proof. induction 1 as [|c s Hc _ IH]; [done|]. simpl. rewrite decide_False by done. by rewrite IH. Qed.

Lemma dec_no_nul n : Forall (λ c, c ≠ NUL) (dec n).
Proof. eapply Forall_impl; [apply dec_digits|]. by intros c Hc ->. Qed.

Lemma number_round_trips `{YamlLaws} max n : (n ≤ max)%N → round_trips (unsigned_converter max) n.
Proof.
  intros Hn. assert (FromStr (VarConverter := unsigned_converter max) (dec n) = Done n) as Hf.
  { simpl. rewrite dec_c_str. rewrite <-(app_nil_r (dec n)) at 1. rewrite read_unsigned_dec by done.
    by rewrite (proj2 (N.ltb_ge _ _) Hn). }
  exists (dec n), (scalar_node (dec n)). split; [done|]. split.
  { unfold LoadYamlString. by rewrite dec_c_str, Load_number. }
  split; [exact Hf|]. by rewrite emit_number.
Qed.

(** * Properties *)

(** C36: Containers of values that survive the conversion to a string and
    back survive it too, to any depth: lists, sets in whatever order their
    elements are visited, and maps whose keys are printed as they are.  The empty
    containers are the exception: each is printed as a null node, which is refused when
    it is read. *)
Theorem containers_round_trip `{YamlLaws} {T} (cv : VarConverter T) `{Countable T}
    (set_order : gset T → list T) (map_order : gmap str T → list (str * T)) :
  (∀ X, set_order X ≡ₚ elements X) → (∀ m, map_order m ≡ₚ map_to_list m) →
  (∀ l, l ≠ [] → Forall (round_trips cv) l → round_trips list_converter l) ∧
  (∀ X, X ≠ ∅ → set_Forall (round_trips cv) X → round_trips (set_converter set_order) X) ∧
  (∀ m, m ≠ ∅ → map_Forall (λ k x, emit (scalar_node k) = k ∧ round_trips cv x) m →
     round_trips (map_converter map_order) m) ∧
  let refused {A} (c : VarConverter A) (x : A) := ∃ t, ToStr (VarConverter := c) x = Done t ∧
    FromStr (VarConverter := c) t = Throw (Exn invalid_argument (quoted (s!"Mismatched type: ") t)) in
  refused (list_converter (T := T)) [] ∧ refused (set_converter set_order) ∅ ∧ refused (map_converter map_order) ∅.
Proof.
  intros Hs Hm. split; [|split; [|split; [|split; [|split]]]].
  - intros l. apply list_round_trips.
  - intros X. by apply set_round_trips.
  - intros m. by apply map_round_trips.
  - exists (emit null_node). apply list_empty.
  - exists (emit null_node). by apply empty_set_refused.
  - exists (emit null_node). by apply empty_map_refused.
Qed.

Lemma containers_round_trip_witness :
  round_trips (H := tree_yaml) (list_converter (H := tree_yaml) (VarConverter0 := unsigned_converter uint16_max)) [80%N; 443%N] ∧
  round_trips (H := tree_yaml) (set_converter (H := tree_yaml) (VarConverter0 := unsigned_converter uint16_max) elements)
    ({[80%N]} : gset N).
Proof.
  destruct (containers_round_trip (H := tree_yaml) (H0 := tree_yaml_laws) (unsigned_converter uint16_max) elements map_to_list
    (λ X, Permutation_refl _) (λ m, Permutation_refl _))
    as (Hl & Hs & _).
  split.
  - apply Hl; [done|]. repeat constructor; apply (number_round_trips (H0 := tree_yaml_laws)); vm_compute; discriminate.
  - apply Hs; [set_solver|]. intros n ->%elem_of_singleton. apply (number_round_trips (H0 := tree_yaml_laws)). vm_compute. discriminate.
Defined.

(** C37: Reading an unsigned number takes the digits at the start of the text
    and ignores what follows; a number above the maximum of the type is refused,
    one with a minus sign wraps around, and a text that starts with no digit is
    refused. *)
Theorem numbers_convert max n rest c :
  c_str rest = rest → (∀ c, head rest = Some c → is_digit c = false) →
  is_digit c = false → Http.isspace c = false → c ≠ "-"%char → c ≠ "+"%char → c ≠ NUL →
  let read := FromStr (VarConverter := unsigned_converter max) in
  let refused s := Throw (Exn invalid_argument (quoted (s!"Invalid value: ") s)) in
  read (dec n ++ rest) = (if (max <? n)%N then refused (dec n ++ rest) else Done n) ∧
  read (s!"-" ++ dec n ++ rest) =
    (if (max <? n)%N then refused (s!"-" ++ dec n ++ rest) else Done ((max + 1 - n) mod (max + 1))%N) ∧
  read (c :: rest) = refused (c :: rest).
Proof.
  intros Ht Hr Hc Hsp Hm Hp Hn read refused. unfold read, refused. simpl. split; [|split].
  - rewrite c_str_app_text, Ht, read_unsigned_dec by (done || apply dec_no_nul). by destruct (max <? n)%N.
  - rewrite c_str_app_text, Ht by apply dec_no_nul. rewrite read_unsigned_minus by done. by destruct (max <? n)%N.
  - rewrite decide_False, Ht by done. unfold read_unsigned. simpl. rewrite Hsp. simpl.
    rewrite !decide_False by done. simpl. by rewrite Hc.
Qed.

Lemma numbers_convert_witness :
  FromStr (VarConverter := unsigned_converter uint16_max) (s!"80abc") = Done 80%N ∧
  FromStr (VarConverter := unsigned_converter uint16_max) (s!"-80abc") = Done 65456%N ∧
  FromStr (VarConverter := unsigned_converter uint16_max) (s!"xabc") =
    Throw (Exn invalid_argument (s!"Invalid value: 'xabc'")).
Proof.
  apply (numbers_convert uint16_max 80 (s!"abc") "x"%char); try done. by intros c [= <-].
Defined.
