(* ===== verification/Config.v ===== *)
(** Configuration variables and their container: [Var] and [Config] of
    [include/config.h] and [src/config/config.cpp].  Variables are shared
    objects of various types; a configuration finds them by name. *)

From S2P Require Import Prelude LogField Yaml Convert.

(** * Names *)

(** [std::string::operator<], which compares bytes. *)
Fixpoint str_ltb (a b : str) : bool :=
  match a, b with
  | _, [] => false
  | [], _ :: _ => true
  | x :: a', y :: b' =>
      (nat_of_ascii x <? nat_of_ascii y)%nat || ((nat_of_ascii x =? nat_of_ascii y)%nat && str_ltb a' b')
  end.

Section Members.
Context `{Yaml}.

(** The comparison of [members.merge]: an element of the list that receives
    goes first unless one of the other list is smaller. *)
Definition not_after (x y : str * Node) : Prop := str_ltb y.1 x.1 = false.
#[export] Instance not_after_dec : RelDecision not_after.
Proof. intros x y. unfold not_after. apply _. Defined.

Definition sub_prefix (prefix key : str) : str := if decide (prefix = []) then key else prefix ++ s!"." ++ key.

(** [ExtractMembers]; [fuel] bounds the depth of the node. *)
Fixpoint ExtractMembers (fuel : nat) (node : Node) (prefix : str) : outcome (list (str * Node)) :=
  match fuel with
  | 0 => OutOfFuel
  | S fuel' =>
      let members := [(prefix, node)] in
      if IsMap node then
        fold_left (λ members it,
          members ← members;
          sub_members ← ExtractMembers fuel' it.2 (sub_prefix prefix (emit it.1));
          Done (list_merge not_after members sub_members)) (map_items node) (Done members)
      else Done members
  end.

(** The members of all levels in the order of the document. *)
Fixpoint all_members (fuel : nat) (node : Node) (prefix : str) : list (str * Node) :=
  match fuel with
  | 0 => []
  | S fuel' =>
      (prefix, node) ::
      (if IsMap node
       then map_items node ≫= λ it, all_members fuel' it.2 (sub_prefix prefix (emit it.1))
       else [])
  end.
End Members.

(** * Variables *)

Section Config.
Context `{Yaml}.
(** The types of variables, as [typeid] tells them apart, with their values and
    conversions; the state that listeners change; and the order in which a hash
    map of listeners is visited. *)
Context {Ty : Type} `{!EqDecision Ty} {val : Ty → Type} `{!∀ T, EqDecision (val T)}.
Context (conv : ∀ T, VarConverter (val T)) {W : Type}.
Context (visit : ∀ {A}, gmap N A → list (N * A)).

(** A listener may throw; it works on [W]. *)
Definition OnChange (T : Ty) : Type := val T → val T → M W unit.

Record Var := mkVar {
  name_ : str;
  description_ : str;
  type : Ty;
  val_ : val type;
  listeners_ : gmap N (OnChange type)
}.

Definition Name (v : Var) : str := name_ v.
Definition Description (v : Var) : str := description_ v.

Definition set_val (v : Var) (x : val (type v)) : Var :=
  mkVar (name_ v) (description_ v) (type v) x (listeners_ v).
Definition set_listeners (v : Var) (l : gmap N (OnChange (type v))) : Var :=
  mkVar (name_ v) (description_ v) (type v) (val_ v) l.

(** [vars_] of a configuration, the variables by address, the static counter of
    each [Var<T>::AddListener], what went to [std::cerr], and the world of the
    listeners. *)
Record State := mkState {
  vars_ : gmap str nat;
  objects : gmap nat Var;
  next_key : Ty → N;
  cerr : list str;
  world : W
}.

Definition set_object (p : nat) (v : Var) (s : State) : State :=
  mkState (vars_ s) (<[p := v]> (objects s)) (next_key s) (cerr s) (world s).

Definition object_at (p : nat) : M State Var := s ← get; deref (objects s !! p).

(** A typed pointer dereferenced: the value of a [Var<T>]. *)
Definition cast (T : Ty) (v : Var) : option (val T) :=
  match decide (type v = T) with
  | left e => Some (eq_rect _ val (val_ v) _ e)
  | right _ => None
  end.

Definition GetValue (T : Ty) (p : nat) : M State (val T) := v ← object_at p; deref (cast T v).

(** The lambda of [SetValue]: an exception goes to [std::cerr]. *)
Definition notify {T} (f : OnChange T) (old new : val T) : M State unit := noexcept (
  try_catch (zoom world (λ w s, mkState (vars_ s) (objects s) (next_key s) (cerr s) w) (f old new))
    (λ err, modify (λ s, mkState (vars_ s) (objects s) (next_key s) (cerr s ++ [what err]) (world s)))).

Fixpoint notify_all {T} (fs : list (OnChange T)) (old new : val T) : M State unit :=
  match fs with
  | [] => mret tt
  | f :: fs' => notify f old new;; notify_all fs' old new
  end.

(** [SetValue] of the variable [v] at [p]. *)
Definition SetValue (p : nat) (v : Var) (x : val (type v)) : M State unit :=
  (if decide (x ≠ val_ v) then notify_all (visit _ (listeners_ v)).*2 (val_ v) x else mret tt);;
  modify (set_object p (set_val v x)).

Definition FromString (p : nat) (s : str) : M State unit :=
  v ← object_at p;
  x ← of_outcome (FromStr (VarConverter := conv (type v)) s);
  SetValue p v x.

Definition ToString (p : nat) : M State str :=
  v ← object_at p; of_outcome (no_throw (ToStr (VarConverter := conv (type v)) (val_ v))).

(** The key is a [std::uint64_t]. *)
Definition AddListener (p : nat) (v : Var) (f : OnChange (type v)) : M State N :=
  s ← get;
  let key := next_key s (type v) in
  modify (set_object p (set_listeners v (<[key := f]> (listeners_ v))));;
  modify (λ s, mkState (vars_ s) (objects s)
    (λ T, if decide (T = type v) then wadd key 1 else next_key s T) (cerr s) (world s));;
  mret key.

Definition RemoveListener (p : nat) (key : N) : M State unit :=
  v ← object_at p; modify (set_object p (set_listeners v (delete key (listeners_ v)))).

Definition ClearListeners (p : nat) : M State unit :=
  v ← object_at p; modify (set_object p (set_listeners v ∅)).

(** * Configurations *)

Definition LookupBase (name : str) : M State (option nat) := gets (λ s, vars_ s !! c_str name).

(** [Lookup<T>(name)]: a [dynamic_pointer_cast] that fails is an error. *)
Definition Lookup (T : Ty) (name : str) : M State (option nat) :=
  base ← LookupBase name;
  match base with
  | None => mret None
  | Some p =>
      v ← object_at p;
      if decide (type v = T) then mret (Some p)
      else throw invalid_argument (quoted (s!"Mismatched type: ") name)
  end.

(** The address of a new variable. *)
Definition fresh_object (s : State) : nat := fresh (dom (objects s)).

(** [Lookup<T>(name, default_val, description)]; [emplace] leaves an entry that
    exists. *)
Definition Lookup_or_create (T : Ty) (name : str) (default_val : val T) (description : str) : M State nat :=
  found ← Lookup T name;
  match found with
  | Some p => mret p
  | None =>
      s ← get;
      let p := fresh_object s in
      modify (set_object p (mkVar name description T default_val ∅));;
      modify (λ s, mkState (if decide (is_Some (vars_ s !! name)) then vars_ s else <[name := p]> (vars_ s))
        (objects s) (next_key s) (cerr s) (world s));;
      mret p
  end.

Fixpoint load_members (members : list (str * Node)) : M State unit :=
  match members with
  | [] => mret tt
  | (key, node) :: members' =>
      (if decide (key = []) then mret tt
       else base ← LookupBase key;
            match base with Some p => FromString p (emit node) | None => mret tt end);;
      load_members members'
  end.

Definition LoadYaml (fuel : nat) (root : Node) : M State unit :=
  members ← of_outcome (ExtractMembers fuel root []);
  load_members members.

(** [Visit]; the visitor's exceptions go to [std::cerr]. *)
Fixpoint visit_all (visitor : nat → M State unit) (ps : list nat) : M State unit :=
  match ps with
  | [] => mret tt
  | p :: ps' =>
      noexcept (try_catch (visitor p)
        (λ err, modify (λ s, mkState (vars_ s) (objects s) (next_key s) (cerr s ++ [what err]) (world s))));;
      visit_all visitor ps'
  end.
Definition Visit (order : gmap str nat → list (str * nat)) (visitor : nat → M State unit) : M State unit :=
  s ← get; visit_all visitor (order (vars_ s)).*2.
End Config.

(** * Lemmas: the members of a document *)

Lemma str_ltb_asym a : ∀ b, str_ltb a b = true → str_ltb b a = false.
Proof.
  induction a as [|x a IH]; intros [|y b]; simpl; try done.
  rewrite orb_true_iff, andb_true_iff, Nat.ltb_lt, Nat.eqb_eq. intros [Hlt|[He Hab]].
  - rewrite (proj2 (Nat.ltb_ge _ _)), (proj2 (Nat.eqb_neq _ _)) by lia. done.
  - rewrite He, Nat.ltb_irrefl, Nat.eqb_refl. simpl. by apply IH.
Qed.

Section MembersLemmas.
Context `{Yaml}.

#[local] Instance not_after_total : Total (not_after (H := H)).
Proof.
  intros x y. unfold not_after. destruct (str_ltb y.1 x.1) eqn:Hyx; [|by left]. right. by apply str_ltb_asym.
Qed.

Lemma merge_members (f : Node * Node → outcome (list (str * Node))) g items :
  (∀ it, it ∈ items → ∃ l, f it = Done l ∧ l ≡ₚ g it ∧ Sorted not_after l) → ∀ acc,
  Sorted not_after acc →
  ∃ l, fold_left (λ members it, members ← members; sub ← f it; Done (list_merge not_after members sub))
    items (Done acc) = Done l ∧ l ≡ₚ acc ++ (items ≫= g) ∧ Sorted not_after l.
Proof.
  induction items as [|it items IH]; intros Hf acc Hacc.
  { exists acc. cbn. rewrite app_nil_r. by split_and!. }
  destruct (Hf it) as (sub & Hsub & Hp & Hs); [by left|].
  destruct (IH ltac:(intros; apply Hf; by right) (list_merge not_after acc sub)) as (l & Hl & Hpl & Hsl).
  { apply Sorted_list_merge; [exact not_after_total|exact Hacc|exact Hs]. }
  exists l. cbn [fold_left mbind outcome_bind]. rewrite Hsub. cbn [mbind outcome_bind]. split; [exact Hl|].
  split; [|done]. rewrite Hpl, merge_Permutation, Hp. cbn. by rewrite <-app_assoc.
Qed.

Lemma ExtractMembers_ok (depth : Node → nat) fuel : ∀ n prefix,
  (∀ m it, IsMap m = true → it ∈ map_items m → depth it.2 < depth m) → depth n < fuel →
  ∃ l, ExtractMembers fuel n prefix = Done l ∧ l ≡ₚ all_members fuel n prefix ∧ Sorted not_after l.
Proof.
  induction fuel as [|fuel IH]; intros n prefix Hd Hn; [lia|]. cbn [ExtractMembers all_members].
  destruct (IsMap n) eqn:Hm.
  - destruct (merge_members (λ it, ExtractMembers fuel it.2 (sub_prefix prefix (emit it.1)))
      (λ it, all_members fuel it.2 (sub_prefix prefix (emit it.1))) (map_items n)) with (acc := [(prefix, n)])
      as (l & Hl & Hp & Hs); [|by repeat constructor|by exists l].
    intros it Hit. apply IH; [done|]. pose proof (Hd n it Hm Hit). lia.
  - exists [(prefix, n)]. split_and!; [done|done|by repeat constructor].
Qed.
End MembersLemmas.

(** * Lemmas: variables *)

Section VarLemmas.
Context `{Yaml} {Ty : Type} `{!EqDecision Ty} {val : Ty → Type} `{!∀ T, EqDecision (val T)}.
Context (conv : ∀ T, VarConverter (val T)) {W : Type} (visit : ∀ {A}, gmap N A → list (N * A)).
Abbreviation Var := (Var (val := val) (W := W)).
Abbreviation State := (State (val := val) (W := W)).
Implicit Types (v : Var) (s : State).

(** A listener that returns or throws. *)
Definition tame {T} (f : OnChange (val := val) (W := W) T) : Prop :=
  ∀ x y w, (∃ w', f x y w = (Done tt, w')) ∨ ∃ e w', f x y w = (Throw e, w').

(** What a listener leaves: the new world and the message of its exception. *)
Definition heard {T} (x y : val T) (a : list str * W) (f : OnChange (val := val) (W := W) T) : list str * W :=
  match f x y a.2 with
  | (Throw e, w) => (a.1 ++ [what e], w)
  | (_, w) => (a.1, w)
  end.

Definition with_outer (a : list str * W) s : State :=
  mkState (vars_ s) (objects s) (next_key s) a.1 a.2.

Lemma notify_done {T} (f : OnChange T) x y s w' :
  f x y (world s) = (Done tt, w') → notify f x y s = (Done tt, with_outer (cerr s, w') s).
Proof. intros Hf. unfold notify, noexcept, try_catch, zoom. by rewrite Hf. Qed.

Lemma notify_all_ok {T} (fs : list (OnChange T)) x y s :
  Forall tame fs →
  notify_all fs x y s = (Done tt, with_outer (fold_left (heard x y) fs (cerr s, world s)) s).
Proof.
  intros Hfs. revert s. induction Hfs as [|f fs Hf _ IH]; intros s; [by destruct s|].
  cbn [notify_all fold_left].
  assert (notify f x y s = (Done tt, with_outer (heard x y (cerr s, world s) f) s)) as Hn.
  { unfold notify, noexcept, try_catch, zoom, heard. simpl.
    destruct (Hf x y (world s)) as [[w' ->]|(e & w' & ->)]; by destruct s. }
  mrun Hn. rewrite IH. unfold with_outer at 2 3. simpl. by rewrite <-surjective_pairing.
Qed.

(** The state after [SetValue]. *)
Definition after_set p v (x : val (type v)) s : State :=
  set_object p (set_val v x)
    (if decide (x ≠ val_ v)
     then with_outer (fold_left (heard (val_ v) x) (visit _ (listeners_ v)).*2 (cerr s, world s)) s else s).

Definition tame_var v : Prop := Forall tame (visit _ (listeners_ v)).*2.

Lemma SetValue_ok p v x s : tame_var v → SetValue visit p v x s = (Done tt, after_set p v x s).
Proof.
  intros Hv. unfold SetValue, after_set. case_decide.
  - by mrun (notify_all_ok (visit _ (listeners_ v)).*2 (val_ v) x s Hv).
  - by mstep.
Qed.

Lemma FromString_ok p v x t s :
  objects s !! p = Some v → tame_var v → FromStr (VarConverter := conv (type v)) t = Done x →
  FromString conv visit p t s = (Done tt, after_set p v x s).
Proof.
  intros Hp Hv Hx. unfold FromString, object_at.
  rewrite (bind_done _ _ s v s) by (mstep; by rewrite Hp).
  rewrite (bind_done _ _ s x s) by (unfold of_outcome; by rewrite Hx). by apply SetValue_ok.
Qed.

Lemma after_set_vars p v x s : vars_ (after_set p v x s) = vars_ s.
Proof. unfold after_set. by case_decide. Qed.

Lemma after_set_objects p v x s : objects (after_set p v x s) = <[p := set_val v x]> (objects s).
Proof. unfold after_set. by case_decide. Qed.

(** Every name leads to a variable of that name. *)
Definition config_ok s : Prop :=
  ∀ name p, vars_ s !! name = Some p → ∃ v, objects s !! p = Some v ∧ name_ v = name.
Definition tame_state s : Prop := ∀ p v, objects s !! p = Some v → tame_var v.

(** The text of a member can be read by the variable of its name, if any. *)
Definition converts s (m : str * Node) : Prop :=
  ∀ p v, m.1 ≠ [] → vars_ s !! c_str m.1 = Some p → objects s !! p = Some v →
    ∃ x, FromStr (VarConverter := conv (type v)) (emit m.2) = Done x.

(** The variable that a member names, if any, has listeners that return or throw;
    or has none. *)
Definition tame_member s (m : str * Node) : Prop :=
  ∀ p v, m.1 ≠ [] → vars_ s !! c_str m.1 = Some p → objects s !! p = Some v → tame_var v.
Definition quiet_member s (m : str * Node) : Prop :=
  ∀ p v, m.1 ≠ [] → vars_ s !! c_str m.1 = Some p → objects s !! p = Some v → (visit _ (listeners_ v)).*2 = [].

(** What the members, one after the other, make of the variable at [p]. *)
Definition assign1 s p v (m : str * Node) : Var :=
  if decide (m.1 ≠ [] ∧ vars_ s !! c_str m.1 = Some p)
  then match FromStr (VarConverter := conv (type v)) (emit m.2) with Done x => set_val v x | _ => v end
  else v.
Definition assign s p (ms : list (str * Node)) v : Var := fold_left (assign1 s p) ms v.

Lemma assign1_type s p v m : type (assign1 s p v m) = type v ∧ name_ (assign1 s p v m) = name_ v.
Proof. unfold assign1. case_decide; [|done]. by destruct (FromStr _). Qed.

Lemma assign1_listeners s p v m :
  (tame_var v → tame_var (assign1 s p v m)) ∧
  ((visit _ (listeners_ v)).*2 = [] → (visit _ (listeners_ (assign1 s p v m))).*2 = []).
Proof. unfold assign1. case_decide; [|done]. by destruct (FromStr _). Qed.

Lemma converts_type v v' t :
  type v' = type v → (∃ x, FromStr (VarConverter := conv (type v)) t = Done x) →
  ∃ x, FromStr (VarConverter := conv (type v')) t = Done x.
Proof. by intros ->. Qed.

Lemma fmap_id {A} (f : A → A) (o : option A) : (∀ x, f x = x) → f <$> o = o.
Proof. intros Hf. destruct o; [|done]. simpl. by rewrite Hf. Qed.

(** What a member needs holds in [s'] when it does in [s]. *)
Definition carries s s' : Prop := ∀ m,
  (converts s m → converts s' m) ∧ (tame_member s m → tame_member s' m) ∧ (quiet_member s m → quiet_member s' m).

Lemma assign_carries s s' m :
  vars_ s' = vars_ s → (∀ q, objects s' !! q = (λ v, assign1 s q v m) <$> objects s !! q) → carries s s'.
Proof.
  intros Hvars Hobj m'.
  assert (∀ q u, objects s' !! q = Some u → ∃ u', objects s !! q = Some u' ∧ u = assign1 s q u' m) as Hback.
  { intros q u. rewrite Hobj. destruct (objects s !! q) as [u'|]; [|done]. intros [= <-]. by exists u'. }
  split; [|split]; intros Hm' q u Hk Hq (u' & Hu & ->)%Hback; rewrite Hvars in Hq.
  - eapply converts_type; [apply assign1_type|]. by apply (Hm' q).
  - apply assign1_listeners. by apply (Hm' q).
  - apply assign1_listeners. by apply (Hm' q).
Qed.

Lemma assign_config_ok s s' m :
  vars_ s' = vars_ s → (∀ q, objects s' !! q = (λ v, assign1 s q v m) <$> objects s !! q) →
  config_ok s → config_ok s'.
Proof.
  intros Hvars Hobj Hok name q. rewrite Hvars. intros Hq. destruct (Hok _ _ Hq) as (u & Hu & Hn).
  eexists. rewrite Hobj, Hu. split; [reflexivity|]. by rewrite (proj2 (assign1_type s q u m)).
Qed.

(** One member. *)
Lemma load_one m ms s :
  config_ok s → tame_member s m → converts s m →
  ∃ s', load_members conv visit (m :: ms) s = load_members conv visit ms s' ∧
    vars_ s' = vars_ s ∧ (∀ p, objects s' !! p = (λ v, assign1 s p v m) <$> objects s !! p) ∧
    (quiet_member s m → world s' = world s ∧ cerr s' = cerr s).
Proof.
  intros Hok Ht Hc. destruct m as [key node]. cbn [load_members].
  destruct (decide (key ≠ [] ∧ is_Some (vars_ s !! c_str key))) as [[Hk [p Hp]]|Hno].
  - rewrite decide_False by done. destruct (Hok _ _ Hp) as (v & Hv & Hname).
    destruct (Hc p v Hk Hp Hv) as [x Hx]. cbn [snd] in Hx. pose proof (Ht p v Hk Hp Hv) as Htv.
    exists (after_set p v x s). split; [|split; [apply after_set_vars|split]].
    { rewrite (bind_done _ _ s tt (after_set p v x s)); [done|]. unfold LookupBase. mstep. rewrite Hp.
      by apply FromString_ok. }
    + intros q. rewrite after_set_objects. unfold assign1. simpl. destruct (decide (q = p)) as [->|Hq].
      * rewrite lookup_insert_eq, Hv. simpl. by rewrite decide_True, Hx.
      * rewrite lookup_insert_ne by done. symmetry. apply fmap_id. intros u. rewrite decide_False; [done|].
        rewrite Hp. by intros [_ [= ->]].
    + intros Hq. unfold after_set. rewrite (Hq p v Hk Hp Hv). by case_decide.
  - exists s. split; [|split; [done|split; [|done]]].
    + rewrite (bind_done _ _ s tt s); [done|]. destruct (decide (key = [])) as [|Hk]; [done|].
      unfold LookupBase. mstep. destruct (vars_ s !! c_str key) as [p|]; [|done].
      destruct Hno. split; [done|by eexists].
    + intros p. symmetry. apply fmap_id. intros v. unfold assign1. simpl. rewrite decide_False; [done|].
      intros [Hk Hp]. apply Hno. split; [done|by eexists].
Qed.

Lemma assign_cons s p m ms v : assign s p (m :: ms) v = assign s p ms (assign1 s p v m).
Proof. done. Qed.

Lemma assign_vars s s' p ms v : vars_ s' = vars_ s → assign s' p ms v = assign s p ms v.
Proof.
  intros Hv. revert v. induction ms as [|m ms IH]; intros v; [done|]. rewrite !assign_cons, IH.
  unfold assign1. by rewrite Hv.
Qed.

Lemma load_members_ok ms rest : ∀ s,
  config_ok s → Forall (tame_member s) ms → Forall (converts s) ms →
  ∃ s', load_members conv visit (ms ++ rest) s = load_members conv visit rest s' ∧
    vars_ s' = vars_ s ∧ config_ok s' ∧ (∀ p, objects s' !! p = assign s p ms <$> objects s !! p) ∧
    carries s s' ∧ (Forall (quiet_member s) ms → world s' = world s ∧ cerr s' = cerr s).
Proof.
  induction ms as [|m ms IH]; intros s Hok Ht Hms.
  { exists s. split; [done|split; [done|split; [done|split; [|split; [|done]]]]]; [|by intros m].
    intros p. symmetry. by apply fmap_id. }
  apply Forall_cons in Hms as [Hm Hms]. apply Forall_cons in Ht as [Htm Ht].
  destruct (load_one m (ms ++ rest) s Hok Htm Hm) as (s1 & H1 & Hv1 & Ho1 & Hw1).
  pose proof (assign_carries s s1 m Hv1 Ho1) as Hc1.
  destruct (IH s1) as (s2 & H2 & Hv2 & Hok2 & Ho2 & Hc2 & Hw2).
  { by apply (assign_config_ok s s1 m). }
  { eapply Forall_impl; [exact Ht|]. intros m' Hm'. by apply Hc1. }
  { eapply Forall_impl; [exact Hms|]. intros m' Hm'. by apply Hc1. }
  exists s2. split; [cbn [app]; rewrite H1; exact H2|]. split; [congruence|]. split; [done|]. split; [|split].
  - intros p. rewrite Ho2, Ho1. destruct (objects s !! p) as [v|]; [|done]. simpl.
    f_equal. exact (assign_vars s s1 p ms _ Hv1).
  - intros m'. destruct (Hc1 m') as (A1 & A2 & A3), (Hc2 m') as (B1 & B2 & B3). by split_and!; auto.
  - intros [Hq Hqs]%Forall_cons. destruct (Hw1 Hq) as [<- <-]. apply Hw2.
    eapply Forall_impl; [exact Hqs|]. intros m' Hm'. by apply Hc1.
Qed.

Lemma tame_members s ms : tame_state s → Forall (tame_member s) ms.
Proof. intros Ht. apply Forall_forall. intros m _ p v _ _ Hv. by apply (Ht p). Qed.

(** A member that cannot be converted. *)
Lemma load_failing key node ms s p v e :
  key ≠ [] → vars_ s !! c_str key = Some p → objects s !! p = Some v →
  FromStr (VarConverter := conv (type v)) (emit node) = Throw e →
  load_members conv visit ((key, node) :: ms) s = (Throw e, s).
Proof.
  intros Hk Hp Hv He. cbn [load_members]. rewrite decide_False by done.
  rewrite (bind_throw _ _ s e s); [done|]. unfold LookupBase. mstep. rewrite Hp.
  unfold FromString, object_at. rewrite (bind_done _ _ s v s) by (mstep; by rewrite Hv).
  rewrite (bind_throw _ _ s e s); [done|]. unfold of_outcome. by rewrite He.
Qed.
End VarLemmas.

(** * Properties *)

(** C29: [ExtractMembers] ends on every document of finite depth.  It lists the
    members of all levels, each under the keys that lead to it joined by dots, sorted
    by name, whatever the order in the document; so the lists that it merges are
    sorted, as [std::list::merge] demands. *)
Theorem members_extracted `{Yaml} (depth : Node → nat) fuel node prefix :
  (∀ m it, IsMap m = true → it ∈ map_items m → depth it.2 < depth m) → depth node < fuel →
  ∃ members, ExtractMembers fuel node prefix = Done members ∧
    members ≡ₚ all_members fuel node prefix ∧ Sorted not_after members.
Proof. apply ExtractMembers_ok. Qed.

Section Properties.
Context `{Yaml} {Ty : Type} `{!EqDecision Ty} {val : Ty → Type} `{!∀ T, EqDecision (val T)}.
Context (conv : ∀ T, VarConverter (val T)) {W : Type} (visit : ∀ {A}, gmap N A → list (N * A)).
Abbreviation Var := (Var (val := val) (W := W)).
Abbreviation State := (State (val := val) (W := W)).
Implicit Types (v : Var) (s : State).

(** [SetValue] changes the value, and calls each listener of the variable
    once with the old and the new value if they differ, and none if they are equal.
    A listener that throws keeps none of the others from being called, and its
    message is printed. *)
Theorem set_value_notifies p v x s :
  tame_var visit v → ∃ s', SetValue visit p v x s = (Done tt, s') ∧
    objects s' = <[p := set_val v x]> (objects s) ∧ vars_ s' = vars_ s ∧
    (x = val_ v → world s' = world s ∧ cerr s' = cerr s) ∧
    (x ≠ val_ v → (cerr s', world s') =
       fold_left (heard (val_ v) x) (visit _ (listeners_ v)).*2 (cerr s, world s)).
Proof.
  intros Hv. exists (after_set visit p v x s). split; [by apply SetValue_ok|].
  split; [apply after_set_objects|]. split; [apply after_set_vars|]. unfold after_set. split.
  - intros ->. rewrite decide_False by (by intros []). done.
  - intros Hne. rewrite decide_True by done. simpl. by rewrite <-surjective_pairing.
Qed.

(** C30: A variable is found by its name and its type.  A new one starts with the
    default value and is entered under its name; looking it up again gives the same
    object, whatever default is named, and looking it up as another type is an
    error that changes nothing. *)
Theorem variable_lookup T name d description s :
  config_ok s → c_str name = name →
  match vars_ s !! name with
  | Some p => ∃ v, objects s !! p = Some v ∧
      Lookup_or_create T name d description s =
        (if decide (type v = T) then Done p else Throw (Exn invalid_argument (quoted (s!"Mismatched type: ") name)), s)
  | None => ∃ p s', Lookup_or_create T name d description s = (Done p, s') ∧ config_ok s' ∧
      objects s !! p = None ∧ vars_ s' = <[name := p]> (vars_ s) ∧ GetValue T p s' = (Done d, s') ∧
      (∀ q, q ≠ p → objects s' !! q = objects s !! q) ∧
      (∀ T' d' description', Lookup_or_create T' name d' description' s' =
         (if decide (T = T') then Done p else Throw (Exn invalid_argument (quoted (s!"Mismatched type: ") name)), s'))
  end.
Proof.
  intros Hok Hn.
  assert (∀ T d description s p v, vars_ s !! name = Some p → objects s !! p = Some v →
    Lookup_or_create T name d description s =
      (if decide (type v = T) then Done p else Throw (Exn invalid_argument (quoted (s!"Mismatched type: ") name)), s))
    as Hfound.
  { intros T' d' desc' s' p v Hp Hv. unfold Lookup_or_create.
    assert (Lookup T' name s' = (if decide (type v = T') then Done (Some p) else
      Throw (Exn invalid_argument (quoted (s!"Mismatched type: ") name)), s')) as Hl.
    { unfold Lookup, LookupBase. mstep. rewrite Hn, Hp. unfold object_at.
      rewrite (bind_done _ _ s' v s') by (mstep; by rewrite Hv). by case_decide. }
    case_decide; [by mrun Hl|by rewrite (bind_throw _ _ _ _ _ Hl)]. }
  destruct (vars_ s !! name) as [p|] eqn:Hp.
  { destruct (Hok _ _ Hp) as (v & Hv & _). exists v. split; [done|]. by apply Hfound. }
  set (p := fresh_object s). set (v := mkVar name description T d ∅ : Var).
  set (s' := mkState (<[name := p]> (vars_ s)) (<[p := v]> (objects s)) (next_key s) (cerr s) (world s)).
  assert (objects s !! p = None) as Hfresh by (apply not_elem_of_dom, is_fresh).
  assert (objects s' !! p = Some v) as Hv by (simpl; by rewrite lookup_insert_eq).
  exists p, s'. split; [|split; [|split; [done|split; [done|split; [|split]]]]].
  - unfold Lookup_or_create.
    assert (Lookup T name s = (Done None, s)) as Hl by (unfold Lookup, LookupBase; mstep; by rewrite Hn, Hp).
    mrun Hl. do 3 mstep. fold p. simpl. rewrite decide_False by (rewrite Hp; by intros []). done.
  - intros name' q Hq. simpl in Hq |- *. apply lookup_insert_Some in Hq as [[<- <-]|[Hne Hq]].
    + exists v. by rewrite lookup_insert_eq.
    + destruct (Hok _ _ Hq) as (u & Hu & Hnu). exists u. rewrite lookup_insert_ne by congruence. done.
  - unfold GetValue, object_at. rewrite (bind_done _ _ s' v s') by (mstep; by rewrite Hv).
    unfold cast. simpl. destruct (decide (T = T)) as [e|]; [|done]. by rewrite (proof_irrel e eq_refl).
  - intros q Hq. simpl. by rewrite lookup_insert_ne.
  - intros T' d' desc'. rewrite (Hfound T' d' desc' s' p v); [done| |done]. simpl. by rewrite lookup_insert_eq.
Qed.

(** C16: [LoadYaml] gives every variable that the document names the value its
    text stands for and leaves the others; it creates no variable.  At the first
    member, in the order of the names, whose text cannot be converted it throws the
    error of the conversion; the variables before it keep their new values and those
    behind it their old ones. *)
Theorem yaml_loaded fuel root members s :
  config_ok s → tame_state visit s → ExtractMembers fuel root [] = Done members →
  (Forall (converts conv s) members → ∃ s', LoadYaml conv visit fuel root s = (Done tt, s') ∧
     vars_ s' = vars_ s ∧ config_ok s' ∧ ∀ p, objects s' !! p = assign conv s p members <$> objects s !! p) ∧
  (∀ ms1 key node ms2 p v e, members = ms1 ++ (key, node) :: ms2 → Forall (converts conv s) ms1 →
     key ≠ [] → vars_ s !! c_str key = Some p → objects s !! p = Some v →
     FromStr (VarConverter := conv (type v)) (emit node) = Throw e →
     (∀ m, m ∈ ms1 → m.1 ≠ [] → vars_ s !! c_str m.1 ≠ Some p) →
     ∃ s', LoadYaml conv visit fuel root s = (Throw e, s') ∧ vars_ s' = vars_ s ∧ config_ok s' ∧
       ∀ p, objects s' !! p = assign conv s p ms1 <$> objects s !! p).
Proof.
  intros Hok Ht Hm.
  assert (LoadYaml conv visit fuel root s = load_members conv visit members s) as Hload.
  { unfold LoadYaml. by rewrite (bind_done _ _ s members s) by (unfold of_outcome; by rewrite Hm). }
  rewrite Hload. split.
  - intros Hc. destruct (load_members_ok conv visit members [] s Hok (tame_members visit s _ Ht) Hc)
      as (s' & Hr & Hv & Hok' & Ho & _).
    rewrite app_nil_r in Hr. exists s'. by split_and!.
  - intros ms1 key node ms2 p v e -> Hc Hk Hp Hpv He Hother.
    destruct (load_members_ok conv visit ms1 ((key, node) :: ms2) s Hok (tame_members visit s _ Ht) Hc)
      as (s' & Hr & Hv & Hok' & Ho & _).
    exists s'. split; [|by split_and!]. rewrite Hr. apply (load_failing conv visit key node ms2 s' p v e);
      [done|by rewrite Hv| |done].
    rewrite Ho, Hpv. simpl. f_equal. clear -Hother. revert v.
    induction ms1 as [|m ms1 IH]; intros v; [done|]. rewrite assign_cons.
    assert (assign1 conv s p v m = v) as ->.
    { unfold assign1. rewrite decide_False; [done|]. intros [H1 H2]. by apply (Hother m (list_elem_of_here _ _)). }
    apply IH. intros m' Hin. apply Hother. by right.
Qed.
End Properties.

(** * Witnesses *)

Fixpoint tree_depth (t : tree) : nat :=
  match t with GenLeaf _ => 0 | GenNode _ l => S (list_max (map tree_depth l)) end.

Lemma pairs_elem {A} (l : list A) p : p ∈ pairs l → p.2 ∈ l.
Proof.
  induction l as [|x|x y l IH] using list_pair_ind; simpl; [by intros ?%elem_of_nil..|].
  intros [->|Hin]%elem_of_cons; [right; by left|]. right. right. by apply IH.
Qed.

Lemma tree_depth_items (m : tree) it : IsMap (Yaml := tree_yaml) m = true →
  it ∈ map_items (Yaml := tree_yaml) m → tree_depth it.2 < tree_depth m.
Proof.
  intros _ Hit. destruct m as [s|n l]; [by apply elem_of_nil in Hit|]. simpl in *.
  apply pairs_elem in Hit. case_decide; [|by apply elem_of_nil in Hit].
  assert (tree_depth it.2 ≤ list_max (map tree_depth l)); [|lia].
  pose proof (proj1 (list_max_le (map tree_depth l) _) (Nat.le_refl _)) as Hall.
  rewrite Forall_forall in Hall. apply Hall. apply list_elem_of_fmap. by eexists.
Qed.

Abbreviation leaf x := (GenLeaf (s!x) : tree).
Definition demo_root : tree :=
  GenNode 1 [leaf "server"; GenNode 1 [leaf "port"; leaf "80"; leaf "name"; leaf "echo"]; leaf "a"; leaf "x"].

Lemma members_extracted_witness : ∃ members,
  ExtractMembers (H := tree_yaml) 3 demo_root [] = Done members ∧
  members.*1 = [[]; s!"a"; s!"server"; s!"server.name"; s!"server.port"].
Proof.
  destruct (members_extracted (H := tree_yaml) tree_depth 3 demo_root [] tree_depth_items) as (ms & Hms & _).
  { vm_compute. lia. }
  exists ms. split; [exact Hms|]. vm_compute in Hms. injection Hms as <-. vm_compute. reflexivity.
Defined.

(** Variables that hold a number or a text. *)
Definition demo_val (number : bool) : Type := if number then N else str.
#[local] Instance demo_val_eq T : EqDecision (demo_val T).
Proof. destruct T; apply _. Defined.
Definition demo_conv (number : bool) : VarConverter (demo_val number) :=
  match number with true => unsigned_converter uint16_max | false => string_converter end.
Definition demo_visit {A} (m : gmap N A) : list (N * A) := map_to_list m.

Abbreviation DemoVar := (Var (val := demo_val) (W := list N)).

(** It reports the new value; the second one throws. *)
Definition report : OnChange (val := demo_val) (W := list N) true := λ _ new w, (Done tt, w ++ [new]).
Definition refuse : OnChange (val := demo_val) (W := list N) true := λ _ _ w, (Throw (Exn runtime_error (s!"no")), w).

Definition port_var : DemoVar := mkVar (val := demo_val) (s!"server.port") [] true 10000%N {[0%N := report; 1%N := refuse]}.
Definition name_var : DemoVar := mkVar (val := demo_val) (s!"server.name") [] false (s!"none") ∅.
Definition demo_state : State (val := demo_val) (W := list N) :=
  mkState {[s!"server.port" := 0; s!"server.name" := 1]} {[0 := port_var; 1 := name_var]} (λ _, 0%N) [] [].

Lemma demo_tame : tame_state (@demo_visit) demo_state.
Proof.
  intros p v Hp. apply Forall_forall. intros f Hf. simpl in Hp.
  apply lookup_insert_Some in Hp as [[_ <-]|[_ [_ <-]%lookup_singleton_Some]].
  - apply list_elem_of_fmap in Hf as ([k g] & -> & Hin%elem_of_map_to_list).
    simpl in Hin. apply lookup_insert_Some in Hin as [[_ <-]|[_ [_ <-]%lookup_singleton_Some]]; intros x y w.
    + left. by eexists.
    + right. by eexists _, _.
  - apply list_elem_of_fmap in Hf as ([k g] & -> & Hin%elem_of_map_to_list). done.
Qed.

Lemma demo_config_ok : config_ok demo_state.
Proof.
  intros name p Hp. simpl in Hp. apply lookup_insert_Some in Hp as [[<- <-]|[_ [<- <-]%lookup_singleton_Some]].
  - by exists port_var.
  - by exists name_var.
Qed.

Lemma set_value_notifies_witness : ∃ s',
  SetValue (@demo_visit) 0 port_var 80%N demo_state = (Done tt, s') ∧ world s' = [80%N] ∧ cerr s' = [s!"no"].
Proof.
  destruct (set_value_notifies (@demo_visit) 0 port_var 80%N demo_state) as (s' & Hr & _ & _ & _ & Hne).
  { by apply (demo_tame 0). }
  exists s'. split; [exact Hr|]. assert ((cerr s', world s') = ([s!"no"], [80%N])) as [= -> ->]; [|done].
  rewrite Hne by done. reflexivity.
Defined.

Lemma variable_lookup_witness :
  Lookup_or_create (val := demo_val) true (s!"server.port") 1%N [] demo_state = (Done 0, demo_state) ∧
  Lookup_or_create (val := demo_val) false (s!"server.port") (s!"") [] demo_state =
    (Throw (Exn invalid_argument (s!"Mismatched type: 'server.port'")), demo_state).
Proof.
  split.
  - destruct (variable_lookup (val := demo_val) true (s!"server.port") 1%N [] demo_state demo_config_ok eq_refl)
      as (v & [= <-] & H). exact H.
  - destruct (variable_lookup (val := demo_val) false (s!"server.port") (s!"") [] demo_state demo_config_ok eq_refl)
      as (v & [= <-] & H). exact H.
Defined.

(** The text ["80"] sets the port; a name that is no variable's is skipped. *)
Lemma yaml_loaded_witness : ∃ s',
  LoadYaml (H := tree_yaml) demo_conv (@demo_visit) 3 demo_root demo_state = (Done tt, s') ∧
  GetValue true 0 s' = (Done 80%N, s') ∧ GetValue false 1 s' = (Done (s!"echo"), s').
Proof.
  destruct (members_extracted (H := tree_yaml) tree_depth 3 demo_root [] tree_depth_items) as (ms & Hms & _).
  { vm_compute. lia. }
  destruct (proj1 (yaml_loaded (H := tree_yaml) demo_conv (@demo_visit) 3 demo_root ms demo_state demo_config_ok demo_tame Hms))
    as (s' & Hr & _ & _ & Ho).
  - vm_compute in Hms. injection Hms as <-.
    repeat constructor; intros p v Hk Hp Hv; try done.
    + vm_compute in Hp. injection Hp as <-. injection Hv as <-. by eexists.
    + vm_compute in Hp. injection Hp as <-. injection Hv as <-. by eexists.
  - vm_compute in Hms. injection Hms as <-. exists s'. split; [exact Hr|].
    pose proof (Ho 0) as H0. pose proof (Ho 1) as H1. unfold GetValue, object_at.
    split; [rewrite (bind_done _ _ s' _ s') by (mstep; rewrite H0; reflexivity)|
            rewrite (bind_done _ _ s' _ s') by (mstep; rewrite H1; reflexivity)]; vm_compute; reflexivity.
Defined.
