(* ===== verification/VarLocks.v ===== *)
(** A configuration variable used by several threads at once
    ([include/config.h]): [GetValue] and [SetValue] of [Var] with their locks.
    [SetValue] tells the listeners under a shared lock, gives it back, and writes
    under a unique lock. *)

From S2P Require Import Prelude.

Section VarLocks.
Context {T : Type} `{!EqDecision T}.

(** * Threads *)

Inductive Op := Get | Set_ (val : T).

(** Where a thread is in its first call: before it, with the shared lock, between
    both locks of [SetValue], with the unique lock. *)
Inductive Point := Before | Sharing | Between | Alone.
#[export] Instance Point_eq_dec : EqDecision Point.
Proof. solve_decision. Defined.
Record Thread := mkThread { calls : list Op; point : Point }.

(** The member [val_], what the listeners have been told, in order, and what the
    threads have read.  The mutex needs no state of its own: who holds it can be
    seen from the threads. *)
Record Var := mkVar { val_ : T; told : list (T * T); seen : list T; threads : list Thread }.

Definition shares (t : Thread) : Prop := point t = Sharing.
Definition is_alone (t : Thread) : Prop := point t = Alone.

Definition set_thread (i : nat) (t : Thread) (v : Var) : Var := mkVar (val_ v) (told v) (seen v) (<[i := t]> (threads v)).

(** [std::shared_mutex]: the shared lock can be had unless another thread has the
    unique one, the unique lock only if nobody has any. *)
Inductive step : Var → Var → Prop :=
| step_share i o cs v :
    threads v !! i = Some (mkThread (o :: cs) Before) → Forall (λ t, ¬ is_alone t) (threads v) →
    step v (set_thread i (mkThread (o :: cs) Sharing) v)
| step_get i cs v :
    threads v !! i = Some (mkThread (Get :: cs) Sharing) →
    step v (mkVar (val_ v) (told v) (seen v ++ [val_ v]) (<[i := mkThread cs Before]> (threads v)))
| step_tell i x cs v :
    threads v !! i = Some (mkThread (Set_ x :: cs) Sharing) →
    step v (mkVar (val_ v) (told v ++ (if decide (x ≠ val_ v) then [(val_ v, x)] else [])) (seen v)
             (<[i := mkThread (Set_ x :: cs) Between]> (threads v)))
| step_own i o cs v :
    threads v !! i = Some (mkThread (o :: cs) Between) → Forall (λ t, ¬ is_alone t ∧ ¬ shares t) (threads v) →
    step v (set_thread i (mkThread (o :: cs) Alone) v)
| step_write i x cs v :
    threads v !! i = Some (mkThread (Set_ x :: cs) Alone) →
    step v (mkVar x (told v) (seen v) (<[i := mkThread cs Before]> (threads v))).

Definition start (x : T) (programs : list (list Op)) : Var := mkVar x [] [] ((λ cs, mkThread cs Before) <$> programs).

(** * The invariant *)

(** A thread with the unique lock is alone; only [SetValue] gets that far. *)
Definition well_placed (t : Thread) : Prop :=
  match point t with
  | Before => True
  | Sharing => calls t ≠ []
  | Between | Alone => ∃ x cs, calls t = Set_ x :: cs
  end.

Definition locked (v : Var) : Prop :=
  Forall well_placed (threads v) ∧
  ∀ i j t u, threads v !! i = Some t → threads v !! j = Some u → is_alone t → i ≠ j → ¬ is_alone u ∧ ¬ shares u.

(** The values that the threads have set or will set. *)
Definition sets (o : Op) : list T := match o with Get => [] | Set_ x => [x] end.
Definition all_sets (ts : list Thread) : list T := ts ≫= λ t, calls t ≫= sets.

Lemma locked_insert v i t' w :
  locked v → threads w = <[i := t']> (threads v) → well_placed t' →
  (is_alone t' → ∀ j u, j ≠ i → threads v !! j = Some u → ¬ is_alone u ∧ ¬ shares u) →
  (is_alone t' ∨ shares t' → ∀ j u, j ≠ i → threads v !! j = Some u → ¬ is_alone u) → locked w.
Proof.
  intros [Hw Hx] Ht Hp Ha Hs. unfold locked. rewrite Ht. split; [by apply Forall_insert|].
  intros j k u z Hj Hk Hu Hjk.
  apply list_lookup_insert_Some in Hj as [(<- & <- & _)|[Hij Hj]]; apply list_lookup_insert_Some in Hk as [(<- & <- & _)|[Hik Hk]]; try done.
  - by apply (Ha Hu k).
  - split; intros Hz; by apply (Hs ltac:(auto) j u).
  - by apply (Hx j k u z).
Qed.

Lemma step_locked v w : step v w → locked v → locked w.
Proof.
  intros Hst Hv. pose proof Hv as [Hw Hx].
  destruct Hst as [i o cs v Hi Hf|i cs v Hi|i x cs v Hi|i o cs v Hi Hf|i x cs v Hi];
    (eapply locked_insert; [exact Hv|reflexivity| | |]); simpl; try done; try by intros [].
  - intros _ j u _ Hj. by apply (Forall_lookup_1 _ _ _ _ Hf Hj).
  - by eexists _, _.
  - pose proof (Forall_lookup_1 _ _ _ _ Hw Hi) as (x & cs' & Heq). simpl in Heq. simplify_eq. by eexists _, _.
  - intros _ j u _ Hj. by apply (Forall_lookup_1 _ _ _ _ Hf Hj).
  - intros _ j u _ Hj. by apply (Forall_lookup_1 _ _ _ _ Hf Hj).
Qed.

(** ** Every step is progress *)

Definition cost (o : Op) : nat := match o with Get => 2 | Set_ _ => 4 end.
Definition passed (p : Point) : nat := match p with Before => 0 | Sharing => 1 | Between => 2 | Alone => 3 end.
Definition weight (t : Thread) : nat := sum_list_with cost (calls t) - passed (point t).
Definition measure (v : Var) : nat := sum_list_with weight (threads v).

Lemma weight_eq cs p : weight (mkThread cs p) = sum_list_with cost cs - passed p.
Proof. done. Qed.

Lemma step_measure v w : step v w → locked v → measure v = S (measure w).
Proof.
  intros Hst [Hw _]. unfold measure. destruct Hst as [i o cs v Hi Hf|i cs v Hi|i x cs v Hi|i o cs v Hi Hf|i x cs v Hi].
  all: pose proof (Forall_lookup_1 _ _ _ _ Hw Hi) as Hp; simpl in Hp |- *.
  all: match goal with |- context [<[_ := ?t]> _] => pose proof (sum_insert weight _ _ _ t Hi) as Hs end.
  all: rewrite !weight_eq in Hs; simpl in Hs.
  1: destruct o; simpl in Hs; lia.
  3: destruct Hp as (x & cs' & Heq); simpl in Heq; simplify_eq; simpl in Hs; lia.
  all: lia.
Qed.

Lemma locked_progress v : locked v → (∀ w, ¬ step v w) → Forall (λ t, t = mkThread [] Before) (threads v).
Proof.
  intros [Hw _] Hstuck.
  assert (∀ i t, threads v !! i = Some t → ¬ is_alone t) as Hna.
  { intros i [cs []] Hi Ha; try done. destruct (Forall_lookup_1 _ _ _ _ Hw Hi) as (x & cs' & Heq). simpl in Heq. subst cs.
    by apply (Hstuck _ (step_write i x cs' v Hi)). }
  assert (∀ i t, threads v !! i = Some t → ¬ shares t) as Hns.
  { intros i [cs []] Hi Ha; try done. pose proof (Forall_lookup_1 _ _ _ _ Hw Hi) as Hp. simpl in Hp.
    destruct cs as [|[|x] cs]; [done| |]; [by apply (Hstuck _ (step_get i cs v Hi))|by apply (Hstuck _ (step_tell i x cs v Hi))]. }
  apply Forall_lookup_2. intros i [cs []] Hi; [|by destruct (Hns i _ Hi)| |by destruct (Hna i _ Hi)].
  - destruct cs as [|o cs]; [done|]. destruct (Hstuck _ (step_share i o cs v Hi ltac:(apply Forall_lookup_2; exact Hna))).
  - destruct (Forall_lookup_1 _ _ _ _ Hw Hi) as (x & cs' & Heq). simpl in Heq. subst cs.
    destruct (Hstuck _ (step_own i _ cs' v Hi ltac:(apply Forall_lookup_2; intros j u Hj; split; [by eapply Hna|by eapply Hns]))).
Qed.

(** ** Where values come from *)

Definition known (A : list T) (v : Var) : Prop :=
  val_ v ∈ A ∧ Forall (λ t, (calls t ≫= sets) ⊆ A) (threads v) ∧
  Forall (λ p, p.1 ∈ A ∧ p.2 ∈ A ∧ p.1 ≠ p.2) (told v) ∧ Forall (.∈ A) (seen v).

Lemma step_known A v w : step v w → known A v → known A w.
Proof.
  intros Hst (Hv & Ht & Hp & Hs).
  destruct Hst as [i o cs v Hi Hf|i cs v Hi|i x cs v Hi|i o cs v Hi Hf|i x cs v Hi];
    pose proof (Forall_lookup_1 _ _ _ _ Ht Hi) as Hc; unfold known; simpl in *; split_and!;
    try done; try (apply Forall_insert; [done|simpl; set_solver]).
  - apply Forall_app. by rewrite Forall_singleton.
  - apply Forall_app. split; [done|]. case_decide; [|constructor]. apply Forall_singleton. simpl. set_solver.
  - set_solver.
Qed.

(** ** One thread *)

(** What the listeners take for the value. *)
Definition heard (x : T) (v : Var) : T := from_option snd x (last (told v)).

Definition follows (x : T) (v : Var) : Prop :=
  ∃ t, threads v = [t] ∧
    match point t with
    | Before | Sharing => heard x v = val_ v
    | Between | Alone => ∃ y cs, calls t = Set_ y :: cs ∧ heard x v = y
    end.

Lemma step_follows x v w : step v w → follows x v → follows x w.
Proof.
  intros Hst (t & Ht & Hh).
  assert (∀ i u, threads v !! i = Some u → i = 0 ∧ u = t) as Hone.
  { rewrite Ht. by intros [|i] u Hi; simplify_eq/=. }
  destruct Hst as [i o cs v Hi Hf|i cs v Hi|i y cs v Hi|i o cs v Hi Hf|i y cs v Hi];
    destruct (Hone _ _ Hi) as [-> <-]; unfold follows, heard in *; simpl in *; rewrite Ht; simpl; eexists; (split; [done|]); simpl in *; try done.
  - exists y, cs. split; [done|]. case_decide as Hd; [by rewrite last_snoc|]. rewrite app_nil_r, Hh.
    destruct (decide (y = val_ v)); [done|by destruct Hd].
  - destruct Hh as (y' & cs' & [= <- <-] & Hh). done.
Qed.

(** ** The start *)

Lemma start_locked x programs : locked (start x programs).
Proof.
  split; simpl.
  - apply Forall_fmap, Forall_true. done.
  - intros i j t u Hi. rewrite list_lookup_fmap in Hi. apply fmap_Some in Hi as (cs & _ & ->). intros _ Ha. done.
Qed.

Definition values (x : T) (programs : list (list Op)) : list T := x :: (programs ≫= λ cs, cs ≫= sets).

Lemma start_known x programs : known (values x programs) (start x programs).
Proof.
  unfold values, known. simpl. split_and!; [set_solver| |constructor|constructor].
  apply Forall_fmap, Forall_forall. intros cs Hcs y Hy. simpl in *. right. apply list_elem_of_bind. by exists cs.
Qed.

Lemma start_measure x programs : measure (start x programs) = sum_list_with (sum_list_with cost) programs.
Proof.
  unfold measure, start. simpl. induction programs as [|cs l IH]; [done|]. rewrite fmap_cons. simpl. rewrite IH, weight_eq. simpl. lia.
Qed.

Lemma steps_all A n v w :
  nsteps step n v w → locked v → known A v → locked w ∧ known A w ∧ measure v = n + measure w.
Proof.
  induction 1 as [v|n v v1 w Hst _ IH]; intros Hl Hk; [done|].
  destruct (IH (step_locked _ _ Hst Hl) (step_known _ _ _ Hst Hk)) as (H1 & H2 & H3).
  split_and!; [done|done|]. pose proof (step_measure _ _ Hst Hl). lia.
Qed.
End VarLocks.
Arguments Op : clear implicits.
Arguments Var : clear implicits.

(** * Properties *)

(** C32: However threads that read and set a variable interleave, nobody waits for
    ever: some thread can go on until all calls have returned, which takes as many
    steps as the calls have parts.  A thread that writes is alone; the value, what
    was read and what the listeners were told are the first value or values that
    were set; no listener is told of a change to the value that was there. *)
Theorem variable_settles {T} `{!EqDecision T} (x : T) programs n v :
  nsteps step n (start x programs) v →
  locked v ∧ known (values x programs) v ∧
  n + measure v = sum_list_with (sum_list_with cost) programs ∧
  ((∀ w, ¬ step v w) → measure v = 0 ∧ Forall (λ t, calls t = []) (threads v)).
Proof.
  intros Hn. destruct (steps_all _ _ _ _ Hn (start_locked _ _) (start_known _ _)) as (Hl & Hk & Hm).
  rewrite start_measure in Hm. split_and!; [done|done|done|]. intros Hstuck.
  pose proof (locked_progress v Hl Hstuck) as Hall. split; [|by eapply Forall_impl; [exact Hall|intros ? ->]].
  unfold measure. clear -Hall. induction Hall as [|t l -> _ IH]; [done|]. simpl. by rewrite IH.
Qed.

(** With one thread the listeners can follow: when its calls have returned, the
    last value they were told, or the first one, is the value. *)
Theorem listeners_follow {T} `{!EqDecision T} (x : T) cs v :
  rtc step (start x [cs]) v → Forall (λ t, calls t = []) (threads v) → heard x v = val_ v.
Proof.
  intros Hst Hend. assert (follows x v) as (t & Ht & Hh).
  { revert Hst. generalize (start x [cs]) (ex_intro _ (mkThread cs Before) (conj eq_refl eq_refl) : follows x (start x [cs])).
    intros v0 H0. induction 1 as [|v0 v1 v2 Hst _ IH]; [done|]. apply (IH Hend). by eapply step_follows. }
  assert (calls t = []) as Hnil by (rewrite Ht in Hend; by rewrite Forall_singleton in Hend).
  destruct (point t); [done|done| |]; destruct Hh as (y & cs' & Hc & _); by rewrite Hc in Hnil.
Qed.

(** C33: With two threads they cannot.  One sets another value and tells it, the other
    sets the value that is still there, which nobody need hear of, and writes last:
    all calls have returned, the value is the first one, and the listeners were told
    of the other. *)
Theorem listeners_left_stale {T} `{!EqDecision T} (x a : T) :
  a ≠ x → ∃ v, rtc step (start x [[Set_ a]; [Set_ x]]) v ∧ Forall (λ t, calls t = []) (threads v) ∧
    val_ v = x ∧ told v = [(x, a)] ∧ heard x v ≠ val_ v.
Proof.
  intros Ha.
  set (v s t (y : T) l := mkVar y l [] [s; t]).
  set (s0 := mkThread [Set_ a]). set (t0 := mkThread [Set_ x]). set (done_ := @mkThread T [] Before).
  assert (∀ y z w : Var T, step y z → rtc step z w → rtc step y w) as Hgo by (intros; by eapply rtc_l).
  exists (v done_ done_ x [(x, a)]). split; [|split_and!; [by repeat constructor|done|done|done]].
  apply (Hgo _ (v (s0 Sharing) (t0 Before) x [])).
  { apply (step_share 0 (Set_ a) [] (v (s0 Before) (t0 Before) x [])); [done|]. by repeat constructor. }
  apply (Hgo _ (v (s0 Between) (t0 Before) x [(x, a)])).
  { pose proof (step_tell 0 a [] (v (s0 Sharing) (t0 Before) x []) eq_refl) as H. simpl in H. by rewrite decide_True in H. }
  apply (Hgo _ (v (s0 Between) (t0 Sharing) x [(x, a)])).
  { apply (step_share 1 (Set_ x) [] (v (s0 Between) (t0 Before) x [(x, a)])); [done|]. by repeat constructor. }
  apply (Hgo _ (v (s0 Between) (t0 Between) x [(x, a)])).
  { pose proof (step_tell 1 x [] (v (s0 Between) (t0 Sharing) x [(x, a)]) eq_refl) as H. simpl in H.
    by rewrite decide_False in H by (by intros []). }
  apply (Hgo _ (v (s0 Alone) (t0 Between) x [(x, a)])).
  { apply (step_own 0 (Set_ a) [] (v (s0 Between) (t0 Between) x [(x, a)])); [done|]. by repeat constructor. }
  apply (Hgo _ (v done_ (t0 Between) a [(x, a)])); [by apply (step_write 0 a [] (v (s0 Alone) (t0 Between) x [(x, a)]))|].
  apply (Hgo _ (v done_ (t0 Alone) a [(x, a)])).
  { apply (step_own 1 (Set_ x) [] (v done_ (t0 Between) a [(x, a)])); [done|]. by repeat constructor. }
  apply rtc_once. by apply (step_write 1 x [] (v done_ (t0 Alone) a [(x, a)])).
Qed.

Lemma listeners_left_stale_witness : 1 ≠ 0 ∧ ∃ v, rtc step (start 0 [[Set_ 1]; [Set_ 0]]) v ∧ val_ v = 0 ∧ told v = [(0, 1)].
Proof.
  split; [lia|]. destruct (listeners_left_stale 0 1 ltac:(lia)) as (v & H1 & _ & H2 & H3 & _). by exists v.
Defined.

(** A thread sets the variable, and gets it. *)
Lemma one_thread_run : nsteps step 6 (start 0 [[Set_ 1; Get]]) (mkVar 1 [(0, 1)] [1] [mkThread [] Before]).
Proof.
  assert (∀ n (u v w : Var nat), step u v → nsteps step n v w → nsteps step (S n) u w) as Hgo by (intros; by eapply nsteps_l).
  apply (Hgo _ _ (mkVar 0 [] [] [mkThread [Set_ 1; Get] Sharing])).
  { apply (step_share 0 (Set_ 1) [Get] (start 0 [[Set_ 1; Get]])); [done|]. by repeat constructor. }
  apply (Hgo _ _ (mkVar 0 [(0, 1)] [] [mkThread [Set_ 1; Get] Between])).
  { exact (step_tell 0 1 [Get] (mkVar 0 [] [] [mkThread [Set_ 1; Get] Sharing]) eq_refl). }
  apply (Hgo _ _ (mkVar 0 [(0, 1)] [] [mkThread [Set_ 1; Get] Alone])).
  { apply (step_own 0 (Set_ 1) [Get] (mkVar 0 [(0, 1)] [] [mkThread [Set_ 1; Get] Between])); [done|]. by repeat constructor. }
  apply (Hgo _ _ (mkVar 1 [(0, 1)] [] [mkThread [Get] Before])).
  { by apply (step_write 0 1 [Get] (mkVar 0 [(0, 1)] [] [mkThread [Set_ 1; Get] Alone])). }
  apply (Hgo _ _ (mkVar 1 [(0, 1)] [] [mkThread [Get] Sharing])).
  { apply (step_share 0 Get [] (mkVar 1 [(0, 1)] [] [mkThread [Get] Before])); [done|]. by repeat constructor. }
  apply nsteps_once. by apply (step_get 0 [] (mkVar 1 [(0, 1)] [] [mkThread [Get] Sharing])).
Qed.

Lemma variable_settles_witness :
  6 + measure (mkVar 1 [(0, 1)] [1] [mkThread [] Before]) = 6 ∧ locked (mkVar 1 [(0, 1)] [1] [mkThread [] Before]).
Proof. destruct (variable_settles 0 _ 6 _ one_thread_run) as (H1 & _ & H2 & _). split; [exact H2|exact H1]. Defined.

Lemma listeners_follow_witness : heard 0 (mkVar 1 [(0, 1)] [1] [mkThread [] Before]) = 1.
Proof.
  apply (listeners_follow 0 [Set_ 1; Get]); [|by repeat constructor].
  apply (rtc_nsteps_2 6). exact one_thread_run.
Defined.
