(* ===== verification/Monitor.v ===== *)
(** Threads that share an object guarded by one mutex and waiting on its
    condition variables: the execution model under which [BlockDeque] and
    [ThreadPool] are verified.  A component says what the body of each operation
    does while it holds the mutex; this file gives the interleavings, the
    sleeping and waking of threads, and the counting lemmas from which the
    absence of lost wake-ups is proved. *)

From S2P Require Import Prelude.

(** * Operations *)

(** [notify_one] and [notify_all] on the condition variable [q]. *)
Inductive notify (Q : Type) := One (q : Q) | All (q : Q).
Arguments One {_} _.
Arguments All {_} _.

(** The body of an operation, from locking the mutex to the first of: its
    return, a [wait] whose predicate is false, a failed [assert]. *)
Inductive reply (S R Q : Type) :=
| Returns (r : R) (s : S) (ns : list (notify Q))
| Waits (q : Q)
| Fails.
Arguments Returns {_ _ _} _ _ _.
Arguments Waits {_ _ _} _.
Arguments Fails {_ _ _}.

(** What a component provides.  An operation waits on at most one condition
    variable, and re-evaluates the same body when it wakes up.  A [wait_for]
    that times out makes the operation return [timeout]. *)
Class Monitor (S Op R Q : Type) := {
  exec : Op → S → reply S R Q;
  waits_on : Op → option Q;
  timeout : Op → option R;
  exec_waits o s q : exec o s = Waits q → waits_on o = Some q
}.

(** The code of a thread: its next operation, and how it goes on with the
    result. *)
Class Program (P Op R : Type) := {
  next : P → option Op;
  resume : P → R → P
}.

(** * Threads *)

(** [Woken q]: notified, and about to lock the mutex and test its predicate
    again. *)
Inductive Status (Q : Type) := Ready | Asleep (q : Q) | Woken (q : Q).
Arguments Ready {_}.
Arguments Asleep {_} _.
Arguments Woken {_} _.
#[export] Instance Status_eq_dec `{EqDecision Q} : EqDecision (Status Q).
Proof. solve_decision. Defined.

Section Machine.
Context {S Op R Q P : Type} `{HQ : EqDecision Q} `{!Monitor S Op R Q} `{!Program P Op R}.

Record proc := mkProc { code : P; status : Status Q }.
Record config := mkConfig { shared : S; procs : list proc }.

Definition asleep_on (q : Q) (p : proc) : bool := bool_decide (status p = Asleep q).
Definition woken_on (q : Q) (p : proc) : bool := bool_decide (status p = Woken q).

Definition wake (q : Q) (p : proc) : proc :=
  if asleep_on q p then mkProc (code p) (Woken q) else p.

(** [notify_one] wakes one sleeping thread, if there is any. *)
Inductive deliver : notify Q → list proc → list proc → Prop :=
| deliver_one q ps i p :
    ps !! i = Some p → asleep_on q p = true → deliver (One q) ps (<[i := wake q p]> ps)
| deliver_nobody q ps :
    (∀ p, p ∈ ps → asleep_on q p = false) → deliver (One q) ps ps
| deliver_all q ps : deliver (All q) ps (wake q <$> ps).

Inductive delivers : list (notify Q) → list proc → list proc → Prop :=
| delivers_nil ps : delivers [] ps ps
| delivers_cons n ns ps ps' ps'' :
    deliver n ps ps' → delivers ns ps' ps'' → delivers (n :: ns) ps ps''.

(** A completed operation and its result, if the step completes one. *)
Abbreviation event := (option (Op * R)).

Definition awake (p : proc) : Prop := ∀ q, status p ≠ Asleep q.

Inductive move : config → event → config → Prop :=
| move_run s ps i p o r s' ns ps' :
    ps !! i = Some p → next (code p) = Some o → awake p →
    exec o s = Returns r s' ns →
    delivers ns (<[i := mkProc (resume (code p) r) Ready]> ps) ps' →
    move (mkConfig s ps) (Some (o, r)) (mkConfig s' ps')
| move_wait s ps i p o q :
    ps !! i = Some p → next (code p) = Some o → awake p →
    exec o s = Waits q →
    move (mkConfig s ps) None (mkConfig s (<[i := mkProc (code p) (Asleep q)]> ps))
| move_timeout s ps i p o q r :
    ps !! i = Some p → next (code p) = Some o → status p = Asleep q →
    exec o s = Waits q → timeout o = Some r →
    move (mkConfig s ps) (Some (o, r)) (mkConfig s (<[i := mkProc (resume (code p) r) Ready]> ps)).

(** A step is a move or a spurious wake-up. *)
Inductive step : config → event → config → Prop :=
| step_move c e c' : move c e c' → step c e c'
| step_spurious s ps i p q :
    ps !! i = Some p → asleep_on q p = true →
    step (mkConfig s ps) None (mkConfig s (<[i := wake q p]> ps)).

(** The completed operations of an execution, in order. *)
Inductive steps : config → list (Op * R) → config → Prop :=
| steps_nil c : steps c [] c
| steps_cons c e c' es c'' :
    step c e c' → steps c' es c'' → steps c (option_list e ++ es) c''.

Definition start (s : S) (programs : list P) : config :=
  mkConfig s ((λ p, mkProc p Ready) <$> programs).

(** No thread can go on, unless the implementation wakes one spuriously. *)
Definition stuck (c : config) : Prop := ∀ e c', ¬ move c e c'.

(** A thread is about to fail an assertion. *)
Definition fails_now (s : S) (p : proc) : bool :=
  match status p, next (code p) with
  | Asleep _, _ | _, None => false
  | _, Some o => match exec o s with Fails => true | _ => false end
  end.

Definition failing (c : config) : Prop := Exists (λ p, fails_now (shared c) p = true) (procs c).

#[global] Instance failing_dec c : Decision (failing c).
Proof. unfold failing. apply _. Defined.

(** * Counting *)

Definition count (f : proc → bool) : list proc → nat :=
  sum_list_with (λ p, if f p then 1 else 0).

Abbreviation sleepers q := (count (asleep_on q)).
Abbreviation wakers q := (count (woken_on q)).

Lemma count_insert f ps i p p' :
  ps !! i = Some p →
  count f (<[i := p']> ps) + (if f p then 1 else 0) = count f ps + (if f p' then 1 else 0).
Proof.
  revert i. induction ps as [|a ps IH]; intros [|i] Hi; simplify_eq/=; [lia|].
  specialize (IH i Hi). lia.
Qed.

Lemma count_zero f ps : count f ps = 0 ↔ ∀ p, p ∈ ps → f p = false.
Proof.
  induction ps as [|a ps IH]; simpl; [set_solver|]. destruct (f a) eqn:Ha.
  - split; [lia|]. intros H. rewrite H in Ha; [done|set_solver].
  - rewrite IH. set_solver.
Qed.

Lemma asleep_spec q p : asleep_on q p = true ↔ status p = Asleep q.
Proof. apply bool_decide_eq_true. Qed.
Lemma woken_spec q p : woken_on q p = true ↔ status p = Woken q.
Proof. apply bool_decide_eq_true. Qed.

(** The number of threads with the status of [p] on each condition variable. *)
Definition is_asleep (st : Status Q) (q : Q) : nat := if decide (st = Asleep q) then 1 else 0.
Definition is_woken (st : Status Q) (q : Q) : nat := if decide (st = Woken q) then 1 else 0.

Lemma sleepers_insert q ps i p p' :
  ps !! i = Some p →
  sleepers q (<[i := p']> ps) + is_asleep (status p) q = sleepers q ps + is_asleep (status p') q.
Proof.
  intros H. pose proof (count_insert (asleep_on q) ps i p p' H) as Hc.
  unfold asleep_on, is_asleep in *. by rewrite <-!decide_bool_decide in Hc.
Qed.

Lemma wakers_insert q ps i p p' :
  ps !! i = Some p →
  wakers q (<[i := p']> ps) + is_woken (status p) q = wakers q ps + is_woken (status p') q.
Proof.
  intros H. pose proof (count_insert (woken_on q) ps i p p' H) as Hc.
  unfold woken_on, is_woken in *. by rewrite <-!decide_bool_decide in Hc.
Qed.

(** * Counters

    Seen through the numbers of sleeping and woken threads, a notification is
    the following relation. *)
Abbreviation counters := (Q → nat).

Inductive notified : list (notify Q) → counters → counters → counters → counters → Prop :=
| notified_nil sl wk sl' wk' :
    (∀ q, sl' q = sl q) → (∀ q, wk' q = wk q) → notified [] sl wk sl' wk'
| notified_one_none q ns sl wk sl' wk' :
    sl q = 0 → notified ns sl wk sl' wk' → notified (One q :: ns) sl wk sl' wk'
| notified_one q ns sl wk sl1 wk1 sl' wk' :
    sl q = sl1 q + 1 → wk1 q = wk q + 1 →
    (∀ q', q' ≠ q → sl1 q' = sl q' ∧ wk1 q' = wk q') →
    notified ns sl1 wk1 sl' wk' → notified (One q :: ns) sl wk sl' wk'
| notified_all q ns sl wk sl1 wk1 sl' wk' :
    sl1 q = 0 → wk1 q = wk q + sl q →
    (∀ q', q' ≠ q → sl1 q' = sl q' ∧ wk1 q' = wk q') →
    notified ns sl1 wk1 sl' wk' → notified (All q :: ns) sl wk sl' wk'.

Lemma wake_status q p : status (wake q p) = if decide (status p = Asleep q) then Woken q else status p.
Proof. unfold wake, asleep_on. case_bool_decide; by case_decide. Qed.

Lemma wake_code q p : code (wake q p) = code p.
Proof. unfold wake. by destruct (asleep_on q p). Qed.

(** Waking every sleeper of [q]. *)
Lemma wake_all_counts q ps :
  sleepers q (wake q <$> ps) = 0 ∧ wakers q (wake q <$> ps) = wakers q ps + sleepers q ps ∧
  ∀ q', q' ≠ q → sleepers q' (wake q <$> ps) = sleepers q' ps ∧ wakers q' (wake q <$> ps) = wakers q' ps.
Proof.
  induction ps as [|p ps (IH1 & IH2 & IH3)]; [done|]. rewrite fmap_cons.
  cbn [count sum_list_with]. fold (count (asleep_on q)) (count (woken_on q)).
  unfold asleep_on at 1 3, woken_on at 1 3. rewrite !wake_status.
  split_and!.
  - case_decide; case_bool_decide; (done || lia).
  - case_decide; repeat case_bool_decide; try done; try congruence; lia.
  - intros q' Hq. destruct (IH3 q' Hq) as [H1 H2].
    fold (count (asleep_on q')) (count (woken_on q')). rewrite H1, H2.
    unfold asleep_on at 1 3, woken_on at 1 3. rewrite !wake_status.
    case_decide; repeat case_bool_decide; try done; try congruence; split; lia.
Qed.
Lemma delivers_notified ns ps ps' :
  delivers ns ps ps' →
  notified ns (λ q, sleepers q ps) (λ q, wakers q ps) (λ q, sleepers q ps') (λ q, wakers q ps').
Proof.
  induction 1 as [ps|n ns ps ps1 ps' Hd _ IH]; [by constructor|].
  destruct Hd as [q ps i p Hi Ha|q ps Hn|q ps].
  - apply asleep_spec in Ha.
    assert (status (wake q p) = Woken q) as Hw by (rewrite wake_status; by case_decide).
    pose proof (λ q', sleepers_insert q' ps i p (wake q p) Hi) as Hs.
    pose proof (λ q', wakers_insert q' ps i p (wake q p) Hi) as Hk.
    rewrite Ha, Hw in *. eapply notified_one; [..|exact IH].
    + specialize (Hs q). unfold is_asleep in Hs. repeat case_decide; simplify_eq. lia.
    + specialize (Hk q). unfold is_woken in Hk. repeat case_decide; simplify_eq. lia.
    + intros q' Hq'. specialize (Hs q'). specialize (Hk q'). unfold is_asleep, is_woken in *.
      repeat case_decide; simplify_eq. lia.
  - apply notified_one_none; [by apply count_zero|done].
  - destruct (wake_all_counts q ps) as (H1 & H2 & H3). eapply notified_all; [..|exact IH]; done.
Qed.

Lemma deliver_code n ps ps' : deliver n ps ps' → code <$> ps' = code <$> ps.
Proof.
  destruct 1 as [q ps i p Hi _|q ps _|q ps]; [|done|].
  - rewrite list_fmap_insert, wake_code. apply list_insert_id. by rewrite list_lookup_fmap, Hi.
  - rewrite <-list_fmap_compose. apply list_fmap_ext. intros i p _. apply wake_code.
Qed.

Lemma delivers_code ns ps ps' : delivers ns ps ps' → code <$> ps' = code <$> ps.
Proof. induction 1 as [|??????? IH]; [done|]. rewrite IH. by eapply deliver_code. Qed.

Lemma notified_nil_inv (sl wk sl' wk' : counters) :
  notified [] sl wk sl' wk' → ∀ q, sl' q = sl q ∧ wk' q = wk q.
Proof. inversion 1; subst. auto. Qed.

Lemma notified_one_inv (q : Q) (sl wk sl' wk' : counters) :
  notified [One q] sl wk sl' wk' →
  (∀ q', sl' q' ≤ sl q' ∧ wk q' ≤ wk' q') ∧ (sl q = 0 ∨ wk' q = wk q + 1) ∧
  ∀ q', q' ≠ q → sl' q' = sl q' ∧ wk' q' = wk q'.
Proof.
  inversion 1 as [|? ? ? ? ? ? Hz Hn|? ? ? ? sl1 wk1 ? ? H1 H2 H3 Hn|]; subst.
  - pose proof (notified_nil_inv _ _ _ _ Hn) as Hq.
    split_and!; [|by left|]; intros q'; specialize (Hq q'); lia.
  - pose proof (notified_nil_inv _ _ _ _ Hn) as Hq. split_and!.
    + intros q'. specialize (Hq q'). destruct (decide (q' = q)) as [->|Hne]; [lia|].
      specialize (H3 q' Hne). lia.
    + right. specialize (Hq q). lia.
    + intros q' Hne. specialize (Hq q'). specialize (H3 q' Hne). lia.
Qed.

Lemma notified_all_inv (q : Q) ns (sl wk sl' wk' : counters) :
  notified (All q :: ns) sl wk sl' wk' →
  ∃ sl1 wk1, sl1 q = 0 ∧ (∀ q', q' ≠ q → sl1 q' = sl q') ∧ notified ns sl1 wk1 sl' wk'.
Proof.
  inversion 1 as [| | |? ? ? ? sl1 wk1 ? ? H1 H2 H3 Hn]; subst.
  exists sl1, wk1. split_and!; [done| |done]. intros q' Hq. by apply H3.
Qed.
(** The running thread may have been a woken one. *)
Definition was_running (o : Op) (wk wk1 : counters) : Prop :=
  ∀ q, wk1 q = wk q ∨ (waits_on o = Some q ∧ wk q = wk1 q + 1).

(** What [was_running] leaves of the woken threads on [q]. *)
Lemma was_running_le o (wk wk1 : counters) q :
  was_running o wk wk1 → wk1 q ≤ wk q ∧ wk q ≤ wk1 q + 1.
Proof. intros H. destruct (H q) as [?|[_ ?]]; lia. Qed.

Lemma was_running_eq o (wk wk1 : counters) q :
  was_running o wk wk1 → waits_on o ≠ Some q → wk1 q = wk q.
Proof. intros H Hq. by destruct (H q) as [?|[? _]]. Qed.

(** * Reachable configurations

    Every waiting or woken thread is at an operation that waits on that
    condition variable. *)
Definition well_placed (p : proc) : Prop :=
  ∀ q, status p = Asleep q ∨ status p = Woken q →
  ∃ o, next (code p) = Some o ∧ waits_on o = Some q.

Lemma wake_well_placed q p : well_placed p → well_placed (wake q p).
Proof.
  intros H q'. rewrite wake_status, wake_code. case_decide as Hs; [|apply H].
  intros [?|[= <-]]; [done|]. apply H. by left.
Qed.

Lemma delivers_well_placed ns ps ps' :
  delivers ns ps ps' → Forall well_placed ps → Forall well_placed ps'.
Proof.
  induction 1 as [|n ns ps ps1 ps' Hd _ IH]; [done|]. intros H. apply IH. clear IH.
  destruct Hd as [q ps i p Hi _|q ps _|q ps]; [|done|].
  - apply Forall_insert; [done|]. apply wake_well_placed. by eapply Forall_lookup_1.
  - apply Forall_fmap. eapply Forall_impl; [done|]. intros; by apply wake_well_placed.
Qed.

Lemma step_well_placed c e c' :
  step c e c' → Forall well_placed (procs c) → Forall well_placed (procs c').
Proof.
  assert (∀ p, well_placed (mkProc p Ready)) as Hr by (intros p q [?|?]; done).
  destruct 1 as [c e c' [s ps i p o r s' ns ps' ??? Hd Hds|s ps i p o q Hi Ho _ He|]|s ps i p q Hi _];
    simpl; intros Hall.
  - eapply delivers_well_placed; [done|]. by apply Forall_insert.
  - apply Forall_insert; [done|]. intros q'. simpl. intros [[= <-]|?]; [|done].
    exists o. split; [done|]. by apply exec_waits in He.
  - by apply Forall_insert.
  - apply Forall_insert; [done|]. apply wake_well_placed. by eapply Forall_lookup_1.
Qed.

(** * Proving an invariant of the counters *)

(** The programs stay in a class that is closed under [resume]. *)
Lemma step_programs (G : P → Prop) c e c' :
  (∀ p o r, G p → next p = Some o → G (resume p r)) →
  step c e c' → Forall (λ p, G (code p)) (procs c) → Forall (λ p, G (code p)) (procs c').
Proof.
  intros HG Hst Hall.
  destruct Hst as [c e c' [s ps i p o r s' ns ps' Hi Ho ?? Hds|s ps i p o q Hi ???|s ps i p o q r Hi Ho ???]
                  |s ps i p q Hi _]; simpl in *; pose proof (Forall_lookup_1 _ _ _ _ Hall Hi) as HGp.
  - assert (Forall (λ p, G p) (code <$> ps')) as HG1; [|rewrite Forall_fmap in HG1; exact HG1].
    rewrite (delivers_code _ _ _ Hds). apply Forall_fmap, Forall_insert; [done|]. simpl. eauto.
  - by apply Forall_insert.
  - apply Forall_insert; [done|]. simpl. eauto.
  - apply Forall_insert; [done|]. by rewrite wake_code.
Qed.

Lemma run_counts ps i p o p' :
  ps !! i = Some p → well_placed p → next (code p) = Some o → awake p → status p' = Ready →
  (∀ q, sleepers q (<[i := p']> ps) = sleepers q ps) ∧
  was_running o (λ q, wakers q ps) (λ q, wakers q (<[i := p']> ps)).
Proof.
  intros Hi Hw Ho Ha Hp'. split; intros q.
  - pose proof (sleepers_insert q ps i p p' Hi) as H. unfold is_asleep in H. rewrite Hp' in H.
    rewrite (decide_False (P := status p = Asleep q)), decide_False in H by (done || apply Ha). lia.
  - pose proof (wakers_insert q ps i p p' Hi) as H. unfold is_woken in H. rewrite Hp' in H.
    rewrite (decide_False (P := Ready = Woken q)) in H by done.
    case_decide as Hs; [right|left; lia].
    destruct (Hw q) as (o' & Ho' & Hq); [by right|]. split; [congruence|lia].
Qed.

(** [J] speaks of the shared state and of the numbers of sleeping and woken
    threads; [G] restricts the programs.  The hypotheses say that [J] survives
    an operation that returns, one that waits, and a thread that leaves a
    condition variable by a time-out or a spurious wake-up. *)
Section Invariant.
Context (G : P → Prop) (J : S → counters → counters → Prop).

Definition counter_inv (c : config) : Prop :=
  Forall (λ p, G (code p)) (procs c) ∧ Forall well_placed (procs c) ∧
  J (shared c) (λ q, sleepers q (procs c)) (λ q, wakers q (procs c)).

Hypothesis J_program : ∀ p o r, G p → next p = Some o → G (resume p r).
Hypothesis J_run : ∀ p o s r s' ns sl sl1 wk wk1 sl' wk',
  G p → next p = Some o → exec o s = Returns r s' ns → J s sl wk →
  was_running o wk wk1 → (∀ q, sl1 q = sl q) → notified ns sl1 wk1 sl' wk' → J s' sl' wk'.
Hypothesis J_wait : ∀ p o s q sl wk wk1 sl',
  G p → next p = Some o → exec o s = Waits q → J s sl wk →
  was_running o wk wk1 → sl' q = sl q + 1 → (∀ q', q' ≠ q → sl' q' = sl q') → J s sl' wk1.
Hypothesis J_leave : ∀ s q sl wk sl' wk',
  J s sl wk → sl q = sl' q + 1 → wk q ≤ wk' q →
  (∀ q', q' ≠ q → sl' q' = sl q' ∧ wk' q' = wk q') → J s sl' wk'.

Lemma leave_counts ps i p p' q :
  ps !! i = Some p → status p = Asleep q → (status p' = Ready ∨ status p' = Woken q) →
  sleepers q ps = sleepers q (<[i := p']> ps) + 1 ∧ wakers q ps ≤ wakers q (<[i := p']> ps) ∧
  ∀ q', q' ≠ q → sleepers q' (<[i := p']> ps) = sleepers q' ps ∧ wakers q' (<[i := p']> ps) = wakers q' ps.
Proof.
  intros Hi Hs Hp'.
  pose proof (λ q', sleepers_insert q' ps i p p' Hi) as H1.
  pose proof (λ q', wakers_insert q' ps i p p' Hi) as H2. unfold is_asleep, is_woken in *.
  split_and!; [specialize (H1 q)|specialize (H2 q)|intros q' Hq'; specialize (H1 q'); specialize (H2 q')];
    destruct Hp' as [Hp'|Hp']; rewrite Hs, Hp' in *; repeat case_decide; simplify_eq; lia.
Qed.

Lemma step_counter_inv c e c' : step c e c' → counter_inv c → counter_inv c'.
Proof.
  intros Hst (HG & Hw & HJ). pose proof (step_well_placed _ _ _ Hst Hw) as Hw'.
  split_and!; [|done|]; clear Hw'.
  - by eapply (step_programs G).
  - destruct Hst as [c e c' [s ps i p o r s' ns ps' Hi Ho Ha He Hds|s ps i p o q Hi Ho Ha He|s ps i p o q r Hi Ho Hs ??]
                    |s ps i p q Hi Ha]; simpl in *;
      pose proof (Forall_lookup_1 _ _ _ _ HG Hi) as HGp; pose proof (Forall_lookup_1 _ _ _ _ Hw Hi) as Hwp.
    + destruct (run_counts ps i p o (mkProc (resume (code p) r) Ready)) as [Hsl Hwk]; try done.
      eapply J_run; [exact HGp|exact Ho|exact He|exact HJ|exact Hwk|exact Hsl|]. by apply delivers_notified.
    + pose proof (run_counts ps i p o (mkProc (code p) Ready) Hi Hwp Ho Ha eq_refl) as [_ Hwk].
      pose proof (λ q', sleepers_insert q' ps i p (mkProc (code p) (Asleep q)) Hi) as Hsl.
      pose proof (λ q', wakers_insert q' ps i p (mkProc (code p) (Asleep q)) Hi) as Hwk1.
      pose proof (λ q', wakers_insert q' ps i p (mkProc (code p) Ready) Hi) as Hwk2.
      unfold is_asleep, is_woken in *. simpl in *.
      eapply J_wait; [exact HGp|exact Ho|exact He|exact HJ|..].
      * intros q'. specialize (Hwk q'). specialize (Hwk1 q'). specialize (Hwk2 q').
        repeat case_decide; simplify_eq; destruct Hwk as [?|[??]]; ((left; lia) || (right; split; [done|lia])).
      * specialize (Hsl q). rewrite (decide_False (P := status p = Asleep q)), decide_True in Hsl by (done || apply Ha). lia.
      * intros q' Hq'. specialize (Hsl q').
        rewrite (decide_False (P := status p = Asleep q')), decide_False in Hsl by (congruence || apply Ha). lia.
    + destruct (leave_counts ps i p (mkProc (resume (code p) r) Ready) q Hi Hs) as (H1 & H2 & H3); [by left|].
      exact (J_leave s q _ _ _ _ HJ H1 H2 H3).
    + apply asleep_spec in Ha.
      destruct (leave_counts ps i p (wake q p) q Hi Ha) as (H1 & H2 & H3).
      { right. rewrite wake_status. by case_decide. }
      exact (J_leave s q _ _ _ _ HJ H1 H2 H3).
Qed.

Lemma steps_counter_inv c es c' : steps c es c' → counter_inv c → counter_inv c'.
Proof. induction 1; eauto using step_counter_inv. Qed.
End Invariant.

Lemma count_start f s programs :
  (∀ p, f (mkProc p Ready) = false) → count f (procs (start s programs)) = 0.
Proof.
  intros H. apply count_zero. intros p Hp. simpl in Hp.
  apply list_elem_of_fmap in Hp as (x & -> & _). apply H.
Qed.

Lemma start_well_placed s programs : Forall well_placed (procs (start s programs)).
Proof. apply Forall_fmap, Forall_true. intros p q [?|?]; done. Qed.

(** * What a step does to the shared object *)

Lemma step_shared c e c' :
  step c e c' →
  match e with
  | None => shared c' = shared c
  | Some (o, r) =>
      (∃ p, p ∈ procs c ∧ next (code p) = Some o) ∧
      ((∃ ns, exec o (shared c) = Returns r (shared c') ns) ∨
       (shared c' = shared c ∧ timeout o = Some r))
  end.
Proof.
  destruct 1 as [c e c' [s ps i p o r s' ns ps' Hi Ho ? He ?| |s ps i p o q r Hi Ho ? ? Ht]|]; simpl; try done.
  - split; [exists p; split; [by eapply list_elem_of_lookup_2|done]|]. left. by exists ns.
  - split; [exists p; split; [by eapply list_elem_of_lookup_2|done]|]. by right.
Qed.

Lemma steps_step c e c' : step c e c' → steps c (option_list e) c'.
Proof. intros H. rewrite <-(app_nil_r (option_list e)). eapply steps_cons; [done|constructor]. Qed.

(** * Configurations without a next move *)

Lemma deliver_exists n ps : ∃ ps', deliver n ps ps'.
Proof.
  destruct n as [q|q]; [|eexists; constructor].
  destruct (decide (Exists (λ p, asleep_on q p = true) ps)) as [Hex|Hno].
  - apply Exists_exists in Hex as (p & Hp & Ha). apply list_elem_of_lookup in Hp as [i Hi].
    eexists. by eapply deliver_one.
  - exists ps. apply deliver_nobody. intros p Hp. apply not_true_iff_false. intros Ha.
    apply Hno, Exists_exists. by exists p.
Qed.

Lemma delivers_exists ns : ∀ ps, ∃ ps', delivers ns ps ps'.
Proof.
  induction ns as [|n ns IH]; intros ps; [eexists; constructor|].
  destruct (deliver_exists n ps) as [ps1 H1]. destruct (IH ps1) as [ps2 H2].
  exists ps2. by econstructor.
Qed.

Lemma stuck_status c p :
  stuck c → ¬ failing c → p ∈ procs c → next (code p) = None ∨ ∃ q, status p = Asleep q.
Proof.
  intros Hst Hf Hp. destruct (next (code p)) as [o|] eqn:Ho; [right|by left].
  assert (awake p ∨ ∃ q, status p = Asleep q) as [Ha|?]; [|exfalso|done].
  { unfold awake. destruct (status p) as [|q|q]; [by left|right; by exists q|by left]. }
  apply list_elem_of_lookup in Hp as Hi. destruct Hi as [i Hi]. destruct c as [s ps]. simpl in *.
  destruct (exec o s) as [r s' ns|q|] eqn:He.
  - destruct (delivers_exists ns (<[i := mkProc (resume (code p) r) Ready]> ps)) as [ps' Hds].
    eapply Hst. eapply move_run; eauto.
  - eapply Hst. eapply move_wait; eauto.
  - apply Hf, Exists_exists. exists p. split; [done|].
    unfold fails_now. simpl. rewrite Ho, He. destruct (status p) as [|q|q] eqn:Hsp; [done|by destruct (Ha q)|done].
Qed.

Lemma no_sleeper c p q : sleepers q (procs c) = 0 → p ∈ procs c → status p ≠ Asleep q.
Proof. intros Hz Hp Hs. eapply count_zero in Hz; [|done]. by rewrite (proj2 (asleep_spec q p) Hs) in Hz. Qed.

Lemma stuck_wakers c q : stuck c → ¬ failing c → Forall well_placed (procs c) → wakers q (procs c) = 0.
Proof.
  intros Hst Hf Hw. apply count_zero. intros p Hp. apply not_true_iff_false.
  intros Hq%woken_spec. destruct (stuck_status c p Hst Hf Hp) as [Hn|[q' Hq']]; [|congruence].
  rewrite Forall_forall in Hw. destruct (Hw p Hp q) as (o & Ho & _); [by right|congruence].
Qed.
End Machine.
