(* ===== verification/BlockDeque.v ===== *)
(** The blocking double-ended queue [BlockDeque] of
    [include/containers/block_deque.h], as a monitor: the body of each member
    function under the mutex, and the interleavings of the threads that call
    them. *)

From S2P Require Import Prelude Monitor.

(** * The object *)

Section BlockDeque.
Context {T : Type}.

Record BlockDeque := mkDeque { closed_ : bool; capacity_ : N; deq_ : list T }.

(** The two condition variables. *)
Inductive Cond := consumer_cond_ | producer_cond_.
#[global] Instance Cond_eq_dec : EqDecision Cond.
Proof. solve_decision. Defined.

(** The constructor, with its assertion. *)
Definition BlockDeque_create (capacity : N) : outcome BlockDeque :=
  if (0 <? capacity)%N then Done (mkDeque false capacity []) else Crash.

(** The public operations.  [Pop timed]: with or without a maximum time to
    wait.  The two overloads of [Front] and of [Back] return the same element. *)
Inductive Op :=
| Clear | Empty | Full | Size | Capacity
| PushBack (item : T) | PushFront (item : T)
| Front | Back
| Pop (timed : bool)
| Flush | Close.

Inductive Res := Void | Flag (b : bool) | Count (n : N) | Item (x : option T).

Definition set_deq (l : list T) (d : BlockDeque) : BlockDeque :=
  mkDeque (closed_ d) (capacity_ d) l.

Definition ClearNoLock (d : BlockDeque) : BlockDeque := set_deq [] d.

(** The predicate that [WaitForSpace] waits for. *)
Definition has_space (d : BlockDeque) : bool := (len (deq_ d) <? capacity_ d)%N.

(** The predicate that [Pop] waits for. *)
Definition not_empty_or_closed (d : BlockDeque) : bool :=
  negb (bool_decide (deq_ d = [])) || closed_ d.

Abbreviation reply := (reply BlockDeque Res Cond).

Definition WaitForSpace (d : BlockDeque) (k : reply) : reply :=
  if has_space d then k else Waits producer_cond_.

Definition do_PushBack (item : T) (d : BlockDeque) : reply :=
  WaitForSpace d (Returns Void (set_deq (deq_ d ++ [item]) d) [One consumer_cond_]).

Definition do_PushFront (item : T) (d : BlockDeque) : reply :=
  WaitForSpace d (Returns Void (set_deq (item :: deq_ d) d) [One consumer_cond_]).

Definition do_Pop (d : BlockDeque) : reply :=
  if not_empty_or_closed d then
    if closed_ d then Returns (Item None) d []
    else match deq_ d with
         | x :: l => Returns (Item (Some x)) (set_deq l d) [One producer_cond_]
         | [] => Fails
         end
  else Waits consumer_cond_.

Definition do_Close (d : BlockDeque) : reply :=
  Returns Void (mkDeque true (capacity_ d) (deq_ (ClearNoLock d)))
    [All producer_cond_; All consumer_cond_].

(** The destructor. *)
Definition BlockDeque_destroy (d : BlockDeque) : reply := do_Close d.

Definition do_Full (d : BlockDeque) : reply :=
  let size := len (deq_ d) in
  if (size <=? capacity_ d)%N then Returns (Flag (size =? capacity_ d)%N) d [] else Fails.

Definition access (x : option T) (d : BlockDeque) : reply :=
  if bool_decide (deq_ d = []) then Fails else Returns (Item x) d [].

Definition deque_exec (o : Op) (d : BlockDeque) : reply :=
  match o with
  | Clear => Returns Void (ClearNoLock d) []
  | Empty => Returns (Flag (bool_decide (deq_ d = []))) d []
  | Full => do_Full d
  | Size => Returns (Count (len (deq_ d))) d []
  | Capacity => Returns (Count (capacity_ d)) d []
  | PushBack item => do_PushBack item d
  | PushFront item => do_PushFront item d
  | Front => access (head (deq_ d)) d
  | Back => access (last (deq_ d)) d
  | Pop _ => do_Pop d
  | Flush => Returns Void d [One consumer_cond_]
  | Close => do_Close d
  end.

Definition deque_waits_on (o : Op) : option Cond :=
  match o with
  | PushBack _ | PushFront _ => Some producer_cond_
  | Pop _ => Some consumer_cond_
  | _ => None
  end.

(** [Pop] with a maximum time returns [std::nullopt] when it elapses while
    the predicate is false. *)
Definition deque_timeout (o : Op) : option Res :=
  match o with Pop true => Some (Item None) | _ => None end.

Lemma deque_exec_waits o d q : deque_exec o d = Waits q → deque_waits_on o = Some q.
Proof.
  destruct o; cbn; try done.
  - unfold do_Full. by case_match.
  - unfold do_PushBack, WaitForSpace. case_match; congruence.
  - unfold do_PushFront, WaitForSpace. case_match; congruence.
  - unfold access. by case_match.
  - unfold access. by case_match.
  - unfold do_Pop. repeat case_match; congruence.
Qed.

#[global] Instance deque_monitor : Monitor BlockDeque Op Res Cond := {
  exec := deque_exec;
  waits_on := deque_waits_on;
  timeout := deque_timeout;
  exec_waits := deque_exec_waits
}.

(** A client thread: the calls it makes. *)
#[global] Instance client : Program (list Op) Op Res := {
  next := head;
  resume p _ := tail p
}.

(** * The invariant *)

Definition within (d : BlockDeque) : Prop := (0 < capacity_ d)%N ∧ (len (deq_ d) ≤ capacity_ d)%N.

(** While a consumer sleeps there are no more elements than woken consumers,
    and while a producer sleeps no more free places than woken producers. *)
Definition awake_enough (d : BlockDeque) (sl wk : Cond → nat) : Prop :=
  within d ∧
  (if closed_ d then sl consumer_cond_ = 0
   else sl consumer_cond_ = 0 ∨ length (deq_ d) ≤ wk consumer_cond_) ∧
  (sl producer_cond_ = 0 ∨
   (capacity_ d ≤ len (deq_ d) + N.of_nat (wk producer_cond_))%N).

(** Programs that never call [Clear]. *)
Definition no_clear (p : list Op) : Prop := Clear ∉ p.

Lemma no_clear_next p o r : no_clear p → next p = Some o → no_clear (resume p r).
Proof. unfold no_clear. destruct p; simpl; set_solver. Qed.

Lemma cond_cases (f : Cond → Prop) : (∀ q, f q) ↔ f consumer_cond_ ∧ f producer_cond_.
Proof. split; [auto|]. intros [? ?] []; done. Qed.

(** What an operation that returns has done. *)
Inductive did (o : Op) (d : BlockDeque) : Res → BlockDeque → list (notify Cond) → Prop :=
| did_nothing r :
    waits_on o ≠ Some producer_cond_ →
    (waits_on o = Some consumer_cond_ → closed_ d = true ∧ r = Item None) →
    did o d r d []
| did_flush r : waits_on o = None → did o d r d [One consumer_cond_]
| did_clear r : o = Clear → did o d r (set_deq [] d) []
| did_close r : o = Close → did o d r (mkDeque true (capacity_ d) []) [All producer_cond_; All consumer_cond_]
| did_push r x l :
    (o = PushBack x ∧ l = deq_ d ++ [x] ∨ o = PushFront x ∧ l = x :: deq_ d) →
    has_space d = true → did o d r (set_deq l d) [One consumer_cond_]
| did_pop timed x l :
    o = Pop timed → closed_ d = false → deq_ d = x :: l →
    did o d (Item (Some x)) (set_deq l d) [One producer_cond_].

Lemma exec_did o d r d' ns : exec o d = Returns r d' ns → did o d r d' ns.
Proof.
  destruct o as [| | | | |x|x| | |timed| |]; cbn; intros He.
  - injection He as <- <- <-. by apply did_clear.
  - injection He as <- <- <-. by apply did_nothing.
  - unfold do_Full in He. case_match; [|done]. injection He as <- <- <-. by apply did_nothing.
  - injection He as <- <- <-. by apply did_nothing.
  - injection He as <- <- <-. by apply did_nothing.
  - unfold do_PushBack, WaitForSpace in He. destruct (has_space d) eqn:Hs; [|done].
    injection He as <- <- <-. eapply did_push; [by left|done].
  - unfold do_PushFront, WaitForSpace in He. destruct (has_space d) eqn:Hs; [|done].
    injection He as <- <- <-. eapply did_push; [by right|done].
  - unfold access in He. case_match; [done|]. injection He as <- <- <-. by apply did_nothing.
  - unfold access in He. case_match; [done|]. injection He as <- <- <-. by apply did_nothing.
  - unfold do_Pop in He. destruct (not_empty_or_closed d); [|done].
    destruct (closed_ d) eqn:Hc; [injection He as <- <- <-; by apply did_nothing|].
    destruct (deq_ d) eqn:Hd; [done|]. injection He as <- <- <-. by eapply did_pop.
  - injection He as <- <- <-. by apply did_flush.
  - injection He as <- <- <-. by apply did_close.
Qed.

Lemma has_space_spec d : has_space d = true ↔ (len (deq_ d) < capacity_ d)%N.
Proof. apply N.ltb_lt. Qed.

Lemma awake_enough_run p o d r d' ns sl sl1 wk wk1 sl' wk' :
  no_clear p → next p = Some o → exec o d = Returns r d' ns → awake_enough d sl wk →
  was_running o wk wk1 → (∀ q, sl1 q = sl q) → notified ns sl1 wk1 sl' wk' →
  awake_enough d' sl' wk'.
Proof.
  intros Hp Ho He ([Hc0 Hlen] & Hcons & Hprod) Hrun Hsl Hn.
  pose proof (was_running_le _ _ _ consumer_cond_ Hrun). pose proof (was_running_le _ _ _ producer_cond_ Hrun).
  pose proof (Hsl consumer_cond_). pose proof (Hsl producer_cond_).
  destruct (exec_did _ _ _ _ _ He) as [r Hq Hcl|r Hq|r ->|r ->|r x l Hl Hs|timed x l -> Hcl Hd];
    unfold awake_enough, within; cbn [closed_ capacity_ deq_ set_deq].
  - pose proof (notified_nil_inv _ _ _ _ Hn) as Hnil. pose proof (Hnil consumer_cond_). pose proof (Hnil producer_cond_).
    rewrite (was_running_eq _ _ _ producer_cond_ Hrun Hq) in *.
    split_and!; [done..| |lia]. destruct (closed_ d) eqn:Hc; [lia|].
    pose proof (was_running_eq _ _ _ consumer_cond_ Hrun) as Hw.
    rewrite Hw in * by (intros ?; by destruct Hcl). lia.
  - apply notified_one_inv in Hn as (Hle & Hone & Hne).
    pose proof (Hle consumer_cond_). pose proof (Hne producer_cond_ ltac:(done)).
    pose proof (was_running_eq _ _ _ producer_cond_ Hrun ltac:(by rewrite Hq)).
    pose proof (was_running_eq _ _ _ consumer_cond_ Hrun ltac:(by rewrite Hq)).
    split_and!; [done..| |lia]. destruct (closed_ d); lia.
  - destruct Hp. destruct p; [done|]. injection Ho as ->. set_solver.
  - apply notified_all_inv in Hn as (sl2 & wk2 & Hs2 & Hs2' & Hn).
    apply notified_all_inv in Hn as (sl3 & wk3 & Hs3 & Hs3' & Hn).
    pose proof (notified_nil_inv _ _ _ _ Hn) as Hnil. pose proof (Hnil consumer_cond_). pose proof (Hnil producer_cond_).
    pose proof (Hs3' producer_cond_ ltac:(done)). split_and!; [done|len_lia|lia|left; lia].
  - apply notified_one_inv in Hn as (Hle & Hone & Hne). apply has_space_spec in Hs.
    pose proof (Hle consumer_cond_). pose proof (Hne producer_cond_ ltac:(done)).
    assert (length l = length (deq_ d) + 1) as Hlen'
      by (destruct Hl as [[_ ->]|[_ ->]]; [rewrite length_app; simpl|simpl]; lia).
    assert (waits_on o ≠ Some consumer_cond_) as Hq by (by destruct Hl as [[-> _]|[-> _]]).
    pose proof (was_running_eq _ _ _ consumer_cond_ Hrun Hq). unfold len in *.
    split_and!; [done|lia| |lia]. destruct (closed_ d); lia.
  - apply notified_one_inv in Hn as (Hle & Hone & Hne).
    pose proof (Hle producer_cond_). pose proof (Hne consumer_cond_ ltac:(done)).
    pose proof (was_running_eq _ _ _ producer_cond_ Hrun ltac:(done)).
    rewrite Hd, Hcl in *. unfold len in *. cbn [length] in *. split_and!; [done|lia|lia|lia].
Qed.

Lemma exec_wait_inv o d q :
  exec o d = Waits q →
  match q with
  | producer_cond_ => waits_on o = Some producer_cond_ ∧ has_space d = false
  | consumer_cond_ => waits_on o = Some consumer_cond_ ∧ closed_ d = false ∧ deq_ d = []
  end.
Proof.
  intros He. pose proof (exec_waits _ _ _ He) as Hw. revert He.
  destruct o; cbn in *; simplify_eq; cbn.
  - unfold do_PushBack, WaitForSpace. by destruct (has_space d).
  - unfold do_PushFront, WaitForSpace. by destruct (has_space d).
  - unfold do_Pop, not_empty_or_closed. case_bool_decide; simpl; destruct (closed_ d); simpl; try done.
    by destruct (deq_ d).
Qed.

Lemma awake_enough_wait (p : list Op) o d q sl wk wk1 sl' :
  no_clear p → next p = Some o → exec o d = Waits q → awake_enough d sl wk →
  was_running o wk wk1 → sl' q = sl q + 1 → (∀ q', q' ≠ q → sl' q' = sl q') →
  awake_enough d sl' wk1.
Proof.
  intros _ _ He ([Hc0 Hlen] & Hcons & Hprod) Hrun Hsl Hne. apply exec_wait_inv in He.
  destruct q.
  - destruct He as (Hq & Hcl & Hd). pose proof (Hne producer_cond_ ltac:(done)).
    pose proof (was_running_eq _ _ _ producer_cond_ Hrun ltac:(by rewrite Hq)).
    unfold awake_enough, within. rewrite Hcl, Hd in *. unfold len in *. simpl in *.
    split_and!; [done..|right; lia|lia].
  - destruct He as (Hq & Hs). pose proof (Hne consumer_cond_ ltac:(done)).
    pose proof (was_running_eq _ _ _ consumer_cond_ Hrun ltac:(by rewrite Hq)).
    assert (¬ (len (deq_ d) < capacity_ d)%N) as Hs' by (rewrite <-has_space_spec; congruence).
    unfold awake_enough, within. split_and!; [done..| |right; lia]. destruct (closed_ d); lia.
Qed.

Lemma awake_enough_leave d q sl wk sl' wk' :
  awake_enough d sl wk → sl q = sl' q + 1 → wk q ≤ wk' q →
  (∀ q', q' ≠ q → sl' q' = sl q' ∧ wk' q' = wk q') → awake_enough d sl' wk'.
Proof.
  intros (Hw & Hcons & Hprod) Hsl Hwk Hne. split; [done|]. destruct q.
  - pose proof (Hne producer_cond_ ltac:(done)). split; [destruct (closed_ d)|]; lia.
  - pose proof (Hne consumer_cond_ ltac:(done)). split; [destruct (closed_ d)|]; lia.
Qed.

Lemma reachable_awake cap d programs es c :
  BlockDeque_create cap = Done d → Forall no_clear programs → steps (start d programs) es c →
  counter_inv no_clear awake_enough c.
Proof.
  unfold BlockDeque_create. destruct (N.ltb_spec 0 cap) as [Hcap|]; [|done]. intros [= <-] HG Hst.
  eapply steps_counter_inv; [apply no_clear_next|apply awake_enough_run|apply awake_enough_wait
    |intros; by eapply awake_enough_leave|exact Hst|].
  split_and!; [by apply Forall_fmap|apply start_well_placed|].
  split; [split; [exact Hcap|unfold len; simpl; lia]|].
  split; cbn [closed_ start shared]; left; by apply count_start.
Qed.

(** Programs and bounds without any restriction. *)
Lemma reachable_within cap d programs es c :
  BlockDeque_create cap = Done d → steps (start d programs) es c →
  within (shared c) ∧ capacity_ (shared c) = cap.
Proof.
  unfold BlockDeque_create. destruct (N.ltb_spec 0 cap) as [Hcap|]; [|done]. intros [= <-] Hst.
  assert (∀ c es c', steps c es c' → within (shared c) ∧ capacity_ (shared c) = cap →
    within (shared c') ∧ capacity_ (shared c') = cap) as H.
  { clear. induction 1 as [|c e c' es c'' Hst _ IH]; [done|]. intros [[Hw0 Hw] Hc]. apply IH. clear IH.
    apply step_shared in Hst. destruct e as [[o r]|]; [|by rewrite Hst].
    destruct Hst as [_ [[ns He]|[-> _]]]; [|done]. unfold within.
    destruct (exec_did _ _ _ _ _ He) as [r ??|r ?|r ?|r ?|r x l Hl Hs|timed x l ?? Hd]; simpl; try done.
    - split_and!; [done|unfold len; simpl; lia|done].
    - split_and!; [done|unfold len; simpl; lia|done].
    - apply has_space_spec in Hs. split_and!; [done| |done].
      destruct Hl as [[_ ->]|[_ ->]]; unfold len in *; [rewrite length_app|]; simpl; lia.
    - rewrite Hd in Hw. unfold len in *. simpl in Hw. split_and!; [done|lia|done]. }
  eapply H; [done|]. split; [|done]. split; [done|]. unfold len. simpl. lia.
Qed.

(** * Histories *)

(** The elements that the completed calls of a history pushed at the back, and
    those that its pops returned. *)
Definition pushed (es : list (Op * Res)) : list T :=
  omap (λ e, match e.1 with PushBack x => Some x | _ => None end) es.
Definition popped (es : list (Op * Res)) : list T :=
  omap (λ e, match e with (Pop _, Item (Some x)) => Some x | _ => None end) es.

(** A queue: elements enter at the back, and leave only through [Pop]. *)
Definition queue_op (o : Op) : Prop :=
  match o with PushFront _ | Clear | Close => False | _ => True end.

(** No element is removed but through [Pop]. *)
Definition fifo_op (o : Op) : Prop := match o with Clear | Close => False | _ => True end.

Definition is_push (o : Op) : bool :=
  match o with PushBack _ | PushFront _ => true | _ => false end.

Lemma ops_next (A : Op → Prop) (p : list Op) o r :
  Forall A p → next p = Some o → Forall A (resume p r).
Proof. destruct p; [done|]. cbn. by intros [_ ?]%Forall_cons. Qed.

Lemma ops_head (A : Op → Prop) (p : list Op) o : Forall A p → next p = Some o → A o.
Proof. destruct p; [done|]. cbn. intros [? _]%Forall_cons [= <-]. done. Qed.

Lemma queue_step c e c' :
  step c e c' → Forall (λ p, Forall queue_op (code p)) (procs c) → closed_ (shared c) = false →
  closed_ (shared c') = false ∧
  deq_ (shared c) ++ pushed (option_list e) = popped (option_list e) ++ deq_ (shared c').
Proof.
  intros Hst HG Hcl. apply step_shared in Hst.
  destruct e as [[o r]|]; [|rewrite Hst; by rewrite app_nil_r].
  destruct Hst as [(p & Hp & Ho) Hst].
  assert (queue_op o) as Hq.
  { rewrite Forall_forall in HG. eapply ops_head; [by apply HG|done]. }
  destruct Hst as [[ns He]|[-> Ht]].
  - destruct (exec_did _ _ _ _ _ He) as [r Hn Hc|r Hn|r ->|r ->|r x l Hl Hs|timed x l -> _ Hd]; try done.
    + destruct o; simpl in *; try done; rewrite ?app_nil_r; split; try done.
      destruct Hc as [? _]; [done|congruence].
    + destruct o; simpl in *; try done; by rewrite app_nil_r.
    + destruct Hl as [[-> ->]|[-> ->]]; done.
    + simpl. by rewrite app_nil_r, Hd.
  - destruct o; simpl in *; try done. destruct timed; [|done]. injection Ht as <-.
    simpl. by rewrite app_nil_r.
Qed.

Lemma queue_steps c es c' :
  steps c es c' → Forall (λ p, Forall queue_op (code p)) (procs c) → closed_ (shared c) = false →
  deq_ (shared c) ++ pushed es = popped es ++ deq_ (shared c').
Proof.
  induction 1 as [c|c e c' es c'' Hst _ IH]; intros HG Hcl; [by rewrite app_nil_r|].
  destruct (queue_step _ _ _ Hst HG Hcl) as [Hcl' Heq].
  specialize (IH (step_programs _ _ _ _ (ops_next queue_op) Hst HG) Hcl').
  unfold pushed, popped in *. rewrite !omap_app, app_assoc, Heq, <-!app_assoc. by f_equal.
Qed.

(** A push waits for ever on a full queue from which nothing is removed. *)
Lemma closed_full_steps c es c' :
  steps c es c' → Forall (λ p, Forall fifo_op (code p)) (procs c) →
  closed_ (shared c) = true → has_space (shared c) = false →
  shared c' = shared c ∧ Forall (λ e, is_push e.1 = false ∧
    ∀ timed, e.1 = Pop timed → e.2 = Item None) es.
Proof.
  induction 1 as [c|c e c' es c'' Hst _ IH]; intros HG Hcl Hs; [done|].
  pose proof (step_programs _ _ _ _ (ops_next fifo_op) Hst HG) as HG'.
  apply step_shared in Hst as Hsh. destruct e as [[o r]|]; [|rewrite Hsh in IH; by apply IH].
  destruct Hsh as [(p & Hp & Ho) Hsh].
  assert (fifo_op o) as Hk.
  { rewrite Forall_forall in HG. eapply ops_head; [by apply HG|done]. }
  assert (shared c' = shared c ∧ is_push o = false ∧ ∀ timed, o = Pop timed → r = Item None)
    as (Heq & Hpush & Hpop).
  { destruct Hsh as [[ns He]|[Heq Ht]].
    - destruct (exec_did _ _ _ _ _ He) as [r Hn Hc|r Hn|r ->|r ->|r x l Hl Hs'|timed x l -> Hc Hd];
        try done; try congruence.
      + split_and!; [done|by destruct o|]. intros timed ->. by apply Hc.
      + split_and!; [done|by destruct o|]. intros timed ->. done.
    - split_and!; [done|by destruct o|]. intros timed ->. destruct timed; simpl in Ht; congruence. }
  rewrite Heq in IH. destruct (IH HG' Hcl Hs) as [IH1 IH2].
  split; [done|]. simpl. by constructor.
Qed.
End BlockDeque.
Arguments Op : clear implicits.
Arguments Res : clear implicits.

(** * Properties *)

(** C19: First in, first out, across threads.  When the threads use the
    deque as a queue, in whatever interleaving and with spurious wake-ups and
    time-outs, the elements popped so far followed by those still inside are
    exactly the elements pushed, in the order of the pushes: nothing is lost,
    duplicated or reordered. *)
Theorem queue_order {T} cap (d : @BlockDeque T) programs es c :
  BlockDeque_create cap = Done d → Forall (Forall queue_op) programs →
  steps (start d programs) es c →
  popped es ++ deq_ (shared c) = pushed es.
Proof.
  unfold BlockDeque_create. case_match; [|done]. intros [= <-] HG Hst.
  symmetry. apply (queue_steps _ _ _ Hst); [|done]. by apply Forall_fmap.
Qed.

(** The queue never holds more elements than its capacity, whatever is
    called, and so the assertion of [Full] never fails. *)
Theorem capacity_respected {T} cap (d : @BlockDeque T) programs es c :
  BlockDeque_create cap = Done d → steps (start d programs) es c →
  (len (deq_ (shared c)) ≤ cap)%N ∧
  exec Full (shared c) = Returns (Flag (len (deq_ (shared c)) =? cap)%N) (shared c) [].
Proof.
  intros Hd Hst. destruct (reachable_within _ _ _ _ _ Hd Hst) as [[_ Hw] Hc]. rewrite Hc in Hw.
  split; [done|]. cbn. unfold do_Full. by rewrite Hc, (proj2 (N.leb_le _ _) Hw).
Qed.

(** C18: No wake-up is lost.  When no thread calls [Clear] and no thread can
    go on, then either a thread is at a failed assertion, or all threads have
    ended, or all the others wait for the same thing and rightly so: they are
    consumers of an empty, open queue, or producers of a full one.  Consumers
    and producers never block each other. *)
Theorem no_lost_wakeup {T} cap (d : @BlockDeque T) programs es c :
  BlockDeque_create cap = Done d → Forall no_clear programs →
  steps (start d programs) es c → stuck c →
  failing c ∨ (∀ p, p ∈ procs c → code p = []) ∨
  (∀ p, p ∈ procs c → code p = [] ∨ status p = Asleep consumer_cond_) ∧
    deq_ (shared c) = [] ∧ closed_ (shared c) = false ∨
  (∀ p, p ∈ procs c → code p = [] ∨ status p = Asleep producer_cond_) ∧
    len (deq_ (shared c)) = cap.
Proof.
  intros Hd HG Hst Hs. destruct (decide (failing c)) as [Hf|Hf]; [by left|right].
  destruct (reachable_awake _ _ _ _ _ Hd HG Hst) as (_ & Hw & [Hc0 Hlen] & Hcons & Hprod).
  destruct (reachable_within _ _ _ _ _ Hd Hst) as [_ <-].
  rewrite !stuck_wakers in * by done.
  assert (∀ p, p ∈ procs c → code p = [] ∨ ∃ q, status p = Asleep q) as Hall.
  { intros p Hp. destruct (stuck_status c p Hs Hf Hp) as [Hn|?]; [left|by right]. by destruct (code p). }
  destruct (decide (count (asleep_on consumer_cond_) (procs c) = 0)) as [Hz|Hnz].
  - destruct (decide (count (asleep_on producer_cond_) (procs c) = 0)) as [Hz'|Hnz'].
    + left. intros p Hp. destruct (Hall p Hp) as [?|[[] Hq]]; [done|..]; by eapply no_sleeper in Hq.
    + right. right. split; [|lia]. intros p Hp.
      destruct (Hall p Hp) as [?|[[] Hq]]; [by left|by eapply no_sleeper in Hq|by right].
  - right. left. destruct (closed_ (shared c)); [done|].
    assert (length (deq_ (shared c)) = 0) as Hl by lia. split_and!; [|by apply nil_length_inv|done].
    assert (count (asleep_on producer_cond_) (procs c) = 0) as Hz by (unfold len in *; lia).
    intros p Hp. destruct (Hall p Hp) as [?|[[] Hq]]; [by left|by right|by eapply no_sleeper in Hq].
Qed.

(** [Clear] loses wake-ups.  It empties the queue without notifying the
    producers: with capacity one, a producer that waits for space is still
    asleep after another thread has cleared the queue, and when that thread then
    waits for an element neither of them can go on, although the queue is
    empty. *)
Theorem clear_loses_wakeup {T} (x y : T) :
  ∃ d c, BlockDeque_create 1 = Done d ∧
    steps (start d [[PushBack x; PushBack y]; [Clear; Pop false]])
      [(PushBack x, Void); (Clear, Void)] c ∧
    stuck c ∧ deq_ (shared c) = [] ∧
    status <$> procs c = [Asleep producer_cond_; Asleep consumer_cond_].
Proof.
  set (p0 := [PushBack y]). set (p1 := [Clear; Pop false]).
  eexists _, (mkConfig (mkDeque false 1 [])
    [mkProc p0 (Asleep producer_cond_); mkProc [Pop false] (Asleep consumer_cond_)]).
  split; [reflexivity|]. split_and!; [| |done|done].
  - change [(PushBack x, Void); (Clear, Void)] with
      (option_list (Some (PushBack x, Void : Res T)) ++ option_list None ++
       option_list (Some (Clear : Op T, Void)) ++ option_list None ++ ([] : list (Op T * Res T))).
    eapply steps_cons.
    { apply step_move. eapply (move_run _ _ 0 (mkProc (PushBack x :: p0) Ready)); [done|done|done|reflexivity|].
      eapply delivers_cons; [|constructor]. apply deliver_nobody.
      intros p Hp. simpl in Hp. set_unfold in Hp. by destruct Hp as [-> | [-> | []]]. }
    eapply steps_cons.
    { apply step_move. by eapply (move_wait _ _ 0 (mkProc p0 Ready) (PushBack y)). }
    eapply steps_cons.
    { apply step_move. eapply (move_run _ _ 1 (mkProc p1 Ready)); [done|done|done|reflexivity|constructor]. }
    set (before := [mkProc p0 (Asleep producer_cond_); mkProc [Pop false] Ready]).
    eapply steps_cons; [|constructor]. apply step_move.
    exact (move_wait (mkDeque false 1 []) before 1 (mkProc [Pop false] Ready) (Pop false)
      consumer_cond_ eq_refl eq_refl ltac:(done) eq_refl).
  - intros e c'. inversion 1 as [? ? i p ? ? ? ? ? Hi ? Ha|? ? i p ? ? Hi ? Ha|? ? i p ? ? ? Hi Ho ? ? Ht];
      subst; destruct i as [|[|i]]; simplify_eq/=; by destruct (Ha _ eq_refl).
Qed.

(** [WaitForSpace] ignores [closed_].  After [Close] pushes are still
    accepted; once the closed queue is full, [Pop] returns [std::nullopt] and
    removes nothing, so without [Clear] no push ever completes again. *)
Theorem closed_full_blocks {T} (c : config (S := @BlockDeque T) (Q := Cond) (P := list (Op T))) es c' :
  closed_ (shared c) = true → has_space (shared c) = false →
  Forall (λ p, Forall fifo_op (code p)) (procs c) → steps c es c' →
  shared c' = shared c ∧ Forall (λ e, is_push e.1 = false ∧
    ∀ timed, e.1 = Pop timed → e.2 = Item None) es.
Proof. intros Hcl Hs HG Hst. by eapply closed_full_steps. Qed.

(** * Witnesses *)

(** A producer that fills a queue of capacity one and waits, and a consumer
    that makes room. *)
Definition demo_programs : list (list (Op nat)) := [[PushBack 7; PushBack 8]; [Pop false]].
Definition demo_history : list (Op nat * Res nat) :=
  [(PushBack 7, Void); (Pop false, Item (Some 7)); (PushBack 8, Void)].
Definition demo_end : config (S := @BlockDeque nat) (Q := Cond) (P := list (Op nat)) :=
  mkConfig (mkDeque false 1 [8]) [mkProc [] Ready; mkProc [] Ready].

Lemma demo_steps : steps (start (mkDeque false 1 []) demo_programs) demo_history demo_end.
Proof.
  set (sleeping := [mkProc [PushBack 8] (Asleep producer_cond_); mkProc [Pop false] Ready]).
  set (woken := [mkProc [PushBack 8] (Woken producer_cond_); mkProc [] Ready]).
  change demo_history with
    (option_list (Some (PushBack 7, Void : Res nat)) ++ option_list None ++
     option_list (Some (Pop false, Item (Some 7))) ++
     option_list (Some (PushBack 8, Void : Res nat)) ++ ([] : list (Op nat * Res nat))).
  apply (steps_cons _ _ (mkConfig (mkDeque false 1 [7]) [mkProc [PushBack 8] Ready; mkProc [Pop false] Ready])).
  { apply step_move. eapply (move_run _ _ 0); [done|done|done|reflexivity|].
    eapply delivers_cons; [|constructor]. apply deliver_nobody.
    intros p Hp. simpl in Hp. set_unfold in Hp. by destruct Hp as [-> | [-> | []]]. }
  apply (steps_cons _ _ (mkConfig (mkDeque false 1 [7]) sleeping)).
  { apply step_move. exact (move_wait (mkDeque false 1 [7])
      [mkProc [PushBack 8] Ready; mkProc [Pop false] Ready] 0 (mkProc [PushBack 8] Ready) (PushBack 8)
      producer_cond_ eq_refl eq_refl ltac:(done) eq_refl). }
  apply (steps_cons _ _ (mkConfig (mkDeque false 1 []) woken)).
  { apply step_move. eapply (move_run _ sleeping 1); [done|done|done|reflexivity|].
    eapply delivers_cons; [|constructor].
    exact (deliver_one producer_cond_ [mkProc [PushBack 8] (Asleep producer_cond_); mkProc [] Ready] 0
      (mkProc [PushBack 8] (Asleep producer_cond_)) eq_refl eq_refl). }
  apply (steps_cons _ _ demo_end); [|constructor].
  apply step_move. eapply (move_run _ woken 0); [done|done|done|reflexivity|].
  eapply delivers_cons; [|constructor]. apply deliver_nobody.
  intros p Hp. simpl in Hp. set_unfold in Hp. by destruct Hp as [-> | [-> | []]].
Qed.

Lemma queue_order_witness : popped demo_history ++ deq_ (shared demo_end) = [7; 8].
Proof.
  apply (queue_order 1 (mkDeque false 1 []) demo_programs); [reflexivity| |exact demo_steps].
  by repeat constructor.
Defined.

Lemma capacity_respected_witness :
  exec Full (shared demo_end) = Returns (Flag true) (shared demo_end) [].
Proof.
  destruct (capacity_respected 1 (mkDeque false 1 []) demo_programs demo_history demo_end
    eq_refl demo_steps) as [_ H]. exact H.
Defined.

Lemma no_lost_wakeup_witness :
  stuck demo_end ∧
  (failing demo_end ∨ (∀ p, p ∈ procs demo_end → code p = []) ∨
   (∀ p, p ∈ procs demo_end → code p = [] ∨ status p = Asleep consumer_cond_) ∧
     deq_ (shared demo_end) = [] ∧ closed_ (shared demo_end) = false ∨
   (∀ p, p ∈ procs demo_end → code p = [] ∨ status p = Asleep producer_cond_) ∧
     len (deq_ (shared demo_end)) = 1%N).
Proof.
  assert (stuck demo_end) as Hs.
  { intros e c'. unfold demo_end.
    inversion 1 as [? ? i ? ? ? ? ? ? Hi Ho|? ? i ? ? ? Hi Ho|? ? i ? ? ? ? Hi Ho]; subst;
      destruct i as [|[|i]]; simplify_eq/=. }
  split; [exact Hs|].
  refine (no_lost_wakeup 1 (mkDeque false 1 []) demo_programs demo_history demo_end eq_refl _ demo_steps Hs).
  unfold demo_programs, no_clear. repeat constructor; set_solver.
Defined.

Lemma closed_full_blocks_witness :
  ∃ c' : config (S := @BlockDeque nat) (Q := Cond) (P := list (Op nat)),
    steps (mkConfig (mkDeque true 1 [5]) [mkProc [PushBack 6] Ready; mkProc [Pop true] Ready])
      [(Pop true, Item None)] c' ∧ deq_ (shared c') = [5].
Proof.
  set (c := mkConfig (mkDeque true 1 [5]) [mkProc [PushBack 6] Ready; mkProc [Pop true] Ready]).
  assert (steps c [(Pop true, Item None)]
    (mkConfig (mkDeque true 1 [5]) [mkProc [PushBack 6] Ready; mkProc [] Ready])) as Hst.
  { apply (steps_step c (Some (Pop true, Item None))), step_move. eapply (move_run _ _ 1); [done|done|done|reflexivity|constructor]. }
  eexists. split; [exact Hst|].
  destruct (closed_full_blocks c _ _ eq_refl eq_refl ltac:(by repeat constructor) Hst) as [H _].
  by rewrite H.
Defined.
