(* ===== verification/ThreadPool.v ===== *)
(** The thread pool of [include/containers/thread_pool.h] and
    [src/containers/thread_pool/thread_pool.cpp], as a monitor: workers that
    take tasks from a shared list and run them outside the mutex, and clients
    that push tasks and close the pool. *)

From S2P Require Import Prelude Monitor.

Section ThreadPool.
Context {T : Type}.

(** How a task ends: normally, with a [std::exception], which the worker
    logs, or with anything else, which leaves the [noexcept] worker and
    terminates the program. *)
Inductive ending := Ends | Raises (what : str) | Aborts.
Context (behave : T → ending).

(** [std::function]; [None] is an empty one. *)
Abbreviation Task := (option T).

Record ThreadPool := mkPool { closed_ : bool; thread_count_ : N; tasks_ : list Task }.

(** The constructor; [hardware] is [std::thread::hardware_concurrency()]. *)
Definition ThreadPool_create (thread_count : option N) (hardware : N) : ThreadPool :=
  let n := default 0%N thread_count in
  mkPool true (if (n =? 0)%N then hardware else n) [].

Inductive Cond := cond_.
#[global] Instance PoolCond_eq_dec : EqDecision Cond.
Proof. solve_decision. Defined.

(** The atomic parts of the member functions.  [Push] is [CheckOpen] (its
    assertion, before the mutex is locked) and [Append]; a turn of the loop of
    [ExecProc] is [Take] and, if a task was taken, [Run]. *)
Inductive Op := CheckOpen | Append (t : Task) | Take | Run (t : Task) | Close.

Inductive Res := Void | Got (t : option Task) | Ran | Logged (msg : str).

Definition Push (t : Task) : list Op := [CheckOpen; Append t].

Abbreviation reply := (reply ThreadPool Res Cond).

Definition not_empty_or_closed (p : ThreadPool) : bool :=
  negb (bool_decide (tasks_ p = [])) || closed_ p.

Definition set_tasks (l : list Task) (p : ThreadPool) : ThreadPool :=
  mkPool (closed_ p) (thread_count_ p) l.

Definition do_Take (p : ThreadPool) : reply :=
  if not_empty_or_closed p then
    if negb (closed_ p) then
      match tasks_ p with
      | t :: l => Returns (Got (Some t)) (set_tasks l p) []
      | [] => Fails
      end
    else Returns (Got None) p []
  else Waits cond_.

Definition exception_prefix : str := s!"Exception raised in thread pool's task: ".

Definition do_Run (t : Task) (p : ThreadPool) : reply :=
  match t with
  | None => Fails
  | Some f =>
      match behave f with
      | Ends => Returns Ran p []
      | Raises w => Returns (Logged (exception_prefix ++ w)) p []
      | Aborts => Fails
      end
  end.

Definition pool_exec (o : Op) (p : ThreadPool) : reply :=
  match o with
  | CheckOpen => if closed_ p then Fails else Returns Void p []
  | Append t => Returns Void (set_tasks (tasks_ p ++ [t]) p) [One cond_]
  | Take => do_Take p
  | Run t => do_Run t p
  | Close => Returns Void (mkPool true (thread_count_ p) (tasks_ p)) [All cond_]
  end.

Definition pool_waits_on (o : Op) : option Cond :=
  match o with Take => Some cond_ | _ => None end.

Lemma pool_exec_waits o p q : pool_exec o p = Waits q → pool_waits_on o = Some q.
Proof.
  destruct o as [|t| |t|]; cbn; try done; [by case_match|by destruct q|].
  unfold do_Run. by repeat case_match.
Qed.

#[global] Instance pool_monitor : Monitor ThreadPool Op Res Cond := {
  exec := pool_exec;
  waits_on := pool_waits_on;
  timeout _ := None;
  exec_waits := pool_exec_waits
}.

(** The threads: a worker about to take a task, running one, or at the end
    of [ExecProc]; and a client with the calls it makes. *)
Inductive Thread := Idle | Running (t : Task) | Ended | Client (calls : list Op).

#[global] Instance pool_program : Program Thread Op Res := {
  next th := match th with
    | Idle => Some Take
    | Running t => Some (Run t)
    | Ended => None
    | Client calls => head calls
    end;
  resume th r := match th, r with
    | Idle, Got (Some t) => Running t
    | Idle, _ => Ended
    | Running _, _ => Idle
    | Ended, _ => Ended
    | Client calls, _ => Client (tail calls)
    end
}.

(** [Start]: the pool must be closed; it spawns the workers. *)
Definition Start (p : ThreadPool) : outcome (ThreadPool * list Thread) :=
  if closed_ p
  then Done (mkPool false (thread_count_ p) (tasks_ p), replicate (N.to_nat (thread_count_ p)) Idle)
  else Crash.

(** What a client may call. *)
Definition client_call (o : Op) : Prop :=
  match o with CheckOpen | Append _ | Close => True | _ => False end.

Definition proper (th : Thread) : Prop :=
  match th with Client calls => Forall client_call calls | _ => True end.

(** * The invariant *)

(** While a worker sleeps the pool is open, and there are no more tasks than
    woken workers. *)
Definition awake_enough (p : ThreadPool) (sl wk : Cond → nat) : Prop :=
  if closed_ p then sl cond_ = 0 else sl cond_ = 0 ∨ length (tasks_ p) ≤ wk cond_.

Lemma proper_next th o r : proper th → next th = Some o → proper (resume th r).
Proof.
  destruct th as [|t| |calls]; cbn; try done; [by destruct r as [|[]| |]|].
  destruct calls; [done|]. by intros [_ ?]%Forall_cons.
Qed.

(** What an operation that returns has done. *)
Inductive did (o : Op) (p : ThreadPool) : Res → ThreadPool → list (notify Cond) → Prop :=
| did_nothing r : o ≠ Take → (∀ t, o ≠ Append t) → did o p r p []
| did_append t r : o = Append t → did o p r (set_tasks (tasks_ p ++ [t]) p) [One cond_]
| did_take t l : o = Take → closed_ p = false → tasks_ p = t :: l →
    did o p (Got (Some t)) (set_tasks l p) []
| did_leave : o = Take → closed_ p = true → did o p (Got None) p []
| did_close r : o = Close → did o p r (mkPool true (thread_count_ p) (tasks_ p)) [All cond_].

Lemma pool_exec_did o p r p' ns : exec o p = Returns r p' ns → did o p r p' ns.
Proof.
  destruct o as [|t| |t|]; cbn; intros He.
  - destruct (closed_ p); [done|]. injection He as <- <- <-. by apply did_nothing.
  - injection He as <- <- <-. by eapply did_append.
  - unfold do_Take in He. destruct (not_empty_or_closed p); [|done].
    destruct (closed_ p) eqn:Hc; simpl in He; [injection He as <- <- <-; by apply did_leave|].
    destruct (tasks_ p) eqn:Ht; [done|]. injection He as <- <- <-. by eapply did_take.
  - unfold do_Run in He. repeat case_match; try done; injection He as <- <- <-; by apply did_nothing.
  - injection He as <- <- <-. by apply did_close.
Qed.

Lemma pool_awake_enough_run th o p r p' ns sl sl1 wk wk1 sl' wk' :
  proper th → next th = Some o → exec o p = Returns r p' ns → awake_enough p sl wk →
  was_running o wk wk1 → (∀ q, sl1 q = sl q) → notified ns sl1 wk1 sl' wk' →
  awake_enough p' sl' wk'.
Proof.
  intros _ _ He Hinv Hrun Hsl Hn. unfold awake_enough in *.
  pose proof (was_running_le _ _ _ cond_ Hrun). pose proof (Hsl cond_).
  destruct (pool_exec_did _ _ _ _ _ He) as [r Ho Ho'|t r ->|t l -> Hc Ht| -> Hc|r ->]; cbn [closed_ tasks_ set_tasks].
  - pose proof (notified_nil_inv _ _ _ _ Hn cond_).
    pose proof (was_running_eq _ _ _ cond_ Hrun ltac:(by destruct o)). destruct (closed_ p); lia.
  - apply notified_one_inv in Hn as (Hle & Hone & _). pose proof (Hle cond_).
    pose proof (was_running_eq _ _ _ cond_ Hrun ltac:(done)).
    rewrite length_app. simpl. destruct (closed_ p); lia.
  - pose proof (notified_nil_inv _ _ _ _ Hn cond_). rewrite Hc, Ht in *. simpl in *. lia.
  - pose proof (notified_nil_inv _ _ _ _ Hn cond_). rewrite Hc in *. lia.
  - apply notified_all_inv in Hn as (sl2 & wk2 & Hs & _ & Hn).
    pose proof (notified_nil_inv _ _ _ _ Hn cond_). lia.
Qed.

Lemma pool_exec_wait_inv o p q :
  exec o p = Waits q → o = Take ∧ closed_ p = false ∧ tasks_ p = [].
Proof.
  intros He. pose proof (exec_waits _ _ _ He) as Hw. revert He. destruct o; cbn in *; try done.
  unfold do_Take, not_empty_or_closed. case_bool_decide; simpl; destruct (closed_ p); simpl; try done.
  by destruct (tasks_ p).
Qed.

Lemma pool_awake_enough_wait th o p q sl wk wk1 sl' :
  proper th → next th = Some o → exec o p = Waits q → awake_enough p sl wk →
  was_running o wk wk1 → sl' q = sl q + 1 → (∀ q', q' ≠ q → sl' q' = sl q') →
  awake_enough p sl' wk1.
Proof.
  intros _ _ He Hinv Hrun Hsl _. apply pool_exec_wait_inv in He as (-> & Hc & Ht).
  unfold awake_enough in *. rewrite Hc, Ht in *. right. simpl. lia.
Qed.

Lemma pool_awake_enough_leave p q sl wk sl' wk' :
  awake_enough p sl wk → sl q = sl' q + 1 → wk q ≤ wk' q →
  (∀ q', q' ≠ q → sl' q' = sl q' ∧ wk' q' = wk q') → awake_enough p sl' wk'.
Proof. unfold awake_enough. destruct q. destruct (closed_ p); lia. Qed.

(** A pool that has just been started, with its workers and its clients. *)
Definition started (p : ThreadPool) (workers : list Thread) (clients : list (list Op)) :
    config (S := ThreadPool) (Q := Cond) (P := Thread) :=
  start p (workers ++ (Client <$> clients)).

Lemma pool_reachable_awake p0 p workers clients es c :
  Start p0 = Done (p, workers) → Forall (Forall client_call) clients →
  steps (started p workers clients) es c → counter_inv proper awake_enough c.
Proof.
  unfold Start. destruct (closed_ p0); [|done]. intros [= <- <-] HG Hst.
  eapply steps_counter_inv; [apply proper_next|apply pool_awake_enough_run|apply pool_awake_enough_wait
    |intros; by eapply pool_awake_enough_leave|exact Hst|].
  split_and!; [|apply start_well_placed|left; by apply count_start].
  apply Forall_fmap, Forall_app. split; [by apply Forall_replicate|]. by apply Forall_fmap.
Qed.

(** * Histories *)

Definition appended (es : list (Op * Res)) : list Task :=
  omap (λ e, match e.1 with Append t => Some t | _ => None end) es.
Definition taken (es : list (Op * Res)) : list Task :=
  omap (λ e, match e.2 with Got (Some t) => Some t | _ => None end) es.
Definition ran (es : list (Op * Res)) : list Task :=
  omap (λ e, match e.1 with Run t => Some t | _ => None end) es.

(** The tasks that workers have taken and not finished. *)
Definition holds (th : Thread) : option Task := match th with Running t => Some t | _ => None end.
Definition held (c : config (S := ThreadPool) (Q := Cond) (P := Thread)) : list Task :=
  omap holds (code <$> procs c).

Lemma omap_insert_perm {A B} (f : A → option B) (l : list A) i a b :
  l !! i = Some a → omap f (<[i := b]> l) ++ option_list (f a) ≡ₚ omap f l ++ option_list (f b).
Proof.
  revert i. induction l as [|x l IH]; intros [|i] Hi; simplify_eq/=.
  - destruct (f a), (f b); simpl; rewrite <-?Permutation_cons_append, ?app_nil_r; try done.
    by constructor.
  - destruct (f x); simpl; by rewrite IH.
Qed.

Lemma pool_run_history th o p r p' ns :
  proper th → next th = Some o → exec o p = Returns r p' ns →
  tasks_ p ++ appended [(o, r)] = taken [(o, r)] ++ tasks_ p' ∧
  option_list (holds (resume th r)) ++ ran [(o, r)] ≡ₚ option_list (holds th) ++ taken [(o, r)].
Proof.
  intros Hp Ho He.
  destruct th as [|t| |[|o' calls]]; cbn in Ho; simplify_eq; cbn in He.
  - unfold do_Take in He. destruct (not_empty_or_closed p); [|done].
    destruct (closed_ p); simpl in He; [injection He as <- <- <-; cbn; by rewrite app_nil_r|].
    destruct (tasks_ p) as [|t l] eqn:Ht; [done|]. injection He as <- <- <-. cbn.
    by rewrite app_nil_r.
  - unfold do_Run in He. repeat case_match; try done; injection He as <- <- <-; cbn;
      by rewrite app_nil_r.
  - apply Forall_cons in Hp as [Hc _]. destruct o; try done; cbn in He.
    + destruct (closed_ p); [done|]. injection He as <- <- <-. cbn. by rewrite app_nil_r.
    + by injection He as <- <- <-.
    + injection He as <- <- <-. cbn. by rewrite app_nil_r.
Qed.

Lemma pool_step_history c e c' :
  step c e c' → Forall (λ p, proper (code p)) (procs c) →
  tasks_ (shared c) ++ appended (option_list e) = taken (option_list e) ++ tasks_ (shared c') ∧
  held c' ++ ran (option_list e) ≡ₚ held c ++ taken (option_list e).
Proof.
  intros Hst HG.
  destruct Hst as [c e c' [s ps i p o r s' ns ps' Hi Ho ? He Hds|s ps i p o q Hi ???|s ps i p o q r Hi Ho ???]
                  |s ps i p q Hi _]; unfold held; simpl procs; simpl shared; try done.
  - rewrite (delivers_code _ _ _ Hds), list_fmap_insert.
    assert ((code <$> ps) !! i = Some (code p)) as Hc by (by rewrite list_lookup_fmap, Hi).
    destruct (pool_run_history (code p) o s r s' ns) as [H1 H2]; [by eapply (Forall_lookup_1 _ _ _ _ HG)|done..|].
    split; [exact H1|].
    pose proof (omap_insert_perm holds _ _ _ (resume (code p) r) Hc) as Hperm. cbn [option_list] in *.
    apply (Permutation_app_inv_r (option_list (holds (code p)))).
    rewrite <-app_assoc, (Permutation_app_comm (ran _)), app_assoc, Hperm, <-app_assoc, H2.
    rewrite <-app_assoc. f_equiv. apply Permutation_app_comm.
  - rewrite list_fmap_insert, list_insert_id by (by rewrite list_lookup_fmap, Hi).
    cbn. by rewrite !app_nil_r.
  - rewrite list_fmap_insert, list_insert_id by (by rewrite list_lookup_fmap, Hi, wake_code).
    cbn. by rewrite !app_nil_r.
Qed.

(** Two balances in a row. *)
Lemma perm_chain {A} (h h' h'' r r' t t' : list A) :
  h' ++ r ≡ₚ h ++ t → h'' ++ r' ≡ₚ h' ++ t' → h'' ++ r ++ r' ≡ₚ h ++ t ++ t'.
Proof.
  intros H1 H2. rewrite (Permutation_app_comm r), app_assoc, H2, (app_assoc h), <-H1.
  rewrite <-!app_assoc. f_equiv. apply Permutation_app_comm.
Qed.

Lemma pool_history c es c' :
  steps c es c' → Forall (λ p, proper (code p)) (procs c) →
  tasks_ (shared c) ++ appended es = taken es ++ tasks_ (shared c') ∧
  held c' ++ ran es ≡ₚ held c ++ taken es.
Proof.
  induction 1 as [c|c e c' es c'' Hst _ IH]; intros HG; [by rewrite !app_nil_r|].
  destruct (pool_step_history _ _ _ Hst HG) as [H1 H2].
  destruct (IH (step_programs _ _ _ _ proper_next Hst HG)) as [IH1 IH2].
  unfold appended, taken, ran in *. rewrite !omap_app. split.
  - by rewrite app_assoc, H1, <-!app_assoc, IH1.
  - exact (perm_chain _ _ _ _ _ _ _ H2 IH2).
Qed.

(** * Closing *)

Lemma step_closed c e c' :
  step c e c' → closed_ (shared c) = true →
  closed_ (shared c') = true ∧ (∀ o r, e = Some (o, r) → o = Take → r = Got None).
Proof.
  intros Hst Hc. apply step_shared in Hst. destruct e as [[o r]|]; [|by rewrite Hst].
  destruct Hst as [_ [[ns He]|[-> Ht]]]; [|done].
  destruct (pool_exec_did _ _ _ _ _ He); simpl; try congruence;
    (split; [done|]); intros ? ? [= <- <-]; congruence.
Qed.

(** A worker leaves its loop only when the pool has been closed. *)
Definition ended_closed (c : config (S := ThreadPool) (Q := Cond) (P := Thread)) : Prop :=
  closed_ (shared c) = true ∨ Ended ∉ code <$> procs c.

Lemma step_ended c e c' :
  step c e c' → ended_closed c → ended_closed c'.
Proof.
  intros Hst [Hc|Hn]; [left; by eapply step_closed|].
  destruct (closed_ (shared c)) eqn:Hc; [left; by eapply step_closed|right].
  destruct Hst as [c e c' [s ps i p o r s' ns ps' Hi Ho ? He Hds|s ps i p o q Hi ???|s ps i p o q r Hi Ho ???]
                  |s ps i p q Hi _]; simpl procs in *; simpl in Hc; try done.
  - rewrite (delivers_code _ _ _ Hds), list_fmap_insert.
    intros [j Hj]%list_elem_of_lookup. apply list_lookup_insert_Some in Hj as [(_ & Heq & _)|[_ Hj]];
      [|by apply Hn; eapply list_elem_of_lookup_2]. simpl in Heq.
    destruct (code p) as [|t| |calls] eqn:Hp; simplify_eq/=.
    unfold do_Take in He. rewrite Hc in He. repeat case_match; simplify_eq/=.
  - rewrite list_fmap_insert, list_insert_id by (by rewrite list_lookup_fmap, Hi). done.
  - rewrite list_fmap_insert, list_insert_id by (by rewrite list_lookup_fmap, Hi, wake_code). done.
Qed.

(** A worker thread stays one. *)
Definition worker (th : Thread) : Prop := match th with Client _ => False | _ => True end.

Lemma step_worker c e c' i :
  step c e c' → (∃ th, (code <$> procs c) !! i = Some th ∧ worker th) →
  ∃ th, (code <$> procs c') !! i = Some th ∧ worker th.
Proof.
  intros Hst (th & Hth & Hw).
  assert (∀ (ps : list (proc (Q := Cond) (P := Thread))) j p p', ps !! j = Some p → (worker (code p) → worker (code p')) →
    (code <$> ps) !! i = Some th → ∃ th', (code <$> <[j := p']> ps) !! i = Some th' ∧ worker th') as H.
  { intros ps j p p' Hj Hpp Hi. rewrite list_fmap_insert.
    destruct (decide (j = i)) as [->|Hne].
    - rewrite list_lookup_insert_eq by (rewrite length_fmap; by eapply lookup_lt_Some).
      eexists. split; [done|]. apply Hpp. rewrite list_lookup_fmap, Hj in Hi. by simplify_eq/=.
    - rewrite list_lookup_insert_ne by done. by exists th. }
  destruct Hst as [c e c' [s ps j p o r s' ns ps' Hj Ho ? He Hds|s ps j p o q Hj ???|s ps j p o q r Hj Ho ???]
                  |s ps j p q Hj _]; simpl procs in *; try done.
  - rewrite (delivers_code _ _ _ Hds). eapply H; [done| |done]. simpl.
    destruct (code p); simpl; try done. by destruct r as [|[]| |].
  - by eapply H.
  - eapply H; [done| |done]. by rewrite wake_code.
Qed.

Lemma steps_worker c es c' i :
  steps c es c' → (∃ th, (code <$> procs c) !! i = Some th ∧ worker th) →
  ∃ th, (code <$> procs c') !! i = Some th ∧ worker th.
Proof. induction 1; eauto using step_worker. Qed.

Lemma steps_ended c es c' : steps c es c' → ended_closed c → ended_closed c'.
Proof. induction 1; eauto using step_ended. Qed.

Lemma started_codes p workers clients :
  code <$> procs (started p workers clients) = workers ++ (Client <$> clients).
Proof.
  unfold started, start. simpl. rewrite <-list_fmap_compose. by rewrite list_fmap_id.
Qed.

Lemma started_history p0 p workers clients es c :
  Start p0 = Done (p, workers) → tasks_ p0 = [] → Forall (Forall client_call) clients →
  steps (started p workers clients) es c →
  taken es ++ tasks_ (shared c) = appended es ∧ taken es ≡ₚ held c ++ ran es.
Proof.
  unfold Start. destruct (closed_ p0); [|done]. intros [= <- <-] Ht HG Hst.
  assert (Forall proper (replicate (N.to_nat (thread_count_ p0)) Idle ++ (Client <$> clients))) as Hp.
  { apply Forall_app. split; [by apply Forall_replicate|]. by apply Forall_fmap. }
  rewrite <-(started_codes (mkPool false (thread_count_ p0) (tasks_ p0))), Forall_fmap in Hp.
  destruct (pool_history _ _ _ Hst Hp) as [H1 H2]. simpl in H1. rewrite Ht in H1.
  split; [done|]. rewrite H2. unfold held. rewrite started_codes, omap_app.
  assert (∀ n, omap holds (replicate n Idle) = []) as -> by (induction n; done).
  assert (omap holds (Client <$> clients) = []) as -> by (clear; by induction clients).
  done.
Qed.

(** In an open pool that can do nothing more a worker sleeps. *)
Lemma quiet_worker p0 p workers clients es c :
  Start p0 = Done (p, workers) → (0 < thread_count_ p0)%N →
  steps (started p workers clients) es c →
  stuck c → ¬ failing c → closed_ (shared c) = false →
  ∃ q, q ∈ procs c ∧ status q = Asleep cond_.
Proof.
  unfold Start. destruct (closed_ p0); [|done]. intros [= <- <-] Hn Hst Hs Hf Hc.
  destruct (steps_worker _ _ _ 0 Hst) as (th & Hth & Hw).
  { rewrite started_codes. exists Idle. split; [|done].
    by destruct (N.to_nat (thread_count_ p0)) eqn:?; [lia|]. }
  apply steps_ended in Hst as [Hcl|He]; [congruence| |].
  - rewrite list_lookup_fmap in Hth. destruct (procs c !! 0) as [q|] eqn:Hq; [|done]. simplify_eq/=.
    apply list_elem_of_lookup_2 in Hq as Hin. exists q. split; [done|].
    destruct (stuck_status c q Hs Hf Hin) as [Hnone|[[] ?]]; [|done].
    destruct (code q) eqn:Hcode; try done. destruct He. rewrite <-Hcode. by apply list_elem_of_fmap_2.
  - right. rewrite started_codes. rewrite elem_of_app. intros [H|H].
    + by apply elem_of_replicate in H as [? _].
    + apply list_elem_of_fmap in H as (? & ? & _). done.
Qed.

(** * Properties *)

(** C20: Tasks are taken in the order in which they were pushed, and each
    of them exactly once.  In any execution of a started pool, the tasks taken
    so far followed by those still waiting are exactly the tasks pushed; and the
    tasks taken are those that have been run together with those that a worker
    holds. *)
Theorem tasks_run_once p0 p workers clients es c :
  Start p0 = Done (p, workers) → tasks_ p0 = [] → Forall (Forall client_call) clients →
  steps (started p workers clients) es c →
  taken es ++ tasks_ (shared c) = appended es ∧
  taken es ≡ₚ held c ++ ran es.
Proof. apply started_history. Qed.

(** No task is forgotten.  When nothing more can happen in a pool with
    at least one worker, and no assertion has failed, then either the pool has
    been closed and every worker has left its loop, so that the destructor can
    join them; or the pool is open, no task waits, and every task ever pushed
    has been run. *)
Theorem quiet_pool p0 p workers clients es c :
  Start p0 = Done (p, workers) → tasks_ p0 = [] → (0 < thread_count_ p0)%N →
  Forall (Forall client_call) clients →
  steps (started p workers clients) es c →
  stuck c → ¬ failing c →
  if closed_ (shared c)
  then ∀ q, q ∈ procs c → code q = Ended ∨ code q = Client []
  else tasks_ (shared c) = [] ∧ ran es ≡ₚ appended es.
Proof.
  intros H0 Ht Hn HG Hst Hs Hf.
  destruct (pool_reachable_awake _ _ _ _ _ _ H0 HG Hst) as (_ & Hw & HJ).
  unfold awake_enough in HJ. rewrite stuck_wakers in HJ by done.
  destruct (closed_ (shared c)) eqn:Hc.
  - intros q Hq. destruct (stuck_status c q Hs Hf Hq) as [Hnone|[[] Hsl]].
    + destruct (code q) as [| | |[]]; try done; auto.
    + by eapply no_sleeper in Hsl.
  - destruct (quiet_worker _ _ _ _ _ _ H0 Hn Hst Hs Hf Hc) as (q & Hq & Hsl).
    assert (tasks_ (shared c) = []) as Hnil.
    { apply nil_length_inv. destruct HJ as [HJ|HJ]; [by eapply no_sleeper in Hsl|lia]. }
    destruct (started_history _ _ _ _ _ _ H0 Ht HG Hst) as [H1 H2].
    rewrite Hnil, app_nil_r in H1. split; [done|]. rewrite <-H1, H2.
    assert (held c = []) as ->; [|done]. unfold held.
    assert (∀ th, th ∈ code <$> procs c → holds th = None) as Hno.
    { intros th (q' & -> & Hq')%list_elem_of_fmap.
      destruct (stuck_status c q' Hs Hf Hq') as [Hnone|[[] Hsl']]; [by destruct (code q')|].
      rewrite Forall_forall in Hw. destruct (Hw q' Hq' cond_) as (o & Ho & Hwait); [by left|].
      destruct (code q') as [|t| |[]]; try done. by simplify_eq/=. }
    clear -Hno. induction (code <$> procs c) as [|th l IH]; [done|]. simpl.
    rewrite Hno by set_solver. apply IH. set_solver.
Qed.

(** Closing is final.  Once the pool is closed no worker takes another
    task and the waiting ones stay where they are: every visit of a worker to
    the list ends its loop. *)
Theorem closed_pool_takes_nothing c es c' :
  closed_ (shared c) = true → Forall (λ q, proper (code q)) (procs c) →
  steps c es c' →
  taken es = [] ∧ closed_ (shared c') = true ∧
  tasks_ (shared c') = tasks_ (shared c) ++ appended es.
Proof.
  intros Hc HG Hst.
  assert (taken es = [] ∧ closed_ (shared c') = true) as [Htk Hcl].
  { clear HG. induction Hst as [|c e c' es c'' Hst _ IH]; [done|].
    destruct (step_closed _ _ _ Hst Hc) as [Hc' Hn]. destruct (IH Hc') as [IH1 IH2].
    split; [|done]. unfold taken in *. rewrite omap_app, IH1, app_nil_r.
    destruct e as [[o r]|]; [|done]. apply step_shared in Hst as [_ [[ns He]|[_ Ht]]]; [|done].
    destruct o as [|t| |t|]; cbn in He;
      [by destruct (closed_ (shared c)); simplify_eq|by simplify_eq|by rewrite (Hn Take r)| |by simplify_eq].
    unfold do_Run in He. repeat case_match; by simplify_eq. }
  split_and!; [done..|]. destruct (pool_history _ _ _ Hst HG) as [H _].
  by rewrite Htk in H.
Qed.
End ThreadPool.
Arguments Op : clear implicits.
Arguments Res : clear implicits.
Arguments Thread : clear implicits.

(** * Witnesses *)

(** One worker and one client that pushes one task, which throws. *)
Definition demo_behave (n : nat) : ending := if n =? 3 then Raises (s!"three") else Ends.
Definition demo_pool : @ThreadPool nat := ThreadPool_create (Some 1%N) 8.
Definition demo_open : @ThreadPool nat := mkPool false 1 [].
Definition demo_history : list (Op nat * Res nat) :=
  [(CheckOpen, Void); (Append (Some 3), Void); (Take, Got (Some (Some 3)));
   (Run (Some 3), Logged (s!"Exception raised in thread pool's task: three"))].
Definition demo_end : config (S := @ThreadPool nat) (Q := Cond) (P := Thread nat) :=
  mkConfig demo_open [mkProc Idle (Asleep cond_); mkProc (Client []) Ready].

#[local] Existing Instance pool_monitor.

Abbreviation demo_steps_to := (steps (Monitor0 := pool_monitor demo_behave)).

Lemma pool_demo_steps : demo_steps_to (started demo_open [Idle] [Push (Some 3)]) demo_history demo_end.
Proof.
  set (cfg tasks w cl := mkConfig (S := @ThreadPool nat) (Q := Cond) (P := Thread nat) (mkPool false 1 tasks) [mkProc w Ready; mkProc (Client cl) Ready]).
  change demo_history with
    (option_list (Some (CheckOpen, Void : Res nat)) ++ option_list (Some (Append (Some 3), Void : Res nat)) ++
     option_list (Some (Take, Got (Some (Some 3)))) ++
     option_list (Some (Run (Some 3), Logged (s!"Exception raised in thread pool's task: three"))) ++
     option_list None ++ ([] : list (Op nat * Res nat))).
  apply (steps_cons _ _ (cfg [] Idle [Append (Some 3)])).
  { apply step_move. eapply (move_run _ [_; _] 1); [done|done|done|reflexivity|constructor]. }
  apply (steps_cons _ _ (cfg [Some 3] Idle [])).
  { apply step_move. eapply (move_run _ [_; _] 1); [done|done|done|reflexivity|].
    eapply delivers_cons; [|constructor]. apply deliver_nobody.
    intros p Hp. simpl in Hp. set_unfold in Hp. by destruct Hp as [-> | [-> | []]]. }
  apply (steps_cons _ _ (cfg [] (Running (Some 3)) [])).
  { apply step_move. eapply (move_run _ [_; _] 0); [done|done|done|reflexivity|constructor]. }
  apply (steps_cons _ _ (cfg [] Idle [])).
  { apply step_move. eapply (move_run _ [_; _] 0); [done|done|done|reflexivity|constructor]. }
  apply (steps_cons _ _ demo_end); [|constructor]. apply step_move.
  exact (move_wait (Monitor0 := pool_monitor demo_behave) demo_open
    [mkProc Idle Ready; mkProc (Client []) Ready] 0 (mkProc Idle Ready) Take cond_
    eq_refl eq_refl ltac:(done) eq_refl).
Qed.

Lemma demo_calls : Forall (Forall client_call) [Push (Some 3)].
Proof. by repeat constructor. Qed.

Lemma tasks_run_once_witness :
  taken demo_history ++ tasks_ (shared demo_end) = appended demo_history ∧
  taken demo_history ≡ₚ held demo_end ++ ran demo_history.
Proof.
  exact (tasks_run_once demo_behave demo_pool demo_open [Idle] [Push (Some 3)] demo_history demo_end
    eq_refl eq_refl demo_calls pool_demo_steps).
Defined.

Lemma quiet_pool_witness :
  tasks_ (shared demo_end) = [] ∧ ran demo_history ≡ₚ appended demo_history.
Proof.
  refine (quiet_pool demo_behave demo_pool demo_open [Idle] [Push (Some 3)] demo_history demo_end
    eq_refl eq_refl eq_refl demo_calls pool_demo_steps _ _).
  - intros e c'. unfold demo_end.
    inversion 1 as [? ? i ? ? ? ? ? ? Hi Ho Ha|? ? i ? ? ? Hi Ho Ha|? ? i ? ? ? ? Hi Ho]; subst;
      destruct i as [|[|i]]; simplify_eq/=; by destruct (Ha cond_).
  - apply (bool_decide_unpack _). vm_compute. exact I.
Defined.

Lemma closed_pool_takes_nothing_witness :
  ∃ c', demo_steps_to (mkConfig (mkPool true 1 [Some 4; Some 5]) [mkProc Idle Ready]) [(Take, Got None)] c' ∧
    tasks_ (shared c') = [Some 4; Some 5].
Proof.
  set (c := mkConfig (mkPool true 1 [Some 4; Some 5]) [mkProc (Idle : Thread nat) (Ready (Q := Cond))]).
  assert (demo_steps_to c [(Take, Got None)]
    (mkConfig (mkPool true 1 [Some 4; Some 5]) [mkProc (Ended : Thread nat) (Ready (Q := Cond))])) as Hst.
  { apply (steps_step c (Some (Take, Got None))), step_move.
    eapply (move_run _ [_] 0); [done|done|done|reflexivity|constructor]. }
  eexists. split; [exact Hst|].
  destruct (closed_pool_takes_nothing demo_behave c _ _ eq_refl ltac:(by repeat constructor) Hst)
    as (_ & _ & H). exact H.
Defined.
