(* ===== verification/PoolEnd.v ===== *)
(** The destructor of the thread pool ([thread_pool.cpp]): it closes the pool and
    joins every worker.  Joining is waiting for a thread to leave [ExecProc]; the
    workers go on meanwhile as the monitor lets them. *)

From S2P Require Import Prelude Monitor ThreadPool.

#[local] Existing Instance pool_monitor.

(** * The destructor *)

Section PoolEnd.
Context {T : Type} (behave : T → @ending).

Abbreviation Config := (config (S := @ThreadPool T) (Q := Cond) (P := Thread T)).
Abbreviation pool_step := (step (Monitor0 := pool_monitor behave)).

(** The loop of [~ThreadPool] is about to join the [threads]. *)
Inductive Phase := Joining (threads : list nat) | Destroyed.
Record Dtor := mkDtor { machine : Config; phase : Phase }.

(** [Close()], then the first join; the workers are the first [n] threads. *)
Inductive closes_pool (n : nat) (c : Config) : Dtor → Prop :=
| closes_pool_intro p ns ps :
    pool_exec behave Close (shared c) = Returns Void p ns → delivers ns (procs c) ps →
    closes_pool n c (mkDtor (mkConfig p ps) (Joining (seq 0 n))).

Inductive dtor_step : Dtor → Dtor → Prop :=
| dtor_thread c e c' ph : pool_step c e c' → dtor_step (mkDtor c ph) (mkDtor c' ph)
| dtor_join c i rest q :
    procs c !! i = Some q → code q = Ended →
    dtor_step (mkDtor c (Joining (i :: rest))) (mkDtor c (Joining rest))
| dtor_done c : dtor_step (mkDtor c (Joining [])) (mkDtor c Destroyed).

(** * How far it has to go *)

(** A worker has at most to finish its task and to leave its loop. *)
Definition weight (q : proc (Q := Cond) (P := Thread T)) : nat :=
  match code q with Running _ => 2 | Idle => 1 | _ => 0 end.
Definition to_join (ph : Phase) : nat :=
  match ph with Joining ts => S (length ts) | Destroyed => 0 end.
Definition measure (d : Dtor) : nat := sum_list_with weight (procs (machine d)) + to_join (phase d).

(** A thread that is no client with calls left, and whose task ends. *)
Definition calm (th : Thread T) : Prop :=
  match th with
  | Running None => False
  | Running (Some t) => behave t ≠ Aborts
  | Client calls => calls = []
  | _ => True
  end.

Definition leaving (d : Dtor) : Prop :=
  closed_ (shared (machine d)) = true ∧
  Forall (λ q, calm (code q) ∧ status q ≠ Asleep cond_) (procs (machine d)) ∧
  match phase d with
  | Joining ts => Forall (λ i, ∃ q, procs (machine d) !! i = Some q ∧ worker (code q)) ts
  | Destroyed => True
  end.

(** What a thread of a closed pool does. *)
Lemma closed_move c e c' :
  pool_step c e c' → closed_ (shared c) = true →
  Forall (λ q, calm (code q) ∧ status q ≠ Asleep cond_) (procs c) →
  ∃ i q th, procs c !! i = Some q ∧ shared c' = shared c ∧
    procs c' = <[i := mkProc th Ready]> (procs c) ∧
    (code q = Idle ∧ th = Ended ∨ (∃ t, code q = Running t) ∧ th = Idle).
Proof.
  intros Hst Hc Hall.
  destruct Hst as [c e c' [s ps i q o r s' ns ps' Hi Ho ? He Hds|s ps i q o qu Hi Ho ? He|s ps i q o qu r Hi Ho Hs ??]
                  |s ps i q [] Hi Ha]; simpl in *; pose proof (Forall_lookup_1 _ _ _ _ Hall Hi) as [Hcalm Hns]; try done.
  - assert (s' = s ∧ ns = [] ∧ (code q = Idle ∧ resume (code q) r = Ended ∨
      (∃ t, code q = Running t) ∧ resume (code q) r = Idle)) as (-> & -> & Hcase).
    { destruct (code q) as [|[t|]| |calls]; simpl in *; simplify_eq; try done.
      - unfold pool_exec, do_Take, not_empty_or_closed in He. rewrite Hc, orb_true_r in He. simpl in He.
        injection He as <- <- <-. auto.
      - unfold pool_exec, do_Run in He. destruct (behave t); simplify_eq/=; eauto 6. }
    inversion Hds; subst. by exists i, q, (resume (code q) r).
  - destruct (code q) as [|[t|]| |calls]; simpl in *; simplify_eq; try done.
    + unfold pool_exec, do_Take, not_empty_or_closed in He. rewrite Hc, orb_true_r in He. done.
    + unfold pool_exec, do_Run in He. by destruct (behave t).
  - apply asleep_spec in Ha. done.
Qed.

Lemma dtor_step_leaving d d' :
  dtor_step d d' → leaving d → leaving d' ∧ measure d = S (measure d').
Proof.
  intros Hst (Hc & Hall & Hph). destruct Hst as [c e c' ph Hst|c i rest q Hi Hq|c]; simpl in *.
  - destruct (closed_move _ _ _ Hst Hc Hall) as (i & q & th & Hi & Hs & Hps & Hcase).
    unfold leaving, measure. simpl. rewrite Hs, Hps. split_and!; [done| | |].
    + apply Forall_insert; [done|]. simpl. destruct Hcase as [[_ ->]|[_ ->]]; done.
    + destruct ph as [ts|]; [|done]. eapply Forall_impl; [exact Hph|]. intros j (q' & Hj & Hw).
      destruct (decide (i = j)) as [->|Hne].
      * exists (mkProc th Ready). rewrite list_lookup_insert_eq by (by eapply lookup_lt_Some).
        split; [done|]. simpl. by destruct Hcase as [[_ ->]|[_ ->]].
      * exists q'. by rewrite list_lookup_insert_ne.
    + pose proof (sum_insert weight (procs c) i q (mkProc th Ready) Hi) as Hsum.
      assert (weight q = S (weight (mkProc th Ready))) as Hw; [|lia].
      unfold weight. simpl. destruct Hcase as [[-> ->]|[[t ->] ->]]; done.
  - apply Forall_cons in Hph as [_ Hph]. split; [done|]. unfold measure. simpl. lia.
  - split; [done|]. unfold measure. simpl. lia.
Qed.

Lemma dtor_steps_leaving n d d' :
  nsteps dtor_step n d d' → leaving d → leaving d' ∧ measure d = n + measure d'.
Proof.
  induction 1 as [d|n d d1 d' Hst _ IH]; intros Hd; [done|].
  destruct (dtor_step_leaving _ _ Hst Hd) as [H1 Hm]. destruct (IH H1) as [H2 Hm']. split; [done|]. lia.
Qed.

(** A thread that has not ended can go on. *)
Lemma thread_goes_on c i q :
  closed_ (shared c) = true → procs c !! i = Some q → calm (code q) → status q ≠ Asleep cond_ →
  worker (code q) → code q = Ended ∨ ∃ e c', pool_step c e c'.
Proof.
  intros Hc Hi Hcalm Hns Hw. destruct c as [s ps]. simpl in *.
  assert (awake q) as Ha by (by intros []).
  destruct (code q) as [|[t|]| |calls] eqn:Hq; try done; [right|right|by left].
  - eexists _, _. apply step_move. eapply (move_run _ _ i q Take (Got None)); [done|by rewrite Hq|done| |constructor].
    simpl. unfold do_Take, not_empty_or_closed. rewrite Hc, orb_true_r. reflexivity.
  - assert (∃ r, pool_exec behave (Run (Some t)) s = Returns r s []) as [r Hr].
    { simpl in *. destruct (behave t); [by eexists..|done]. }
    eexists _, _. apply step_move. eapply (move_run _ _ i q (Run (Some t)) r); [done|by rewrite Hq|done|exact Hr|constructor].
Qed.

Lemma dtor_progress d : leaving d → (∀ d', ¬ dtor_step d d') → phase d = Destroyed.
Proof.
  intros (Hc & Hall & Hph) Hstuck. destruct d as [c [[|i ts]|]]; simpl in *; [|exfalso|done].
  { destruct (Hstuck _ (dtor_done c)). }
  apply Forall_cons in Hph as [(q & Hi & Hw) _]. destruct (Forall_lookup_1 _ _ _ _ Hall Hi) as [Hcalm Hns].
  destruct (thread_goes_on c i q) as [He|(e & c' & Hst)]; try done.
  - by apply (Hstuck _ (dtor_join c i ts q Hi He)).
  - by apply (Hstuck _ (dtor_thread _ _ _ (Joining (i :: ts)) Hst)).
Qed.

Lemma dtor_steps_tasks n d d' :
  nsteps dtor_step n d d' → leaving d → tasks_ (shared (machine d')) = tasks_ (shared (machine d)).
Proof.
  induction 1 as [d|n d d1 d' Hst _ IH]; intros Hd; [done|].
  destruct (dtor_step_leaving _ _ Hst Hd) as [H1 _]. rewrite IH by done. destruct Hd as (Hc & Hall & _).
  destruct Hst as [c e c' ph Hst| |]; simpl in *; try done.
  destruct (closed_move _ _ _ Hst Hc Hall) as (_ & _ & _ & _ & Hs & _). by rewrite Hs.
Qed.

(** Nothing that matters is left to do where the destructor starts. *)
Definition settled (c : Config) : Prop := Forall (λ q, calm (code q)) (procs c).

Lemma closes_leaving n c d :
  closes_pool n c d → settled c → (∀ i, i < n → ∃ q, procs c !! i = Some q ∧ worker (code q)) →
  leaving d ∧ tasks_ (shared (machine d)) = tasks_ (shared c) ∧
  code <$> procs (machine d) = code <$> procs c.
Proof.
  intros [p ns ps Hex Hds] Hset Hn. simpl in Hex. injection Hex as <- <-.
  pose proof (delivers_code _ _ _ Hds) as Hcode.
  inversion Hds as [|? ? ? ps1 ? Hd Hnil]; subst. inversion Hnil; subst. inversion Hd as [| |[]]; subst.
  split_and!; [split; [done|split]|done|done]; simpl.
  - apply Forall_fmap. eapply Forall_impl; [exact Hset|]. intros x Hx. simpl. rewrite wake_code. split; [done|].
    rewrite wake_status. by case_decide.
  - apply Forall_forall. intros i Hi%elem_of_seq. destruct (Hn i) as (x & Hx & Hw); [lia|].
    exists (wake cond_ x). rewrite list_lookup_fmap, Hx, wake_code. done.
Qed.

Lemma weight_bound (c : Config) : sum_list_with weight (procs c) ≤ 2 * length (procs c).
Proof.
  induction (procs c) as [|q ps IH]; simpl; [lia|].
  assert (weight q ≤ 2) by (unfold weight; destruct (code q); lia). lia.
Qed.

(** * Properties *)

(** C21: The destructor of the thread pool returns.  From the moment it closes
    the pool, when no client calls the pool any more and the running tasks
    end, every execution of the workers and of the joins, spurious wake-ups
    included, stops after at most three steps for each thread and one; it stops
    only when every worker has been joined.  The tasks that no worker had taken
    are never run. *)
Theorem pool_destroyed p0 p workers clients es c d :
  Start p0 = Done (p, workers) →
  steps (Monitor0 := pool_monitor behave) (started p workers clients) es c →
  settled c → closes_pool (length workers) c d →
  ∀ n d', nsteps dtor_step n d d' →
    n ≤ 3 * length (procs c) + 1 ∧
    tasks_ (shared (machine d')) = tasks_ (shared c) ∧
    ((∀ d'', ¬ dtor_step d' d'') →
     phase d' = Destroyed ∧ ∀ q, q ∈ procs (machine d') → worker (code q) → code q = Ended).
Proof.
  intros H0 Hst Hset Hcl n d' Hn.
  assert (workers = replicate (N.to_nat (thread_count_ p0)) Idle) as Hwk
    by (unfold Start in H0; destruct (closed_ p0); simplify_eq; done).
  assert (∀ i, i < length workers → ∃ q, procs c !! i = Some q ∧ worker (code q)) as Hworkers.
  { intros i Hi. destruct (steps_worker behave _ _ _ i Hst) as (th & Hth & Hw).
    - rewrite started_codes, lookup_app_l by done. destruct (lookup_lt_is_Some_2 _ _ Hi) as [th Hth].
      exists th. split; [done|]. rewrite Hwk in Hth. by apply lookup_replicate in Hth as [-> _].
    - rewrite list_lookup_fmap in Hth. destruct (procs c !! i) as [q|] eqn:Hq; [|done].
      simplify_eq/=. by exists q. }
  destruct (closes_leaving _ _ _ Hcl Hset Hworkers) as (Hd & Htasks & Hcodes).
  destruct (dtor_steps_leaving _ _ _ Hn Hd) as [Hd' Hm]. split_and!.
  - assert (length (procs (machine d)) = length (procs c)) as Hlen by (by rewrite <-(length_fmap code), Hcodes, length_fmap).
    assert (length workers ≤ length (procs c)) as Hle.
    { destruct (Nat.le_gt_cases (length workers) (length (procs c))) as [|Hgt]; [done|].
      destruct (Hworkers _ Hgt) as (q & Hq & _). apply lookup_lt_Some in Hq. lia. }
    pose proof (weight_bound (machine d)) as Hb. unfold measure in Hm. rewrite Hlen in Hb.
    assert (to_join (phase d) = S (length workers)) as Hj by (destruct Hcl; simpl; by rewrite length_seq).
    lia.
  - by rewrite (dtor_steps_tasks _ _ _ Hn Hd).
  - intros Hstuck. split; [by apply dtor_progress|]. intros q Hq Hw. destruct Hd' as (Hc & Hall & _).
    rewrite Forall_forall in Hall. destruct (Hall q Hq) as [Hcalm Hns].
    apply list_elem_of_lookup in Hq as [i Hi].
    destruct (thread_goes_on _ i q Hc Hi Hcalm Hns Hw) as [|(e & c' & Hgo)]; [done|].
    destruct d' as [c1 ph]. destruct (Hstuck _ (dtor_thread c1 e c' ph Hgo)).
Qed.
End PoolEnd.

(** * Witness *)

(** A pool whose worker runs one task while another waits. *)
Definition busy_pool : @ThreadPool nat := mkPool false 1 [Some 5].
Definition busy : config (S := @ThreadPool nat) (Q := Cond) (P := Thread nat) :=
  mkConfig busy_pool [mkProc (Running (Some 4)) Ready; mkProc (Client []) Ready].
Definition busy_history : list (Op nat * Res nat) :=
  [(CheckOpen, Void); (Append (Some 4), Void); (CheckOpen, Void); (Append (Some 5), Void);
   (Take, Got (Some (Some 4)))].

Lemma busy_steps :
  steps (Monitor0 := pool_monitor demo_behave) (started demo_open [Idle] [Push (Some 4) ++ Push (Some 5)])
    busy_history busy.
Proof.
  set (cfg tasks w cl := mkConfig (S := @ThreadPool nat) (Q := Cond) (P := Thread nat) (mkPool false 1 tasks) [mkProc w Ready; mkProc (Client cl) Ready]).
  change busy_history with
    (option_list (Some (CheckOpen, Void : Res nat)) ++ option_list (Some (Append (Some 4), Void : Res nat)) ++
     option_list (Some (CheckOpen, Void : Res nat)) ++ option_list (Some (Append (Some 5), Void : Res nat)) ++
     option_list (Some (Take, Got (Some (Some 4)))) ++ ([] : list (Op nat * Res nat))).
  assert (∀ ps : list (proc (Q := Cond) (P := Thread nat)), Forall (λ q, status q = Ready) ps → delivers [One cond_] ps ps) as Hone.
  { intros ps Hps. eapply delivers_cons; [|constructor]. apply deliver_nobody. intros q Hq.
    rewrite Forall_forall in Hps. unfold asleep_on. by rewrite Hps. }
  apply (steps_cons _ _ (cfg [] Idle [Append (Some 4); CheckOpen; Append (Some 5)])).
  { apply step_move. eapply (move_run _ [_; _] 1); [done|done|done|reflexivity|constructor]. }
  apply (steps_cons _ _ (cfg [Some 4] Idle [CheckOpen; Append (Some 5)])).
  { apply step_move. eapply (move_run _ [_; _] 1); [done|done|done|reflexivity|]. apply Hone. by repeat constructor. }
  apply (steps_cons _ _ (cfg [Some 4] Idle [Append (Some 5)])).
  { apply step_move. eapply (move_run _ [_; _] 1); [done|done|done|reflexivity|constructor]. }
  apply (steps_cons _ _ (cfg [Some 4; Some 5] Idle [])).
  { apply step_move. eapply (move_run _ [_; _] 1); [done|done|done|reflexivity|]. apply Hone. by repeat constructor. }
  apply (steps_cons _ _ busy); [|constructor].
  apply step_move. eapply (move_run _ [_; _] 0); [done|done|done|reflexivity|constructor].
Qed.

Lemma pool_destroyed_witness : ∃ d,
  closes_pool demo_behave 1 busy d ∧
  ∀ n d', nsteps (dtor_step demo_behave) n d d' → n ≤ 7 ∧ tasks_ (shared (machine d')) = [Some 5].
Proof.
  eexists. split; [eapply (closes_pool_intro demo_behave 1 busy); [reflexivity|eapply delivers_cons; [apply deliver_all|constructor]]|].
  intros n d' Hn.
  destruct (pool_destroyed demo_behave demo_pool demo_open [Idle] [Push (Some 4) ++ Push (Some 5)] busy_history busy _
    eq_refl busy_steps ltac:(by repeat constructor)
    ltac:(eapply (closes_pool_intro demo_behave 1 busy); [reflexivity|eapply delivers_cons; [apply deliver_all|constructor]])
    n d' Hn) as (H1 & H2 & _).
  by split.
Defined.
