(* ===== verification/Logger.v ===== *)
(** The writing half of the logging system: the appenders of
    [src/log/appender.cpp] and the [Logger] and [Manager] of
    [src/log/log.cpp].  Appenders are shared objects: a logger holds pointers to
    them, another logger or the caller may hold the same ones. *)

From S2P Require Import Prelude LogField Monitor BlockDeque.

(** * Appenders *)

(** Where an appender writes: [std::cout], or the file of this name. *)
Inductive Sink := Cout | FileSink (name : str).
#[export] Instance Sink_eq_dec : EqDecision Sink.
Proof. solve_decision. Defined.

(** [StdOutAppender] and [FileAppender]; [formatter] is the pointer
    [formatter_], [None] when it is null. *)
Record Appender := mkAppender { sink : Sink; formatter : option Formatter }.

(** The objects that loggers share: the appenders, by address, and all that
    has been written so far, in order. *)
Record Heap := mkHeap { appender_at : gmap nat Appender; written : list (Sink * str) }.

(** The keys and values that [ToYamlString] puts into its node. *)
Definition appender_node (a : Appender) : list (str * str) :=
  (s!"type", AppenderTypeToString StdOut) ::
  match sink a with Cout => [] | FileSink f => [(s!"file", f)] end ++
  match formatter a with None => [] | Some f => [(s!"formatter", c_str (pattern_ f))] end.

(** * Loggers *)

(** [appenders_] is a list of [shared_ptr]; [None] is a null one. *)
Record Logger := mkLogger {
  name_ : str;
  capacity_ : N;
  level_ : Level;
  appenders_ : list (option nat);
  formatter_ : option Formatter
}.

(** A logger together with the shared objects. *)
Record World := mkWorld { logger : Logger; heap : Heap }.

Definition set_logger (l : Logger) (w : World) : World := mkWorld l (heap w).
Definition set_heap (h : Heap) (w : World) : World := mkWorld (logger w) h.

(** [async_]: the queue of events exists exactly when the capacity is
    positive. *)
Definition async_ (l : Logger) : bool := (0 <? capacity_ l)%N.

(** The constructor.  [formatter_] starts as [Formatter::Default()]. *)
Definition Logger_create (name : str) (level : Level) (capacity : option N) : outcome Logger :=
  f ← Formatter_Default;
  Done (mkLogger name (default 0%N capacity) level [] (Some f)).

Section Logging.
Context (strftime : N → str → Z → str).

(** [Appender::Log], through a pointer: writes the formatted event.  A null
    appender or a null formatter is dereferenced. *)
Definition Appender_Log (p : option nat) (e : Event) : M World unit :=
  a ← gets (λ w, p ≫= λ i, appender_at (heap w) !! i);
  a ← deref a;
  f ← deref (formatter a);
  modify (λ w, set_heap (mkHeap (appender_at (heap w))
    (written (heap w) ++ [(sink a, Format strftime f (name_ (logger w)) e)])) w).

(** [std::ranges::for_each(appenders_, ...)] *)
Fixpoint log_all (ps : list (option nat)) (e : Event) : M World unit :=
  match ps with
  | [] => mret tt
  | p :: ps' => Appender_Log p e;; log_all ps' e
  end.

Definition SyncLog (e : Event) : M World unit :=
  ps ← gets (λ w, appenders_ (logger w)); log_all ps e.

(** [event->Level() >= level_] *)
Definition enabled (e : Event) (l : Logger) : bool := Level_value (level_ l) <=? Level_value (event_level e).

(** [Log] of a synchronous logger; the asynchronous one is below. *)
Definition Log (e : Event) : M World unit :=
  l ← gets logger;
  if enabled e l then SyncLog e else mret tt.
End Logging.

(** [appender->SetFormatter(f)] through a pointer. *)
Definition SetFormatter (p : option nat) (f : option Formatter) : M World unit :=
  a ← gets (λ w, p ≫= λ i, appender_at (heap w) !! i);
  a ← deref a;
  i ← deref p;
  modify (λ w, set_heap (mkHeap (<[i := mkAppender (sink a) f]> (appender_at (heap w)))
    (written (heap w))) w).

(** [SetFormatter(std::string_view)] and [GetFormatter] *)
Definition SetFormatter_pattern (p : option nat) (pattern : str) : M World unit :=
  f ← of_outcome (make_Formatter pattern); SetFormatter p (Some f).
Definition GetFormatter (p : option nat) : M World (option Formatter) :=
  a ← gets (λ w, p ≫= λ i, appender_at (heap w) !! i);
  a ← deref a; mret (formatter a).

(** [Appender(std::string_view)]: an object without a formatter, which then gets
    one. *)
Definition Appender_of_pattern (at_ : Sink) (pattern : str) : outcome Appender :=
  f ← make_Formatter pattern; Done (mkAppender at_ (Some f)).
Definition Appender_of_formatter (at_ : Sink) (f : option Formatter) : Appender := mkAppender at_ f.

Definition set_appenders (ps : list (option nat)) (l : Logger) : Logger :=
  mkLogger (name_ l) (capacity_ l) (level_ l) ps (formatter_ l).

Definition AddAppender (p : nat) : M World unit :=
  a ← gets (λ w, appender_at (heap w) !! p);
  a ← deref a;
  l ← gets logger;
  (if decide (formatter a = None) then SetFormatter (Some p) (formatter_ l) else mret tt);;
  modify (λ w, set_logger (set_appenders (appenders_ (logger w) ++ [Some p]) (logger w)) w).

(** [std::remove_if] on a list of [shared_ptr]: the elements that stay are
    moved to the front, in order; behind the new end, those that were moved from
    are null and the others keep their value. *)
Definition remove_if {A} (p : option A → bool) (l : list (option A)) : list (option A) :=
  let kept := filter (λ x, p x = false) l in
  kept ++ ((λ x, if p x then x else None) <$> drop (length kept) l).

Definition same_pointer (p : nat) (q : option nat) : bool := bool_decide (q = Some p).

(** [RemoveAppender]: the iterator that [std::remove_if] returns is dropped. *)
Definition RemoveAppender (p : nat) : M World unit :=
  modify (λ w, set_logger (set_appenders (remove_if (same_pointer p) (appenders_ (logger w))) (logger w)) w).

Definition ClearAppenders : M World unit :=
  modify (λ w, set_logger (set_appenders [] (logger w)) w).

Definition Capacity : M World N := gets (λ w, capacity_ (logger w)).
Definition Name : M World str := gets (λ w, name_ (logger w)).

Definition GetLevel : M World Level := gets (λ w, level_ (logger w)).
Definition SetLevel (v : Level) : M World unit :=
  modify (λ w, let l := logger w in
    set_logger (mkLogger (name_ l) (capacity_ l) v (appenders_ l) (formatter_ l)) w).

Fixpoint set_all (ps : list (option nat)) (f : option Formatter) : M World unit :=
  match ps with
  | [] => mret tt
  | p :: ps' => SetFormatter p f;; set_all ps' f
  end.

Definition GetDefaultFormatter : M World (option Formatter) := gets (λ w, formatter_ (logger w)).

(** [SetDefaultFormatter(Formatter::Ptr)] *)
Definition SetDefaultFormatter (f : option Formatter) : M World unit :=
  modify (λ w, let l := logger w in
    set_logger (mkLogger (name_ l) (capacity_ l) (level_ l) (appenders_ l) f) w);;
  ps ← gets (λ w, appenders_ (logger w));
  set_all ps f.

(** [SetDefaultFormatter(std::string_view)] *)
Definition SetDefaultFormatter_pattern (pattern : str) : M World unit :=
  f ← of_outcome (make_Formatter pattern);
  SetDefaultFormatter (Some f).

(** * The manager *)

(** [loggers_]: the addresses of the loggers, by name; [next_] is the next
    free address, and [made] the loggers created so far. *)
Record Manager := mkManager { loggers_ : gmap str nat; made : list Logger }.

(** [FindLogger] looks the name up as a C string and inserts it as given;
    [emplace] keeps an entry that exists. *)
Definition FindLogger (name : str) (level : Level) (capacity : option N) : M Manager nat :=
  m ← get;
  match loggers_ m !! c_str name with
  | Some i => mret i
  | None =>
      l ← of_outcome (Logger_create name level capacity);
      let i := length (made m) in
      put (mkManager (if decide (is_Some (loggers_ m !! name)) then loggers_ m
                      else <[name := i]> (loggers_ m)) (made m ++ [l]));;
      mret i
  end.

Definition RemoveLogger (name : str) : M Manager unit :=
  modify (λ m, mkManager (delete (c_str name) (loggers_ m)) (made m)).

(** * The asynchronous logger

    Producers call [Log], which holds [mtx_] while [PushBack] runs; the writer
    thread pops events and calls [SyncLog], which needs [mtx_].  Waiting for
    the mutex or for the queue is the absence of a step: [BlockDeque] loses no
    wake-up here, because a logger never calls [Clear]. *)

Inductive Writer := Popping | Writing (e : Event) | Returned.

(** A thread that logs the events [todo]; [inside] while it holds [mtx_] in
    [PushBack] with the first of them. *)
Record producer := mkProducer { todo : list Event; inside : bool }.

(** [printed] is what the writer has passed to the appenders, [accepted] the
    events whose [Log] has returned after queueing them. *)
Record Async := mkAsync {
  mtx_ : option nat;
  event_deque_ : @BlockDeque Event;
  writer_thread_ : Writer;
  producers : list producer;
  printed : list Event;
  accepted : list Event
}.

Inductive async_step (l : Logger) : Async → Async → Prop :=
| async_skip d w ps out acc m i e es :
    ps !! i = Some (mkProducer (e :: es) false) → enabled e l = false →
    async_step l (mkAsync m d w ps out acc)
                 (mkAsync m d w (<[i := mkProducer es false]> ps) out acc)
| async_lock d w ps out acc i e es :
    ps !! i = Some (mkProducer (e :: es) false) → enabled e l = true →
    async_step l (mkAsync None d w ps out acc)
                 (mkAsync (Some i) d w (<[i := mkProducer (e :: es) true]> ps) out acc)
| async_push d d' ns w ps out acc i e es :
    ps !! i = Some (mkProducer (e :: es) true) → do_PushBack e d = Returns Void d' ns →
    async_step l (mkAsync (Some i) d w ps out acc)
                 (mkAsync None d' w (<[i := mkProducer es false]> ps) out (acc ++ [e]))
| async_pop d d' ns ps out acc m e :
    do_Pop d = Returns (Item (Some e)) d' ns →
    async_step l (mkAsync m d Popping ps out acc) (mkAsync m d' (Writing e) ps out acc)
| async_closed d d' ns ps out acc m :
    do_Pop d = Returns (Item None) d' ns →
    async_step l (mkAsync m d Popping ps out acc) (mkAsync m d' Returned ps out acc)
| async_write d ps out acc e :
    async_step l (mkAsync None d (Writing e) ps out acc) (mkAsync None d Popping ps (out ++ [e]) acc).

(** The logger after its constructor, with the threads that will use it. *)
Definition async_start (l : Logger) (d : @BlockDeque Event) (todos : list (list Event)) : Async :=
  mkAsync None d Popping ((λ es, mkProducer es false) <$> todos) [] [].

Definition in_flight (w : Writer) : list Event :=
  match w with Writing e => [e] | _ => [] end.

(** * Lemmas: logging *)

Section Lemmas.
Context (strftime : N → str → Z → str).

(** What one pointer contributes to a line-by-line log. *)
Definition line (l : Logger) (h : Heap) (e : Event) (p : option nat) : option (Sink * str) :=
  i ← p; a ← appender_at h !! i; f ← formatter a;
  Some (sink a, Format strftime f (name_ l) e).

(** Every pointer of the logger leads to an appender with a formatter. *)
Definition usable (h : Heap) (p : option nat) : Prop :=
  ∃ i a f, p = Some i ∧ appender_at h !! i = Some a ∧ formatter a = Some f.
Definition valid (w : World) : Prop := Forall (usable (heap w)) (appenders_ (logger w)).

Lemma Appender_Log_usable p e w :
  usable (heap w) p →
  ∃ x, line (logger w) (heap w) e p = Some x ∧
    Appender_Log strftime p e w =
      (Done tt, set_heap (mkHeap (appender_at (heap w)) (written (heap w) ++ [x])) w).
Proof.
  intros (i & a & f & -> & Ha & Hf). eexists. unfold line. simpl. rewrite Ha. simpl. rewrite Hf.
  split; [done|]. unfold Appender_Log. mstep. simpl. rewrite Ha. simpl.
  rewrite (bind_done _ _ _ _ _ (deref_some (Some a) a w eq_refl)).
  by rewrite (bind_done _ _ _ _ _ (deref_some _ f w Hf)).
Qed.

Lemma log_all_usable ps e : ∀ w,
  Forall (usable (heap w)) ps →
  ∃ xs, Forall2 (λ p x, line (logger w) (heap w) e p = Some x) ps xs ∧
    log_all strftime ps e w =
      (Done tt, set_heap (mkHeap (appender_at (heap w)) (written (heap w) ++ xs)) w).
Proof.
  induction ps as [|p ps IH]; intros w Hps.
  { exists []. split; [constructor|]. simpl. rewrite app_nil_r. by destruct w as [l []]. }
  apply Forall_cons in Hps as [Hp Hps].
  destruct (Appender_Log_usable p e w Hp) as (x & Hx & Hl).
  set (w' := set_heap (mkHeap (appender_at (heap w)) (written (heap w) ++ [x])) w) in *.
  destruct (IH w' Hps) as (xs & Hxs & Hls). exists (x :: xs).
  split; [by constructor|]. cbn [log_all]. rewrite (bind_done _ _ _ _ _ Hl), Hls. simpl.
  by rewrite <-app_assoc.
Qed.

(** A null pointer among usable ones is reached. *)
Lemma log_all_null ps e : ∀ w,
  None ∈ ps → Forall (λ p, p = None ∨ usable (heap w) p) ps →
  (log_all strftime ps e w).1 = Crash.
Proof.
  induction ps as [|p ps IH]; intros w Hin Hps; [by apply elem_of_nil in Hin|].
  apply Forall_cons in Hps as [[->|Hp] Hps]; [done|].
  destruct (Appender_Log_usable p e w Hp) as (x & Hx & Hl).
  cbn [log_all]. rewrite (bind_done _ _ _ _ _ Hl). apply IH; [|done].
  apply elem_of_cons in Hin as [<-|Hin]; [|done]. by destruct Hp as (? & ? & ? & ? & _).
Qed.
End Lemmas.

(** * Lemmas: [std::remove_if] *)

(** A filter that drops nothing. *)
Lemma list_filter_full {A} (P : A → Prop) `{∀ x, Decision (P x)} l :
  length l ≤ length (filter P l) → filter P l = l.
Proof.
  induction l as [|x l IH]; [done|]. rewrite filter_cons. pose proof (length_filter P l).
  case_decide; simpl; intros Hle; [f_equal; apply IH; lia|lia].
Qed.

Lemma remove_if_length {A} (p : option A → bool) l : length (remove_if p l) = length l.
Proof.
  unfold remove_if. rewrite length_app, length_fmap, length_drop.
  pose proof (length_filter (λ x, p x = false) l). lia.
Qed.

Lemma remove_if_elem {A} (p : option A → bool) l x : x ∈ remove_if p l → x = None ∨ x ∈ l.
Proof.
  unfold remove_if. rewrite elem_of_app. intros [H|H].
  - right. by apply list_elem_of_filter in H as [_ ?].
  - apply list_elem_of_fmap in H as (y & -> & Hy). destruct (p y); [|by left].
    right. eapply (subseteq_drop _ l). exact Hy.
Qed.

(** Without a null pointer in the result, nothing has moved. *)
Lemma remove_if_same {A} (p : option A → bool) l :
  None ∉ remove_if p l → remove_if p l = l.
Proof.
  unfold remove_if. set (n := length (filter (λ x, p x = false) l)). intros Hn.
  assert (Forall (λ x, p x = true) (drop n l)) as Hd.
  { apply Forall_forall. intros x Hx. apply not_false_iff_true. intros Hp. apply Hn.
    apply elem_of_app. right. apply list_elem_of_fmap. exists x. by rewrite Hp. }
  assert ((λ x, if p x then x else None) <$> drop n l = drop n l) as ->.
  { clear Hn. induction Hd as [|x k Hx _ IH]; [done|]. rewrite fmap_cons, Hx. f_equal. exact IH. }
  assert (filter (λ x, p x = false) l = filter (λ x, p x = false) (take n l)) as Hf.
  { rewrite <-(take_drop n l) at 1. rewrite filter_app.
    assert (filter (λ x, p x = false) (drop n l) = []) as ->; [|by rewrite app_nil_r].
    clear -Hd. induction Hd as [|x k Hx _ IH]; [done|]. rewrite filter_cons_False; [done|congruence]. }
  assert (filter (λ x, p x = false) (take n l) = take n l) as Ht.
  { apply list_filter_full. subst n. rewrite <-Hf, length_take.
    pose proof (length_filter (λ x, p x = false) l). lia. }
  by rewrite Hf, Ht, take_drop.
Qed.

(** * Lemmas: formatters *)

Lemma Logger_create_done name level cap :
  ∃ f, Logger_create name level cap = Done (mkLogger name (default 0%N cap) level [] (Some f)).
Proof.
  unfold Logger_create. destruct Formatter_Default as [f| | |] eqn:Hf;
    [by exists f|vm_compute in Hf; discriminate..].
Qed.

Lemma SetFormatter_at i a f w :
  appender_at (heap w) !! i = Some a →
  SetFormatter (Some i) f w =
    (Done tt, set_heap (mkHeap (<[i := mkAppender (sink a) f]> (appender_at (heap w))) (written (heap w))) w).
Proof.
  intros Ha. unfold SetFormatter. mstep. simpl. rewrite Ha.
  by rewrite (bind_done _ _ _ _ _ (deref_some (Some a) a w eq_refl)).
Qed.

Lemma SetFormatter_usable p f w :
  usable (heap w) p →
  ∃ i a, p = Some i ∧ appender_at (heap w) !! i = Some a ∧
    SetFormatter p f w =
      (Done tt, set_heap (mkHeap (<[i := mkAppender (sink a) f]> (appender_at (heap w))) (written (heap w))) w).
Proof.
  intros (i & a & g & -> & Ha & Hf). exists i, a. by split_and!; [..|apply SetFormatter_at].
Qed.

(** The formatter of every appender in [ps] becomes [f]. *)
Definition reformat (ps : list (option nat)) (f : option Formatter) (m : gmap nat Appender) :
    gmap nat Appender :=
  map_imap (λ i a, Some (if decide (Some i ∈ ps) then mkAppender (sink a) f else a)) m.

Lemma reformat_cons i a ps f m :
  m !! i = Some a →
  reformat ps f (<[i := mkAppender (sink a) f]> m) = reformat (Some i :: ps) f m.
Proof.
  intros Hi. unfold reformat. apply map_eq. intros j. rewrite !map_lookup_imap.
  destruct (decide (j = i)) as [->|Hne].
  - rewrite lookup_insert_eq, Hi. simpl.
    rewrite (decide_True (P := Some i ∈ Some i :: ps)) by set_solver. by case_decide.
  - rewrite lookup_insert_ne by done. destruct (m !! j) as [b|]; [|done].
    cbv beta iota delta [mbind option_bind].
    destruct (decide (Some j ∈ ps)) as [Hin|Hn].
    + by rewrite decide_True by set_solver.
    + rewrite decide_False; [done|]. rewrite elem_of_cons. naive_solver.
Qed.

Lemma usable_reformatted h p i a g :
  usable h p → appender_at h !! i = Some a →
  usable (mkHeap (<[i := mkAppender (sink a) (Some g)]> (appender_at h)) (written h)) p.
Proof.
  intros (j & b & f & -> & Hb & Hf) Ha. destruct (decide (j = i)) as [->|Hne].
  - exists i, (mkAppender (sink a) (Some g)), g. simpl. by rewrite lookup_insert_eq.
  - exists j, b, f. simpl. by rewrite lookup_insert_ne.
Qed.

Lemma set_all_usable g ps : ∀ w,
  Forall (usable (heap w)) ps →
  set_all ps (Some g) w =
    (Done tt, set_heap (mkHeap (reformat ps (Some g) (appender_at (heap w))) (written (heap w))) w) ∧
  Forall (usable (mkHeap (reformat ps (Some g) (appender_at (heap w))) (written (heap w)))) ps.
Proof.
  induction ps as [|p ps IH]; intros w Hps.
  { split; [|constructor]. simpl. destruct w as [l [m ws]]. unfold set_heap. simpl.
    do 4 f_equal. unfold reformat. apply map_eq. intros i. rewrite map_lookup_imap.
    by destruct (m !! i). }
  apply Forall_cons in Hps as [Hp Hps].
  destruct (SetFormatter_usable p (Some g) w Hp) as (i & a & -> & Ha & Hs).
  set (w' := set_heap _ w) in Hs. destruct (IH w') as [IH1 IH2].
  { eapply Forall_impl; [exact Hps|]. intros q Hq. by apply (usable_reformatted (heap w)). }
  cbn [set_all]. rewrite (bind_done _ _ _ _ _ Hs), IH1. subst w'. cbn [heap set_heap appender_at written] in *.
  rewrite reformat_cons in * by done. split; [done|]. constructor; [|exact IH2].
  exists i, (mkAppender (sink a) (Some g)), g. split_and!; [done| |done]. simpl. unfold reformat.
  rewrite map_lookup_imap, Ha. simpl. by rewrite decide_True by set_solver.
Qed.

(** * Lemmas: the asynchronous logger *)

(** The mutex is held by the thread that is inside [PushBack], and the events
    are where they should be. *)
Definition async_inv (l : Logger) (s : Async) : Prop :=
  (∀ i p, producers s !! i = Some p → inside p = true ↔ mtx_ s = Some i) ∧
  (∀ i p, producers s !! i = Some p → inside p = true → ∃ e es, todo p = e :: es ∧ enabled e l = true) ∧
  closed_ (event_deque_ s) = false ∧
  accepted s = printed s ++ in_flight (writer_thread_ s) ++ deq_ (event_deque_ s) ∧
  Forall (λ e, enabled e l = true) (accepted s).

Lemma do_PushBack_inv {T} (x : T) d r d' ns :
  do_PushBack x d = Returns r d' ns → d' = set_deq (deq_ d ++ [x]) d.
Proof. unfold do_PushBack, WaitForSpace. destruct (has_space d); [|done]. by intros [= _ <- _]. Qed.

Lemma do_Pop_inv {T} (d : @BlockDeque T) x d' ns :
  closed_ d = false → do_Pop d = Returns (Item x) d' ns →
  ∃ y l, x = Some y ∧ deq_ d = y :: l ∧ d' = set_deq l d.
Proof.
  intros Hc. unfold do_Pop. rewrite Hc. destruct (not_empty_or_closed d); [|done].
  destruct (deq_ d) as [|y k]; [done|]. intros [= <- <- _]. by exists y, k.
Qed.

Lemma async_step_inv l s s' : async_step l s s' → async_inv l s → async_inv l s'.
Proof.
  intros Hst (Hmtx & Hin & Hc & Hacc & Hen).
  destruct Hst as [d w ps out acc m i e es Hi He|d w ps out acc i e es Hi He|d d' ns w ps out acc i e es Hi Hp
    |d d' ns ps out acc m e Hp|d d' ns ps out acc m Hp|d ps out acc e]; cbn in *.
  - split_and!; try done; intros j p [(-> & <- & _)|[Hne Hj]]%list_lookup_insert_Some; naive_solver.
  - split_and!; try done; intros j p [(-> & <- & _)|[Hne Hj]]%list_lookup_insert_Some; naive_solver.
  - pose proof (do_PushBack_inv _ _ _ _ _ Hp) as ->. cbn. split_and!; try done.
    + intros j p [(-> & <- & _)|[Hne Hj]]%list_lookup_insert_Some; [done|].
      specialize (Hmtx _ _ Hj). naive_solver.
    + intros j p [(-> & <- & _)|[Hne Hj]]%list_lookup_insert_Some; [done|]. naive_solver.
    + by rewrite Hacc, <-!app_assoc.
    + apply Forall_app. split; [done|]. apply Forall_singleton.
      destruct (Hin _ _ Hi eq_refl) as (? & ? & [= <- <-] & ?). done.
  - destruct (do_Pop_inv _ _ _ _ Hc Hp) as (y & k & [= <-] & Hd & ->). cbn.
    split_and!; try done. by rewrite Hacc, Hd.
  - by destruct (do_Pop_inv _ _ _ _ Hc Hp) as (y & k & ? & _).
  - split_and!; try done. cbn. rewrite <-app_assoc. exact Hacc.
Qed.

Lemma async_reachable l cap d todos s :
  BlockDeque_create cap = Done d → rtc (async_step l) (async_start l d todos) s → async_inv l s.
Proof.
  unfold BlockDeque_create. destruct (0 <? cap)%N; [|done]. intros [= <-] Hst.
  assert (async_inv l (async_start l (mkDeque false cap []) todos)) as H0.
  { split_and!; try done; intros i p Hi; simpl in Hi; rewrite list_lookup_fmap in Hi;
      destruct (todos !! i); simplify_eq/=; done. }
  revert H0. induction Hst; eauto using async_step_inv.
Qed.

(** A lone thread fills the queue while the writer is on its way. *)
Lemma async_fill l w es : ∀ d out acc rest,
  closed_ d = false → (len (deq_ d) + len es ≤ BlockDeque.capacity_ d)%N → Forall (λ e, enabled e l = true) es →
  rtc (async_step l) (mkAsync None d w [mkProducer (es ++ rest) false] out acc)
    (mkAsync None (set_deq (deq_ d ++ es) d) w [mkProducer rest false] out (acc ++ es)).
Proof.
  induction es as [|e es IH]; intros d out acc rest Hc Hlen Hen.
  { rewrite !app_nil_r. by destruct d. }
  apply Forall_cons in Hen as [He Hen].
  eapply rtc_l; [exact (async_lock l d w [_] out acc 0 e (es ++ rest) eq_refl He)|].
  assert (do_PushBack e d = Returns Void (set_deq (deq_ d ++ [e]) d) [One consumer_cond_]) as Hp.
  { unfold do_PushBack, WaitForSpace. rewrite (proj2 (has_space_spec d)); [done|]. len_lia. }
  eapply rtc_l; [exact (async_push l d _ _ w [_] out acc 0 e (es ++ rest) eq_refl Hp)|].
  specialize (IH (set_deq (deq_ d ++ [e]) d) out (acc ++ [e]) rest Hc).
  simpl in IH. rewrite <-!app_assoc in IH. apply IH; [len_lia|done].
Qed.

(** * Properties *)

(** A synchronous logger writes an event of a sufficient level exactly
    once to each of its appenders, in the order in which they were added, each
    line with that appender's formatter and the logger's name; an event of a
    lower level writes nothing.  Nothing else changes. *)
Theorem log_writes strftime e w :
  valid w →
  ∃ lines, Log strftime e w =
      (Done tt, set_heap (mkHeap (appender_at (heap w)) (written (heap w) ++ lines)) w) ∧
    if enabled e (logger w)
    then Forall2 (λ p x, line strftime (logger w) (heap w) e p = Some x) (appenders_ (logger w)) lines
    else lines = [].
Proof.
  intros Hv. unfold Log. mstep. destruct (enabled e (logger w)).
  - unfold SyncLog. mstep. destruct (log_all_usable strftime _ e w Hv) as (xs & Hxs & Hl).
    by exists xs.
  - exists []. split; [|done]. rewrite app_nil_r. by destruct w as [l []].
Qed.

(** [AddAppender] appends the pointer, and gives the appender the
    logger's formatter exactly when it has none; the logger can then be used. *)
Theorem appender_added p a g w :
  valid w → appender_at (heap w) !! p = Some a → formatter_ (logger w) = Some g →
  ∃ w', AddAppender p w = (Done tt, w') ∧ valid w' ∧
    appenders_ (logger w') = appenders_ (logger w) ++ [Some p] ∧
    written (heap w') = written (heap w) ∧
    appender_at (heap w') =
      <[p := mkAppender (sink a) (Some (default g (formatter a)))]> (appender_at (heap w)).
Proof.
  intros Hv Ha Hg. unfold AddAppender. mstep. simpl. rewrite Ha.
  rewrite (bind_done _ _ _ _ _ (deref_some (Some a) a w eq_refl)). mstep.
  destruct (decide (formatter a = None)) as [Hf|Hf].
  - rewrite (bind_done _ _ _ _ _ (SetFormatter_at p a _ w Ha)). eexists. split; [reflexivity|]. rewrite Hf. simpl. rewrite Hg. split_and!; try done.
    apply Forall_app. split.
    + eapply Forall_impl; [exact Hv|]. intros q Hq. by apply (usable_reformatted (heap w)).
    + apply Forall_singleton. exists p, (mkAppender (sink a) (Some g)), g. split_and!; [done| |done].
      simpl. by rewrite lookup_insert_eq.
  - destruct (formatter a) as [f|] eqn:Hfa; [|done]. eexists. split; [reflexivity|]. simpl.
    split_and!; try done.
    + apply Forall_app. split; [done|]. apply Forall_singleton. by exists p, a, f.
    + rewrite insert_id; [done|]. rewrite Ha. by destruct a; simplify_eq/=.
Qed.

(** [RemoveAppender] removes nothing.  [std::remove_if] only moves the
    pointers that stay to the front, and its result is dropped: the list keeps
    its length, and either it is unchanged, so the appender still gets every
    event, or it now holds a null pointer, and the next event of a sufficient
    level dereferences it. *)
Theorem remove_appender_keeps strftime p w :
  valid w →
  ∃ w', RemoveAppender p w = (Done tt, w') ∧ heap w' = heap w ∧
    length (appenders_ (logger w')) = length (appenders_ (logger w)) ∧
    (appenders_ (logger w') = appenders_ (logger w) ∨
     ∀ e, enabled e (logger w) = true → (Log strftime e w').1 = Crash).
Proof.
  intros Hv. eexists. split; [reflexivity|]. simpl. split_and!; [done|apply remove_if_length|].
  set (l := remove_if (same_pointer p) (appenders_ (logger w))).
  destruct (decide (None ∈ l)) as [Hin|Hn]; [right|left; by apply remove_if_same].
  intros e He. unfold Log. mstep. unfold enabled in *. simpl. rewrite He.
  unfold SyncLog. mstep. simpl. apply log_all_null; [done|].
  apply Forall_forall. intros x Hx. destruct (remove_if_elem _ _ _ Hx) as [->|Hx']; [by left|right].
  unfold valid in Hv. rewrite Forall_forall in Hv. by apply Hv.
Qed.

(** [SetDefaultFormatter] gives the new formatter to every appender of
    the logger, those that had one of their own included, and to no other; the
    logger can then be used. *)
Theorem default_formatter_overrides g w :
  valid w →
  ∃ w', SetDefaultFormatter (Some g) w = (Done tt, w') ∧ valid w' ∧
    formatter_ (logger w') = Some g ∧ appenders_ (logger w') = appenders_ (logger w) ∧
    ∀ i a, appender_at (heap w) !! i = Some a →
      appender_at (heap w') !! i =
        Some (if decide (Some i ∈ appenders_ (logger w)) then mkAppender (sink a) (Some g) else a).
Proof.
  intros Hv. unfold SetDefaultFormatter. mstep. mstep. simpl.
  destruct (set_all_usable g (appenders_ (logger w)) (set_logger (mkLogger (name_ (logger w))
    (capacity_ (logger w)) (level_ (logger w)) (appenders_ (logger w)) (Some g)) w) Hv) as [Hs Hu].
  eexists. split; [exact Hs|]. split_and!; [exact Hu|done|done|].
  intros i a Ha. simpl. unfold reformat. by rewrite map_lookup_imap, Ha.
Qed.

(** [FindLogger] creates a logger with the given level and capacity on
    the first call with a name, and returns the same logger from then on,
    whatever it is asked for, until [RemoveLogger]. *)
Theorem find_logger_once name level cap m :
  c_str name = name →
  ∃ i m', FindLogger name level cap m = (Done i, m') ∧
    (loggers_ m !! name = Some i ∧ m' = m ∨
     loggers_ m !! name = None ∧ i = length (made m) ∧
       ∃ l, made m' = made m ++ [l] ∧ name_ l = name ∧ level_ l = level ∧
         capacity_ l = default 0%N cap ∧ appenders_ l = [] ∧ is_Some (formatter_ l)) ∧
    (∀ level' cap', FindLogger name level' cap' m' = (Done i, m')) ∧
    ∀ n, n ≠ name → loggers_ m' !! n = loggers_ m !! n.
Proof.
  intros Hn. destruct (loggers_ m !! name) as [i|] eqn:Hi.
  - exists i, m. unfold FindLogger. mstep. rewrite Hn, Hi. split_and!; [done|by left| |done].
    intros level' cap'. mstep. by rewrite Hi.
  - destruct (Logger_create_done name level cap) as [f Hf].
    set (l := mkLogger name (default 0%N cap) level [] (Some f)) in *.
    exists (length (made m)), (mkManager (<[name := length (made m)]> (loggers_ m)) (made m ++ [l])).
    split_and!.
    + unfold FindLogger. mstep. rewrite Hn, Hi, Hf.
      rewrite (bind_done _ _ _ _ _ (eq_refl : of_outcome (Done l) m = (Done l, m))). mstep.
      by rewrite decide_False by (by intros []).  
    + clear Hf. right. split_and!; [done|done|]. exists l. by split_and!.
    + clear Hf. intros level' cap'. unfold FindLogger. mstep. by rewrite Hn; simpl; rewrite lookup_insert_eq.
    + clear Hf. intros n Hne. simpl. by rewrite lookup_insert_ne.
Qed.

(** C34: An asynchronous logger prints the events in the order in which
    they were queued and loses none while it is alive: at any time, what has
    been printed, what the writer holds and what the queue holds are together
    the accepted events, all of a sufficient level; and [mtx_] is held by at
    most one thread, the one that is inside [PushBack]. *)
Theorem async_in_order l cap d todos s :
  BlockDeque_create cap = Done d → rtc (async_step l) (async_start l d todos) s →
  accepted s = printed s ++ in_flight (writer_thread_ s) ++ deq_ (event_deque_ s) ∧
  Forall (λ e, enabled e l = true) (accepted s) ∧
  ∀ i j p q, producers s !! i = Some p → producers s !! j = Some q →
    inside p = true → inside q = true → i = j.
Proof.
  intros Hd Hst. destruct (async_reachable _ _ _ _ _ Hd Hst) as (Hm & _ & _ & Ha & He).
  split_and!; [done|done|]. intros i j p q Hi Hj Hp Hq.
  apply (Hm _ _ Hi) in Hp. apply (Hm _ _ Hj) in Hq. congruence.
Qed.

(** An asynchronous logger can deadlock.  [Log] holds [mtx_] while
    [PushBack] waits for space, and the writer needs [mtx_] between two [Pop]s.
    With any capacity, one thread that logs two events more than the capacity
    can bring the logger into a state with no next step in which the queue is
    full and nothing has been printed. *)
Theorem async_deadlock l cap d e1 mid e2 rest :
  BlockDeque_create cap = Done d → len mid = cap →
  Forall (λ e, enabled e l = true) (e1 :: mid ++ [e2]) →
  ∃ s, rtc (async_step l) (async_start l d [e1 :: mid ++ e2 :: rest]) s ∧
    (∀ s', ¬ async_step l s s') ∧
    printed s = [] ∧ writer_thread_ s = Writing e1 ∧ deq_ (event_deque_ s) = mid ∧
    mtx_ s = Some 0 ∧ producers s = [mkProducer (e2 :: rest) true].
Proof.
  unfold BlockDeque_create. destruct (N.ltb_spec 0 cap) as [Hcap|]; [|done]. intros [= <-] Hmid Hen.
  apply Forall_cons in Hen as [He1 Hen]. apply Forall_app in Hen as [Hen [He2 _]%Forall_cons].
  exists (mkAsync (Some 0) (mkDeque false cap mid) (Writing e1) [mkProducer (e2 :: rest) true] [] (e1 :: mid)).
  split_and!; try done.
  - etrans; [apply (async_fill l Popping [e1] (mkDeque false cap []) [] [] (mid ++ e2 :: rest)); simpl|].
    { done. } { unfold len. simpl. lia. } { by constructor. }
    eapply rtc_l; [by eapply (async_pop l (mkDeque false cap [e1]))|].
    etrans; [apply (async_fill l (Writing e1) mid (mkDeque false cap []) [] [e1] (e2 :: rest))|].
    { done. } { simpl. unfold len in *. simpl. lia. } { done. }
    apply rtc_once. exact (async_lock l (mkDeque false cap mid) (Writing e1) [mkProducer (e2 :: rest) false]
      [] (e1 :: mid) 0 e2 rest eq_refl He2).
  - intros s' Hs. inversion Hs as [? ? ? ? ? ? i ? ? Hi| |? ? ? ? ? ? ? i ? ? Hi Hp| | |]; subst.
    + by destruct i.
    + unfold do_PushBack, WaitForSpace, has_space in Hp. cbn in Hp. by rewrite N.ltb_irrefl in Hp.
Qed.

(** * Witnesses *)

Definition demo_formatter : Formatter := mkFormatter (s!"%p:%m") [field.Level; field.RawString (s!":"); field.Message].
Definition demo_time (_ : N) (_ : str) (_ : Z) : str := [].
Definition demo_heap : Heap :=
  mkHeap {[0 := mkAppender Cout (Some demo_formatter); 1 := mkAppender (FileSink (s!"a.log")) (Some demo_formatter);
           2 := mkAppender Cout None]} [].
Definition demo_logger : Logger :=
  mkLogger (s!"app") 0 Info [Some 0; Some 1] (Some demo_formatter).
Definition demo_world : World := mkWorld demo_logger demo_heap.
Definition demo_event (l : Level) (m : str) : Event := mkEvent l (s!"main.cpp") 7 1 0 m.

Lemma demo_valid : valid demo_world.
Proof. repeat constructor; by eexists _, _, _. Qed.

Lemma log_writes_witness :
  ∃ lines, Log demo_time (demo_event Warn (s!"low")) demo_world =
      (Done tt, set_heap (mkHeap (appender_at demo_heap) lines) demo_world) ∧
    lines = [(Cout, s!"Warn:low"); (FileSink (s!"a.log"), s!"Warn:low")].
Proof.
  destruct (log_writes demo_time (demo_event Warn (s!"low")) demo_world demo_valid) as (ls & H & Hf).
  exists ls. split; [exact H|]. change (enabled _ _) with true in Hf. cbv iota in Hf.
  inversion Hf as [|? ? ? ? H1 Hf1]; subst. inversion Hf1 as [|? ? ? ? H2 Hf2]; subst.
  inversion Hf2; subst. vm_compute in H1, H2. injection H1 as <-. injection H2 as <-. reflexivity.
Defined.

Lemma appender_added_witness :
  ∃ w', AddAppender 2 demo_world = (Done tt, w') ∧ valid w' ∧
    appenders_ (logger w') = [Some 0; Some 1; Some 2] ∧ written (heap w') = [].
Proof.
  destruct (appender_added 2 (mkAppender Cout None) demo_formatter demo_world demo_valid eq_refl eq_refl)
    as (w' & H1 & H2 & H3 & H4 & _).
  exists w'. split; [exact H1|]. split; [exact H2|]. split; [exact H3|exact H4].
Defined.

(** Removing the first of two appenders leaves the second and a null pointer. *)
Lemma remove_appender_keeps_witness :
  ∃ w', RemoveAppender 0 demo_world = (Done tt, w') ∧ appenders_ (logger w') = [Some 1; None] ∧
    (Log demo_time (demo_event Error (s!"x")) w').1 = Crash.
Proof.
  destruct (remove_appender_keeps demo_time 0 demo_world demo_valid) as (w' & H & _ & _ & Hc).
  exists w'. split; [exact H|]. injection H as <-. split; [reflexivity|].
  destruct Hc as [Hc|Hc]; [discriminate Hc|]. apply Hc. reflexivity.
Defined.

Lemma default_formatter_overrides_witness :
  ∃ w', SetDefaultFormatter (Some (mkFormatter (s!"%m") [field.Message])) demo_world = (Done tt, w') ∧
    valid w' ∧
    appender_at (heap w') !! 0 = Some (mkAppender Cout (Some (mkFormatter (s!"%m") [field.Message]))) ∧
    appender_at (heap w') !! 2 = Some (mkAppender Cout None).
Proof.
  destruct (default_formatter_overrides (mkFormatter (s!"%m") [field.Message]) demo_world demo_valid)
    as (w' & H1 & H2 & _ & _ & H3).
  exists w'. split; [exact H1|]. split; [exact H2|].
  split; [exact (H3 0 _ eq_refl)|exact (H3 2 _ eq_refl)].
Defined.

Lemma find_logger_once_witness :
  ∃ i m', FindLogger (s!"net") Info None (mkManager ∅ []) = (Done i, m') ∧
    FindLogger (s!"net") Debug (Some 5%N) m' = (Done i, m').
Proof.
  destruct (find_logger_once (s!"net") Info None (mkManager ∅ []) eq_refl) as (i & m' & H1 & _ & H2 & _).
  exists i, m'. split; [exact H1|apply H2].
Defined.

Definition demo_async : Logger := mkLogger (s!"net") 1 Info [Some 0] None.

Lemma async_deadlock_witness :
  ∃ s, rtc (async_step demo_async) (async_start demo_async (mkDeque false 1 [])
      [[demo_event Info (s!"a"); demo_event Info (s!"b"); demo_event Info (s!"c")]]) s ∧
    (∀ s', ¬ async_step demo_async s s') ∧ printed s = [].
Proof.
  destruct (async_deadlock demo_async 1 (mkDeque false 1 []) (demo_event Info (s!"a"))
    [demo_event Info (s!"b")] (demo_event Info (s!"c")) [] eq_refl eq_refl) as (s & H1 & H2 & H3 & _).
  { repeat constructor. }
  exists s. split; [exact H1|]. split; [exact H2|exact H3].
Defined.

Lemma async_in_order_witness :
  ∃ s, rtc (async_step demo_async)
      (async_start demo_async (mkDeque false 1 []) [[demo_event Info (s!"a")]]) s ∧
    accepted s = [demo_event Info (s!"a")] ∧
    accepted s = printed s ++ in_flight (writer_thread_ s) ++ deq_ (event_deque_ s).
Proof.
  assert (rtc (async_step demo_async)
    (async_start demo_async (mkDeque false 1 []) [[demo_event Info (s!"a")]])
    (mkAsync None (mkDeque false 1 [demo_event Info (s!"a")]) Popping [mkProducer [] false] []
      [demo_event Info (s!"a")])) as Hst.
  { apply (async_fill demo_async Popping [demo_event Info (s!"a")] (mkDeque false 1 []) [] [] []);
      [reflexivity|vm_compute; discriminate|repeat constructor]. }
  eexists. split; [exact Hst|]. split; [reflexivity|].
  destruct (async_in_order demo_async 1 (mkDeque false 1 []) _ _ eq_refl Hst) as (H & _). exact H.
Defined.
