(* ===== verification/LoggerEnd.v ===== *)
(** The destructor of an asynchronous logger ([log.cpp]): it closes the queue of
    events and joins the writer thread. *)

From S2P Require Import Prelude Monitor BlockDeque LogField Logger.

(** * The destructor *)

Inductive Phase := Joining | Destroyed.

(** [event_deque_->Close()]; a synchronous logger has nothing to do. *)
Inductive closes_logger (l : Logger) (s : Async) : Async * Phase → Prop :=
| closes_async d ns :
    async_ l = true → do_Close (event_deque_ s) = Returns Void d ns →
    closes_logger l s (mkAsync (mtx_ s) d (writer_thread_ s) (producers s) (printed s) (accepted s), Joining)
| closes_sync : async_ l = false → closes_logger l s (s, Destroyed).

Inductive end_step (l : Logger) : Async * Phase → Async * Phase → Prop :=
| end_thread s s' ph : async_step l s s' → end_step l (s, ph) (s', ph)
| end_join s : writer_thread_ s = Returned → end_step l (s, Joining) (s, Destroyed).

(** * Lemmas *)

(** Nobody logs any more, and the queue is closed. *)
Definition ending (s : Async) : Prop :=
  mtx_ s = None ∧ Forall (λ p, todo p = []) (producers s) ∧
  closed_ (event_deque_ s) = true ∧ deq_ (event_deque_ s) = [].

Definition writer_steps (w : Writer) : nat :=
  match w with Writing _ => 2 | Popping => 1 | Returned => 0 end.
Definition to_go (x : Async * Phase) : nat :=
  writer_steps (writer_thread_ x.1) + match x.2 with Joining => 1 | Destroyed => 0 end.

Lemma closed_Pop {T} (d : @BlockDeque T) : closed_ d = true → do_Pop d = Returns (Item None) d [].
Proof. intros Hc. unfold do_Pop, not_empty_or_closed. by rewrite Hc, orb_true_r. Qed.

Lemma end_step_ending l x x' :
  end_step l x x' → ending x.1 →
  ending x'.1 ∧ to_go x = S (to_go x') ∧ accepted x'.1 = accepted x.1 ∧
  printed x'.1 ++ in_flight (writer_thread_ x'.1) = printed x.1 ++ in_flight (writer_thread_ x.1).
Proof.
  intros Hst (Hm & Hps & Hc & Hd). destruct Hst as [s s' ph Hst|s Hw]; simpl in *.
  2: { unfold to_go. simpl. rewrite Hw. done. }
  assert (∀ i p es b, producers s !! i = Some (mkProducer (p :: es) b) → False) as Hnone.
  { intros i p es b Hi. by pose proof (Forall_lookup_1 _ _ _ _ Hps Hi). }
  destruct Hst as [d w ps out acc m i e es Hi|d w ps out acc i e es Hi|d d' ns w ps out acc i e es Hi
    |d d' ns ps out acc m e Hp|d d' ns ps out acc m Hp|d ps out acc e]; simpl in *.
  1-3: by destruct (Hnone _ _ _ _ Hi).
  - by rewrite (closed_Pop d Hc) in Hp.
  - rewrite (closed_Pop d Hc) in Hp. by injection Hp as <- <-.
  - unfold ending, to_go. simpl. by rewrite app_nil_r.
Qed.

Lemma end_steps_ending l n x x' :
  nsteps (end_step l) n x x' → ending x.1 →
  ending x'.1 ∧ to_go x = n + to_go x' ∧ accepted x'.1 = accepted x.1 ∧
  printed x'.1 ++ in_flight (writer_thread_ x'.1) = printed x.1 ++ in_flight (writer_thread_ x.1).
Proof.
  induction 1 as [x|n x x1 x' Hst _ IH]; intros Hx; [done|].
  destruct (end_step_ending _ _ _ Hst Hx) as (H1 & Ht & Ha & Hp). destruct (IH H1) as (H2 & Ht' & Ha' & Hp').
  split_and!; [done|lia|congruence|congruence].
Qed.

Lemma end_progress l s ph :
  ending s → (∀ x, ¬ end_step l (s, ph) x) → writer_thread_ s = Returned ∧ ph = Destroyed.
Proof.
  intros (Hm & _ & Hc & _) Hstuck. destruct s as [m d w ps out acc]. simpl in *. subst m.
  destruct w as [|e|].
  - destruct (Hstuck _ (end_thread l _ _ ph (async_closed l d d [] ps out acc None (closed_Pop d Hc)))).
  - destruct (Hstuck _ (end_thread l _ _ ph (async_write l d ps out acc e))).
  - split; [done|]. destruct ph; [|done]. by destruct (Hstuck _ (end_join l (mkAsync None d Returned ps out acc) eq_refl)).
Qed.

(** Where no thread has anything left to log, nobody holds the mutex. *)
Lemma idle_unlocked l s :
  async_inv l s → Forall (λ p, todo p = []) (producers s) →
  (∀ i, mtx_ s = Some i → is_Some (producers s !! i)) → mtx_ s = None.
Proof.
  intros (Hm & Hin & _) Hps Hown. destruct (mtx_ s) as [i|] eqn:Hi; [|done].
  destruct (Hown i eq_refl) as [p Hp]. pose proof (proj2 (Hm i p Hp) eq_refl) as Hb.
  destruct (Hin i p Hp Hb) as (e & es & Ht & _). pose proof (Forall_lookup_1 _ _ _ _ Hps Hp) as Hz.
  simpl in Hz. congruence.
Qed.

Lemma step_owner l s s' :
  async_step l s s' → (∀ i, mtx_ s = Some i → is_Some (producers s !! i)) →
  ∀ i, mtx_ s' = Some i → is_Some (producers s' !! i).
Proof.
  destruct 1; simpl; intros Hown j Hj; try done;
    [apply lookup_lt_is_Some; rewrite length_insert; apply lookup_lt_is_Some; by apply Hown| |by apply Hown|by apply Hown].
  injection Hj as <-. apply lookup_lt_is_Some. rewrite length_insert. by eapply lookup_lt_Some.
Qed.

Lemma steps_owner l s s' :
  rtc (async_step l) s s' → (∀ i, mtx_ s = Some i → is_Some (producers s !! i)) →
  ∀ i, mtx_ s' = Some i → is_Some (producers s' !! i).
Proof. induction 1 as [|s1 s2 s3 H12 _ IH]; [done|]. intros Ho. apply IH. by eapply step_owner. Qed.

(** * Properties *)

(** C22: The destructor of an asynchronous logger returns, but throws events
    away.  When every thread that logged has finished, at most three more steps
    are possible, and when none is, the writer thread has been joined.  The event
    the writer held is printed; those still in the queue, whose [Log] has
    returned, never are. *)
Theorem logger_destroyed l cap d todos s x :
  BlockDeque_create cap = Done d → async_ l = true →
  rtc (async_step l) (async_start l d todos) s → Forall (λ p, todo p = []) (producers s) →
  closes_logger l s x →
  ∀ n y, nsteps (end_step l) n x y →
    n ≤ 3 ∧
    ((∀ z, ¬ end_step l y z) →
     y.2 = Destroyed ∧ writer_thread_ y.1 = Returned ∧
     printed y.1 = printed s ++ in_flight (writer_thread_ s) ∧
     accepted y.1 = printed y.1 ++ deq_ (event_deque_ s)).
Proof.
  intros Hd Hl Hst Hps Hx n y Hn. pose proof (async_reachable _ _ _ _ _ Hd Hst) as Hinv.
  assert (mtx_ s = None) as Hm.
  { eapply idle_unlocked; [exact Hinv|exact Hps|]. by eapply steps_owner. }
  destruct Hx as [d' ns _ Hc|Hc]; [|congruence]. injection Hc as <- <-.
  destruct (end_steps_ending _ _ _ _ Hn) as (He & Ht & Ha & Hp); [by split_and!|]. simpl in Ha, Hp.
  split.
  - unfold to_go in Ht. simpl in Ht. destruct (writer_thread_ s); simpl in Ht; lia.
  - intros Hstuck. destruct y as [s' ph]. destruct (end_progress l s' ph He Hstuck) as [Hw ->]. simpl in *.
    rewrite Hw, app_nil_r in Hp. split_and!; [done|done|done|].
    destruct Hinv as (_ & _ & _ & Hacc & _). by rewrite Ha, Hp, Hacc, <-app_assoc.
Qed.

(** * Witness *)

(** Two events are accepted; the logger dies before its writer looks. *)
Definition lost_logger : Logger := mkLogger (s!"net") 4 Info [Some 0] None.
Definition lost_event : Event := demo_event Info (s!"a").
Definition lost_state : Async :=
  mkAsync None (mkDeque false 4 [lost_event; lost_event]) Popping [mkProducer [] false] [] [lost_event; lost_event].

Lemma lost_steps : rtc (async_step lost_logger)
  (async_start lost_logger (mkDeque false 4 []) [[lost_event; lost_event]]) lost_state.
Proof.
  apply (async_fill lost_logger Popping [lost_event; lost_event] (mkDeque false 4 []) [] [] []); [done| |].
  - unfold len. simpl. lia.
  - by repeat constructor.
Qed.

Lemma logger_destroyed_witness : ∃ x y,
  closes_logger lost_logger lost_state x ∧ nsteps (end_step lost_logger) 2 x y ∧
  printed y.1 = [] ∧ accepted y.1 = [lost_event; lost_event].
Proof.
  set (closed w := mkAsync None (mkDeque true 4 []) w [mkProducer [] false] [] [lost_event; lost_event]).
  assert (closes_logger lost_logger lost_state (closed Popping, Joining)) as Hx
    by exact (closes_async lost_logger lost_state (mkDeque true 4 []) _ eq_refl eq_refl).
  assert (nsteps (end_step lost_logger) 2 (closed Popping, Joining) (closed Returned, Destroyed)) as Hn.
  { eapply nsteps_l; [apply end_thread, (async_closed lost_logger (mkDeque true 4 []) (mkDeque true 4 []) []); reflexivity|].
    apply nsteps_once. by apply end_join. }
  exists (closed Popping, Joining), (closed Returned, Destroyed). split; [exact Hx|]. split; [exact Hn|].
  destruct (logger_destroyed lost_logger 4 (mkDeque false 4 []) [[lost_event; lost_event]] lost_state _
    eq_refl eq_refl lost_steps ltac:(by repeat constructor) Hx _ _ Hn) as (_ & H).
  destruct H as (_ & _ & Hp & Ha); [|split; [exact Hp|exact Ha]].
  intros z Hz. destruct (end_step_ending _ _ _ Hz) as (_ & Hgo & _); [|done].
  repeat constructor.
Defined.
