(* ===== verification/LogConfig.v ===== *)
(** The configuration of loggers: [src/log/config_init.h] and
    [src/log/config_init.cpp].  A listener of the variable [loggers] rebuilds the
    loggers of a manager when their configuration changes. *)

From S2P Require Import Prelude LogField Yaml Convert Config Logger.

(** * Data *)

Record AppenderConfig := mkAppenderConfig {
  atype : AppenderType;
  aformatter : str;
  afile : str
}.

Record LoggerConfig := mkLoggerConfig {
  lname : str;
  llevel : Level;
  lcapacity : N;
  lformatter : str;
  lappenders : list AppenderConfig
}.

(** [operator==] of both structures. *)
#[export] Instance AppenderConfig_eq : EqDecision AppenderConfig.
Proof. solve_decision. Defined.
#[export] Instance LoggerConfig_eq : EqDecision LoggerConfig.
Proof. solve_decision. Defined.

#[export] Instance Level_countable : Countable Level.
Proof.
  refine (inj_countable Level_value (λ n, nth_error [Debug; Info; Warn; Error; Fatal] n) _). by intros [].
Defined.
#[export] Instance AppenderType_countable : Countable AppenderType.
Proof.
  refine (inj_countable (λ t, match t with StdOut => true | File => false end)
    (λ b : bool, Some (if b then StdOut else File)) _). by intros [].
Defined.
#[export] Instance AppenderConfig_countable : Countable AppenderConfig.
Proof.
  refine (inj_countable' (λ c, (atype c, aformatter c, afile c)) (λ p, mkAppenderConfig p.1.1 p.1.2 p.2) _).
  by intros [].
Defined.
#[export] Instance LoggerConfig_countable : Countable LoggerConfig.
Proof.
  refine (inj_countable' (λ c, (lname c, llevel c, lcapacity c, lformatter c, lappenders c))
    (λ p, mkLoggerConfig p.1.1.1.1 p.1.1.1.2 p.1.1.2 p.1.2 p.2) _).
  by intros [].
Defined.

(** * Conversions *)

Section Conversions.
Context `{Yaml}.

(** [ThrowIfYamlFieldIsNotScalar(node, f)] and [node[f].as<T>()]. *)
Definition read_field {A} (node : Node) (field : str) (as_ : Node → outcome A) : outcome A :=
  ThrowIfYamlFieldIsNotScalar node field;;
  f ← subscript node field;
  match f with Some n => as_ n | None => Crash end.

(** [if (node[f])] *)
Definition has_field (node : Node) (field : str) : outcome bool :=
  f ← subscript node field; Done (bool_decide (is_Some f)).

Definition AppenderConfig_FromStr (s : str) : outcome AppenderConfig :=
  node ← LoadYamlString s [s!"type"];
  name ← read_field node (s!"type") as_string;
  type ← StringToAppenderType name;
  has_file ← has_field node (s!"file");
  file ← (if has_file : bool then read_field node (s!"file") as_string else Done []);
  has_formatter ← has_field node (s!"formatter");
  formatter ← (if has_formatter : bool then read_field node (s!"formatters") as_string else Done []);
  Done (mkAppenderConfig type formatter file).

Definition AppenderConfig_ToStr (c : AppenderConfig) : outcome str :=
  let node := set_field null_node (s!"type") (scalar_node (AppenderTypeToString (atype c))) in
  let node := if decide (afile c = []) then node else set_field node (s!"file") (scalar_node (afile c)) in
  let node := if decide (aformatter c = []) then node
              else set_field node (s!"formatter") (scalar_node (aformatter c)) in
  Done (emit node).

#[export] Instance AppenderConfig_converter : VarConverter AppenderConfig := {|
  FromStr := AppenderConfig_FromStr; ToStr := AppenderConfig_ToStr
|}.

Definition LoggerConfig_FromStr (s : str) : outcome LoggerConfig :=
  node ← LoadYamlString s [s!"name"; s!"level"; s!"appenders"];
  name ← read_field node (s!"name") as_string;
  level_name ← read_field node (s!"level") as_string;
  level ← StringToLevel level_name;
  has_capacity ← has_field node (s!"capacity");
  capacity ← (if has_capacity : bool then read_field node (s!"capacity") as_size else Done 0%N);
  has_formatter ← has_field node (s!"formatter");
  formatter ← (if has_formatter : bool then read_field node (s!"formatter") as_string else Done []);
  appenders_node ← subscript node (s!"appenders");
  match appenders_node with
  | Some n => appenders ← list_FromStr (emit n); Done (mkLoggerConfig name level capacity formatter appenders)
  | None => Crash
  end.

(** The text of the appenders is assigned as it is. *)
Definition LoggerConfig_ToStr (c : LoggerConfig) : outcome str :=
  no_throw (
    let node := set_field null_node (s!"name") (scalar_node (lname c)) in
    let node := set_field node (s!"level") (scalar_node (LevelToString (llevel c))) in
    let node := set_field node (s!"capacity") (scalar_node (dec (lcapacity c))) in
    let node := set_field node (s!"formatter") (scalar_node (lformatter c)) in
    appenders ← list_ToStr (lappenders c);
    Done (emit (set_field node (s!"appenders") (scalar_node appenders)))).

#[export] Instance LoggerConfig_converter : VarConverter LoggerConfig := {|
  FromStr := LoggerConfig_FromStr; ToStr := LoggerConfig_ToStr
|}.
End Conversions.

(** * The listener *)

(** The loggers of a manager with the appenders that they share. *)
Record LogWorld := mkLogWorld { manager : Manager; heap_ : Heap }.

Section Listener.
(** Opening a file for appending gives the [errno] of a failure; [strerror]
    names it; [order] is the order of the hash set. *)
Context (open_file : str → option Z) (strerror : Z → str) (order : gset LoggerConfig → list LoggerConfig).

Definition on_manager {A} (m : M Manager A) : M LogWorld A :=
  zoom manager (λ x w, mkLogWorld x (heap_ w)) m.

(** A member function of the logger [i]. *)
Definition on_logger {A} (i : nat) (m : M World A) : M LogWorld A := λ w,
  match made (manager w) !! i with
  | Some l =>
      let '(r, x) := m (mkWorld l (heap_ w)) in
      (r, mkLogWorld (mkManager (loggers_ (manager w)) (<[i := logger x]> (made (manager w)))) (heap x))
  | None => (Crash, w)
  end.

Definition new_appender (a : Appender) : M LogWorld nat := λ w,
  let p := fresh (dom (appender_at (heap_ w))) in
  (Done p, mkLogWorld (manager w) (mkHeap (<[p := a]> (appender_at (heap_ w))) (written (heap_ w)))).

(** [std::make_shared<FileAppender>], whose constructor opens the file. *)
Definition make_appender (c : AppenderConfig) (f : option Formatter) : M LogWorld nat :=
  match atype c with
  | StdOut => new_appender (mkAppender Cout f)
  | File =>
      match open_file (c_str (afile c)) with
      | Some errno => throw (system_error errno) (strerror errno)
      | None => new_appender (mkAppender (FileSink (afile c)) f)
      end
  end.

Fixpoint add_appenders (i : nat) (cs : list AppenderConfig) : M LogWorld unit :=
  match cs with
  | [] => mret tt
  | c :: cs' =>
      f ← on_logger i GetDefaultFormatter;
      p ← make_appender c f;
      on_logger i (AddAppender p);;
      add_appenders i cs'
  end.

(** The body of the loop. *)
Definition apply_config (c : LoggerConfig) : M LogWorld unit :=
  on_manager (RemoveLogger (lname c));;
  i ← on_manager (FindLogger (lname c) (llevel c) (Some (lcapacity c)));
  (if decide (lformatter c = []) then mret tt else on_logger i (SetDefaultFormatter_pattern (lformatter c)));;
  on_logger i ClearAppenders;;
  add_appenders i (lappenders c).

Fixpoint apply_all (old : gset LoggerConfig) (cs : list LoggerConfig) : M LogWorld unit :=
  match cs with
  | [] => mret tt
  | c :: cs' => (if decide (c ∈ old) then mret tt else apply_config c);; apply_all old cs'
  end.

(** The lambda that [SetListener] adds, which is [noexcept]. *)
Definition on_loggers_changed (old new : gset LoggerConfig) : M LogWorld unit :=
  noexcept (apply_all old (order new)).
End Listener.

(** * Lemmas: conversions *)

Section ConversionLemmas.
Context `{YamlLaws}.

Lemma map_like_set n k v : map_like n → map_like (set_field n k v).
Proof. intros Hn. right. apply (map_set n k v Hn). Qed.

Lemma field_set n k v k' : map_like n →
  subscript (set_field n k v) k' = if decide (k' = k) then Done (Some v) else subscript n k'.
Proof. intros Hn. apply (map_set n k v Hn). Qed.

Lemma read_field_ok {A} n f s (as_ : Node → outcome A) :
  subscript n f = Done (Some (scalar_node s)) → read_field n f as_ = as_ (scalar_node s).
Proof.
  intros Hf. unfold read_field, ThrowIfYamlFieldIsNotScalar. rewrite Hf. cbn [mbind outcome_bind].
  by rewrite (proj1 (scalar_kind s)).
Qed.

(** A field that may be missing. *)
Lemma optional_field {A B} n f (as_ : Node → outcome B) (o : option A) (g : A → Node) (h : A → B) (d : B) :
  subscript n f = Done (g <$> o) → (∀ x, o = Some x → as_ (g x) = Done (h x)) →
  (∀ x, o = Some x → IsScalar (g x) = true) →
  (if bool_decide (is_Some (g <$> o)) then read_field n f as_ else Done d) = Done (default d (h <$> o)).
Proof.
  intros Hf Hg Hs. destruct o as [x|]; [|done]. simpl. unfold read_field, ThrowIfYamlFieldIsNotScalar.
  rewrite Hf. simpl. rewrite Hs by done. simpl. by apply Hg.
Qed.

Lemma mapM_outcome {A B} (f : A → outcome B) l k : Forall2 (λ x y, f x = Done y) l k → mapM f l = Done k.
Proof. induction 1 as [|x y l k Hx _ IH]; [done|]. cbn [mapM]. rewrite Hx. cbn [mbind outcome_bind]. by rewrite IH. Qed.

Lemma check_fields_ok s n fs :
  Forall (λ f, ∃ x, subscript n f = Done (Some x)) fs → fold_left (check_field s n) fs (Done tt) = Done tt.
Proof.
  induction 1 as [|f fs [x Hx] _ IH]; [done|]. cbn [fold_left]. unfold check_field at 2.
  cbn [mbind outcome_bind]. by rewrite Hx.
Qed.

Lemma LoadYamlString_fields n fs :
  Forall (λ f, ∃ x, subscript n f = Done (Some x)) fs → LoadYamlString (emit n) fs = Done n.
Proof.
  intros Hfs. unfold LoadYamlString. rewrite emit_text, Load_emit. cbn [mbind outcome_bind].
  by rewrite check_fields_ok.
Qed.

Lemma StringToAppenderType_name t : StringToAppenderType (AppenderTypeToString t) = Done t.
Proof. by destruct t. Qed.

Lemma StringToLevel_name l : StringToLevel (LevelToString l) = Done l.
Proof. by destruct l. Qed.

Ltac fields :=
  repeat (rewrite field_set by (repeat apply map_like_set; by left));
  rewrite ?field_null; repeat (first [rewrite decide_True by done|rewrite decide_False by done]).

(** The node of an appender. *)
Lemma AppenderConfig_ToStr_node c : ∃ n, AppenderConfig_ToStr c = Done (emit n) ∧
  subscript n (s!"type") = Done (Some (scalar_node (AppenderTypeToString (atype c)))) ∧
  subscript n (s!"file") = Done (if decide (afile c = []) then None else Some (scalar_node (afile c))) ∧
  subscript n (s!"formatter") =
    Done (if decide (aformatter c = []) then None else Some (scalar_node (aformatter c))) ∧
  subscript n (s!"formatters") = Done None.
Proof.
  eexists. split; [reflexivity|]. case_decide; case_decide; split_and!; by fields.
Qed.

Lemma AppenderConfig_round c : ∃ t, AppenderConfig_ToStr c = Done t ∧
  AppenderConfig_FromStr t =
    if decide (aformatter c = []) then Done c
    else Throw (Exn invalid_argument (quoted (s!"Invalid YAML field: ") (s!"formatters"))).
Proof.
  destruct (AppenderConfig_ToStr_node c) as (n & Hn & Ht & Hf & Hfo & Hfs). exists (emit n). split; [done|].
  unfold AppenderConfig_FromStr. rewrite LoadYamlString_fields by (repeat constructor; by eexists).
  cbn [mbind outcome_bind]. rewrite (read_field_ok n _ _ _ Ht), scalar_string. cbn [mbind outcome_bind].
  rewrite StringToAppenderType_name. cbn [mbind outcome_bind]. unfold has_field. rewrite Hf, Hfo.
  cbn [mbind outcome_bind].
  assert ((if bool_decide (is_Some (if decide (afile c = []) then None else Some (scalar_node (afile c))))
    then read_field n (s!"file") as_string else Done []) = Done (afile c)) as Hfile.
  { destruct (decide (afile c = [])) as [->|Hne]; [done|]. rewrite bool_decide_eq_true_2 by by eexists.
    by rewrite (read_field_ok n _ _ _ Hf), scalar_string. }
  rewrite Hfile. cbn [mbind outcome_bind]. destruct (decide (aformatter c = [])) as [He|He].
  - rewrite bool_decide_eq_false_2 by (by intros []). cbn [mbind outcome_bind]. destruct c. simpl in *. by subst.
  - rewrite bool_decide_eq_true_2 by by eexists. unfold read_field, ThrowIfYamlFieldIsNotScalar. by rewrite Hfs.
Qed.

Lemma appenders_printed (cs : list AppenderConfig) : ∃ t, list_ToStr cs = Done t.
Proof.
  assert (∀ n, ∃ n', list_node cs n = Done n') as Hl.
  { induction cs as [|c cs IH]; intros n; [by exists n|]. cbn [list_node].
    destruct (AppenderConfig_ToStr_node c) as (m & Hm & _).
    change (ToStr c) with (AppenderConfig_ToStr c). rewrite Hm. cbn [mbind outcome_bind].
    rewrite LoadYamlString_emit. apply IH. }
  destruct (Hl null_node) as [n Hn]. exists (emit n). unfold list_ToStr. by rewrite Hn.
Qed.

(** The fields in front of the appenders. *)
Lemma LoggerConfig_fields n name level_name level capacity formatter node :
  subscript n (s!"name") = Done (Some (scalar_node name)) →
  subscript n (s!"level") = Done (Some (scalar_node level_name)) → StringToLevel level_name = Done level →
  subscript n (s!"capacity") = Done ((λ k, scalar_node (dec k)) <$> capacity) →
  (∀ k, capacity = Some k → (k < word_mod)%N) →
  subscript n (s!"formatter") = Done (scalar_node <$> formatter) →
  subscript n (s!"appenders") = Done (Some node) →
  LoggerConfig_FromStr (emit n) = (appenders ← list_FromStr (emit node);
    Done (mkLoggerConfig name level (default 0%N capacity) (default [] formatter) appenders)).
Proof.
  intros H1 H2 Hlevel H3 Hcap H4 H5. unfold LoggerConfig_FromStr.
  rewrite LoadYamlString_fields by (repeat constructor; by eexists). cbn [mbind outcome_bind].
  rewrite (read_field_ok n _ _ _ H1), scalar_string. cbn [mbind outcome_bind].
  rewrite (read_field_ok n _ _ _ H2), scalar_string. cbn [mbind outcome_bind].
  rewrite Hlevel. cbn [mbind outcome_bind]. unfold has_field. rewrite H3, H4. cbn [mbind outcome_bind].
  rewrite (optional_field n _ as_size capacity (λ k, scalar_node (dec k)) id 0%N H3)
    by (intros; first [by apply scalar_size, Hcap|apply scalar_kind]). cbn [mbind outcome_bind].
  rewrite (optional_field n _ as_string formatter scalar_node id [] H4)
    by (intros; first [apply scalar_string|apply scalar_kind]). cbn [mbind outcome_bind].
  rewrite H5. cbn [mbind outcome_bind]. by rewrite !option_fmap_id.
Qed.

(** Without appenders the document is refused. *)
Lemma LoggerConfig_no_appenders n x y :
  subscript n (s!"name") = Done (Some x) → subscript n (s!"level") = Done (Some y) →
  subscript n (s!"appenders") = Done None →
  LoggerConfig_FromStr (emit n) = Throw (Exn invalid_argument (quoted (s!"Invalid YAML value: ") (emit n))).
Proof.
  intros H1 H2 H3. unfold LoggerConfig_FromStr, LoadYamlString. rewrite emit_text, Load_emit.
  cbn [mbind outcome_bind fold_left]. unfold check_field. cbn [mbind outcome_bind].
  by rewrite H1, H2, H3.
Qed.
Lemma LoggerConfig_round c : (lcapacity c < word_mod)%N →
  ∃ t s, LoggerConfig_ToStr c = Done t ∧ list_ToStr (lappenders c) = Done s ∧
    LoggerConfig_FromStr t = mismatched (emit (scalar_node s)).
Proof.
  intros Hcap. destruct (appenders_printed (lappenders c)) as [s Hs]. eexists _, s.
  split; [unfold LoggerConfig_ToStr; rewrite Hs; reflexivity|]. split; [done|].
  set (n := set_field _ (s!"appenders") _).
  assert (subscript n (s!"name") = Done (Some (scalar_node (lname c)))) as H1 by (unfold n; by fields).
  assert (subscript n (s!"level") = Done (Some (scalar_node (LevelToString (llevel c))))) as H2
    by (unfold n; by fields).
  assert (subscript n (s!"capacity") = Done (Some (scalar_node (dec (lcapacity c))))) as H3
    by (unfold n; by fields).
  assert (subscript n (s!"formatter") = Done (Some (scalar_node (lformatter c)))) as H4
    by (unfold n; by fields).
  assert (subscript n (s!"appenders") = Done (Some (scalar_node s))) as H5 by (unfold n; by fields).
  clearbody n. rewrite (LoggerConfig_fields n (lname c) _ (llevel c) (Some (lcapacity c)) (Some (lformatter c)) (scalar_node s))
    by (done || apply StringToLevel_name || by intros k [= <-]).
  unfold list_FromStr at 1. rewrite LoadYamlString_emit. cbn [mbind outcome_bind].
  by rewrite (proj1 (proj2 (scalar_kind s))).
Qed.
End ConversionLemmas.

(** * Lemmas: the listener *)

Section ListenerLemmas.
Context (open_file : str → option Z) (strerror : Z → str) (order : gset LoggerConfig → list LoggerConfig).
Implicit Types (w : LogWorld).

Lemma on_logger_ok {A} i (m : M World A) l w r x :
  made (manager w) !! i = Some l → m (mkWorld l (heap_ w)) = (r, x) →
  on_logger i m w = (r, mkLogWorld (mkManager (loggers_ (manager w)) (<[i := logger x]> (made (manager w)))) (heap x)).
Proof. intros Hl Hm. unfold on_logger. by rewrite Hl, Hm. Qed.

Definition sink_of (a : AppenderConfig) : Sink := match atype a with StdOut => Cout | File => FileSink (afile a) end.
Definition opens (a : AppenderConfig) : Prop := atype a = File → open_file (c_str (afile a)) = None.

#[export] Instance opens_dec a : Decision (opens a).
Proof. unfold opens. apply _. Defined.

(** The pointer [p] leads to the appender configured by [a], with the formatter [f]. *)
Definition appender_for (h : Heap) (f : Formatter) (p : option nat) (a : AppenderConfig) : Prop :=
  ∃ k, p = Some k ∧ appender_at h !! k = Some (mkAppender (sink_of a) (Some f)).

Lemma appender_for_mono h h' f p a :
  appender_at h ⊆ appender_at h' → appender_for h f p a → appender_for h' f p a.
Proof. intros Hh (k & -> & Hk). exists k. split; [done|]. by apply (lookup_weaken _ _ _ _ Hk). Qed.

Lemma make_appender_ok a f w : opens a →
  ∃ p h, make_appender open_file strerror a f w = (Done p, mkLogWorld (manager w) h) ∧
    appender_at (heap_ w) !! p = None ∧ appender_at h = <[p := mkAppender (sink_of a) f]> (appender_at (heap_ w)) ∧
    written h = written (heap_ w).
Proof.
  intros Ho. set (p := fresh (dom (appender_at (heap_ w)))).
  assert (appender_at (heap_ w) !! p = None) as Hp by (apply not_elem_of_dom, is_fresh).
  exists p. unfold make_appender, sink_of. destruct (atype a) eqn:Ha; [by eexists|].
  rewrite (Ho Ha). by eexists.
Qed.

(** The logger [i] is [l] and the appenders are those of [h]. *)
Definition with_logger (i : nat) (l : Logger) (h : Heap) (w : LogWorld) : LogWorld :=
  mkLogWorld (mkManager (loggers_ (manager w)) (<[i := l]> (made (manager w)))) h.

Lemma with_logger_id i l w : made (manager w) !! i = Some l → with_logger i l (heap_ w) w = w.
Proof. intros Hl. destruct w as [[m md] h]. unfold with_logger. simpl in *. by rewrite list_insert_id. Qed.

(** One turn of the loop over the appenders. *)
Lemma add_appender_ok i f (c : AppenderConfig) cs w l :
  made (manager w) !! i = Some l → formatter_ l = Some f → opens c →
  ∃ p h, add_appenders open_file strerror i (c :: cs) w =
      add_appenders open_file strerror i cs (with_logger i (set_appenders (appenders_ l ++ [Some p]) l) h w) ∧
    appender_for h f (Some p) c ∧ appender_at (heap_ w) ⊆ appender_at h ∧ written h = written (heap_ w).
Proof.
  intros Hl Hf Hc. cbn [add_appenders]. rewrite (bind_done _ _ w (Some f) w).
  2: { rewrite (on_logger_ok i _ l w (Done (Some f)) (mkWorld l (heap_ w)) Hl).
       - f_equal. by apply with_logger_id.
       - unfold GetDefaultFormatter. by rewrite <-Hf. }
  destruct (make_appender_ok c (Some f) w Hc) as (p & h & Hp & Hnew & Hh & Hw). mrun Hp.
  set (w1 := mkLogWorld (manager w) h).
  assert (AddAppender p (mkWorld l h) = (Done tt, mkWorld (set_appenders (appenders_ l ++ [Some p]) l) h)) as Hadd.
  { unfold AddAppender. mstep. simpl. rewrite Hh, lookup_insert_eq.
    rewrite (bind_done _ _ _ _ _ (deref_some (Some _) _ _ eq_refl)). mstep. reflexivity. }
  rewrite (bind_done _ _ _ _ _ (on_logger_ok i _ l w1 _ _ Hl Hadd)). exists p, h. split; [done|].
  split; [|split; [rewrite Hh; by apply insert_subseteq|done]].
  exists p. split; [done|]. by rewrite Hh, lookup_insert_eq.
Qed.

Lemma with_logger_lookup i l l' h w :
  made (manager w) !! i = Some l → made (manager (with_logger i l' h w)) !! i = Some l'.
Proof. intros Hl. apply list_lookup_insert_eq. by apply lookup_lt_Some in Hl. Qed.

Lemma add_appenders_ok i f cs : ∀ w l,
  made (manager w) !! i = Some l → formatter_ l = Some f → Forall opens cs →
  ∃ ps h, add_appenders open_file strerror i cs w =
      (Done tt, with_logger i (set_appenders (appenders_ l ++ ps) l) h w) ∧
    Forall2 (appender_for h f) ps cs ∧ appender_at (heap_ w) ⊆ appender_at h ∧ written h = written (heap_ w).
Proof.
  induction cs as [|c cs IH]; intros w l Hl Hf Hcs.
  { exists [], (heap_ w). rewrite app_nil_r. split; [|split; [constructor|done]].
    rewrite <-(with_logger_id i l w Hl) at 1. by destruct l. }
  apply Forall_cons in Hcs as [Hc Hcs].
  destruct (add_appender_ok i f c cs w l Hl Hf Hc) as (p & h & Hr & Hp & Hsub & Hw).
  destruct (IH _ _ (with_logger_lookup _ _ (set_appenders (appenders_ l ++ [Some p]) l) h _ Hl) Hf Hcs)
    as (ps & h' & Hr' & Hps & Hsub' & Hw').
  exists (Some p :: ps), h'. split; [|split; [|split]].
  - rewrite Hr, Hr'. unfold with_logger. simpl. by rewrite list_insert_insert_eq, <-app_assoc.
  - constructor; [|done]. by apply (appender_for_mono h).
  - by etrans.
  - simpl in Hw'. congruence.
Qed.

Lemma add_appenders_fails i f cs : ∀ w l,
  made (manager w) !! i = Some l → formatter_ l = Some f → Exists (λ c, ¬ opens c) cs →
  ∃ e w', add_appenders open_file strerror i cs w = (Throw e, w').
Proof.
  induction cs as [|c cs IH]; intros w l Hl Hf Hcs; [by apply Exists_nil in Hcs|].
  destruct (decide (opens c)) as [Hc|Hc].
  - apply Exists_cons in Hcs as [Hn|Hcs]; [done|].
    destruct (add_appender_ok i f c cs w l Hl Hf Hc) as (p & h & -> & _).
    by apply (IH _ _ (with_logger_lookup _ _ (set_appenders (appenders_ l ++ [Some p]) l) h _ Hl)).
  - cbn [add_appenders]. rewrite (bind_done _ _ w (Some f) w).
    2: { rewrite (on_logger_ok i _ l w (Done (Some f)) (mkWorld l (heap_ w)) Hl).
         - f_equal. by apply with_logger_id.
         - unfold GetDefaultFormatter. by rewrite <-Hf. }
    unfold opens in Hc. unfold make_appender. destruct (atype c); [by destruct Hc|].
    destruct (open_file (c_str (afile c))) as [n|]; [|by destruct Hc]. by eexists _, _.
Qed.

(** ** One logger *)

(** The formatter that a configuration asks for. *)
Definition wanted (c : LoggerConfig) : outcome Formatter :=
  if decide (lformatter c = []) then Formatter_Default else make_Formatter (lformatter c).

Lemma make_Formatter_cases p : (∃ f, make_Formatter p = Done f) ∨ ∃ e, make_Formatter p = Throw e.
Proof.
  unfold make_Formatter. destruct (ParsePattern_cases p) as [(fs & _ & ->)|(A & q & _ & _ & _ & ->)].
  - cbn [mbind outcome_bind].
    assert ((∃ x, RawFieldsToFormatFields fs = Done x) ∨ ∃ e, RawFieldsToFormatFields fs = Throw e) as [[x ->]|[e ->]].
    { induction fs as [|r fs IH]; [left; by eexists|]. cbn [RawFieldsToFormatFields]. unfold field_of_raw.
      destruct (raw_str r); [|destruct (table_find _ _); [|right; by eexists]]; cbn [mbind outcome_bind];
        (destruct IH as [[x ->]|[e ->]]; [left|right]; by eexists). }
    + left. by eexists.
    + right. by eexists.
  - right. by eexists.
Qed.

Lemma Formatter_Default_done : ∃ f, Formatter_Default = Done f.
Proof. eexists. vm_compute. reflexivity. Qed.

Lemma wanted_cases c : (∃ f, wanted c = Done f) ∨ ∃ e, wanted c = Throw e.
Proof.
  unfold wanted. case_decide; [left; apply Formatter_Default_done|apply make_Formatter_cases].
Qed.
(** The world after a logger has been made for [c], before its appenders. *)
Definition logger_made (c : LoggerConfig) (f : Formatter) (w : LogWorld) : LogWorld :=
  mkLogWorld (mkManager (<[lname c := length (made (manager w))]> (loggers_ (manager w)))
    (made (manager w) ++ [Logger.mkLogger (lname c) (lcapacity c) (llevel c) [] (Some f)])) (heap_ w).

Lemma last_made c f w :
  made (manager (logger_made c f w)) !! length (made (manager w)) =
    Some (Logger.mkLogger (lname c) (lcapacity c) (llevel c) [] (Some f)).
Proof. simpl. by rewrite lookup_app_r, Nat.sub_diag by lia. Qed.

Lemma FindLogger_new c w f : c_str (lname c) = lname c → Formatter_Default = Done f →
  (on_manager (RemoveLogger (lname c));; on_manager (FindLogger (lname c) (llevel c) (Some (lcapacity c)))) w =
    (Done (length (made (manager w))), logger_made c f w).
Proof.
  intros Hn Hf. set (m1 := mkManager (delete (lname c) (loggers_ (manager w))) (made (manager w))).
  set (w1 := mkLogWorld m1 (heap_ w)).
  assert (RemoveLogger (lname c) (manager w) = (Done tt, m1)) as H1 by (unfold RemoveLogger; by rewrite Hn).
  assert (on_manager (RemoveLogger (lname c)) w = (Done tt, w1)) as H2 by exact (zoom_done manager _ _ w tt m1 H1).
  mrun H2. refine (zoom_done manager _ _ w1 _ (manager (logger_made c f w)) _). unfold FindLogger. mstep. simpl.
  rewrite Hn, lookup_delete_eq. unfold Logger_create. rewrite Hf. cbn [mbind outcome_bind].
  rewrite (bind_done (of_outcome (Done _)) _ _ _ _ eq_refl). mstep. rewrite decide_False by (by intros []).
  by rewrite insert_delete_eq.
Qed.

Lemma apply_config_run c w : c_str (lname c) = lname c →
  (∀ f, wanted c = Done f → apply_config open_file strerror c w =
     add_appenders open_file strerror (length (made (manager w))) (lappenders c) (logger_made c f w)) ∧
  (∀ e, wanted c = Throw e → ∃ w', apply_config open_file strerror c w = (Throw e, w')).
Proof.
  intros Hn. destruct Formatter_Default_done as [f0 Hf0].
  assert (∀ K, (on_manager (RemoveLogger (lname c));;
    i ← on_manager (FindLogger (lname c) (llevel c) (Some (lcapacity c))); K i) w =
    K (length (made (manager w))) (logger_made c f0 w) :> outcome unit * LogWorld) as Hstart.
  { intros K. pose proof (FindLogger_new c w f0 Hn Hf0) as H. apply bind_done_inv in H as ([] & w1 & H1 & H2).
    by rewrite (bind_done _ _ _ _ _ H1), (bind_done _ _ _ _ _ H2). }
  unfold apply_config. rewrite Hstart. set (i := length _).
  pose proof (last_made c f0 w) as Hl. fold i in Hl.
  assert (∀ f, on_logger i ClearAppenders (logger_made c f w) = (Done tt, logger_made c f w)) as Hclear.
  { intros f. pose proof (last_made c f w) as Hlf. fold i in Hlf.
    rewrite (on_logger_ok i ClearAppenders _ _ (Done tt) (mkWorld _ (heap_ w)) Hlf eq_refl).
    f_equal. exact (with_logger_id i _ _ Hlf). }
  unfold wanted. destruct (decide (lformatter c = [])) as [He|He].
  - split; [|congruence]. intros f. rewrite Hf0. intros [= <-]. mstep. by mrun (Hclear f0).
  - split.
    + intros f Hf. rewrite (bind_done _ _ _ tt (logger_made c f w)); [by mrun (Hclear f)|].
      rewrite (on_logger_ok i _ _ _ (Done tt) (mkWorld (Logger.mkLogger (lname c) (lcapacity c) (llevel c) [] (Some f))
        (heap_ w)) Hl).
      * f_equal. unfold logger_made. simpl. do 2 f_equal. subst i.
        by rewrite insert_app_r_alt, Nat.sub_diag by lia.
      * unfold SetDefaultFormatter_pattern. rewrite Hf.
        by rewrite (bind_done (of_outcome _) _ _ _ _ eq_refl).
    + intros e Hf. eexists. erewrite bind_throw; [reflexivity|]. apply (on_logger_ok i _ _ _ (Throw e)
        (mkWorld (Logger.mkLogger (lname c) (lcapacity c) (llevel c) [] (Some f0)) (heap_ w)) Hl).
      unfold SetDefaultFormatter_pattern. rewrite Hf. by rewrite (bind_throw (of_outcome _) _ _ _ _ eq_refl).
Qed.
(** The manager has the logger that [c] describes. *)
Definition configured (w : LogWorld) (c : LoggerConfig) : Prop :=
  ∃ i f ps, loggers_ (manager w) !! lname c = Some i ∧ wanted c = Done f ∧
    made (manager w) !! i = Some (Logger.mkLogger (lname c) (lcapacity c) (llevel c) ps (Some f)) ∧
    Forall2 (appender_for (heap_ w) f) ps (lappenders c).

(** The loggers and appenders of [w] are as they were in [w'], where others may
    have been added; nothing has been written. *)
Definition extends (w w' : LogWorld) : Prop :=
  made (manager w) `prefix_of` made (manager w') ∧
  appender_at (heap_ w) ⊆ appender_at (heap_ w') ∧ written (heap_ w') = written (heap_ w).

#[export] Instance extends_preorder : PreOrder extends.
Proof.
  split; [by intros w|]. intros x y z (A1 & A2 & A3) (B1 & B2 & B3).
  split; [by etrans|]. split; [by etrans|congruence].
Qed.

Lemma configured_extends w w' c : extends w w' →
  loggers_ (manager w') !! lname c = loggers_ (manager w) !! lname c → configured w c → configured w' c.
Proof.
  intros (Hm & Hh & _) Hl (i & f & ps & Hi & Hf & Hlog & Hps). exists i, f, ps.
  split; [congruence|]. split; [done|]. split; [by apply (prefix_lookup_Some _ _ _ _ Hlog)|].
  eapply Forall2_impl; [exact Hps|]. intros p a. by apply appender_for_mono.
Qed.

(** A configuration that can be carried out, and one that cannot. *)
Definition sound (c : LoggerConfig) : Prop :=
  (∃ f, wanted c = Done f) ∧ Forall opens (lappenders c).

Lemma apply_config_ok c w : c_str (lname c) = lname c → sound c →
  ∃ w', apply_config open_file strerror c w = (Done tt, w') ∧ configured w' c ∧ extends w w' ∧
    ∀ n, n ≠ lname c → loggers_ (manager w') !! n = loggers_ (manager w) !! n.
Proof.
  intros Hn [[f Hf] Ho]. rewrite (proj1 (apply_config_run c w Hn) f Hf).
  destruct (add_appenders_ok _ f _ _ _ (last_made c f w) eq_refl Ho) as (ps & h & -> & Hps & Hsub & Hw).
  eexists. split; [reflexivity|]. unfold with_logger. simpl.
  rewrite insert_app_r_alt, Nat.sub_diag by lia. simpl. split; [|split; [|]].
  - exists (length (made (manager w))), f, ps. simpl. rewrite lookup_insert_eq, lookup_app_r, Nat.sub_diag by lia.
    by split_and!.
  - split; [by eexists|]. by split.
  - intros n Hne. simpl. by rewrite lookup_insert_ne.
Qed.

Lemma apply_config_fails c w : c_str (lname c) = lname c → ¬ sound c →
  ∃ e w', apply_config open_file strerror c w = (Throw e, w').
Proof.
  intros Hn Hs. destruct (apply_config_run c w Hn) as [Hok Hbad].
  destruct (wanted_cases c) as [[f Hf]|[e He]].
  - rewrite (Hok f Hf). apply (add_appenders_fails _ f _ _ _ (last_made c f w) eq_refl).
    apply not_Forall_Exists; [apply _|]. intros Ho. apply Hs. by split; [exists f|].
  - destruct (Hbad e He) as [w' Hw']. by exists e, w'.
Qed.

(** ** All loggers *)

(** The configurations that the listener acts upon. *)
Definition changed (old : gset LoggerConfig) (cs : list LoggerConfig) : list LoggerConfig :=
  filter (λ c, c ∉ old) cs.

Lemma changed_from_none cs : changed ∅ cs = cs.
Proof.
  unfold changed. induction cs as [|c cs IH]; [done|].
  rewrite filter_cons_True by apply not_elem_of_empty. by rewrite IH.
Qed.

Lemma apply_all_ok old cs : ∀ w,
  Forall (λ c, c_str (lname c) = lname c ∧ sound c) (changed old cs) → NoDup (lname <$> changed old cs) →
  ∃ w', apply_all open_file strerror old cs w = (Done tt, w') ∧ Forall (configured w') (changed old cs) ∧
    extends w w' ∧ ∀ n, n ∉ lname <$> changed old cs → loggers_ (manager w') !! n = loggers_ (manager w) !! n.
Proof.
  unfold changed. induction cs as [|c cs IH]; intros w Hcs Hnd.
  { exists w. split; [done|]. split; [constructor|]. by split. }
  cbn [apply_all]. rewrite filter_cons in *. destruct (decide (c ∈ old)) as [Hin|Hout].
  { rewrite decide_False in * by auto. mstep. by apply IH. }
  rewrite decide_True in * by done. apply Forall_cons in Hcs as [[Hn Hs] Hcs].
  rewrite fmap_cons in *. apply NoDup_cons in Hnd as [Hfresh Hnd].
  destruct (apply_config_ok c w Hn Hs) as (w1 & H1 & Hc & He & Hother). mrun H1.
  destruct (IH w1 Hcs Hnd) as (w2 & H2 & Hall & He2 & Hother2). exists w2. split; [done|].
  split; [|split; [by etrans|]].
  - constructor; [|done]. apply (configured_extends w1); [done| |done]. by apply Hother2.
  - intros n [Hne Hout']%not_elem_of_cons. rewrite Hother2 by done. by apply Hother.
Qed.

Lemma apply_all_fails old cs : ∀ w,
  Forall (λ c, c_str (lname c) = lname c) (changed old cs) → Exists (λ c, ¬ sound c) (changed old cs) →
  ∃ e w', apply_all open_file strerror old cs w = (Throw e, w').
Proof.
  unfold changed. induction cs as [|c cs IH]; intros w Hcs Hbad; [by apply Exists_nil in Hbad|].
  cbn [apply_all]. rewrite filter_cons in *. destruct (decide (c ∈ old)) as [Hin|Hout].
  { rewrite decide_False in * by auto. mstep. by apply IH. }
  rewrite decide_True in * by done. apply Forall_cons in Hcs as [Hn Hcs].
  destruct (decide (Forall opens (lappenders c))) as [Ho|Ho].
  2: { destruct (apply_config_fails c w Hn) as (e & w' & H1); [by intros [_ ?]|].
       exists e, w'. by rewrite (bind_throw _ _ _ _ _ H1). }
  destruct (wanted_cases c) as [Hf|[e He]].
  - assert (sound c) as Hs by done. apply Exists_cons in Hbad as [Hn'|Hbad]; [done|].
    destruct (apply_config_ok c w Hn Hs) as (w1 & H1 & _). mrun H1. by apply IH.
  - destruct (apply_config_fails c w Hn) as (e' & w' & H1); [intros [[f Hf] _]; congruence|].
    exists e', w'. by rewrite (bind_throw _ _ _ _ _ H1).
Qed.
End ListenerLemmas.

(** * Properties *)

(** The text printed for an appender configuration is read back as the same
    configuration when it has no formatter.  With a formatter it is refused: the reader
    tests the key [formatter] and then asks for the key [formatters]. *)
Theorem appender_config_round_trip `{YamlLaws} (c : AppenderConfig) :
  ∃ t, ToStr c = Done t ∧
    (aformatter c = [] → FromStr t = Done c) ∧
    (aformatter c ≠ [] →
       FromStr t = (Throw (Exn invalid_argument (s!"Invalid YAML field: 'formatters'")) : outcome AppenderConfig)).
Proof.
  destruct (AppenderConfig_round c) as (t & Ht & Hr). exists t. split; [done|].
  split; intros Hf; change (FromStr t) with (AppenderConfig_FromStr t); rewrite Hr; [by rewrite decide_True|].
  by rewrite decide_False.
Qed.

(** A logger is read from a document with its name, level and list of
    appenders; a missing capacity is 0, which makes the logger synchronous, and a missing
    formatter is empty, which stands for the default one. *)
Theorem logger_config_read `{YamlLaws} n name level_name level capacity formatter node nodes appenders :
  subscript n (s!"name") = Done (Some (scalar_node name)) →
  subscript n (s!"level") = Done (Some (scalar_node level_name)) → StringToLevel level_name = Done level →
  subscript n (s!"capacity") = Done ((λ k, scalar_node (dec k)) <$> capacity) →
  (∀ k, capacity = Some k → (k < word_mod)%N) →
  subscript n (s!"formatter") = Done (scalar_node <$> formatter) →
  subscript n (s!"appenders") = Done (Some node) → IsSequence node = true → seq_items node = nodes →
  Forall2 (λ m a, AppenderConfig_FromStr (emit m) = Done a) nodes appenders →
  LoggerConfig_FromStr (emit n) =
    Done (mkLoggerConfig name level (default 0%N capacity) (default [] formatter) appenders).
Proof.
  intros H1 H2 Hlevel H3 Hcap H4 H5 Hseq <- Happ.
  rewrite (LoggerConfig_fields n name level_name level capacity formatter node) by done. unfold list_FromStr.
  rewrite LoadYamlString_emit. cbn [mbind outcome_bind]. rewrite Hseq.
  assert (mapM (λ child, FromStr (emit child)) (seq_items node) = Done appenders) as ->
    by exact (mapM_outcome _ _ _ Happ). done.
Qed.

(** The text printed for a logger configuration is never read back.  The list of
    appenders is stored as a text, and the reader wants a sequence there. *)
Theorem logger_config_unreadable `{YamlLaws} (c : LoggerConfig) :
  (lcapacity c < word_mod)%N → ∃ t e, ToStr c = Done t ∧ FromStr t = (Throw e : outcome LoggerConfig) ∧
    kind e = invalid_argument.
Proof.
  intros Hcap. destruct (LoggerConfig_round c Hcap) as (t & s & Ht & _ & Hr).
  exists t. eexists. split; [exact Ht|]. by split; [exact Hr|].
Qed.

Section Properties.
Context (open_file : str → option Z) (strerror : Z → str) (order : gset LoggerConfig → list LoggerConfig).

(** C17: When the configurations of the loggers change and each changed one can be
    carried out, the manager has a new logger for each of them, with its name, level,
    capacity and formatter and one appender for each of its appenders, in their order,
    which print with the formatter of the logger.  The name of an unchanged or a removed
    configuration keeps its logger; the loggers and appenders in use before are left as
    they were. *)
Theorem listener_configures old new w :
  (∀ c, c ∈ changed old (order new) → c_str (lname c) = lname c ∧ sound open_file c) →
  NoDup (lname <$> changed old (order new)) →
  ∃ w', on_loggers_changed open_file strerror order old new w = (Done tt, w') ∧
    (∀ c, c ∈ changed old (order new) → configured w' c) ∧ extends w w' ∧
    ∀ n, n ∉ lname <$> changed old (order new) → loggers_ (manager w') !! n = loggers_ (manager w) !! n.
Proof.
  intros Hcs Hnd. destruct (apply_all_ok open_file strerror old (order new) w) as (w' & Hr & Hc & Hrest);
    [by apply Forall_forall|done|].
  exists w'. split; [unfold on_loggers_changed, noexcept; by rewrite Hr|]. split; [by apply Forall_forall|done].
Qed.

(** A changed configuration with a pattern that is not valid, or with a file that
    cannot be opened, ends the program: the listener is [noexcept] and nothing in it
    catches the exception. *)
Theorem listener_terminates old new w c :
  (∀ c, c ∈ changed old (order new) → c_str (lname c) = lname c) →
  c ∈ changed old (order new) →
  (lformatter c ≠ [] ∧ (∃ e, make_Formatter (lformatter c) = Throw e) ∨
   ∃ a errno, a ∈ lappenders c ∧ atype a = File ∧ open_file (c_str (afile a)) = Some errno) →
  (on_loggers_changed open_file strerror order old new w).1 = Crash.
Proof.
  intros Hn Hin Hbad. assert (¬ sound open_file c) as Hs.
  { intros [[f Hf] Ho]. destruct Hbad as [[Hne [e He]]|(a & errno & Ha & Ht & He)].
    - unfold wanted in Hf. rewrite decide_False in Hf by done. congruence.
    - rewrite Forall_forall in Ho. specialize (Ho a Ha Ht). congruence. }
  destruct (apply_all_fails open_file strerror old (order new) w) as (e & w' & Hr); [by apply Forall_forall|
    apply Exists_exists; by exists c|].
  unfold on_loggers_changed, noexcept. by rewrite Hr.
Qed.
End Properties.

(** * Witnesses *)

Definition to_console : AppenderConfig := mkAppenderConfig StdOut [] [].
Definition to_file (f : str) : AppenderConfig := mkAppenderConfig File [] f.
Definition root_config : LoggerConfig := mkLoggerConfig (s!"root") Info 50 [] [to_console; to_file (s!"log.txt")].
Definition system_config : LoggerConfig := mkLoggerConfig (s!"system") Debug 0 (s!"%d%T%m%n") [to_console].
Definition bad_config : LoggerConfig := mkLoggerConfig (s!"bad") Debug 0 (s!"%q") [].

Definition demo_open (f : str) : option Z := if decide (f = s!"log.txt") then None else Some 13%Z.
Definition demo_error (_ : Z) : str := s!"Permission denied".
Definition demo_log : LogWorld := mkLogWorld (mkManager ∅ []) (mkHeap ∅ []).

Lemma appender_config_round_trip_witness : ∃ t,
  AppenderConfig_ToStr (H := tree_yaml) (to_file (s!"log.txt")) = Done t ∧
  AppenderConfig_FromStr (H := tree_yaml) t = Done (to_file (s!"log.txt")).
Proof.
  destruct (appender_config_round_trip (H := tree_yaml) (H0 := tree_yaml_laws) (to_file (s!"log.txt")))
    as (t & Ht & Hr & _).
  exists t. split; [exact Ht|]. exact (Hr eq_refl).
Defined.

Abbreviation leaf x := (GenLeaf (s!x) : tree).
Definition demo_document : tree :=
  GenNode 1 [leaf "name"; leaf "root"; leaf "level"; leaf "info"; leaf "capacity"; leaf "50";
             leaf "appenders"; GenNode 0 [GenNode 1 [leaf "type"; leaf "stdout"];
               GenNode 1 [leaf "type"; leaf "file"; leaf "file"; leaf "log.txt"]]].

(** The first logger of the example in [config_init.h]. *)
Lemma logger_config_read_witness :
  LoggerConfig_FromStr (H := tree_yaml) (emit (Yaml := tree_yaml) demo_document) = Done root_config.
Proof.
  apply (logger_config_read (H := tree_yaml) (H0 := tree_yaml_laws) demo_document (s!"root") (s!"info") Info
    (Some 50%N) None (GenNode 0 [GenNode 1 [leaf "type"; leaf "stdout"];
       GenNode 1 [leaf "type"; leaf "file"; leaf "file"; leaf "log.txt"]])
    [GenNode 1 [leaf "type"; leaf "stdout"]; GenNode 1 [leaf "type"; leaf "file"; leaf "file"; leaf "log.txt"]]);
    [reflexivity..|intros k [= <-]; reflexivity|reflexivity|reflexivity|reflexivity|reflexivity|].
  repeat constructor; vm_compute; reflexivity.
Defined.

Lemma logger_config_unreadable_witness : ∃ t e,
  LoggerConfig_ToStr (H := tree_yaml) root_config = Done t ∧ LoggerConfig_FromStr (H := tree_yaml) t = Throw e.
Proof.
  destruct (logger_config_unreadable (H := tree_yaml) (H0 := tree_yaml_laws) root_config eq_refl)
    as (t & e & Ht & Hf & _).
  by exists t, e.
Defined.

(** The order of the documents. *)
Definition demo_order (cs : gset LoggerConfig) : list LoggerConfig :=
  filter (λ c, c ∈ cs) [root_config; system_config; bad_config].

Lemma demo_changed : changed ∅ (demo_order {[root_config; system_config]}) = [root_config; system_config].
Proof. vm_compute. reflexivity. Qed.

Lemma demo_sound c : c ∈ [root_config; system_config] → c_str (lname c) = lname c ∧ sound demo_open c.
Proof.
  rewrite elem_of_cons, list_elem_of_singleton.
  intros [-> | ->]; (split; [reflexivity|split; [eexists; vm_compute; reflexivity|]]);
    apply (bool_decide_unpack _); vm_compute; exact I.
Qed.

Lemma listener_configures_witness : ∃ w',
  on_loggers_changed demo_open demo_error demo_order ∅ {[root_config; system_config]} demo_log = (Done tt, w') ∧
  configured w' root_config ∧ configured w' system_config.
Proof.
  destruct (listener_configures demo_open demo_error demo_order ∅ {[root_config; system_config]} demo_log)
    as (w' & Hr & Hc & _).
  - rewrite demo_changed. apply demo_sound.
  - rewrite demo_changed. by apply (bool_decide_unpack _).
  - exists w'. split; [exact Hr|]. rewrite demo_changed in Hc.
    split; apply Hc; [left|right; left].
Defined.

Lemma demo_changed_bad : changed ∅ (demo_order {[bad_config]}) = [bad_config].
Proof. vm_compute. reflexivity. Qed.

Lemma listener_terminates_witness :
  (on_loggers_changed demo_open demo_error demo_order ∅ {[bad_config]} demo_log).1 = Crash.
Proof.
  apply (listener_terminates demo_open demo_error demo_order ∅ {[bad_config]} demo_log bad_config);
    rewrite ?demo_changed_bad.
  - intros c Hc%list_elem_of_singleton. by rewrite Hc.
  - left.
  - left. split; [done|]. eexists. vm_compute. reflexivity.
Defined.
