(* ===== verification/LogText.v ===== *)
(** The texts that loggers, appenders and the manager print of themselves, for
    storage: the three [ToYamlString] of [src/log/appender.cpp] and
    [src/log/log.cpp]; and the [EventWriter] of [log.cpp]. *)

From S2P Require Import Prelude LogField Yaml Convert Logger LogConfig.

Section Text.
Context `{Yaml}.

(** [node[k] = text] for each of the pairs. *)
Definition set_texts (node : Node) (fields : list (str * str)) : Node :=
  fold_left (λ n kv, set_field n kv.1 (scalar_node kv.2)) fields node.

(** [ToYamlString] of both classes of appenders. *)
Definition Appender_ToYamlString (a : Appender) : str := emit (set_texts null_node (appender_node a)).

(** The loop over the appenders; [node["appenders"]] is made by its first
    turn. *)
Fixpoint push_appenders (node : Node) (ps : list (option nat)) : M World Node :=
  match ps with
  | [] => mret node
  | p :: ps' =>
      a ← gets (λ w, p ≫= λ i, appender_at (heap w) !! i);
      a ← deref a;
      child ← of_outcome (YAML_Load (Appender_ToYamlString a));
      list ← of_outcome (subscript node (s!"appenders"));
      push_appenders (set_field node (s!"appenders") (push_back (default null_node list) child)) ps'
  end.

Definition logger_fields (l : Logger) : list (str * str) :=
  [(s!"name", Logger.name_ l); (s!"level", LevelToString (level_ l))] ++
  match formatter_ l with Some f => [(s!"formatter", c_str (pattern_ f))] | None => [] end.

Definition Logger_ToYamlString : M World str := noexcept (
  l ← gets logger;
  node ← push_appenders (set_texts null_node (logger_fields l)) (appenders_ l);
  mret (emit node)).

(** [Manager::ToYamlString]; [loggers] are the loggers in the order of the hash
    map. *)
Fixpoint push_loggers (node : Node) (loggers : list nat) : M LogWorld Node :=
  match loggers with
  | [] => mret node
  | i :: loggers' =>
      text ← on_logger i Logger_ToYamlString;
      child ← of_outcome (YAML_Load text);
      push_loggers (push_back node child) loggers'
  end.
Definition Manager_ToYamlString (order : gmap str nat → list (str * nat)) : M LogWorld str := noexcept (
  w ← get;
  node ← push_loggers null_node (order (loggers_ (manager w))).*2;
  mret (emit node)).

(** ** [EventWriter]

    It collects a message and logs the event when it is destroyed. *)
Record EventWriter := mkEventWriter { logger_ : nat; event_ : Event }.

Definition EventWriter_create (i : nat) (e : Event) : EventWriter := mkEventWriter i e.
Definition MessageStream (msg : str) (x : EventWriter) : EventWriter :=
  mkEventWriter (logger_ x) (write_message (event_ x) msg).
Definition EventWriter_destroy (strftime : N → str → Z → str) (x : EventWriter) : M LogWorld unit :=
  on_logger (logger_ x) (Log strftime (event_ x)).

(** The function [Log] and the operator of the same effect: a null logger logs
    nothing. *)
Definition free_Log (strftime : N → str → Z → str) (l : option nat) (e : Event) : M LogWorld unit :=
  match l with Some i => on_logger i (Log strftime e) | None => mret tt end.
End Text.

(** * Lemmas *)

Section Lemmas.
Context `{YamlLaws}.

Lemma set_texts_map n fs : map_like n → map_like (set_texts n fs).
Proof.
  unfold set_texts. revert n. induction fs as [|[k v] fs IH]; intros n Hn; [done|].
  apply IH, map_like_set, Hn.
Qed.

Lemma set_texts_other n fs k : map_like n → k ∉ fs.*1 → subscript (set_texts n fs) k = subscript n k.
Proof.
  unfold set_texts. revert n. induction fs as [|[k' v] fs IH]; intros n Hn Hk; [done|].
  cbn [fold_left fst snd]. apply not_elem_of_cons in Hk as [Hne Hk].
  rewrite IH by (done || by apply map_like_set). rewrite field_set by done. by rewrite decide_False.
Qed.

Lemma set_texts_field n fs k v : map_like n → NoDup fs.*1 → (k, v) ∈ fs →
  subscript (set_texts n fs) k = Done (Some (scalar_node v)).
Proof.
  revert n. induction fs as [|[k' v'] fs IH]; intros n Hn Hnd Hin; [by apply elem_of_nil in Hin|].
  apply NoDup_cons in Hnd as [Hk' Hnd]. unfold set_texts. cbn [fold_left fst snd].
  apply elem_of_cons in Hin as [[= <- <-]|Hin].
  - fold (set_texts (set_field n k (scalar_node v)) fs). rewrite set_texts_other by (done || by apply map_like_set).
    rewrite field_set by done. by rewrite decide_True.
  - apply IH; [by apply map_like_set|done|done].
Qed.

(** A formatter makes the text of an appender one that cannot be read. *)
Lemma appender_text_refused a f : formatter a = Some f →
  AppenderConfig_FromStr (Appender_ToYamlString a) =
    Throw (Exn invalid_argument (quoted (s!"Invalid YAML field: ") (s!"formatters"))).
Proof.
  intros Hf. unfold Appender_ToYamlString. set (n := set_texts null_node (appender_node a)).
  assert (NoDup (appender_node a).*1) as Hnd.
  { unfold appender_node. rewrite Hf. destruct (sink a); apply (bool_decide_unpack _); vm_compute; exact I. }
  assert (∀ k v, (k, v) ∈ appender_node a → subscript n k = Done (Some (scalar_node v))) as Hfield.
  { intros k v Hkv. by apply set_texts_field; [left| |]. }
  assert (subscript n (s!"formatters") = Done None) as Hbad.
  { unfold n. rewrite set_texts_other; [apply field_null|by left|]. unfold appender_node. rewrite Hf.
    destruct (sink a); apply (bool_decide_unpack _); vm_compute; exact I. }
  assert (∃ o, subscript n (s!"file") = Done (scalar_node <$> o)) as [o Hfile].
  { destruct (sink a) as [|file] eqn:Hs; [exists None|exists (Some file)].
    - unfold n. rewrite set_texts_other; [apply field_null|by left|]. unfold appender_node. rewrite Hf, Hs.
      apply (bool_decide_unpack _); vm_compute; exact I.
    - apply Hfield. unfold appender_node. rewrite Hs. right. left. }
  pose proof (Hfield (s!"type") (AppenderTypeToString StdOut) (list_elem_of_here _ _)) as Htype.
  assert ((s!"formatter", c_str (pattern_ f)) ∈ appender_node a) as Hin.
  { unfold appender_node. rewrite Hf. destruct (sink a); simpl; set_solver. }
  pose proof (Hfield _ _ Hin) as Hform. clear Hin Hfield Hnd. clearbody n.
  unfold AppenderConfig_FromStr. rewrite LoadYamlString_fields by (repeat constructor; by eexists).
  cbn [mbind outcome_bind]. rewrite (read_field_ok n _ _ _ Htype), scalar_string. cbn [mbind outcome_bind].
  change (StringToAppenderType (AppenderTypeToString StdOut)) with (Done StdOut : outcome AppenderType).
  cbn [mbind outcome_bind]. unfold has_field. rewrite Hfile, Hform. cbn [mbind outcome_bind].
  rewrite (optional_field n _ as_string o scalar_node id [] Hfile)
    by (intros; first [apply scalar_string|apply scalar_kind]). cbn [mbind outcome_bind].
  rewrite bool_decide_eq_true_2 by by eexists. unfold read_field, ThrowIfYamlFieldIsNotScalar. by rewrite Hbad.
Qed.

(** The node of an appender. *)
Definition text_node (a : Appender) : Node := set_texts null_node (appender_node a).

Lemma push_appenders_ok ps w : Forall (usable (heap w)) ps → ∀ node o,
  map_like node → subscript node (s!"appenders") = Done o → sequence_like (default null_node o) →
  ∃ as_ node', push_appenders node ps w = (Done node', w) ∧ map_like node' ∧
    Forall2 (λ p a, ∃ i, p = Some i ∧ appender_at (heap w) !! i = Some a ∧ is_Some (formatter a)) ps as_ ∧
    (∀ k, k ≠ s!"appenders" → subscript node' k = subscript node k) ∧
    match ps with
    | [] => node' = node
    | _ :: _ => ∃ list, subscript node' (s!"appenders") = Done (Some list) ∧ IsSequence list = true ∧
        seq_items list = seq_items (default null_node o) ++ (text_node <$> as_)
    end.
Proof.
  induction 1 as [|p ps (i & a & f & -> & Ha & Hf) _ IH]; intros node o Hn Ho Hs.
  { exists [], node. split; [done|]. split; [done|]. by split; [constructor|]. }
  destruct (seq_push (default null_node o) (text_node a) Hs) as [Hseq Hitems].
  set (list := push_back (default null_node o) (text_node a)) in *.
  set (node1 := set_field node (s!"appenders") list).
  assert (push_appenders node (Some i :: ps) w = push_appenders node1 ps w) as Hstep.
  { cbn [push_appenders]. mstep. cbn [mbind option_bind]. rewrite Ha. rewrite (bind_done _ _ _ _ _ (deref_some (Some a) a w eq_refl)).
    unfold Appender_ToYamlString. fold (text_node a). rewrite Load_emit.
    rewrite (bind_done (of_outcome (Done _)) _ _ _ _ eq_refl). cbv beta. rewrite Ho.
    by rewrite (bind_done (of_outcome (Done _)) _ _ _ _ eq_refl). }
  destruct (IH node1 (Some list)) as (as_ & node' & Hr & Hm & Hall & Hother & Hlast).
  { by apply map_like_set. }
  { unfold node1. rewrite field_set by done. by rewrite decide_True. }
  { by right. }
  exists (a :: as_), node'. split; [by rewrite Hstep|]. split; [done|]. split; [|split].
  - constructor; [|done]. exists i. by rewrite Hf.
  - intros k Hk. rewrite Hother by done. unfold node1. rewrite field_set by done. by rewrite decide_False.
  - destruct ps as [|p' ps].
    + subst node'. apply Forall2_nil_inv_l in Hall as ->. exists list. split; [|by split].
      unfold node1. rewrite field_set by done. by rewrite decide_True.
    + destruct Hlast as (list' & Hl & Hs' & Hi). exists list'. split; [done|]. split; [done|].
      rewrite Hi. change (default null_node (Some list)) with list. rewrite Hitems, <-app_assoc. done.
Qed.
(** A logger that can be used prints its node. *)
Lemma Logger_text w : valid w → ∃ n, Logger_ToYamlString w = (Done (emit n), w).
Proof.
  intros Hv. destruct (push_appenders_ok _ w Hv (set_texts null_node (logger_fields (logger w))) None)
    as (as_ & node & Hr & _).
  - apply set_texts_map. by left.
  - rewrite set_texts_other; [apply field_null|by left|]. unfold logger_fields.
    destruct (formatter_ (logger w)); apply (bool_decide_unpack _); vm_compute; exact I.
  - by left.
  - exists node. unfold Logger_ToYamlString, noexcept. mstep. by rewrite (bind_done _ _ _ _ _ Hr).
Qed.
End Lemmas.

(** * Properties *)

(** The text that a logger prints of itself, for storage, can never be loaded as the
    configuration of a logger.  Without appenders the field that is required is missing;
    with appenders, each of them has a formatter, and the reader refuses a formatter. *)
Theorem logger_text_refused `{YamlLaws} w :
  valid w → ∃ t e, Logger_ToYamlString w = (Done t, w) ∧
    LoggerConfig_FromStr t = Throw e ∧ kind e = invalid_argument.
Proof.
  intros Hv. set (n0 := set_texts null_node (logger_fields (logger w))).
  assert (NoDup (logger_fields (logger w)).*1) as Hnd.
  { unfold logger_fields. destruct (formatter_ (logger w)); apply (bool_decide_unpack _); vm_compute; exact I. }
  assert (∀ k, k ∉ (logger_fields (logger w)).*1 → subscript n0 k = Done None) as Hnone.
  { intros k Hk. unfold n0. rewrite set_texts_other; [apply field_null|by left|done]. }
  assert (∀ k v, (k, v) ∈ logger_fields (logger w) → subscript n0 k = Done (Some (scalar_node v))) as Hfield.
  { intros k v Hkv. by apply set_texts_field; [left| |]. }
  assert ((s!"appenders" ∉ (logger_fields (logger w)).*1) ∧ (s!"capacity" ∉ (logger_fields (logger w)).*1)) as Hkeys.
  { unfold logger_fields. destruct (formatter_ (logger w)); split; apply (bool_decide_unpack _); vm_compute; exact I. }
  assert (∀ node, push_appenders n0 (appenders_ (logger w)) w = (Done node, w) →
    Logger_ToYamlString w = (Done (emit node), w)) as printed.
  { intros node Hr. unfold Logger_ToYamlString, noexcept. mstep. fold n0. by rewrite (bind_done _ _ _ _ _ Hr). }
  destruct (push_appenders_ok _ w Hv n0 None) as (as_ & node & Hr & Hm & Hall & Hother & Hlast).
  { apply set_texts_map. by left. }
  { apply Hnone, Hkeys. }
  { by left. }
  assert (subscript node (s!"name") = Done (Some (scalar_node (Logger.name_ (logger w))))) as H1.
  { rewrite Hother by done. apply Hfield. left. }
  assert (subscript node (s!"level") = Done (Some (scalar_node (LevelToString (level_ (logger w)))))) as H2.
  { rewrite Hother by done. apply Hfield. right. left. }
  exists (emit node). destruct (appenders_ (logger w)) as [|p ps] eqn:Hps.
  - eexists. split; [exact (printed node Hr)|].
    rewrite (LoggerConfig_no_appenders node _ _ H1 H2); [by split|]. subst node. apply Hnone. apply Hkeys.
  - destruct Hlast as (list & H5 & Hseq & Hitems). inversion Hall as [|? a ? as' (i & -> & Ha & [f Hf])]; subst.
    eexists. split; [exact (printed node Hr)|].
    rewrite (LoggerConfig_fields node (Logger.name_ (logger w)) (LevelToString (level_ (logger w))) (level_ (logger w)) None
      ((λ f, c_str (pattern_ f)) <$> formatter_ (logger w)) list); try done.
    + unfold list_FromStr. rewrite LoadYamlString_emit. cbn [mbind outcome_bind]. rewrite Hseq, Hitems.
      change (seq_items (default null_node None)) with (seq_items null_node). rewrite seq_null. cbn [app fmap list_fmap mapM].
      change (FromStr (emit (text_node a))) with (AppenderConfig_FromStr (Appender_ToYamlString a)).
      rewrite (appender_text_refused a f Hf). by split.
    + apply StringToLevel_name.
    + rewrite Hother by done. apply Hnone. apply Hkeys.
    + rewrite Hother by done. destruct (formatter_ (logger w)) as [f'|] eqn:Hfm.
      * apply Hfield. unfold logger_fields. rewrite Hfm. right. right. left.
      * apply Hnone. unfold logger_fields. rewrite Hfm. apply (bool_decide_unpack _); vm_compute; exact I.
Qed.

(** The text of a manager is a list with the texts of its loggers. *)
Theorem manager_text `{YamlLaws} order w :
  (∀ i, i ∈ (order (loggers_ (manager w))).*2 →
     ∃ l, made (manager w) !! i = Some l ∧ valid (mkWorld l (heap_ w))) →
  ∃ node, Manager_ToYamlString order w = (Done (emit node), w) ∧
    Forall2 (λ i n, on_logger i Logger_ToYamlString w = (Done (emit n), w))
      (order (loggers_ (manager w))).*2 (seq_items node).
Proof.
  intros Hall.
  assert (∀ is_ node, Forall (λ i, ∃ n, on_logger i Logger_ToYamlString w = (Done (emit n), w)) is_ →
    sequence_like node → ∃ node' ns, push_loggers node is_ w = (Done node', w) ∧
      seq_items node' = seq_items node ++ ns ∧
      Forall2 (λ i n, on_logger i Logger_ToYamlString w = (Done (emit n), w)) is_ ns) as Hpush.
  { induction is_ as [|i is_ IH]; intros node Hl Hn; [exists node, []; by rewrite app_nil_r|].
    apply Forall_cons in Hl as [[n Hi] Hl]. destruct (seq_push node n Hn) as [Hs Hit].
    destruct (IH (push_back node n) Hl) as (node' & ns & Hr & Hitems & Hns); [by right|].
    exists node', (n :: ns). split; [|split; [by rewrite Hitems, Hit, <-app_assoc|by constructor]].
    cbn [push_loggers]. mrun Hi. rewrite Load_emit. by rewrite (bind_done (of_outcome (Done _)) _ _ _ _ eq_refl). }
  destruct (Hpush (order (loggers_ (manager w))).*2 null_node) as (node & ns & Hr & Hitems & Hns).
  - apply Forall_forall. intros i Hi. destruct (Hall i Hi) as (l & Hl & Hv).
    destruct (Logger_text (mkWorld l (heap_ w)) Hv) as (n & Hn). exists n.
    rewrite (on_logger_ok i _ l w _ _ Hl Hn). f_equal. exact (with_logger_id i l w Hl).
  - by left.
  - exists node. rewrite seq_null in Hitems. cbn [app] in Hitems. rewrite Hitems. split; [|done].
    unfold Manager_ToYamlString, noexcept. mstep. by rewrite (bind_done _ _ _ _ _ Hr).
Qed.

(** * Witnesses *)

Lemma logger_text_refused_witness : ∃ t e,
  Logger_ToYamlString (H := tree_yaml) demo_world = (Done t, demo_world) ∧
  LoggerConfig_FromStr (H := tree_yaml) t = Throw e.
Proof.
  destruct (logger_text_refused (H := tree_yaml) (H0 := tree_yaml_laws) demo_world demo_valid)
    as (t & e & Ht & He & _).
  by exists t, e.
Defined.

Definition demo_loggers : LogWorld := mkLogWorld (mkManager {[s!"root" := 0]} [logger demo_world]) (heap demo_world).

Lemma manager_text_witness : ∃ node,
  Manager_ToYamlString (H := tree_yaml) map_to_list demo_loggers = (Done (emit (Yaml := tree_yaml) node), demo_loggers) ∧
  length (seq_items (Yaml := tree_yaml) node) = 1.
Proof.
  destruct (manager_text (H := tree_yaml) (H0 := tree_yaml_laws) map_to_list demo_loggers) as (node & Hr & Hl).
  - intros i Hi. simpl in Hi. rewrite map_to_list_singleton in Hi. apply list_elem_of_singleton in Hi as ->.
    eexists. split; [reflexivity|exact demo_valid].
  - exists node. split; [exact Hr|]. apply Forall2_length in Hl. rewrite <-Hl. vm_compute. reflexivity.
Defined.
