(* ===== verification/Main.v ===== *)
(** The program's own start: [src/main.cpp] and the parts of
    [src/log/log.cpp] that it calls first.  It enters the variables with their default
    values, reads a local file over them and collects the settings of the server. *)

From S2P Require Import Prelude LogField Yaml Convert Config Logger LogConfig.
From S2P Require Response.

(** * The types of the variables *)

Inductive Ty := UInt16 | Size | Text | Loggers.
#[export] Instance Ty_eq : EqDecision Ty.
Proof. solve_decision. Defined.

Definition val (T : Ty) : Type :=
  match T with UInt16 | Size => N | Text => str | Loggers => gset LoggerConfig end.
#[export] Instance val_eq T : EqDecision (val T).
Proof. destruct T; apply _. Defined.

(** The loggers of the root manager, and the events in the queues of the
    asynchronous ones, with their loggers. *)
Record World := mkWorld { logs : LogWorld; queued : list (nat * Event) }.

(** The settings that the builder passes to the server; the time is in
    nanoseconds. *)
Record Settings := mkSettings { port_ : N; alive_time_ : Z; root_directory : str }.

Definition root_logger_name : str := s!"root".
Definition port_tag : str := s!"server.port".
Definition asset_folder_tag : str := s!"server.asset_folder".
Definition alive_time_tag : str := s!"server.alive_time".
Definition loggers_tag : str := s!"loggers".
Definition config_file : str := s!"config.yaml".

(** [std::chrono::seconds {n}] is a signed 64-bit count; its conversion to
    nanoseconds multiplies it, and must not overflow. *)
Definition int64 (n : N) : Z :=
  if (n <? 9223372036854775808)%N then Z.of_N n else (Z.of_N n - 18446744073709551616)%Z.
Definition seconds (n : N) : option Z :=
  let ns := (int64 n * 1000000000)%Z in
  if ((-9223372036854775808 <=? ns) && (ns <=? 9223372036854775807))%Z then Some ns else None.

Section Main.
Context `{Yaml}.
(** The file system: opening a log file, naming an error, whether a file exists,
    reading a document from one, and the current directory. *)
Context (open_file : str → option Z) (strerror : Z → str).
Context (exists_file : str → outcome bool) (YAML_LoadFile : str → outcome Node) (current_path : str).
(** The order of a set of configurations and of a map of listeners. *)
Context (order : gset LoggerConfig → list LoggerConfig) (visit : ∀ {A}, gmap N A → list (N * A)).
(** What a printed event says of its origin; [strftime] prints its time. *)
Context (strftime : N → str → Z → str) (file : str) (thread : N) (now : Z).

Definition conv (T : Ty) : VarConverter (val T) :=
  match T with
  | UInt16 => unsigned_converter uint16_max
  | Size => unsigned_converter size_max
  | Text => string_converter
  | Loggers => set_converter order
  end.

Abbreviation State := (State (val := val) (W := World)).
Abbreviation OnChange := (OnChange (val := val) (W := World)).

Definition on_logs {A} (m : M LogWorld A) : M World A := zoom logs (λ x w, mkWorld x (queued w)) m.

(** ** The root manager *)

(** The static of [RootManager] with its [call_once]. *)
Definition RootManager : M LogWorld unit :=
  i ← on_manager (FindLogger root_logger_name Info None);
  f ← of_outcome Formatter_Default;
  p ← new_appender (mkAppender Cout (Some f));
  on_logger i (AddAppender p).

Definition RootLogger : M LogWorld nat := on_manager (FindLogger root_logger_name Info None).

(** The free [FindLogger]. *)
Definition FindLogger_by_name (name : str) : M LogWorld nat := on_manager (FindLogger name Info None).

(** [RootLogger()->Log(Event::Create(level) << message)] at a line of
    [main.cpp].  An asynchronous logger queues the event. *)
Definition root_log (level : Level) (line_ : N) (message_ : str) : M World unit :=
  i ← on_logs RootLogger;
  w ← get;
  l ← deref (made (manager (logs w)) !! i);
  let e := write_message (Event_Create level file line_ thread now) message_ in
  if async_ l
  then if enabled e l then put (mkWorld (logs w) (queued w ++ [(i, e)])) else mret tt
  else on_logs (on_logger i (Log strftime e)).

(** ** The configuration *)

(** [SetListener]: the variable of type [Loggers] at [p] gets the listener. *)
Definition loggers_listener : OnChange Loggers := λ old new,
  on_logs (on_loggers_changed open_file strerror order old new).

Definition SetListener (p : nat) : M State unit := noexcept (
  v ← object_at p;
  match decide (Loggers = type v) with
  | left e => AddListener p v (eq_rect Loggers OnChange loggers_listener (type v) e);; mret tt
  | right _ => crash
  end).

Definition on_world {A} (m : M World A) : M State A :=
  zoom world (λ w s, mkState (vars_ s) (objects s) (next_key s) (cerr s) w) m.

(** [Manager::InitConfig], the first caller of [RootManager]. *)
Definition InitConfig : M State unit := noexcept (
  p ← Lookup_or_create Loggers loggers_tag ∅ (s!"Loggers");
  on_world (on_logs RootManager);;
  SetListener p).

Definition InitDefaultConfig : M State unit := noexcept (
  Lookup_or_create UInt16 port_tag 10000%N (s!"The listening port");;
  Lookup_or_create Size alive_time_tag 60%N (s!"The alive time of client (in seconds)");;
  Lookup_or_create Text asset_folder_tag (s!"assets") (s!"The asset folder");;
  mret tt).

(** [fuel] bounds the depth of the document. *)
Definition LoadConfig (fuel : nat) (path : str) : M State unit :=
  root ← of_outcome (YAML_LoadFile path); LoadYaml conv visit fuel root.

(** [config->Lookup<T>(tag)->GetValue()] *)
Definition value_of (T : Ty) (tag : str) : M State (val T) :=
  found ← Lookup T tag; p ← deref found; GetValue T p.

(** The first [try] block of [main]. *)
Definition load_local (fuel : nat) : M State unit :=
  try_catch
    (let config_path := Response.path_append current_path config_file in
     found ← of_outcome (exists_file config_path);
     if found : bool then LoadConfig fuel config_path else mret tt)
    (λ err, on_world (root_log Warn 62 (s!"Failed to load local configuration: " ++ what err))).

(** The second one as far as [builder.Create()]. *)
Definition build_settings : M State Settings :=
  port ← value_of UInt16 port_tag;
  alive_time ← value_of Size alive_time_tag;
  asset_folder ← value_of Text asset_folder_tag;
  ns ← deref (seconds alive_time);
  mret (mkSettings port ns (Response.path_append current_path asset_folder)).

(** [main] in front of its second [try] block. *)
Definition setup (fuel : nat) : M State unit :=
  InitConfig;;
  InitDefaultConfig;;
  load_local fuel.

(** What [main] does when the server cannot be run. *)
Definition report_failure (err : exn) : M State unit :=
  on_world (root_log Error 84 (s!"Failed to run server: " ++ what err)).

(** [main] up to the start of the server; [None] when it gives up with
    [EXIT_FAILURE]. *)
Definition main (fuel : nat) : M State (option Settings) :=
  setup fuel;;
  try_catch (s ← build_settings; mret (Some s)) (λ err, report_failure err;; mret None).
End Main.

(** * Lemmas *)

Section Lemmas.
Context `{Yaml}.
Context (open_file : str → option Z) (strerror : Z → str).
Context (exists_file : str → outcome bool) (YAML_LoadFile : str → outcome Node) (current_path : str).
Context (order : gset LoggerConfig → list LoggerConfig) (visit : ∀ {A}, gmap N A → list (N * A)).
Context (strftime : N → str → Z → str) (file : str) (thread : N) (now : Z).

Abbreviation State := (State (val := val) (W := World)).
Abbreviation listener := (loggers_listener open_file strerror order).

(** Before [main]: no variable, no logger. *)
Definition boot : State := mkState ∅ ∅ (λ _, 0%N) [] (mkWorld (mkLogWorld (mkManager ∅ []) (mkHeap ∅ [])) []).

(** The root logger, its appender and its formatter. *)
Definition root_formatter : Formatter :=
  match Formatter_Default with Done f => f | _ => mkFormatter [] [] end.
Definition root_world : World :=
  mkWorld (mkLogWorld (mkManager {[root_logger_name := 0]}
      [Logger.mkLogger root_logger_name 0 Info [Some 0] (Some root_formatter)])
    (mkHeap {[0 := mkAppender Cout (Some root_formatter)]} [])) [].

(** The state of the program once all variables exist. *)
Definition vars (loggers : gset LoggerConfig) (port alive_time : N) (asset_folder : str) (out : list str) (w : World) :
    State :=
  mkState {[loggers_tag := 0; port_tag := 1; alive_time_tag := 2; asset_folder_tag := 3]}
    {[0 := mkVar (val := val) loggers_tag (s!"Loggers") Loggers loggers {[0%N := listener]};
      1 := mkVar (val := val) port_tag (s!"The listening port") UInt16 port ∅;
      2 := mkVar (val := val) alive_time_tag (s!"The alive time of client (in seconds)") Size alive_time ∅;
      3 := mkVar (val := val) asset_folder_tag (s!"The asset folder") Text asset_folder ∅]}
    (λ T, if decide (T = Loggers) then 1%N else 0%N) out w.

(** A variable that is new. *)
Lemma variable_entered T name d description (s : State) p :
  vars_ s !! name = None → c_str name = name → fresh_object s = p →
  Lookup_or_create T name d description s =
    (Done p, mkState (<[name := p]> (vars_ s)) (<[p := mkVar (val := val) name description T d ∅]> (objects s))
       (next_key s) (cerr s) (world s)).
Proof.
  intros Hv Hn <-. unfold Lookup_or_create, Lookup, LookupBase. rewrite Hn.
  rewrite (bind_done _ _ s None s) by (mstep; by rewrite Hv). do 3 mstep. simpl.
  by rewrite decide_False by (rewrite Hv; by intros []).
Qed.

Lemma root_manager_made : on_logs RootManager (world boot) = (Done tt, root_world).
Proof. vm_compute. reflexivity. Qed.

Lemma variables_entered :
  (InitConfig open_file strerror order;; InitDefaultConfig) boot =
    (Done tt, vars ∅ 10000 60 (s!"assets") [] root_world).
Proof.
  set (s1 := mkState (val := val) {[loggers_tag := 0]}
    {[0 := mkVar (val := val) loggers_tag (s!"Loggers") Loggers ∅ {[0%N := listener]}]}
    (λ T, if decide (T = Loggers) then 1%N else 0%N) [] root_world : State).
  rewrite (bind_done _ _ _ tt s1).
  - unfold InitDefaultConfig, noexcept.
    erewrite bind_done; [|by apply (variable_entered UInt16 port_tag 10000%N (s!"The listening port") s1 1)].
    erewrite bind_done; [|by apply (variable_entered Size alive_time_tag 60%N (s!"The alive time of client (in seconds)") _ 2)].
    erewrite bind_done; [|by apply (variable_entered Text asset_folder_tag (s!"assets") (s!"The asset folder") _ 3)]. reflexivity.
  - unfold InitConfig. unfold noexcept at 1.
    erewrite bind_done; [|by apply (variable_entered Loggers loggers_tag ∅ (s!"Loggers") boot 0)].
    set (s0 := mkState (<[loggers_tag := 0]> (vars_ boot)) _ _ _ _).
    rewrite (bind_done _ _ s0 tt (mkState (vars_ s0) (objects s0) (next_key s0) (cerr s0) root_world)); [reflexivity|].
    exact (zoom_done world (λ w s, mkState (vars_ s) (objects s) (next_key s) (cerr s) w) (on_logs RootManager)
      s0 tt root_world root_manager_made).
Qed.

(** ** Reading a document over the variables *)

(** The type of a variable of the program. *)
Definition tag_type (name : str) : option Ty :=
  if decide (name = port_tag) then Some UInt16
  else if decide (name = alive_time_tag) then Some Size
  else if decide (name = asset_folder_tag) then Some Text
  else if decide (name = loggers_tag) then Some Loggers else None.

Abbreviation from_text T := (FromStr (VarConverter := conv order T)).

(** The value of the variable [name] after the members: the last one that names it
    decides. *)
Definition update (T : Ty) (name : str) (x : val T) (m : str * Node) : val T :=
  if decide (m.1 ≠ [] ∧ c_str m.1 = name)
  then match from_text T (emit m.2) with Done y => y | _ => x end else x.
Definition setting (T : Ty) (name : str) (default_val : val T) (ms : list (str * Node)) : val T :=
  fold_left (update T name) ms default_val.

(** A member that no variable is named by, or one that its variable can read. *)
Definition readable (m : str * Node) : Prop :=
  ∀ T, m.1 ≠ [] → tag_type (c_str m.1) = Some T → ∃ x, from_text T (emit m.2) = Done x.

Context (visit_all : ∀ A (m : gmap N A), visit A m ≡ₚ map_to_list m).

Lemma visit_none A : visit A ∅ = [].
Proof. apply Permutation_nil_r. by rewrite visit_all. Qed.

Lemma visit_one A k (x : A) : visit A {[k := x]} = [(k, x)].
Proof. apply Permutation_singleton_r. by rewrite visit_all, map_to_list_singleton. Qed.

Lemma set_plain p T n d x y ms k nd l pt a f out w :
  objects (vars l pt a f out w) !! p = Some (mkVar (val := val) n d T x ∅) →
  k ≠ [] → vars_ (vars l pt a f out w) !! c_str k = Some p → from_text T (emit nd) = Done y →
  load_members (conv order) visit ((k, nd) :: ms) (vars l pt a f out w) =
  load_members (conv order) visit ms (set_object p (mkVar (val := val) n d T y ∅) (vars l pt a f out w)).
Proof.
  intros Hp Hk Hv Hy. cbn [load_members]. rewrite decide_False by done.
  rewrite (bind_done _ _ _ tt (set_object p (mkVar (val := val) n d T y ∅) (vars l pt a f out w))); [done|].
  unfold LookupBase. mstep. rewrite Hv.
  rewrite (FromString_ok (conv order) visit p (mkVar (val := val) n d T x ∅) y (emit nd) _ Hp); [|unfold tame_var; simpl; rewrite visit_none; constructor|done].
  f_equal. unfold after_set. case_decide; [|done]. simpl. rewrite visit_none. done.
Qed.

(** Changing one of the variables leaves the others. *)
Lemma set_vars l pt a f out w pt' a' f' :
  set_object 1 (mkVar (val := val) port_tag (s!"The listening port") UInt16 pt' ∅) (vars l pt a f out w) =
    vars l pt' a f out w ∧
  set_object 2 (mkVar (val := val) alive_time_tag (s!"The alive time of client (in seconds)") Size a' ∅)
    (vars l pt a f out w) = vars l pt a' f out w ∧
  set_object 3 (mkVar (val := val) asset_folder_tag (s!"The asset folder") Text f' ∅) (vars l pt a f out w) =
    vars l pt a f' out w.
Proof. done. Qed.

Lemma load_readable m ms l pt a f out w :
  readable m → tag_type (c_str m.1) ≠ Some Loggers →
  load_members (conv order) visit (m :: ms) (vars l pt a f out w) =
  load_members (conv order) visit ms (vars l (update UInt16 port_tag pt m) (update Size alive_time_tag a m)
    (update Text asset_folder_tag f m) out w).
Proof.
  intros Hm Hn. destruct m as [k nd]. unfold update. cbn [fst snd].
  destruct (decide (k = [])) as [->|Hk].
  { rewrite !decide_False by (by intros []). cbn [load_members]. rewrite decide_True by done. by mstep. }
  unfold readable, tag_type in *. cbn [fst snd] in *.
  destruct (decide (c_str k = port_tag)) as [He|H1].
  { destruct (Hm UInt16 Hk eq_refl) as [y Hy]. rewrite Hy, He. rewrite decide_True, !decide_False by (by auto || by intros []).
    rewrite (set_plain 1 UInt16 port_tag _ pt y ms k nd l pt a f out w eq_refl Hk) by (by rewrite ?He). 
    by rewrite (proj1 (set_vars l pt a f out w y a f)). }
  destruct (decide (c_str k = alive_time_tag)) as [He|H2].
  { destruct (Hm Size Hk eq_refl) as [y Hy]. rewrite Hy, He. rewrite (decide_True (P := k ≠ [] ∧ alive_time_tag = alive_time_tag)), !decide_False by (by auto || by intros []).
    rewrite (set_plain 2 Size alive_time_tag _ a y ms k nd l pt a f out w eq_refl Hk) by (by rewrite ?He).
    by rewrite (proj1 (proj2 (set_vars l pt a f out w pt y f))). }
  destruct (decide (c_str k = asset_folder_tag)) as [He|H3].
  { destruct (Hm Text Hk eq_refl) as [y Hy]. rewrite Hy, He. rewrite (decide_True (P := k ≠ [] ∧ asset_folder_tag = asset_folder_tag)), !decide_False by (by auto || by intros []).
    rewrite (set_plain 3 Text asset_folder_tag _ f y ms k nd l pt a f out w eq_refl Hk) by (by rewrite ?He).
    by rewrite (proj2 (proj2 (set_vars l pt a f out w pt a y))). }
  rewrite !decide_False by (by intros []). cbn [load_members]. rewrite decide_False by done.
  destruct (decide (c_str k = loggers_tag)) as [|H4]; [done|].
  rewrite (bind_done _ _ _ tt (vars l pt a f out w)); [done|]. unfold LookupBase. mstep.
  unfold vars. cbn [vars_]. by rewrite !lookup_insert_ne, lookup_singleton_ne by congruence.
Qed.

Lemma setting_cons T name d m ms : setting T name d (m :: ms) = setting T name (update T name d m) ms.
Proof. done. Qed.

Definition plain_member (m : str * Node) : Prop := readable m ∧ tag_type (c_str m.1) ≠ Some Loggers.

Lemma load_plain ms rest : ∀ l pt a f out w, Forall plain_member ms →
  load_members (conv order) visit (ms ++ rest) (vars l pt a f out w) =
  load_members (conv order) visit rest (vars l (setting UInt16 port_tag pt ms) (setting Size alive_time_tag a ms)
    (setting Text asset_folder_tag f ms) out w).
Proof.
  induction ms as [|m ms IH]; intros l pt a f out w Hms; [done|].
  apply Forall_cons in Hms as [[Hm Hn] Hms]. cbn [app]. rewrite load_readable by done. by apply IH.
Qed.

(** The member that describes the loggers. *)
Lemma load_loggers k nd ms new pt a f out lw lw' q :
  c_str k = loggers_tag → from_text Loggers (emit nd) = Done new →
  (new = ∅ → lw' = lw) → on_loggers_changed open_file strerror order ∅ new lw = (Done tt, lw') →
  load_members (conv order) visit ((k, nd) :: ms) (vars ∅ pt a f out (mkWorld lw q)) =
  load_members (conv order) visit ms (vars new pt a f out (mkWorld lw' q)).
Proof.
  intros Hk Hnew He Hl. cbn [load_members]. rewrite decide_False by (intros ->; done).
  rewrite (bind_done _ _ _ tt (vars new pt a f out (mkWorld lw' q))); [done|].
  unfold LookupBase. mstep. rewrite Hk.
  change (vars_ (vars ∅ pt a f out (mkWorld lw q)) !! loggers_tag) with (Some 0).
  unfold FromString, object_at.
  rewrite (bind_done _ _ _ (mkVar (val := val) loggers_tag (s!"Loggers") Loggers ∅ {[0%N := listener]})
    (vars ∅ pt a f out (mkWorld lw q))) by (by mstep).
  cbn [type]. rewrite (bind_done _ _ _ new (vars ∅ pt a f out (mkWorld lw q)))
    by (unfold of_outcome; by rewrite Hnew).
  unfold SetValue. cbn [val_ listeners_ type]. destruct (decide (new ≠ ∅)) as [Hne|Heq%dec_stable].
  2: { mstep. by rewrite (He Heq), Heq. }
  rewrite visit_one.
  pose proof (zoom_done logs (λ x w, mkWorld x (queued w)) _ (mkWorld lw q) tt lw' Hl) as HL.
  apply (notify_done (val := val) (T := Loggers) listener ∅ new (vars ∅ pt a f out (mkWorld lw q))) in HL.
  rewrite (bind_done _ _ _ tt (vars ∅ pt a f out (mkWorld lw' q))); [done|].
  cbn [fmap list_fmap snd notify_all]. exact (bind_done _ (λ _, mret tt) _ tt _ HL).
Qed.

Lemma tag_variable T k l pt a f out w : tag_type k = Some T →
  ∃ p v, vars_ (vars l pt a f out w) !! k = Some p ∧ objects (vars l pt a f out w) !! p = Some v ∧ type v = T.
Proof.
  unfold tag_type. intros Ht.
  destruct (decide (k = port_tag)) as [->|_]; [injection Ht as <-; by exists 1; eexists|].
  destruct (decide (k = alive_time_tag)) as [->|_]; [injection Ht as <-; by exists 2; eexists|].
  destruct (decide (k = asset_folder_tag)) as [->|_]; [injection Ht as <-; by exists 3; eexists|].
  destruct (decide (k = loggers_tag)) as [->|_]; [injection Ht as <-; by exists 0; eexists|done].
Qed.

(** ** The end of [main] *)

Lemma build_settings_ok l pt a f out w ns : seconds a = Some ns →
  build_settings current_path (vars l pt a f out w) =
    (Done (mkSettings pt ns (Response.path_append current_path f)), vars l pt a f out w).
Proof.
  intros Hns. unfold build_settings.
  rewrite (bind_done _ _ _ pt (vars l pt a f out w)) by reflexivity.
  rewrite (bind_done _ _ _ a (vars l pt a f out w)) by reflexivity.
  rewrite (bind_done _ _ _ f (vars l pt a f out w)) by reflexivity.
  by rewrite (bind_done _ _ _ _ _ (deref_some (seconds a) ns _ Hns)).
Qed.

(** The line that the root logger prints. *)
Definition root_line (level : Level) (line_ : N) (message_ : str) : str :=
  Format strftime root_formatter root_logger_name
    (write_message (Event_Create level file line_ thread now) message_).

Definition after_line (text : str) : World :=
  mkWorld (mkLogWorld (manager (logs root_world))
    (mkHeap (appender_at (heap_ (logs root_world))) [(Cout, text)])) [].

Lemma root_log_ok level line_ message_ : level ≠ Debug →
  root_log strftime file thread now level line_ message_ root_world =
    (Done tt, after_line (root_line level line_ message_)).
Proof.
  intros Hl. unfold root_log, after_line, root_line, root_world. generalize root_formatter. intros f.
  by destruct level.
Qed.

Lemma on_world_done {A} (m : M World A) l pt a f out w w' x : m w = (Done x, w') →
  on_world m (vars l pt a f out w) = (Done x, vars l pt a f out w').
Proof. intros Hm. exact (zoom_done world _ m (vars l pt a f out w) x w' Hm). Qed.

Abbreviation program := (main open_file strerror exists_file YAML_LoadFile current_path order visit strftime file thread now).
Abbreviation config_path := (Response.path_append current_path config_file).

Abbreviation prepare := (setup open_file strerror exists_file YAML_LoadFile current_path order visit strftime file thread now).

(** [main] after the variables have been entered. *)
Lemma setup_run fuel l pt a f out w :
  load_local exists_file YAML_LoadFile current_path order visit strftime file thread now fuel
    (vars ∅ 10000 60 (s!"assets") [] root_world) = (Done tt, vars l pt a f out w) →
  prepare fuel boot = (Done tt, vars l pt a f out w).
Proof.
  intros Hl. unfold setup. pose proof variables_entered as Hv.
  apply bind_done_inv in Hv as ([] & s1 & H1 & H2). mrun H1. by mrun H2.
Qed.

Lemma main_run fuel l pt a f out w ns :
  prepare fuel boot = (Done tt, vars l pt a f out w) → seconds a = Some ns →
  program fuel boot = (Done (Some (mkSettings pt ns (Response.path_append current_path f))), vars l pt a f out w).
Proof.
  intros Hs Hns. unfold main. mrun Hs. unfold try_catch.
  by rewrite (bind_done _ _ _ _ _ (build_settings_ok l pt a f out w ns Hns)).
Qed.

(** What [main] reads from the local file, if there is one. *)
Definition local_document (fuel : nat) (members : list (str * Node)) : Prop :=
  ∃ root, exists_file config_path = Done true ∧ YAML_LoadFile config_path = Done root ∧
    ExtractMembers fuel root [] = Done members.

Lemma load_document fuel members s : local_document fuel members →
  load_local exists_file YAML_LoadFile current_path order visit strftime file thread now fuel s =
  try_catch (load_members (conv order) visit members)
    (λ err, on_world (root_log strftime file thread now Warn 62
       (s!"Failed to load local configuration: " ++ what err))) s.
Proof.
  intros (root & He & Hr & Hm). unfold load_local, try_catch. cbv zeta. rewrite He.
  rewrite (bind_done (of_outcome (Done true)) _ s true s eq_refl). unfold LoadConfig. rewrite Hr.
  rewrite (bind_done (of_outcome (Done root)) _ s root s eq_refl). unfold LoadYaml. rewrite Hm.
  by rewrite (bind_done (of_outcome (Done members)) _ s members s eq_refl).
Qed.

(** The members set the plain variables and the loggers [new]. *)
Definition describes (members : list (str * Node)) (new : gset LoggerConfig) : Prop :=
  (new = ∅ ∧ Forall plain_member members) ∨
  ∃ ms1 k nd ms2, members = ms1 ++ (k, nd) :: ms2 ∧ Forall plain_member ms1 ∧ Forall plain_member ms2 ∧
    c_str k = loggers_tag ∧ from_text Loggers (emit nd) = Done new.

Lemma setting_skips T name d ms1 k nd ms2 : c_str k = loggers_tag → name ≠ loggers_tag →
  setting T name d (ms1 ++ (k, nd) :: ms2) = setting T name (setting T name d ms1) ms2.
Proof.
  intros Hk Hn. unfold setting. rewrite fold_left_app. cbn [fold_left]. f_equal. unfold update at 1. cbn [fst snd].
  rewrite decide_False; [done|]. rewrite Hk. by intros [_ <-].
Qed.

Lemma load_describes members new pt a f out lw lw' q :
  describes members new → (new = ∅ → lw' = lw) →
  on_loggers_changed open_file strerror order ∅ new lw = (Done tt, lw') →
  load_members (conv order) visit members (vars ∅ pt a f out (mkWorld lw q)) =
    (Done tt, vars new (setting UInt16 port_tag pt members) (setting Size alive_time_tag a members)
      (setting Text asset_folder_tag f members) out (mkWorld lw' q)).
Proof.
  intros [[-> Hp]|(ms1 & k & nd & ms2 & -> & H1 & H2 & Hk & Hnew)] He Hl.
  - rewrite (He eq_refl). pose proof (load_plain members [] ∅ pt a f out (mkWorld lw q) Hp) as H'.
    rewrite app_nil_r in H'. by rewrite H'.
  - rewrite load_plain by done. rewrite (load_loggers k nd ms2 new _ _ _ out lw lw' q) by done.
    pose proof (load_plain ms2 [] new (setting UInt16 port_tag pt ms1) (setting Size alive_time_tag a ms1)
      (setting Text asset_folder_tag f ms1) out (mkWorld lw' q) H2) as H'. rewrite app_nil_r in H'.
    rewrite H'. by rewrite !setting_skips by done.
Qed.
End Lemmas.

(** * Properties *)

Section Properties.
Context `{Yaml}.
Context (open_file : str → option Z) (strerror : Z → str).
Context (exists_file : str → outcome bool) (YAML_LoadFile : str → outcome Node) (current_path : str).
Context (order : gset LoggerConfig → list LoggerConfig) (visit : ∀ {A}, gmap N A → list (N * A)).
Context (strftime : N → str → Z → str) (file : str) (thread : N) (now : Z).
Context (visit_all : ∀ A (m : gmap N A), visit A m ≡ₚ map_to_list m).
Abbreviation program := (main open_file strerror exists_file YAML_LoadFile current_path order visit strftime file thread now).

(** The state in front of the second [try] block, with such a file. *)
Lemma described_setup fuel members new :
  local_document exists_file YAML_LoadFile current_path fuel members → describes order members new →
  (∀ X c, c ∈ order X ↔ c ∈ X) → NoDup (lname <$> order new) →
  (∀ c, c ∈ new → c_str (lname c) = lname c ∧ sound open_file c) →
  ∃ lw, setup open_file strerror exists_file YAML_LoadFile current_path order visit strftime file thread now fuel boot =
      (Done tt, vars open_file strerror order new (setting order UInt16 port_tag 10000%N members)
        (setting order Size alive_time_tag 60%N members) (setting order Text asset_folder_tag (s!"assets") members)
        [] (mkWorld lw [])) ∧
    extends (logs root_world) lw ∧ ∀ c, c ∈ new → configured lw c.
Proof.
  intros Hdoc Hdesc Horder Hnd Hgood. pose proof (changed_from_none (order new)) as Hch.
  destruct (apply_all_ok open_file strerror ∅ (order new) (logs root_world)) as (lw & Hr & Hall & Hext & _).
  { rewrite Hch. apply Forall_forall. intros c Hc. by apply Hgood, Horder. }
  { by rewrite Hch. }
  assert (on_loggers_changed open_file strerror order ∅ new (logs root_world) = (Done tt, lw)) as Hl
    by (unfold on_loggers_changed, noexcept; by rewrite Hr).
  assert (new = ∅ → lw = logs root_world) as He.
  { intros ->. assert (order ∅ = []) as Ho; [|rewrite Ho in Hr; by injection Hr].
    destruct (order ∅) as [|c cs] eqn:Ho; [done|]. exfalso. apply (not_elem_of_empty (C := gset LoggerConfig) c).
    apply Horder. rewrite Ho. left. }
  exists lw. split; [|split; [exact Hext|]].
  - apply setup_run. rewrite (load_document _ _ _ _ _ _ _ _ _ _ _ _ Hdoc). unfold try_catch.
    by rewrite (load_describes open_file strerror order visit visit_all members new _ _ _ [] (logs root_world) lw [] Hdesc He Hl).
  - intros c Hc. rewrite Hch, Forall_forall in Hall. by apply Hall, Horder.
Qed.

(** C14: The local file decides.  Suppose that every member of the file can be read:
    at most one of them, named [loggers], describes loggers, whose names differ, whose
    patterns are well formed and whose files can be opened.  Then [main] starts the
    server with the port, the time in nanoseconds and the folder that the last members
    of these names set, or else with 10000, 60 seconds and [assets], provided that the
    time fits; and the root manager has every logger that the file describes. *)
Theorem local_configuration fuel members new ns :
  local_document exists_file YAML_LoadFile current_path fuel members → describes order members new →
  (∀ X c, c ∈ order X ↔ c ∈ X) → NoDup (lname <$> order new) →
  (∀ c, c ∈ new → c_str (lname c) = lname c ∧ sound open_file c) →
  seconds (setting order Size alive_time_tag 60%N members) = Some ns →
  ∃ s', program fuel boot =
      (Done (Some (mkSettings (setting order UInt16 port_tag 10000%N members) ns
         (Response.path_append current_path (setting order Text asset_folder_tag (s!"assets") members)))), s') ∧
    cerr s' = [] ∧ ∀ c, c ∈ new → configured (logs (world s')) c.
Proof.
  intros Hdoc Hdesc Horder Hnd Hgood Hns.
  destruct (described_setup fuel members new Hdoc Hdesc Horder Hnd Hgood) as (lw & Hs & _ & Hc).
  eexists. split.
  - exact (main_run open_file strerror exists_file YAML_LoadFile current_path order visit strftime file thread now
      fuel new _ _ _ [] (mkWorld lw []) ns Hs Hns).
  - split; [done|exact Hc].
Qed.

(** C28: An error in the local file does not keep the server from starting.  When it
    cannot be found out whether the file exists, when it cannot be loaded, or when a
    member cannot be read behind members of plain variables, the root logger prints one
    warning with the reason, and [main] goes on with what those members have set. *)
Theorem bad_local_configuration fuel ms1 e ns :
  (exists_file (Response.path_append current_path config_file) = Throw e ∧ ms1 = [] ∨
   exists_file (Response.path_append current_path config_file) = Done true ∧
     YAML_LoadFile (Response.path_append current_path config_file) = Throw e ∧ ms1 = [] ∨
   ∃ key node ms2 T, local_document exists_file YAML_LoadFile current_path fuel (ms1 ++ (key, node) :: ms2) ∧
     Forall (plain_member order) ms1 ∧ key ≠ [] ∧ tag_type (c_str key) = Some T ∧
     FromStr (VarConverter := conv order T) (emit node) = Throw e) →
  seconds (setting order Size alive_time_tag 60%N ms1) = Some ns →
  ∃ s', program fuel boot =
      (Done (Some (mkSettings (setting order UInt16 port_tag 10000%N ms1) ns
         (Response.path_append current_path (setting order Text asset_folder_tag (s!"assets") ms1)))), s') ∧
    written (heap_ (logs (world s'))) =
      [(Cout, root_line strftime file thread now Warn 62 (s!"Failed to load local configuration: " ++ what e))] ∧
    manager (logs (world s')) = manager (logs root_world).
Proof.
  intros Hbad Hns. set (line := root_line strftime file thread now Warn 62 _).
  exists (vars open_file strerror order ∅ (setting order UInt16 port_tag 10000%N ms1)
    (setting order Size alive_time_tag 60%N ms1) (setting order Text asset_folder_tag (s!"assets") ms1) [] (after_line line)).
  split; [|done].
  apply (main_run open_file strerror exists_file YAML_LoadFile current_path order visit strftime file thread now
    fuel ∅ _ _ _ [] (after_line line) ns); [|exact Hns].
  apply setup_run.
  assert (∀ pt a f, on_world (root_log strftime file thread now Warn 62
      (s!"Failed to load local configuration: " ++ what e)) (vars open_file strerror order ∅ pt a f [] root_world) =
      (Done tt, vars open_file strerror order ∅ pt a f [] (after_line line))) as Hlog.
  { intros pt a f. by apply on_world_done, root_log_ok. }
  destruct Hbad as [[He ->]|[(He & Hl & ->)|(key & node & ms2 & T & Hdoc & Hms & Hk & HT & He)]].
  - unfold load_local, try_catch. cbv zeta. rewrite He.
    rewrite (bind_throw (of_outcome (Throw e)) _ _ e _ eq_refl). apply Hlog.
  - unfold load_local, try_catch. cbv zeta. rewrite He.
    rewrite (bind_done (of_outcome (Done true)) _ _ true _ eq_refl). unfold LoadConfig. rewrite Hl.
    rewrite (bind_throw (of_outcome (Throw e)) _ _ e _ eq_refl). apply Hlog.
  - rewrite (load_document _ _ _ _ _ _ _ _ _ _ _ _ Hdoc). unfold try_catch.
    rewrite (load_plain open_file strerror order visit visit_all) by done.
    destruct (tag_variable open_file strerror order T (c_str key) ∅ (setting order UInt16 port_tag 10000%N ms1)
      (setting order Size alive_time_tag 60%N ms1) (setting order Text asset_folder_tag (s!"assets") ms1) [] root_world HT)
      as (p & v & Hp & Hv & <-).
    rewrite (load_failing (conv order) visit key node ms2 _ p v e Hk Hp Hv He). apply Hlog.
Qed.

(** Without a local file the server starts with the defaults: the port 10000, 60
    seconds and the folder [assets]; nothing is printed. *)
Theorem no_local_configuration fuel :
  exists_file (Response.path_append current_path config_file) = Done false →
  program fuel boot =
    (Done (Some (mkSettings 10000 60000000000 (Response.path_append current_path (s!"assets")))),
     vars open_file strerror order ∅ 10000 60 (s!"assets") [] root_world).
Proof.
  intros He. apply (main_run open_file strerror exists_file YAML_LoadFile current_path order visit strftime file thread now
    fuel ∅ _ _ _ [] root_world); [|done]. apply setup_run.
  unfold load_local, try_catch. cbv zeta. rewrite He. by rewrite (bind_done (of_outcome (Done false)) _ _ false _ eq_refl).
Qed.
End Properties.

(** The time that clients may be idle, read in seconds as an unsigned number, is
    used in nanoseconds.  Up to 9223372036 seconds it is exact; just below 2^64 it has
    become negative; in between the conversion overflows. *)
Theorem alive_time_bounds n :
  (n < word_mod)%N →
  match seconds n with
  | Some ns => (n ≤ 9223372036)%N ∧ ns = (Z.of_N n * 1000000000)%Z ∨
      (word_mod - 9223372036 ≤ n)%N ∧ ns = ((Z.of_N n - Z.of_N word_mod) * 1000000000)%Z ∧ (ns < 0)%Z
  | None => (9223372036 < n < word_mod - 9223372036)%N
  end.
Proof.
  unfold seconds, int64, word_mod. intros Hn.
  destruct (N.ltb_spec n 9223372036854775808) as [H|H];
    destruct (_ && _)%Z eqn:Hb;
    rewrite ?andb_true_iff, ?andb_false_iff, ?Z.leb_le, ?Z.leb_gt in Hb; lia.
Qed.

(** * Witnesses *)

Definition main_order : gset LoggerConfig → list LoggerConfig := elements.
Definition main_visit A (m : gmap N A) : list (N * A) := map_to_list m.

Lemma alive_time_bounds_witness : seconds 60 = Some 60000000000%Z.
Proof.
  pose proof (alive_time_bounds 60 eq_refl) as H. vm_compute (seconds 60) in H |- *.
  destruct H as [[_ H]|(H & _)]; [by rewrite H|by vm_compute in H].
Defined.

Abbreviation leaf x := (GenLeaf (s!x) : tree).
Definition loggers_node : tree := GenNode 0 [demo_document].
Definition local_root : tree :=
  GenNode 1 [leaf "server"; GenNode 1 [leaf "port"; leaf "8080"; leaf "alive_time"; leaf "30"];
             leaf "loggers"; loggers_node].
Definition local_members : list (str * tree) :=
  match ExtractMembers (H := tree_yaml) 8 local_root [] with Done ms => ms | _ => [] end.

(** A file whose port is too large. *)
Definition bad_root : tree :=
  GenNode 1 [leaf "server"; GenNode 1 [leaf "port"; leaf "70000"; leaf "alive_time"; leaf "30"]].

Definition demo_time (_ : N) (_ : str) (_ : Z) : str := s!"now".
Definition demo_main (found : bool) (root : tree) :=
  main (H := tree_yaml) demo_open demo_error (λ _, Done found) (λ _, Done root) (s!"/srv") main_order main_visit
    demo_time (s!"main.cpp") 1 0 8.

Lemma local_loggers :
  FromStr (VarConverter := conv (H := tree_yaml) main_order Loggers) (emit (Yaml := tree_yaml) loggers_node) =
    Done {[root_config]}.
Proof.
  pose (cv := LoggerConfig_converter (H := tree_yaml)).
  assert (list_FromStr (H := tree_yaml) (VarConverter0 := cv) (emit (Yaml := tree_yaml) loggers_node) = Done [root_config]) as Hl
    by (vm_compute; reflexivity).
  change (FromStr _) with (vals ← list_FromStr (H := tree_yaml) (VarConverter0 := cv) (emit (Yaml := tree_yaml) loggers_node);
    Done (list_to_set vals : gset LoggerConfig)). rewrite Hl. reflexivity.
Qed.

Lemma local_plain (ms : list (str * tree)) :
  Forall (λ m, m.1 = [] ∨ tag_type (c_str m.1) = None ∨
    (∃ n, tag_type (c_str m.1) = Some UInt16 ∧ FromStr (VarConverter := unsigned_converter uint16_max) (emit (Yaml := tree_yaml) m.2) = Done n) ∨
    (∃ n, tag_type (c_str m.1) = Some Size ∧ FromStr (VarConverter := unsigned_converter size_max) (emit (Yaml := tree_yaml) m.2) = Done n) ∨
    tag_type (c_str m.1) = Some Text) ms →
  Forall (plain_member (H := tree_yaml) main_order) ms.
Proof.
  intros Hms. eapply Forall_impl; [exact Hms|]. clear Hms.
  intros [k nd] [Hk|[Hn|[(n & Ht & Hn)|[(n & Ht & Hn)|Ht]]]]; (split; [intros T Hk' HT|]); cbn [fst snd] in *.
  all: try congruence.
  - by rewrite Hk.
  - rewrite Ht in HT. injection HT as <-. by exists n.
  - rewrite Ht in HT. injection HT as <-. by exists n.
  - rewrite Ht in HT. injection HT as <-. by eexists.
Qed.

Lemma main_order_all (X : gset LoggerConfig) c : c ∈ main_order X ↔ c ∈ X.
Proof. apply elem_of_elements. Qed.

Lemma main_visit_all A (m : gmap N A) : main_visit A m ≡ₚ map_to_list m.
Proof. done. Qed.

Lemma local_describes : describes (H := tree_yaml) main_order local_members {[root_config]}.
Proof.
  right. exists [([], local_root)], (s!"loggers"), loggers_node,
    [(s!"server", GenNode 1 [leaf "port"; leaf "8080"; leaf "alive_time"; leaf "30"]);
     (s!"server.alive_time", leaf "30"); (s!"server.port", leaf "8080")].
  split; [vm_compute; reflexivity|]. split; [apply local_plain|split; [apply local_plain|split; [reflexivity|exact local_loggers]]].
  - apply Forall_singleton. left. reflexivity.
  - apply Forall_cons. split; [|apply Forall_cons; split; [|apply Forall_singleton]].
    + right. left. reflexivity.
    + right. right. right. left. exists 30%N. split; [reflexivity|vm_compute; reflexivity].
    + right. right. left. exists 8080%N. split; [reflexivity|vm_compute; reflexivity].
Qed.

Lemma local_configuration_witness : ∃ s', demo_main true local_root boot =
    (Done (Some (mkSettings 8080 30000000000 (s!"/srv/assets"))), s') ∧
  configured (logs (world s')) root_config.
Proof.
  destruct (local_configuration (H := tree_yaml) demo_open demo_error (λ _, Done true) (λ _, Done local_root) (s!"/srv")
    main_order main_visit demo_time (s!"main.cpp") 1 0 main_visit_all 8 local_members {[root_config]} 30000000000)
    as (s' & Hr & _ & Hc).
  - exists local_root. split; [reflexivity|split; [reflexivity|vm_compute; reflexivity]].
  - exact local_describes.
  - exact main_order_all.
  - unfold main_order. rewrite elements_singleton. apply NoDup_singleton.
  - intros c ->%elem_of_singleton. apply demo_sound. left.
  - vm_compute. reflexivity.
  - exists s'. split; [|apply Hc; by apply elem_of_singleton]. unfold demo_main. rewrite Hr.
    do 3 f_equal; vm_compute; reflexivity.
Defined.

Lemma bad_local_configuration_witness : ∃ s', demo_main true bad_root boot =
    (Done (Some (mkSettings 10000 30000000000 (s!"/srv/assets"))), s') ∧
  length (written (heap_ (logs (world s')))) = 1.
Proof.
  destruct (bad_local_configuration (H := tree_yaml) demo_open demo_error (λ _, Done true) (λ _, Done bad_root) (s!"/srv")
    main_order main_visit demo_time (s!"main.cpp") 1 0 main_visit_all 8
    [([], bad_root); (s!"server", GenNode 1 [leaf "port"; leaf "70000"; leaf "alive_time"; leaf "30"]);
     (s!"server.alive_time", leaf "30")]
    (Exn invalid_argument (s!"Invalid value: '70000'")) 30000000000) as (s' & Hr & Hw & _).
  - right. right. exists (s!"server.port"), (leaf "70000"), [], UInt16. split; [|split; [|split; [done|split; [done|]]]].
    + exists bad_root. split; [reflexivity|split; [reflexivity|vm_compute; reflexivity]].
    + apply local_plain. apply Forall_cons. split; [|apply Forall_cons; split; [|apply Forall_singleton]].
      * left. reflexivity.
      * right. left. reflexivity.
      * right. right. right. left. exists 30%N. split; [reflexivity|vm_compute; reflexivity].
    + vm_compute. reflexivity.
  - vm_compute. reflexivity.
  - exists s'. split; [|by rewrite Hw]. unfold demo_main. rewrite Hr. do 3 f_equal; vm_compute; reflexivity.
Defined.

Lemma no_local_configuration_witness :
  (demo_main false local_root boot).1 = Done (Some (mkSettings 10000 60000000000 (s!"/srv/assets"))).
Proof.
  unfold demo_main. rewrite (no_local_configuration (H := tree_yaml)) by reflexivity. reflexivity.
Defined.
