(* ===== verification/Epoller.v ===== *)
(** The system calls of the server, as an interface, and the event
    notification facility [Epoller] of [include/containers/epoller.h] and
    [src/containers/epoller/epoller.cpp]. *)

From S2P Require Import Prelude Util.

(** * The operating system *)

Inductive Control := Add | Delete | Modify.
#[export] Instance Control_eq_dec : EqDecision Control.
Proof. solve_decision. Defined.

(** The two options that the server sets. *)
Inductive SocketOption := SO_LINGER (seconds : N) | SO_REUSEADDR.

(** What the server asks of Linux; [W] is the state of the world.  [inl] and
    [Some] carry the [errno] of a failure.  [sys_epoll_wait] gives the
    descriptors that are ready with their events; [sys_accept] a descriptor and
    the raw address of the peer, which [sys_inet_ntop] prints. *)
Class Kernel (W : Type) := {
  sys_strerror : Z → str;
  sys_close : Z → W → W;
  sys_readv : Z → N → N → W → (Z + str) * W;
  sys_write : Z → str → W → (Z + N) * W;
  sys_fcntl_getfd : Z → W → Z * W;
  sys_fcntl_setfl : Z → Z → W → option Z * W;
  sys_epoll_create1 : W → (Z + Z) * W;
  sys_epoll_ctl : Z → Control → Z → N → W → option Z * W;
  sys_epoll_wait : Z → N → Z → W → (Z + list (Z * N)) * W;
  sys_now : W → Z * W;
  sys_accept : Z → W → (Z + Z * N) * W;
  sys_inet_ntop : N → Z + str;
  sys_inet_pton : str → Z + N;
  sys_socket : W → (Z + Z) * W;
  sys_setsockopt : Z → SocketOption → W → option Z * W;
  sys_bind : Z → N → N → W → option Z * W;
  sys_listen : Z → W → option Z * W
}.

Definition invalid_file_descriptor : Z := -1.

Definition EINTR : Z := 4.
Definition INT_MAX : Z := 2147483647.

(** The event bits of [<sys/epoll.h>]. *)
Definition EPOLLIN : N := 1.
Definition EPOLLOUT : N := 4.
Definition EPOLLERR : N := 8.
Definition EPOLLHUP : N := 16.
Definition EPOLLRDHUP : N := 8192.
Definition EPOLLONESHOT : N := 1073741824.
Definition EPOLLET : N := 2147483648.

(** * The object *)

(** [events_] is an array of [epoll_event]: a descriptor and its events. *)
Record Epoller := mkEpoller { epoll_fd_ : Z; events_ : list (Z * N) }.

Section Epoller.
Context {W : Type} `{!Kernel W}.
Abbreviation M := (M (Epoller * W)).

Definition ThrowLastSystemError {S A} (errno : Z) : Prelude.M S A :=
  throw (system_error errno) (sys_strerror errno).

(** Run a system call on the world. *)
Definition syscall {S A} (f : W → A * W) : Prelude.M (S * W) A := λ s,
  let '(a, w) := f s.2 in (Done a, (s.1, w)).

(** The constructor. *)
Definition Epoller_create (capacity : N) : Prelude.M W Epoller := λ w,
  let '(r, w') := sys_epoll_create1 w in
  if (0 <? capacity)%N then
    match r with
    | inr fd => (Done (mkEpoller fd (replicate (N.to_nat capacity) (0%Z, 0%N))), w')
    | inl errno => ThrowLastSystemError errno w'
    end
  else (Crash, w').

Definition ValidIndex (idx : N) (e : Epoller) : bool := (idx <? len (events_ e))%N.

Definition Events (idx : N) : M N :=
  e ← gets fst;
  assert_ (ValidIndex idx e);;
  p ← deref (events_ e !! N.to_nat idx);
  mret p.2.

Definition FileDescriptor (idx : N) : M Z :=
  e ← gets fst;
  assert_ (ValidIndex idx e);;
  p ← deref (events_ e !! N.to_nat idx);
  mret p.1.

Definition Close : M unit :=
  e ← gets fst;
  if IsValidFileDescriptor (epoll_fd_ e)
  then modify (λ s, (mkEpoller invalid_file_descriptor (events_ s.1), sys_close (epoll_fd_ e) s.2))
  else mret tt.

Definition SetFileDescriptor (ctl : Control) (fd : Z) (events : option N) : M unit :=
  assert_ (IsValidFileDescriptor fd);;
  bits ← (if decide (ctl ≠ Delete) then deref events else mret 0%N);
  e ← gets fst;
  r ← syscall (sys_epoll_ctl (epoll_fd_ e) ctl fd bits);
  match r with
  | None => mret tt
  | Some errno => ThrowLastSystemError errno
  end.

Definition AddFileDescriptor (fd : Z) (events : N) : M unit := SetFileDescriptor Add fd (Some events).
Definition DeleteFileDescriptor (fd : Z) : M unit := SetFileDescriptor Delete fd None.
Definition ModifyFileDescriptor (fd : Z) (events : N) : M unit := SetFileDescriptor Modify fd (Some events).

(** [duration_cast<milliseconds>], which truncates towards zero. *)
Definition milliseconds (d : Z) : Z := Z.quot d 1000000.

(** [time_out] is a duration in nanoseconds.  The ready descriptors fill the
    front of [events_]. *)
Definition Wait (time_out : Z) : M N :=
  e ← gets fst;
  let size := len (events_ e) in
  assert_ (Z.of_N size <=? INT_MAX)%Z;;
  let ms := milliseconds time_out in
  assert_ (ms <=? INT_MAX)%Z;;
  r ← syscall (sys_epoll_wait (epoll_fd_ e) size ms);
  match r with
  | inr ready =>
      let ready := take (N.to_nat size) ready in
      modify (λ s, (mkEpoller (epoll_fd_ e) (ready ++ drop (length ready) (events_ e)), s.2));;
      mret (len ready)
  | inl errno => if (errno =? EINTR)%Z then mret 0%N else ThrowLastSystemError errno
  end.
End Epoller.

(** * Lemmas *)

Section Lemmas.
Context {W : Type} `{!Kernel W}.
Implicit Types (e : Epoller) (w : W).

Lemma SetFileDescriptor_ok ctl fd bits e w r w' :
  (0 ≤ fd)%Z → sys_epoll_ctl (epoll_fd_ e) ctl fd (if decide (ctl ≠ Delete) then bits else 0%N) w = (r, w') →
  SetFileDescriptor ctl fd (Some bits) (e, w) =
    (match r with None => Done tt | Some errno => Throw (Exn (system_error errno) (sys_strerror errno)) end,
     (e, w')).
Proof.
  intros Hfd Hc. unfold SetFileDescriptor, IsValidFileDescriptor.
  rewrite (proj2 (Z.leb_le _ _) Hfd). mstep.
  assert ((if decide (ctl ≠ Delete) then deref (Some bits) else mret 0%N) (e, w) =
    (Done (if decide (ctl ≠ Delete) then bits else 0%N), (e, w))) as H by (by case_decide).
  rewrite (bind_done _ _ _ _ _ H). mstep. simpl.
  rewrite (bind_done _ _ (e, w) r (e, w')); [by destruct r|].
  unfold syscall. simpl. by rewrite Hc.
Qed.

Lemma Delete_ok fd e w r w' :
  (0 ≤ fd)%Z → sys_epoll_ctl (epoll_fd_ e) Delete fd 0 w = (r, w') →
  DeleteFileDescriptor fd (e, w) =
    (match r with None => Done tt | Some errno => Throw (Exn (system_error errno) (sys_strerror errno)) end,
     (e, w')).
Proof.
  intros Hfd Hc. unfold DeleteFileDescriptor, SetFileDescriptor, IsValidFileDescriptor.
  rewrite (proj2 (Z.leb_le _ _) Hfd). mstep. simpl. rewrite (bind_done _ _ _ 0%N (e, w) eq_refl). mstep.
  simpl. rewrite (bind_done _ _ (e, w) r (e, w')); [by destruct r|].
  unfold syscall. simpl. by rewrite Hc.
Qed.
End Lemmas.

(** * Properties *)

(** [Wait] passes the kernel the whole milliseconds of the time-out and
    the capacity of the array, and reports the ready descriptors: [Events] and
    [FileDescriptor] of every index below its result give them in order.  An
    interrupted wait is an empty one, any other failure is thrown with its
    [errno].  A time-out of more than [INT_MAX] milliseconds fails an
    assertion. *)
Theorem wait_reports {W} `{!Kernel W} e (w : W) t :
  (Z.of_N (len (events_ e)) ≤ INT_MAX)%Z →
  ((INT_MAX < milliseconds t)%Z → (Wait t (e, w)).1 = Crash) ∧
  ((milliseconds t ≤ INT_MAX)%Z →
   match sys_epoll_wait (epoll_fd_ e) (len (events_ e)) (milliseconds t) w with
   | (inr ready, w') => (len ready ≤ len (events_ e))%N → ∃ e',
       Wait t (e, w) = (Done (len ready), (e', w')) ∧ length (events_ e') = length (events_ e) ∧
       ∀ i fd ev, ready !! i = Some (fd, ev) →
         FileDescriptor (N.of_nat i) (e', w') = (Done fd, (e', w')) ∧
         Events (N.of_nat i) (e', w') = (Done ev, (e', w'))
   | (inl errno, w') =>
       Wait t (e, w) = (if decide (errno = EINTR) then Done 0%N
                        else Throw (Exn (system_error errno) (sys_strerror errno)), (e, w'))
   end).
Proof.
  intros Hsz. unfold Wait. mstep. simpl. rewrite (proj2 (Z.leb_le _ _) Hsz). mstep. split.
  { intros Ht. by rewrite (proj2 (Z.leb_gt _ _) Ht). }
  intros Ht. rewrite (proj2 (Z.leb_le _ _) Ht). mstep.
  destruct (sys_epoll_wait _ _ _ w) as [[errno|ready] w'] eqn:Hw.
  - rewrite (bind_done _ _ (e, w) (inl errno) (e, w')); [|unfold syscall; simpl; by rewrite Hw].
    case_decide as He; [subst; done|]. by rewrite (proj2 (Z.eqb_neq _ _) He).
  - intros Hlen. rewrite (bind_done _ _ (e, w) (inr ready) (e, w')); [|unfold syscall; simpl; by rewrite Hw].
    rewrite (take_ge ready) by len_lia. mstep. simpl.
    eexists. split; [reflexivity|]. simpl. split; [len_lia|].
    intros i fd ev Hi.
    assert (ValidIndex (N.of_nat i) (mkEpoller (epoll_fd_ e) (ready ++ drop (length ready) (events_ e))) = true) as Hv.
    { apply N.ltb_lt. simpl. apply lookup_lt_Some in Hi. len_lia. }
    assert ((ready ++ drop (length ready) (events_ e)) !! N.to_nat (N.of_nat i) = Some (fd, ev)) as Hl.
    { rewrite Nat2N.id. by apply lookup_app_l_Some. }
    unfold FileDescriptor, Events. split; mstep; simpl; rewrite Hv; mstep; by rewrite Hl.
Qed.
