(* ===== verification/WebServer.v ===== *)
(** The web server of [include/web_server.h]: the main loop that waits for
    events and closes idle clients, the tasks that the thread pool runs for a
    client, and the state they share.  A member function that locks [mtx_] is
    one step here; a client is a shared object, known by its address. *)

From S2P Require Import Prelude Util Buffer Epoller HeapTimer LogField.
From S2P Require Connection.

(** * State *)

(** [http::Connection]: the connection proper and the address it was
    created with. *)
Record Client := mkClient { conn : Connection.Connection; ip_address : str }.

(** The tasks that the server pushes: [ReceiveFrom] and [SendTo] of a client. *)
Inductive Task := ReceiveTask (client : nat) | SendTask (client : nat).

(** The one callback that the server gives to its timer. *)
Inductive Timeout := CloseTimedOut.

(** The members of [WebServer] except the timer, with the objects they point
    to: [clients] holds the connections by address, [tasks] what has been pushed
    into the thread pool, [logs] what has been logged. *)
Record Rest (W : Type) := mkRest {
  listener_ : Z;
  pool_closed : bool;
  tasks : list Task;
  epoller_ : Epoller;
  users_ : gmap Z nat;
  clients : gmap nat Client;
  logs : list (Level * str);
  world : W
}.
Arguments mkRest {_} _ _ _ _ _ _ _ _.
Arguments listener_ {_} _.
Arguments pool_closed {_} _.
Arguments tasks {_} _.
Arguments epoller_ {_} _.
Arguments users_ {_} _.
Arguments clients {_} _.
Arguments logs {_} _.
Arguments world {_} _.

Section WebServer.
Context {W : Type} `{!Kernel W}.
(** What the connections need: the files, the order of a hash map, the text in
    a moved-from string, the root directory, and a bound on the iterations of
    their loops. *)
Context (fs : FileSystem) (iter : Http.Parameters → list (str * str)) (moved : bool → str → str).
Context (root_dir : str) (fuel : nat).
(** The members that the constructor sets. *)
Context (port_ : N) (alive_time_ : Z).

Abbreviation Timer := (HeapTimer Z Timeout).
Abbreviation Server := (Timer * Rest W)%type.
Implicit Types (s : Server).

Definition set_users (u : gmap Z nat) (r : Rest W) : Rest W :=
  mkRest (listener_ r) (pool_closed r) (tasks r) (epoller_ r) u (clients r) (logs r) (world r).
Definition set_clients (c : gmap nat Client) (r : Rest W) : Rest W :=
  mkRest (listener_ r) (pool_closed r) (tasks r) (epoller_ r) (users_ r) c (logs r) (world r).
Definition set_world (w : W) (r : Rest W) : Rest W :=
  mkRest (listener_ r) (pool_closed r) (tasks r) (epoller_ r) (users_ r) (clients r) (logs r) w.
Definition set_epoller (e : Epoller) (w : W) (r : Rest W) : Rest W :=
  mkRest (listener_ r) (pool_closed r) (tasks r) e (users_ r) (clients r) (logs r) w.
Definition set_listener (fd : Z) (w : W) (r : Rest W) : Rest W :=
  mkRest fd (pool_closed r) (tasks r) (epoller_ r) (users_ r) (clients r) (logs r) w.
Definition set_tasks (t : list Task) (r : Rest W) : Rest W :=
  mkRest (listener_ r) (pool_closed r) t (epoller_ r) (users_ r) (clients r) (logs r) (world r).
Definition log_line (l : Level) (m : str) (r : Rest W) : Rest W :=
  mkRest (listener_ r) (pool_closed r) (tasks r) (epoller_ r) (users_ r) (clients r)
    (logs r ++ [(l, m)]) (world r).

Definition Log (l : Level) (m : str) : M Server unit := modify (λ s, (s.1, log_line l m s.2)).

(** Operations of the parts of the server. *)
Definition on_epoller {A} (m : M (Epoller * W) A) : M Server A :=
  zoom (λ s : Server, (epoller_ s.2, world s.2)) (λ t s, (s.1, set_epoller t.1 t.2 s.2)) m.
Definition on_world {A} (f : W → A * W) : M Server A := λ s,
  let '(a, w) := f (world s.2) in (Done a, (s.1, set_world w s.2)).
Definition now : M Server Z := on_world sys_now.

(** [client->...]: a null pointer is dereferenced. *)
Definition client_at (p : option nat) : M Server Client :=
  s ← get; deref (p ≫= λ i, clients s.2 !! i).
Definition IPAddress (p : option nat) : M Server str := c ← client_at p; mret (ip_address c).
Definition Socket (p : option nat) : M Server Z := c ← client_at p; mret (Connection.Socket (conn c)).
Definition KeepAlive (p : option nat) : M Server bool := c ← client_at p; mret (Connection.KeepAlive (conn c)).

(** A member function of the connection, run on the object [c] at [i]. *)
Definition run_client {A} (i : nat) (c : Client) (m : M (Connection.Connection * W) A) : M Server A := λ s,
  let '(r, (c', w)) := m (conn c, world s.2) in
  (r, (s.1, set_world w (set_clients (<[i := mkClient c' (ip_address c)]> (clients s.2)) s.2))).
Definition on_client {A} (p : option nat) (m : M (Connection.Connection * W) A) : M Server A :=
  i ← deref p;
  c ← client_at (Some i);
  run_client i c m.

Definition client_Receive (p : option nat) : M Server N :=
  on_client p (Connection.Receive sys_readv sys_write sys_strerror fuel).
Definition client_Send (p : option nat) : M Server N :=
  on_client p (Connection.Send sys_readv sys_write sys_strerror fuel).
Definition client_Process (p : option nat) : M Server bool :=
  on_client p (zoom (λ x : Connection.Connection * W, x.1) (λ t x, (t, x.2)) (Connection.Process fs iter moved root_dir)).

(** * Clients *)

Definition listen_event_mode : N := N.lor EPOLLRDHUP EPOLLET.
Definition connect_event_mode : N := N.lor (N.lor EPOLLONESHOT EPOLLRDHUP) EPOLLET.

(** [Conn(socket)] *)
Definition Conn (socket : Z) : M Server (option nat) :=
  s ← get;
  assert_ (bool_decide (is_Some (users_ s.2 !! socket)));;
  mret (users_ s.2 !! socket).

Definition ExtendClientAliveTime (socket : Z) : M Server bool :=
  assert_ (IsValidFileDescriptor socket);;
  c ← gets (λ s, Contain socket s.1);
  if c : bool then
    v ← now; on_timer (Adjust_after socket v alive_time_);; mret true
  else mret false.

Definition MarkClientAsToBeClosed (socket : Z) : M Server unit := noexcept (
  assert_ (IsValidFileDescriptor socket);;
  c ← gets (λ s, Contain socket s.1);
  assert_ c;;
  v ← now; on_timer (Adjust_after socket v 0)).

(** [SetFileDescriptorAsNonblocking] of [util.cpp]; [O_NONBLOCK] is 2048. *)
Definition SetFileDescriptorAsNonblocking (fd : Z) : M Server unit :=
  assert_ (IsValidFileDescriptor fd);;
  flags ← on_world (sys_fcntl_getfd fd);
  r ← on_world (sys_fcntl_setfl fd (Z.lor flags 2048));
  match r with Some errno => ThrowLastSystemError errno | None => mret tt end.

(** The destruction of a connection, which closes its socket. *)
Definition destroy_client (p : nat) : M Server unit :=
  on_client (Some p) (Connection.Close (λ fd w, sys_close fd w));;
  modify (λ s, (s.1, set_clients (delete p (clients s.2)) s.2)).

(** The address of a new client: one that no pointer holds. *)
Definition fresh_client (r : Rest W) : nat := fresh (dom (clients r)).

Definition quote_fd (fd : Z) : str := dec (Z.to_N fd).

(** [users_.insert] leaves an entry that exists, and the new connection is
    destroyed. *)
Definition AddClient (socket : Z) (addr : N) : M Server unit :=
  assert_ (IsValidFileDescriptor socket);;
  SetFileDescriptorAsNonblocking socket;;
  on_epoller (AddFileDescriptor socket (N.lor connect_event_mode EPOLLIN));;
  ip ← (match sys_inet_ntop addr with
        | inr ip => mret ip
        | inl errno => ThrowLastSystemError errno
        end);
  c ← of_outcome (Connection.Connection_of_socket socket);
  s ← get;
  let p := fresh_client s.2 in
  modify (λ s, (s.1, set_clients (<[p := mkClient c ip]> (clients s.2)) s.2));;
  (match users_ s.2 !! socket with
   | None => modify (λ s, (s.1, set_users (<[socket := p]> (users_ s.2)) s.2))
   | Some _ => destroy_client p
   end);;
  v ← now;
  on_timer (Push_after socket v alive_time_ (Some CloseTimedOut));;
  Log Info (s!"A new client " ++ ip ++ s!" has connected");;
  Log Debug (s!"Client " ++ ip ++ s!" is bound to socket " ++ quote_fd socket).

(** The pointers to the client [p] besides the one in [users_]. *)
Definition task_client (t : Task) : nat := match t with ReceiveTask p | SendTask p => p end.
Definition shared (p : nat) (r : Rest W) : bool :=
  bool_decide (p ∈ task_client <$> tasks r).

(** [users_.erase(socket)]: the connection is destroyed unless a task still
    points to it. *)
Definition erase_user (socket : Z) : M Server unit :=
  s ← get;
  match users_ s.2 !! socket with
  | None => mret tt
  | Some p =>
      modify (λ s, (s.1, set_users (delete socket (users_ s.2)) s.2));;
      if shared p s.2 then mret tt else destroy_client p
  end.

Definition CloseClient (socket : Z) : M Server unit := noexcept (
  assert_ (IsValidFileDescriptor socket);;
  p ← Conn socket;
  ip ← IPAddress p;
  try_catch (on_epoller (DeleteFileDescriptor socket))
    (λ err, Log Debug (s!"Failed to delete socket " ++ quote_fd socket ++ s!" from epoller: " ++ what err));;
  on_timer (Remove socket);;
  erase_user socket;;
  Log Info (s!"Client " ++ ip ++ s!" has disconnected")).

(** The callback of the timer. *)
Definition on_timeout (c : Timeout) (socket : Z) : M Server unit :=
  p ← Conn socket;
  ip ← IPAddress p;
  Log Info (s!"Client " ++ ip ++ s!" has timed-out");;
  CloseClient socket.

(** * Tasks *)

Definition Process (p : option nat) : M Server unit :=
  ready ← client_Process p;
  fd ← Socket p;
  if ready : bool
  then on_epoller (ModifyFileDescriptor fd (N.lor connect_event_mode EPOLLOUT))
  else on_epoller (ModifyFileDescriptor fd (N.lor connect_event_mode EPOLLIN)).

(** [Process(std::move(client))]: the variable [client] is null from then on,
    so the handler of an exception finds it null when [Process] threw. *)
Definition ReceiveFrom (client : option nat) : M Server unit := noexcept (
  ip ← IPAddress client;
  Log Info (s!"Start to receive data from client " ++ ip);;
  let handler client err :=
    Log Error (s!"Failed to receive data from client " ++ ip ++ s!": " ++ what err);;
    fd ← Socket client; MarkClientAsToBeClosed fd in
  r ← try_catch (client_Receive client;; mret true) (λ err, handler client err;; mret false);
  if r : bool then try_catch (Process client) (handler None) else mret tt).

Definition SendTo (client : option nat) : M Server unit := noexcept (
  ip ← IPAddress client;
  Log Info (s!"Start to send data to client " ++ ip);;
  let handler err := Log Error (s!"Failed to send data to client " ++ ip ++ s!": " ++ what err) in
  keep ← try_catch (client_Send client;; KeepAlive client) (λ err, handler err;; mret false);
  if keep : bool then
    (* [return] after [Process]; behind its exception [client] is null *)
    done ← try_catch (Process client;; mret true) (λ err, handler err;; mret false);
    if done : bool then mret tt else fd ← Socket None; MarkClientAsToBeClosed fd
  else fd ← Socket client; MarkClientAsToBeClosed fd).

Definition run_task (t : Task) : M Server unit :=
  match t with ReceiveTask p => ReceiveFrom (Some p) | SendTask p => SendTo (Some p) end.

(** * Events *)

(** [thread_pool_.Push(task)], with its assertion. *)
Definition pool_Push (t : Task) : M Server unit :=
  s ← get;
  assert_ (negb (pool_closed s.2));;
  modify (λ s, (s.1, set_tasks (tasks s.2 ++ [t]) s.2)).

Definition OnCloseEvent (socket : Z) : M Server unit := MarkClientAsToBeClosed socket.

Definition OnReceiveEvent (socket : Z) : M Server unit :=
  alive ← ExtendClientAliveTime socket;
  if alive : bool then
    p ← Conn socket; i ← deref p; pool_Push (ReceiveTask i)
  else mret tt.

Definition OnSendEvent (socket : Z) : M Server unit :=
  alive ← ExtendClientAliveTime socket;
  if alive : bool then
    p ← Conn socket; i ← deref p; pool_Push (SendTask i)
  else mret tt.

Definition EAGAIN : Z := 11.

(** The loop of [OnListenEvent]; it ends by an exception only. *)
Fixpoint accept_loop (n : nat) : M Server unit :=
  match n with
  | 0 => out_of_fuel
  | S n' =>
      s ← get;
      r ← on_world (sys_accept (listener_ s.2));
      match r with
      | inr (fd, addr) =>
          if IsValidFileDescriptor fd then AddClient fd addr;; accept_loop n' else crash
      | inl errno => ThrowLastSystemError errno
      end
  end.

(** [catch (const std::system_error&)] *)
Definition OnListenEvent (n : nat) : M Server unit :=
  try_catch (accept_loop n)
    (λ err, match kind err with
            | system_error code =>
                if (code =? EAGAIN)%Z then mret tt
                else Log Error (s!"Failed to accept a new client: " ++ what err);;
                     throw (kind err) (what err)
            | k => throw k (what err)
            end).

Definition has_bits (events mask : N) : bool := negb (N.land events mask =? 0)%N.

(** The body of the inner loop of [Start]. *)
Definition dispatch (n : nat) (socket : Z) (events : N) : M Server unit :=
  s ← get;
  if (socket =? listener_ s.2)%Z then OnListenEvent n
  else if has_bits events (N.lor (N.lor EPOLLRDHUP EPOLLHUP) EPOLLERR) then OnCloseEvent socket
  else if has_bits events EPOLLIN then OnReceiveEvent socket
  else if has_bits events EPOLLOUT then OnSendEvent socket
  else throw runtime_error (s!"Unexpected event: " ++ dec events).

Fixpoint dispatch_all (n : nat) (i event_count : nat) : M Server unit :=
  match event_count with
  | 0 => mret tt
  | S event_count' =>
      socket ← on_epoller (FileDescriptor (N.of_nat i));
      events ← on_epoller (Events (N.of_nat i));
      dispatch n socket events;;
      dispatch_all n (S i) event_count'
  end.

(** [timer_.ToNextTick()]; exceptions of callbacks go to the log. *)
Definition server_now (r : Rest W) : Z * Rest W :=
  let '(t, w) := sys_now (world r) in (t, set_world w r).
Definition ToNextTick (n : nat) : M Server Z :=
  HeapTimer.ToNextTick server_now on_timeout (log_line Error) n.

(** One turn of the main loop.  [n] bounds the clients of one tick and of one
    listen event. *)
Definition turn (n : nat) : M Server unit :=
  try_catch
    (wait_time ← ToNextTick n;
     event_count ← on_epoller (Wait wait_time);
     dispatch_all n 0 (N.to_nat event_count))
    (λ err, Log Error (s!"Exception raised in server: " ++ what err)).

(** * Starting and closing *)

Definition any_address : str := s!"0.0.0.0".

(** The part of [InitNetwork] that the guard of its [RAII] object covers. *)
Definition init_listener (addr : N) (listener : Z) : M Server unit :=
  let check (r : option Z) : M Server unit :=
    match r with Some errno => ThrowLastSystemError errno | None => mret tt end in
  r ← on_world (sys_setsockopt listener (SO_LINGER 1)); check r;;
  r ← on_world (sys_setsockopt listener SO_REUSEADDR); check r;;
  r ← on_world (sys_bind listener addr port_); check r;;
  r ← on_world (sys_listen listener); check r;;
  SetFileDescriptorAsNonblocking listener;;
  on_epoller (AddFileDescriptor listener (N.lor listen_event_mode EPOLLIN)).

(** [IPAddr addr {IPAddr::any.data(), port_}] first parses the address. *)
Definition InitNetwork : M Server unit :=
  assert_ (1024 <=? port_)%N;;
  addr ← (match sys_inet_pton any_address with
          | inr a => mret a
          | inl errno => ThrowLastSystemError errno
          end);
  r ← on_world sys_socket;
  let listener := match r with inr fd => fd | inl _ => (-1)%Z end in
  modify (λ s, (s.1, set_listener listener (world s.2) s.2));;
  match r with
  | inl errno => ThrowLastSystemError errno
  | inr fd =>
      try_catch (init_listener addr fd)
        (λ err,
          modify (λ s, (s.1, set_listener invalid_file_descriptor (sys_close fd (world s.2)) s.2));;
          throw (kind err) (what err))
  end.

(** [users_.clear()] *)
Fixpoint release_all (ps : list nat) : M Server unit :=
  match ps with
  | [] => mret tt
  | p :: ps' =>
      s ← get;
      (if shared p s.2 then mret tt else destroy_client p);;
      release_all ps'
  end.

(** [Close] of the server. *)
Definition Server_Close : M Server unit := noexcept (
  s ← get;
  (if IsValidFileDescriptor (listener_ s.2)
   then modify (λ s, (s.1, set_listener invalid_file_descriptor
          (sys_close (listener_ s.2) (world s.2)) s.2))
   else mret tt);;
  modify (λ s, (s.1, mkRest (listener_ s.2) true (tasks s.2) (epoller_ s.2) (users_ s.2)
                       (clients s.2) (logs s.2) (world s.2)));;
  on_epoller Epoller.Close;;
  on_timer Clear;;
  s ← get;
  modify (λ s, (s.1, set_users ∅ s.2));;
  release_all (map_to_list (users_ s.2)).*2).

(** * The whole server

    A step is a turn of the main loop, or a task that a worker takes from the
    pool and runs; at its end the worker drops its pointer to the client. *)
Definition drop_task (i : nat) : M Server unit :=
  modify (λ s, (s.1, set_tasks (delete i (tasks s.2)) s.2)).

Definition work (i : nat) : M Server unit :=
  s ← get;
  t ← deref (tasks s.2 !! i);
  run_task t;;
  drop_task i;;
  s ← get;
  let p := task_client t in
  if shared p s.2 || bool_decide (p ∈ (map_to_list (users_ s.2)).*2) then mret tt
  else destroy_client p.

(** * The invariant

    Every user's pointer leads to a connection of that socket, whose descriptor
    is an [int]; the users are exactly the keys of the timer; the timer is
    consistent; the clients of the tasks exist. *)
Definition users_ok (r : Rest W) : Prop :=
  ∀ fd p, users_ r !! fd = Some p →
    (0 ≤ fd ≤ INT_MAX)%Z ∧ ∃ c, clients r !! p = Some c ∧ Connection.socket_ (conn c) = fd.

Definition timer_ok (t : Timer) : Prop := wf t ∧ ready (entries t).

Definition tasks_ok (r : Rest W) : Prop := ∀ t, t ∈ tasks r → is_Some (clients r !! task_client t).

Definition inv (s : Server) : Prop :=
  timer_ok s.1 ∧ users_ok s.2 ∧ dom (users_ s.2) = dom (entries s.1) ∧ tasks_ok s.2.

(** * Lemmas: the parts *)

Lemma Conn_ok fd p s : users_ s.2 !! fd = Some p → Conn fd s = (Done (Some p), s).
Proof. intros Hp. unfold Conn. mstep. rewrite bool_decide_eq_true_2 by by eexists. mstep. by rewrite Hp. Qed.

Lemma client_at_ok p c s : clients s.2 !! p = Some c → client_at (Some p) s = (Done c, s).
Proof. intros Hc. unfold client_at. mstep. simpl. by rewrite Hc. Qed.

Lemma IPAddress_ok p c s : clients s.2 !! p = Some c → IPAddress (Some p) s = (Done (ip_address c), s).
Proof. intros Hc. unfold IPAddress. by rewrite (bind_done _ _ _ _ _ (client_at_ok p c s Hc)). Qed.

Lemma Socket_ok p c s :
  clients s.2 !! p = Some c → Socket (Some p) s = (Done (Connection.socket_ (conn c)), s).
Proof. intros Hc. unfold Socket. by rewrite (bind_done _ _ _ _ _ (client_at_ok p c s Hc)). Qed.

Lemma on_client_ok {A} p c (m : M (Connection.Connection * W) A) s :
  clients s.2 !! p = Some c → on_client (Some p) m s = run_client p c m s.
Proof.
  intros Hc. unfold on_client. rewrite (bind_done _ _ s p s eq_refl).
  by rewrite (bind_done _ _ _ _ _ (client_at_ok p c s Hc)).
Qed.

Definition close_socket (fd : Z) (w : W) : W := if IsValidFileDescriptor fd then sys_close fd w else w.

Lemma destroy_client_ok p c s :
  clients s.2 !! p = Some c →
  destroy_client p s = (Done tt, (s.1, set_world (close_socket (Connection.socket_ (conn c)) (world s.2))
    (set_clients (delete p (clients s.2)) s.2))).
Proof.
  intros Hc. unfold destroy_client.
  assert (∃ c', on_client (Some p) (Connection.Close (λ fd w, sys_close fd w)) s =
    (Done tt, (s.1, set_world (close_socket (Connection.socket_ (conn c)) (world s.2))
      (set_clients (<[p := c']> (clients s.2)) s.2)))) as [c' Hcl].
  { rewrite (on_client_ok p c _ s Hc). unfold run_client, Connection.Close. rewrite (bind_done get _ _ _ _ eq_refl).
    unfold close_socket. simpl. destruct (IsValidFileDescriptor _); eexists; reflexivity. }
  rewrite (bind_done _ _ _ _ _ Hcl). unfold modify. simpl. by rewrite delete_insert_eq.
Qed.

Lemma on_epoller_ok {A} (m : M (Epoller * W) A) s r e w :
  m (epoller_ s.2, world s.2) = (r, (e, w)) → on_epoller m s = (r, (s.1, set_epoller e w s.2)).
Proof. intros H. unfold on_epoller, zoom. by rewrite H. Qed.

(** ** Closing a client *)

Lemma erase_user_ok fd p c s :
  users_ s.2 !! fd = Some p → clients s.2 !! p = Some c →
  ∃ r', erase_user fd s = (Done tt, (s.1, r')) ∧ users_ r' = delete fd (users_ s.2) ∧
    tasks r' = tasks s.2 ∧ listener_ r' = listener_ s.2 ∧ pool_closed r' = pool_closed s.2 ∧
    logs r' = logs s.2 ∧
    clients r' = (if shared p s.2 then clients s.2 else delete p (clients s.2)) ∧
    world r' = (if shared p s.2 then world s.2 else close_socket (Connection.socket_ (conn c)) (world s.2)).
Proof.
  intros Hp Hc. unfold erase_user. mstep. rewrite Hp. mstep.
  destruct (shared p s.2); [by eexists|].
  rewrite (destroy_client_ok p c) by done. by eexists.
Qed.

(** Whether the callbacks of the timer are ready does not matter here. *)
Lemma CloseClient_wf fd p c t r :
  wf t → nonneg t → (0 ≤ fd)%Z → users_ r !! fd = Some p → clients r !! p = Some c →
  ∃ t' r' line, CloseClient fd (t, r) = (Done tt, (t', r')) ∧
    wf t' ∧ entries t' = delete fd (entries t) ∧
    users_ r' = delete fd (users_ r) ∧ tasks r' = tasks r ∧
    listener_ r' = listener_ r ∧ pool_closed r' = pool_closed r ∧
    logs r' = logs r ++ line ++ [(Info, s!"Client " ++ ip_address c ++ s!" has disconnected")] ∧
    clients r' = (if shared p r then clients r else delete p (clients r)) ∧
    world r' = (let w := (sys_epoll_ctl (epoll_fd_ (epoller_ r)) Delete fd 0 (world r)).2 in
                if shared p r then w else close_socket (Connection.socket_ (conn c)) w).
Proof.
  intros Hwf Hnn Hfd Hp Hc. unfold CloseClient, noexcept, IsValidFileDescriptor.
  rewrite (proj2 (Z.leb_le _ _) Hfd). mstep.
  rewrite (bind_done _ _ _ _ _ (Conn_ok fd p (t, r) Hp)).
  rewrite (bind_done _ _ _ _ _ (IPAddress_ok p c (t, r) Hc)).
  destruct (sys_epoll_ctl (epoll_fd_ (epoller_ r)) Delete fd 0 (world r)) as [res w] eqn:Hctl.
  pose proof (on_epoller_ok _ (t, r) _ _ _ (Delete_ok fd (epoller_ r) (world r) res w Hfd Hctl)) as Hd.
  set (r1 := set_epoller (epoller_ r) w r) in *.
  assert (∃ line, try_catch (on_epoller (DeleteFileDescriptor fd))
    (λ err, Log Debug (s!"Failed to delete socket " ++ quote_fd fd ++ s!" from epoller: " ++ what err)) (t, r) =
    (Done tt, (t, mkRest (listener_ r) (pool_closed r) (tasks r) (epoller_ r) (users_ r) (clients r)
      (logs r ++ line) w))) as [line Htry].
  { unfold try_catch. rewrite Hd. destruct res as [errno|]; simpl.
    - by eexists.
    - exists []. by rewrite app_nil_r. }
  rewrite (bind_done _ _ _ _ _ Htry). set (r2 := mkRest _ _ _ _ _ _ _ _).
  destruct (Remove_ok t fd Hwf Hnn) as (t' & Hrm & Hwf' & He').
  rewrite (bind_done _ _ _ _ _ (on_timer_ok _ _ r2 _ _ Hrm)).
  destruct (erase_user_ok fd p c (t', r2) Hp Hc) as (r3 & Her & Hu & Ht & Hl & Hpc & Hlg & Hcl & Hw).
  rewrite (bind_done _ _ _ _ _ Her). unfold Log, modify. simpl fst. simpl snd.
  exists t', (log_line Info (s!"Client " ++ ip_address c ++ s!" has disconnected") r3), line.
  split; [done|]. cbn [log_line users_ tasks listener_ pool_closed logs clients world].
  split_and!; try done. rewrite Hlg. subst r2. simpl. by rewrite <-app_assoc.
Qed.

Lemma CloseClient_ok fd p c t r :
  timer_ok t → (0 ≤ fd)%Z → users_ r !! fd = Some p → clients r !! p = Some c →
  ∃ t' r' line, CloseClient fd (t, r) = (Done tt, (t', r')) ∧
    timer_ok t' ∧ entries t' = delete fd (entries t) ∧
    users_ r' = delete fd (users_ r) ∧ tasks r' = tasks r ∧
    listener_ r' = listener_ r ∧ pool_closed r' = pool_closed r ∧
    logs r' = logs r ++ line ++ [(Info, s!"Client " ++ ip_address c ++ s!" has disconnected")] ∧
    clients r' = (if shared p r then clients r else delete p (clients r)) ∧
    world r' = (let w := (sys_epoll_ctl (epoll_fd_ (epoller_ r)) Delete fd 0 (world r)).2 in
                if shared p r then w else close_socket (Connection.socket_ (conn c)) w).
Proof.
  intros [Hwf Hrd] Hfd Hp Hc.
  destruct (CloseClient_wf fd p c t r Hwf (ready_nonneg t (proj1 Hwf) Hrd) Hfd Hp Hc)
    as (t' & r' & line & Hr & Hwf' & He' & Hrest).
  exists t', r', line. split; [done|]. split; [|done]. split; [done|]. rewrite He'. by apply ready_delete.
Qed.

(** Erasing one user keeps the others. *)
Lemma users_ok_delete r r' fd p :
  users_ok r → users_ r !! fd = Some p → users_ r' = delete fd (users_ r) →
  (clients r' = clients r ∨ clients r' = delete p (clients r)) → users_ok r'.
Proof.
  intros Hok Hp Hu Hc fd' p' Hp'. rewrite Hu in Hp'. apply lookup_delete_Some in Hp' as [Hne Hp'].
  destruct (Hok fd' p' Hp') as (Hfd & c & Hcl & Hs). split; [done|]. exists c. split; [|done].
  destruct Hc as [->| ->]; [done|]. rewrite lookup_delete_ne; [done|]. intros <-.
  destruct (Hok fd p Hp) as (_ & c' & Hcl' & Hs'). congruence.
Qed.

(** A connection is destroyed only if no task points to it. *)
Lemma tasks_ok_release r r' p :
  tasks_ok r → tasks r' = tasks r →
  clients r' = (if shared p r then clients r else delete p (clients r)) → tasks_ok r'.
Proof.
  unfold shared. intros Hk Ht Hc t Hin. rewrite Ht in Hin. rewrite Hc.
  case_bool_decide as Hp; [by apply Hk|].
  rewrite lookup_delete_ne; [by apply Hk|]. intros ->. apply Hp. by apply list_elem_of_fmap_2.
Qed.

(** ** Time-outs *)

Lemma on_timeout_wf fd p c t r :
  wf t → nonneg t → (0 ≤ fd)%Z → users_ r !! fd = Some p → clients r !! p = Some c →
  ∃ t' r', on_timeout CloseTimedOut fd (t, r) = (Done tt, (t', r')) ∧
    wf t' ∧ entries t' = delete fd (entries t) ∧
    users_ r' = delete fd (users_ r) ∧ tasks r' = tasks r ∧ listener_ r' = listener_ r ∧
    clients r' = (if shared p r then clients r else delete p (clients r)).
Proof.
  intros Hwf Hnn Hfd Hp Hc.
  unfold on_timeout. rewrite (bind_done _ _ _ _ _ (Conn_ok fd p (t, r) Hp)).
  rewrite (bind_done _ _ _ _ _ (IPAddress_ok p c (t, r) Hc)). unfold Log at 1. mstep. simpl fst. simpl snd.
  set (r0 := log_line _ _ r).
  destruct (CloseClient_wf fd p c t r0 Hwf Hnn Hfd Hp Hc)
    as (t' & r' & line & Hcl & Hwf' & He & Hu & Htk & Hl & _ & _ & Hcs & _).
  exists t', r'. by split_and!.
Qed.

Lemma on_timeout_ok fd p t r :
  timer_ok t → users_ok r → users_ r !! fd = Some p →
  ∃ t' r', on_timeout CloseTimedOut fd (t, r) = (Done tt, (t', r')) ∧
    timer_ok t' ∧ users_ok r' ∧ entries t' = delete fd (entries t) ∧
    users_ r' = delete fd (users_ r) ∧ tasks r' = tasks r ∧ listener_ r' = listener_ r ∧
    clients r' = (if shared p r then clients r else delete p (clients r)).
Proof.
  intros [Hwf Hrd] Hok Hp. destruct (Hok fd p Hp) as (Hfd & c & Hc & _).
  destruct (on_timeout_wf fd p c t r Hwf (ready_nonneg t (proj1 Hwf) Hrd) (proj1 Hfd) Hp Hc)
    as (t' & r' & Hr & Hwf' & He & Hu & Htk & Hl & Hcs).
  exists t', r'. split; [exact Hr|]. split; [split; [done|rewrite He; by apply ready_delete]|].
  split; [|done].
  eapply (users_ok_delete r r' fd p); [exact Hok|done|done|]. rewrite Hcs. destruct (shared p r); auto.
Qed.

Section Clock.
Context (T : Z) (Hclock : ∀ w, sys_now w = (T, w)).

Lemma server_now_const r : server_now r = (T, r).
Proof. unfold server_now. rewrite Hclock. by destruct r. Qed.

Abbreviation Tick := (HeapTimer.Tick server_now on_timeout (log_line Error)).

Lemma users_filter_all (u : gmap Z nat) (e : gmap Z (Z * option Timeout)) :
  dom u = dom e → filter (λ q, q.1 ∈ dom e) u = u.
Proof. intros Hd. apply map_filter_id. intros k x Hk. simpl. rewrite <-Hd. by apply elem_of_dom_2 in Hk. Qed.

Lemma Tick_closes n : ∀ t r,
  timer_ok t → users_ok r → dom (users_ r) = dom (entries t) → size (entries t) < n →
  ∃ t' r', Tick n (t, r) = (Done tt, (t', r')) ∧ timer_ok t' ∧ users_ok r' ∧
    entries t' = filter (λ p, ¬ expired T p) (entries t) ∧
    users_ r' = filter (λ q, q.1 ∈ dom (entries t')) (users_ r) ∧
    tasks r' = tasks r ∧ listener_ r' = listener_ r ∧
    (nodes_ t' = [] ∨ ∃ m, node_of t' 0 = Some m ∧ (T < expiration m)%Z).
Proof.
  induction n as [|n IH]; intros t r Ht Hok Hdom Hn; [lia|]. pose proof Ht as [Hwf Hrd].
  assert (returns (Tick_body server_now on_timeout (log_line Error)) (t, r) false (t, r) →
    (nodes_ t = [] ∨ ∃ m, node_of t 0 = Some m ∧ (T < expiration m)%Z) →
    ∃ t' r', Tick (S n) (t, r) = (Done tt, (t', r')) ∧ timer_ok t' ∧ users_ok r' ∧
      entries t' = filter (λ p, ¬ expired T p) (entries t) ∧
      users_ r' = filter (λ q, q.1 ∈ dom (entries t')) (users_ r) ∧
      tasks r' = tasks r ∧ listener_ r' = listener_ r ∧
      (nodes_ t' = [] ∨ ∃ m, node_of t' 0 = Some m ∧ (T < expiration m)%Z)) as Hstop.
  { intros Hr Hd. destruct (filter_expired_none T t Hwf Hd) as [_ Hf]. exists t, r.
    unfold HeapTimer.Tick. cbn [while_]. mrun Hr. rewrite Hf, users_filter_all by done. by split_and!. }
  destruct (Tick_body_stop server_now on_timeout (log_line Error) t r Hwf)
    as [[He Hr]|[(m & Hm & Hx & Hr)|(m & Hm & Hx)]].
  - apply Hstop; auto.
  - rewrite server_now_const in *. apply Hstop; [done|]. right. by exists m.
  - rewrite server_now_const in Hx. simpl in Hx.
    destruct (Tick_body_fire server_now on_timeout (log_line Error) t r m Hwf Hrd Hm)
      as (t0 & Hwf0 & He0 & Hr); [by rewrite server_now_const|].
    rewrite server_now_const in Hr. simpl in Hr.
    destruct (ready_node t m (proj1 Hwf) Hrd Hm) as [[] Hcb].
    assert (entries t !! key m = Some (expiration m, callback m)) as Hkm.
    { apply entries_Some, in_nodes; [apply Hwf|]. exists 0%N. by destruct m. }
    assert (timer_ok t0) as Ht0 by (split; [done|]; rewrite He0; by apply ready_delete).
    assert (is_Some (users_ r !! key m)) as [p Hp].
    { apply elem_of_dom. rewrite Hdom. by apply elem_of_dom_2 in Hkm. }
    destruct (on_timeout_ok (key m) p t0 r Ht0 Hok Hp)
      as (t1 & r1 & Hrun & Ht1 & Hok1 & He1 & Hu1 & Htk1 & Hl1 & _).
    rewrite He0, delete_delete_eq in He1.
    assert (returns (Tick_body server_now on_timeout (log_line Error)) (t, r) true (t1, r1)) as Hb.
    { unfold returns. rewrite Hr, Hcb.
      by mrun (invoke_callback_ok on_timeout (log_line Error) CloseTimedOut (key m) t0 r _ _ _ Hrun (or_introl eq_refl)). }
    pose proof (size_entries_pop t m (proj1 Hwf) Hm) as Hsz.
    destruct (IH t1 r1 Ht1 Hok1) as (t' & r' & Hr' & Ht' & Hok' & He' & Hu' & Htk' & Hl' & Hs').
    { by rewrite Hu1, He1, !dom_delete_L, Hdom. } { rewrite He1. lia. }
    assert (entries t' = filter (λ p, ¬ expired T p) (entries t)) as He2.
    { rewrite He', He1. rewrite <-(insert_id (entries t) (key m) _ Hkm) at 2.
      rewrite <-insert_delete_eq, map_filter_insert_False; [|by intros []].
      by rewrite delete_delete_eq. }
    exists t', r'. split_and!; [unfold HeapTimer.Tick; cbn [while_]; mrun Hb; exact Hr'|done|done|exact He2| |congruence|congruence|done].
    rewrite Hu', Hu1. rewrite <-(insert_id (users_ r) (key m) p Hp) at 2.
    rewrite <-insert_delete_eq, map_filter_insert_False, delete_delete_eq; [done|]. simpl.
    rewrite not_elem_of_dom, He2. apply map_lookup_filter_None. right. intros v Hv Hnx.
    apply Hnx. rewrite Hkm in Hv. by simplify_eq.
Qed.
End Clock.

(** ** Alive times *)

Lemma now_ok s v w : sys_now (world s.2) = (v, w) → now s = (Done v, (s.1, set_world w s.2)).
Proof. intros H. unfold now, on_world. by rewrite H. Qed.

Lemma Adjust_server fd d v e cb t (r : Rest W) :
  timer_ok t → (0 ≤ v + d)%Z → entries t !! fd = Some (e, cb) →
  ∃ t', on_timer (Adjust_after fd v d) (t, r) = (Done tt, (t', r)) ∧ timer_ok t' ∧
    entries t' = <[fd := ((v + d)%Z, cb)]> (entries t).
Proof.
  intros [Hwf Hrd] Hv He.
  destruct (Adjust_node_ok t fd (v + d) None e cb Hwf He) as (t' & Hr & Hwf' & He').
  exists t'. split_and!; [exact (on_timer_ok _ t r _ _ Hr)| |done].
  split; [done|]. rewrite He'. apply map_Forall_insert_2; [|done].
  split; [done|]. by destruct (Hrd fd (e, cb) He).
Qed.

Lemma Extend_ok fd e cb t r v w :
  timer_ok t → (0 ≤ fd)%Z → (0 ≤ v + alive_time_)%Z → sys_now (world r) = (v, w) →
  entries t !! fd = Some (e, cb) →
  ∃ t', ExtendClientAliveTime fd (t, r) = (Done true, (t', set_world w r)) ∧ timer_ok t' ∧
    entries t' = <[fd := ((v + alive_time_)%Z, cb)]> (entries t).
Proof.
  intros Ht Hfd Hv Hn He. destruct (Adjust_server fd alive_time_ v e cb t (set_world w r) Ht Hv He)
    as (t' & Hr & Ht' & He').
  exists t'. split_and!; [|done|done]. unfold ExtendClientAliveTime, IsValidFileDescriptor.
  rewrite (proj2 (Z.leb_le _ _) Hfd). mstep. mstep. simpl. rewrite Contain_entries, He by apply Ht.
  rewrite bool_decide_eq_true_2 by by eexists.
  rewrite (bind_done _ _ _ _ _ (now_ok (t, r) v w Hn)). by rewrite (bind_done _ _ _ _ _ Hr).
Qed.

Lemma Extend_unknown fd t r :
  wf t → (0 ≤ fd)%Z → entries t !! fd = None →
  ExtendClientAliveTime fd (t, r) = (Done false, (t, r)).
Proof.
  intros Ht Hfd He. unfold ExtendClientAliveTime, IsValidFileDescriptor.
  rewrite (proj2 (Z.leb_le _ _) Hfd). mstep. mstep. simpl. rewrite Contain_entries, He by apply Ht.
  by rewrite bool_decide_eq_false_2 by (by intros []).
Qed.

Lemma Mark_wf fd e cb t r v w :
  wf t → (0 ≤ fd)%Z → sys_now (world r) = (v, w) → entries t !! fd = Some (e, cb) →
  ∃ t', MarkClientAsToBeClosed fd (t, r) = (Done tt, (t', set_world w r)) ∧ wf t' ∧
    entries t' = <[fd := (v, cb)]> (entries t).
Proof.
  intros Hwf Hfd Hn He. destruct (Adjust_node_ok t fd (v + 0) None e cb Hwf He) as (t' & Hadj & Hwf' & He').
  assert (on_timer (Adjust_after fd v 0) (t, set_world w r) = (Done tt, (t', set_world w r))) as Hr
    by exact (on_timer_ok _ t _ _ _ Hadj).
  rewrite Z.add_0_r in He'. exists t'. split_and!; [|done|done].
  unfold MarkClientAsToBeClosed, noexcept, IsValidFileDescriptor.
  rewrite (proj2 (Z.leb_le _ _) Hfd). mstep. mstep. simpl. rewrite Contain_entries, He by apply Hwf.
  rewrite bool_decide_eq_true_2 by by eexists. mstep.
  rewrite (bind_done _ _ _ _ _ (now_ok (t, r) v w Hn)). cbn [fst snd]. by rewrite Hr.
Qed.

Lemma Mark_ok fd e cb t r v w :
  timer_ok t → (0 ≤ fd)%Z → (0 ≤ v)%Z → sys_now (world r) = (v, w) →
  entries t !! fd = Some (e, cb) →
  ∃ t', MarkClientAsToBeClosed fd (t, r) = (Done tt, (t', set_world w r)) ∧ timer_ok t' ∧
    entries t' = <[fd := (v, cb)]> (entries t).
Proof.
  intros [Hwf Hrd] Hfd Hv Hn He. destruct (Mark_wf fd e cb t r v w Hwf Hfd Hn He) as (t' & Hr & Hwf' & He').
  exists t'. split; [exact Hr|]. split; [|exact He'].
  split; [done|]. rewrite He'. apply map_Forall_insert_2; [|done].
  split; [done|]. by destruct (Hrd fd (e, cb) He).
Qed.

Lemma Mark_unknown fd t r :
  wf t → entries t !! fd = None → (MarkClientAsToBeClosed fd (t, r)).1 = Crash.
Proof.
  intros Ht He. unfold MarkClientAsToBeClosed, noexcept.
  destruct (IsValidFileDescriptor fd); [|done]. mstep. mstep. simpl.
  rewrite Contain_entries, He by apply Ht. by rewrite bool_decide_eq_false_2 by (by intros []).
Qed.

(** ** Tasks *)

Lemma client_Receive_run p c s r c' w :
  clients s.2 !! p = Some c →
  Connection.Receive sys_readv sys_write sys_strerror fuel (conn c, world s.2) = (r, (c', w)) →
  client_Receive (Some p) s =
    (r, (s.1, set_world w (set_clients (<[p := mkClient c' (ip_address c)]> (clients s.2)) s.2))).
Proof.
  intros Hc Hr. unfold client_Receive. rewrite (on_client_ok p c _ s Hc). unfold run_client.
  by rewrite Hr.
Qed.

Lemma client_Send_run p c s r c' w :
  clients s.2 !! p = Some c →
  Connection.Send sys_readv sys_write sys_strerror fuel (conn c, world s.2) = (r, (c', w)) →
  client_Send (Some p) s =
    (r, (s.1, set_world w (set_clients (<[p := mkClient c' (ip_address c)]> (clients s.2)) s.2))).
Proof.
  intros Hc Hr. unfold client_Send. rewrite (on_client_ok p c _ s Hc). unfold run_client.
  by rewrite Hr.
Qed.

(** What a client waits for after [Process]. *)
Definition next_events (ready : bool) : N := N.lor connect_event_mode (if ready then EPOLLOUT else EPOLLIN).

(** [Process] of the server, when the connection has answered [b]. *)
Lemma Process_run p c s b c' res w :
  clients s.2 !! p = Some c →
  Connection.Process fs iter moved root_dir (conn c) = (Done b, c') →
  (0 ≤ Connection.socket_ c')%Z →
  sys_epoll_ctl (epoll_fd_ (epoller_ s.2)) Modify (Connection.socket_ c') (next_events b) (world s.2) = (res, w) →
  Process (Some p) s =
    (match res with None => Done tt | Some errno => Throw (Exn (system_error errno) (sys_strerror errno)) end,
     (s.1, set_world w (set_clients (<[p := mkClient c' (ip_address c)]> (clients s.2)) s.2))).
Proof.
  intros Hc Hp Hfd Hctl. unfold Process.
  set (s' := (s.1, set_world (world s.2) (set_clients (<[p := mkClient c' (ip_address c)]> (clients s.2)) s.2))).
  assert (client_Process (Some p) s = (Done b, s')) as Hcp.
  { unfold client_Process. rewrite (on_client_ok p c _ s Hc). unfold run_client, zoom. simpl. by rewrite Hp. }
  rewrite (bind_done _ _ _ _ _ Hcp).
  assert (clients s'.2 !! p = Some (mkClient c' (ip_address c))) as Hc' by (simpl; by rewrite lookup_insert_eq).
  rewrite (bind_done _ _ _ _ _ (Socket_ok p _ s' Hc')). simpl conn.
  assert (on_epoller (ModifyFileDescriptor (Connection.socket_ c') (next_events b)) s' =
    (match res with None => Done tt | Some errno => Throw (Exn (system_error errno) (sys_strerror errno)) end,
     (s.1, set_epoller (epoller_ s.2) w s'.2))) as Hm.
  { change (epoller_ s.2) with (epoller_ s'.2). change s.1 with s'.1.
    apply on_epoller_ok. by apply SetFileDescriptor_ok. }
  cbn [conn]. destruct b; exact Hm.
Qed.
End WebServer.
