(* ===== verification/ServerInvariant.v ===== *)
(** The invariant of the running server ([include/web_server.h]): every handler,
    every turn of the main loop and every task keep the table of users, the
    timer system and the tasks consistent. *)

From S2P Require Import Prelude Util Buffer Epoller HeapTimer LogField.
From S2P Require Connection.
From S2P Require Import WebServer.

Section Invariant.
Context {W : Type} `{!Kernel W}.
Context (fs : FileSystem) (iter : Http.Parameters → list (str * str)) (moved : bool → str → str).
Context (root_dir : str) (fuel : nat) (port_ : N) (alive_time_ : Z).

Abbreviation Timer := (HeapTimer Z Timeout).
Abbreviation Server := (Timer * Rest W)%type.
Implicit Types (s : Server) (r : Rest W).
Abbreviation Inv := (inv : Server → Prop).

(** ** Parts that the invariant does not mention *)

Lemma inv_rest t r r' :
  inv (t, r) → users_ r' = users_ r → clients r' = clients r → tasks r' = tasks r → inv (t, r').
Proof.
  intros (Ht & Hu & Hd & Hk) Eu Ec Et. unfold inv, users_ok, tasks_ok in *. simpl in *.
  by rewrite Eu, Ec, Et.
Qed.

Lemma Log_keeps l m : keeps Inv (Log l m : M Server unit).
Proof. apply keeps_modify. intros [t r] H. by eapply inv_rest. Qed.

Lemma on_epoller_keeps {A} (m : M (Epoller * W) A) : keeps Inv (on_epoller m).
Proof. apply keeps_zoom. intros e [t r] H. by eapply inv_rest. Qed.

Lemma on_world_keeps {A} (f : W → A * W) : keeps Inv (on_world f).
Proof.
  intros [t r] H. unfold keeps_at, on_world. destruct (f _) as [a w]. right. by eapply inv_rest.
Qed.

Lemma now_keeps : keeps Inv now.
Proof. apply on_world_keeps. Qed.

Lemma ThrowLastSystemError_keeps {A} errno : keeps Inv (ThrowLastSystemError (S:=Server) (A:=A) errno).
Proof. apply keeps_throw. Qed.

Lemma client_at_keeps p : keeps Inv (client_at p).
Proof. unfold client_at. repeat keep_step. Qed.

#[local] Hint Resolve Log_keeps on_epoller_keeps on_world_keeps now_keeps ThrowLastSystemError_keeps
  client_at_keeps : keeps.

Lemma Conn_keeps fd : keeps Inv (Conn fd : M Server (option nat)).
Proof. unfold Conn. repeat keep_step. Qed.

Lemma IPAddress_keeps p : keeps Inv (IPAddress p).
Proof. unfold IPAddress. repeat keep_step. Qed.

Lemma Socket_keeps p : keeps Inv (Socket p).
Proof. unfold Socket. repeat keep_step. Qed.

Lemma KeepAlive_keeps p : keeps Inv (KeepAlive p).
Proof. unfold KeepAlive. repeat keep_step. Qed.

Lemma Nonblocking_keeps fd : keeps Inv (SetFileDescriptorAsNonblocking fd : M Server unit).
Proof. unfold SetFileDescriptorAsNonblocking. repeat keep_step. Qed.

#[local] Hint Resolve Conn_keeps IPAddress_keeps Socket_keeps KeepAlive_keeps Nonblocking_keeps : keeps.

(** ** The connections *)

Lemma run_client_keeps {A} p c (m : M (Connection.Connection * W) A) s :
  (∀ fd, keeps (λ x, Connection.socket_ x.1 = fd) m) → clients s.2 !! p = Some c → inv s →
  keeps_at inv (run_client p c m) s.
Proof.
  intros Hm Hp Hinv. destruct s as [t r]. unfold keeps_at, run_client. simpl in *.
  destruct (Hm _ (conn c, world r) eq_refl) as [Hc|Hs].
  { left. destruct (m _) as [x [c' w]]. exact Hc. }
  right. destruct (m _) as [x [c' w]] eqn:He. simpl in *.
  destruct Hinv as (Ht & Hu & Hd & Hk). split_and!; [done| |done|].
  - intros fd q Hq. simpl in *. destruct (Hu fd q Hq) as (Hfd & c0 & Hc0 & Hs0). split; [done|].
    destruct (decide (q = p)) as [->|Hne].
    + exists (mkClient c' (ip_address c)). rewrite lookup_insert_eq. split; [done|]. simpl. congruence.
    + exists c0. by rewrite lookup_insert_ne.
  - intros k Hin. simpl in *. apply lookup_insert_is_Some'. right. by apply Hk.
Qed.

Lemma on_client_keeps {A} p (m : M (Connection.Connection * W) A) :
  (∀ fd, keeps (λ x, Connection.socket_ x.1 = fd) m) → keeps Inv (on_client p m).
Proof.
  intros Hm s Hs. unfold on_client. destruct p as [p|]; [|by left].
  destruct (clients s.2 !! p) as [c|] eqn:Hc.
  - unfold keeps_at. rewrite (bind_done (deref (Some p)) _ s p s eq_refl).
    rewrite (bind_done _ _ _ _ _ (client_at_ok p c s Hc)). by apply run_client_keeps.
  - left. rewrite (bind_done (deref (Some p)) _ s p s eq_refl).
    rewrite (bind_crash _ _ s s); [done|]. unfold client_at. mstep. simpl. by rewrite Hc.
Qed.

Lemma client_Receive_keeps p : keeps Inv (client_Receive fuel p).
Proof. apply on_client_keeps. intros fd. apply Connection.Receive_socket. Qed.

Lemma client_Send_keeps p : keeps Inv (client_Send fuel p).
Proof. apply on_client_keeps. intros fd. apply Connection.Send_socket. Qed.

Lemma client_Process_keeps p : keeps Inv (client_Process fs iter moved root_dir p).
Proof.
  apply on_client_keeps. intros fd [c w] Hc. unfold keeps_at, zoom. simpl in *.
  pose proof (Connection.Process_socket fs iter moved root_dir fd c Hc) as H.
  unfold keeps_at in H. by destruct (Connection.Process _ _ _ _ c) as [x c'].
Qed.

#[local] Hint Resolve client_Receive_keeps client_Send_keeps client_Process_keeps : keeps.

(** ** Deadlines *)

Lemma inv_timer t t' r :
  inv (t, r) → timer_ok t' → dom (entries t') = dom (entries t) → inv (t', r).
Proof. intros (Ht & Hu & Hd & Hk) Ht' He. split_and!; try done. simpl in *. by rewrite Hd, He. Qed.

Lemma adjust_keeps fd t r v d :
  inv (t, r) → (0 ≤ v + d)%Z → Contain fd t = true →
  ∃ t', on_timer (Adjust_after fd v d) (t, r) = (Done tt, (t', r)) ∧ inv (t', r).
Proof.
  intros Hinv Hv Hc. pose proof Hinv as (Ht & _). simpl in Ht.
  rewrite Contain_entries in Hc by apply Ht. apply bool_decide_eq_true in Hc as [[e cb] He].
  destruct (Adjust_server fd d v e cb t r Ht Hv He) as (t' & Hr & Ht' & He').
  exists t'. split; [done|]. eapply inv_timer; [done|done|]. rewrite He', dom_insert_L.
  apply elem_of_dom_2 in He. set_solver.
Qed.

(** The steady clock is not before its epoch. *)
Context (Hnow : ∀ w, (0 ≤ (sys_now w).1)%Z).

Lemma now_adjust fd d s :
  inv s → (0 ≤ d)%Z → Contain fd s.1 = true →
  ∃ v s1 s2, now s = (Done v, s1) ∧ on_timer (Adjust_after fd v d) s1 = (Done tt, s2) ∧ inv s2.
Proof.
  intros Hinv Hd Hc. destruct s as [t r]. destruct (sys_now (world r)) as [v w] eqn:Hn.
  assert (0 ≤ v)%Z as Hv by (pose proof (Hnow (world r)) as H; by rewrite Hn in H).
  destruct (adjust_keeps fd t (set_world w r) v d) as (t' & Hr & Hi); [by eapply inv_rest|lia|done|].
  exists v, (t, set_world w r), (t', set_world w r). split_and!; [by apply now_ok|done|done].
Qed.

Lemma Mark_keeps fd : keeps Inv (MarkClientAsToBeClosed fd).
Proof.
    apply keeps_noexcept, keeps_bind; [auto with keeps|]. intros _ s Hs.
  unfold keeps_at. mstep. destruct (Contain fd s.1) eqn:Hc; [|by left]. mstep.
  destruct (now_adjust fd 0 s Hs (Z.le_refl 0) Hc) as (v & s1 & s2 & H1 & H2 & Hi).
  mrun H1. rewrite H2. by right.
Qed.

(** Nor is the alive time negative. *)
Context (Halive : (0 ≤ alive_time_)%Z).

Lemma Extend_keeps fd : keeps Inv (ExtendClientAliveTime alive_time_ fd).
Proof.
    apply keeps_bind; [auto with keeps|]. intros _ s Hs.
  unfold keeps_at. mstep. destruct (Contain fd s.1) eqn:Hc; [|by right].
  destruct (now_adjust fd alive_time_ s Hs Halive Hc) as (v & s1 & s2 & H1 & H2 & Hi).
  mrun H1. mrun H2. by right.
Qed.

#[local] Hint Resolve Extend_keeps Mark_keeps : keeps.

(** ** Tasks and events *)

Lemma ServerProcess_keeps p : keeps Inv (Process fs iter moved root_dir p).
Proof. unfold Process. repeat keep_step. Qed.

#[local] Hint Resolve ServerProcess_keeps : keeps.

Lemma ReceiveFrom_keeps p : keeps Inv (ReceiveFrom fs iter moved root_dir fuel p).
Proof. unfold ReceiveFrom. repeat keep_step. Qed.

Lemma SendTo_keeps p : keeps Inv (SendTo fs iter moved root_dir fuel p).
Proof. unfold SendTo. repeat keep_step. Qed.

Lemma run_task_keeps t : keeps Inv (run_task fs iter moved root_dir fuel t).
Proof. destruct t; [apply ReceiveFrom_keeps|apply SendTo_keeps]. Qed.

Lemma queue_keeps fd (task : nat → Task) :
  (∀ p, task_client (task p) = p) →
  keeps Inv (p ← Conn fd; i ← deref p; pool_Push (task i)).
Proof.
  intros Htask s Hs. destruct (users_ s.2 !! fd) as [p|] eqn:Hp.
  - unfold keeps_at. mrun (Conn_ok fd p s Hp). rewrite (bind_done (deref (Some p)) _ s p s eq_refl).
    unfold pool_Push. mstep. destruct (pool_closed s.2); [by left|]. mstep. right.
    destruct s as [t r]. destruct Hs as (Ht & Hu & Hd & Hk). split_and!; try done.
    intros k Hin. simpl in *. apply elem_of_app in Hin as [Hin| ->%list_elem_of_singleton]; [by apply Hk|].
    destruct (Hu fd p Hp) as (_ & c & Hc & _). rewrite Htask. by eexists.
  - left. unfold Conn. rewrite (bind_crash _ _ s s); [done|]. mstep. by rewrite bool_decide_eq_false_2 by (rewrite Hp; by intros []).
Qed.

Lemma OnReceiveEvent_keeps fd : keeps Inv (OnReceiveEvent alive_time_ fd).
Proof.
  unfold OnReceiveEvent. keep_step; [auto with keeps|]. apply keeps_if; [|auto with keeps].
  by apply (queue_keeps fd ReceiveTask).
Qed.

Lemma OnSendEvent_keeps fd : keeps Inv (OnSendEvent alive_time_ fd).
Proof.
  unfold OnSendEvent. keep_step; [auto with keeps|]. apply keeps_if; [|auto with keeps].
  by apply (queue_keeps fd SendTask).
Qed.
#[local] Hint Resolve OnReceiveEvent_keeps OnSendEvent_keeps run_task_keeps : keeps.

(** ** New clients *)

Lemma int_set_size (X : gset Z) (n : Z) : (∀ x, x ∈ X → (0 ≤ x < n)%Z) → size X ≤ Z.to_nat n.
Proof.
  intros HX. rewrite <-(length_seqZ 0 n), <-(size_list_to_set (C := gset Z)) by apply NoDup_seqZ.
  apply subseteq_size. intros x Hx. apply elem_of_list_to_set, elem_of_seqZ. specialize (HX x Hx). lia.
Qed.

Lemma inv_room t r : inv (t, r) → (len (nodes_ t) < max_size)%N.
Proof.
  intros (Ht & Hu & Hd & _). simpl in *. unfold len.
  rewrite <-(size_entries t) by apply Ht. rewrite <-size_dom, <-Hd.
  pose proof (int_set_size (dom (users_ r)) (INT_MAX + 1)) as H.
  assert (size (dom (users_ r)) ≤ Z.to_nat (INT_MAX + 1)) as Hs.
  { apply H. intros fd [p Hp]%elem_of_dom. destruct (Hu fd p Hp) as [? _]. lia. }
  unfold max_size, INT_MAX in *. lia.
Qed.

(** [users_.insert] of a new connection. *)
Definition inserted (fd : Z) (p : nat) (c : Client) (r : Rest W) : Rest W :=
  set_users (<[fd := p]> (users_ r)) (set_clients (<[p := c]> (clients r)) r).

Lemma inserted_ok fd p c r :
  users_ok r → tasks_ok r → clients r !! p = None → (0 ≤ fd ≤ INT_MAX)%Z →
  Connection.socket_ (conn c) = fd → users_ok (inserted fd p c r) ∧ tasks_ok (inserted fd p c r).
Proof.
  intros Hu Hk Hp Hfd Hs. split.
  - intros fd' q Hq. simpl in *. apply lookup_insert_Some in Hq as [[<- <-]|[Hne Hq]].
    + split; [done|]. exists c. by rewrite lookup_insert_eq.
    + destruct (Hu fd' q Hq) as (Hfd' & c' & Hc' & Hs'). split; [done|]. exists c'.
      rewrite lookup_insert_ne; [done|]. congruence.
  - intros t Ht. simpl in *. apply lookup_insert_is_Some'. right. by apply Hk.
Qed.

Lemma fresh_client_None r : clients r !! fresh_client r = None.
Proof. apply not_elem_of_dom. apply is_fresh. Qed.

Lemma push_keeps fd t r :
  timer_ok t → (len (nodes_ t) < max_size)%N →
  ∃ v w t', now (t, r) = (Done v, (t, set_world w r)) ∧ sys_now (world r) = (v, w) ∧
    on_timer (Push_after fd v alive_time_ (Some CloseTimedOut)) (t, set_world w r) =
      (Done tt, (t', set_world w r)) ∧ timer_ok t' ∧
    entries t' = <[fd := ((v + alive_time_)%Z, Some CloseTimedOut)]> (entries t).
Proof.
  intros [Hwf Hrd] Hroom. destruct (sys_now (world r)) as [v w] eqn:Hn.
  assert (0 ≤ v)%Z as Hv by (pose proof (Hnow (world r)) as H; by rewrite Hn in H).
  destruct (Push_ok t fd (v + alive_time_) (Some CloseTimedOut) Hwf Hroom) as (t' & Hr & Hwf' & He).
  exists v, w, t'. split_and!; [by apply now_ok|done|exact (on_timer_ok _ t (set_world w r) _ _ Hr)| |done].
  split; [done|]. rewrite He. apply map_Forall_insert_2; [|done]. split; [simpl; lia|done].
Qed.

(** The part of [AddClient] that changes the tables. *)
Lemma add_user fd c t r (k : M Server unit) :
  inv (t, r) → (0 ≤ fd ≤ INT_MAX)%Z → Connection.socket_ (conn c) = fd →
  ∃ v t' r', 
    (modify (λ s, (s.1, set_clients (<[fresh_client r := c]> (clients s.2)) s.2));;
     (match users_ r !! fd with
      | None => modify (λ s, (s.1, set_users (<[fd := fresh_client r]> (users_ s.2)) s.2))
      | Some _ => destroy_client (fresh_client r)
      end);;
     v ← now;
     on_timer (Push_after fd v alive_time_ (Some CloseTimedOut));; k) (t, r) = k (t', r') ∧
    inv (t', r') ∧ tasks r' = tasks r ∧ logs r' = logs r ∧
    entries t' = <[fd := ((v + alive_time_)%Z, Some CloseTimedOut)]> (entries t) ∧
    (users_ r !! fd = None →
     sys_now (world r) = (v, world r') ∧ users_ r' = <[fd := fresh_client r]> (users_ r) ∧
     clients r' = <[fresh_client r := c]> (clients r)).
Proof.
  intros Hinv Hfd Hs. pose proof (fresh_client_None r) as Hfresh. pose proof (inv_room t r Hinv) as Hroom.
  pose proof Hinv as (Ht & Hu & Hd & Hk). simpl in *. mstep. simpl.
  set (p := fresh_client r) in *. destruct (users_ r !! fd) as [q|] eqn:Hq.
  - assert (clients (set_clients (<[p := c]> (clients r)) r) !! p = Some c) as Hc
      by (simpl; by rewrite lookup_insert_eq).
    mrun (destroy_client_ok p c (t, set_clients (<[p := c]> (clients r)) r) Hc). simpl.
    rewrite delete_insert_id by done.
    set (r1 := set_world _ _). destruct (push_keeps fd t r1 Ht Hroom) as (v & w & t' & Hn & _ & Hp & Ht' & He).
    mrun Hn. mrun Hp. exists v, t', (set_world w r1). split_and!; try done.
    + apply (inv_timer t); [|done|].
      * eapply inv_rest; [exact Hinv|done|done|done].
      * rewrite He, dom_insert_L. assert (fd ∈ dom (entries t)); [|set_solver].
        rewrite <-Hd. by apply elem_of_dom_2 in Hq.
  - mstep. simpl. destruct (inserted_ok fd p c r Hu Hk Hfresh Hfd Hs) as [Hu' Hk'].
    change (set_users _ _) with (inserted fd p c r).
    destruct (push_keeps fd t (inserted fd p c r) Ht Hroom) as (v & w & t' & Hn & Hsn & Hp & Ht' & He).
    mrun Hn. mrun Hp. exists v, t', (set_world w (inserted fd p c r)). split_and!; try done.
    split_and!; try done. simpl. by rewrite He, !dom_insert_L, Hd.
Qed.

Lemma AddClient_keeps fd addr : (fd ≤ INT_MAX)%Z → keeps Inv (AddClient alive_time_ fd addr).
Proof.
  intros Hmax. unfold AddClient, IsValidFileDescriptor. destruct (Z.leb_spec 0 fd) as [Hfd|Hfd].
  2: { intros s Hs. by left. }
  do 4 (keep_step; [repeat keep_step|]).
  unfold Connection.Connection_of_socket, IsValidFileDescriptor. rewrite (proj2 (Z.leb_le _ _) Hfd).
  intros [t r] Hs. unfold keeps_at. rewrite (bind_done (of_outcome (Done _)) _ (t, r) _ (t, r) eq_refl).
  mstep. set (c := mkClient _ _).
  edestruct (add_user fd c t r) as (v & t' & r' & Hr & Hi & _); [done|done|done|].
  simpl in *. rewrite Hr. right. eapply inv_rest; [exact Hi|done|done|done].
Qed.

(** Descriptors are [int]s. *)
Context (Haccept : ∀ l w fd a w', sys_accept l w = (inr (fd, a), w') → (fd ≤ INT_MAX)%Z).

Lemma accept_loop_keeps n : keeps Inv (accept_loop alive_time_ n).
Proof.
  induction n as [|n IH]; [auto with keeps|]. simpl. apply keeps_get. intros s0 _ s Hs.
  apply keeps_at_bind; [by apply on_world_keeps|]. intros [e|[fd addr]] s' He Hs'.
  - by apply ThrowLastSystemError_keeps.
  - destruct (IsValidFileDescriptor fd); [|by left].
    assert (fd ≤ INT_MAX)%Z as Hmax.
    { unfold on_world in He. destruct (sys_accept _ _) as [x w] eqn:Ha. simplify_eq. by eapply Haccept. }
    revert s' He Hs'. intros s' _. revert s'. by apply keeps_bind; [apply AddClient_keeps|].
Qed.

Lemma OnListenEvent_keeps n : keeps Inv (OnListenEvent alive_time_ n).
Proof.
  unfold OnListenEvent. apply keeps_try; [apply accept_loop_keeps|].
  intros e. destruct (kind e); repeat keep_step.
Qed.

#[local] Hint Resolve OnListenEvent_keeps : keeps.

(** ** The main loop *)

Lemma dispatch_keeps n fd ev : keeps Inv (dispatch alive_time_ n fd ev).
Proof. unfold dispatch, OnCloseEvent. repeat keep_step. Qed.

#[local] Hint Resolve dispatch_keeps : keeps.

Lemma dispatch_all_keeps n i count : keeps Inv (dispatch_all alive_time_ n i count).
Proof. revert i. induction count as [|count IH]; intros i; simpl; repeat keep_step. Qed.

Lemma on_timer_same {A} (m : M Timer A) : (∀ t, (m t).2 = t) → keeps Inv (on_timer m).
Proof.
  intros Hm. apply keeps_same. intros [t r]. unfold on_timer, zoom. simpl.
  specialize (Hm t). destruct (m t) as [x t']. simpl in *. by subst.
Qed.

Lemma Empty_keeps : keeps Inv (on_timer Empty).
Proof. apply on_timer_same. intros t. unfold Empty. mstep. by destruct (Bool.eqb _ _). Qed.

Lemma node_at_keeps i : keeps Inv (on_timer (node_at i)).
Proof.
  apply on_timer_same. intros t. unfold node_at. mstep. by destruct (nodes_ t !! N.to_nat i).
Qed.

Lemma read_clock_keeps : keeps Inv (read_clock server_now).
Proof.
  intros [t r] Hs. unfold keeps_at, read_clock, server_now. simpl. destruct (sys_now _) as [v w].
  right. by eapply inv_rest.
Qed.

#[local] Hint Resolve dispatch_all_keeps Empty_keeps node_at_keeps read_clock_keeps : keeps.

(** One expired client. *)
Lemma Tick_body_keeps : keeps Inv (Tick_body server_now on_timeout (log_line Error)).
Proof.
  intros [t r] Hinv. pose proof Hinv as (Ht & Hu & Hd & Hk). simpl in *. pose proof Ht as [Hwf Hrd].
  assert (∀ r', (server_now r).2 = r' → inv (t, r')) as Hsame.
  { intros r' <-. unfold server_now. destruct (sys_now _). by eapply inv_rest. }
  destruct (Tick_body_stop server_now on_timeout (log_line Error) t r Hwf)
    as [[_ Hr]|[(m & _ & _ & Hr)|(m & Hm & Hx)]].
  1: { right. by rewrite Hr. }
  1: { right. rewrite Hr. by apply Hsame. }
  destruct (Tick_body_fire server_now on_timeout (log_line Error) t r m Hwf Hrd Hm Hx) as (t0 & Hwf0 & He0 & Hr).
  destruct (ready_node t m (proj1 Hwf) Hrd Hm) as [[] Hcb].
  assert (entries t !! key m = Some (expiration m, callback m)) as Hkm.
  { apply entries_Some, in_nodes; [apply Hwf|]. exists 0%N. by destruct m. }
  destruct (Hsame (server_now r).2 eq_refl) as (_ & Hu' & Hd' & Hk'). simpl in *.
  set (r0 := (server_now r).2) in *.
  assert (timer_ok t0) as Ht0 by (split; [done|]; rewrite He0; by apply ready_delete).
  assert (is_Some (users_ r0 !! key m)) as [p Hp].
  { apply elem_of_dom. rewrite Hd'. by apply elem_of_dom_2 in Hkm. }
  destruct (on_timeout_ok (key m) p t0 r0 Ht0 Hu' Hp) as (t1 & r1 & Hrun & Ht1 & Hok1 & He1 & Hu1 & Htk1 & _ & Hc1).
  right. rewrite Hr, Hcb.
  mrun (invoke_callback_ok on_timeout (log_line Error) CloseTimedOut (key m) t0 r0 _ _ _ Hrun (or_introl eq_refl)).
  split; [done|]. split; [done|]. split; [|by eapply tasks_ok_release].
  simpl. by rewrite Hu1, He1, He0, delete_delete_eq, !dom_delete_L, Hd'.
Qed.

#[local] Hint Resolve Tick_body_keeps : keeps.

Lemma ToNextTick_keeps n : keeps Inv (ToNextTick n).
Proof. unfold ToNextTick, HeapTimer.ToNextTick, Tick. repeat keep_step. Qed.

#[local] Hint Resolve ToNextTick_keeps : keeps.

Lemma turn_keeps n : keeps Inv (turn alive_time_ n).
Proof. unfold turn. repeat keep_step. Qed.

Lemma InitNetwork_keeps : keeps Inv (InitNetwork port_).
Proof.
  unfold InitNetwork, init_listener. repeat keep_step; apply keeps_modify; intros [t r] H; by eapply inv_rest.
Qed.

(** ** Workers and the end *)

Lemma drop_task_keeps i : keeps Inv (drop_task i).
Proof.
  apply keeps_modify. intros [t r] (Ht & Hu & Hd & Hk). split_and!; try done.
  intros k Hin. simpl in *. apply Hk. by apply list_elem_of_delete_inv in Hin.
Qed.

(** The destruction of a connection that nothing points to. *)
Lemma destroy_keeps p s :
  inv s → shared p s.2 = false → p ∉ (map_to_list (users_ s.2)).*2 → keeps_at Inv (destroy_client p) s.
Proof.
  intros Hinv Hsh Hnu. destruct s as [t r]. destruct (clients r !! p) as [c|] eqn:Hc.
  2: { left. unfold destroy_client. rewrite (bind_crash _ _ (t, r) (t, r)); [done|].
       unfold on_client. rewrite (bind_done (deref (Some p)) _ (t, r) p (t, r) eq_refl).
       rewrite (bind_crash _ _ (t, r) (t, r)); [done|]. unfold client_at. mstep. simpl. by rewrite Hc. }
  right. rewrite (destroy_client_ok p c (t, r) Hc). destruct Hinv as (Ht & Hu & Hd & Hk).
  split; [done|]. split; [|split; [done|]].
  - intros fd q Hq. destruct (Hu fd q Hq) as (Hfd & c' & Hc' & Hs). split; [done|]. exists c'. split; [|done].
    simpl. rewrite lookup_delete_ne; [done|]. intros ->. apply Hnu. simpl in *.
    apply list_elem_of_fmap. exists (fd, q). split; [done|]. by apply elem_of_map_to_list.
  - eapply (tasks_ok_release r _ p); [done|done|]. simpl in *. by rewrite Hsh.
Qed.

Lemma work_keeps i : keeps Inv (work fs iter moved root_dir fuel i).
Proof.
  unfold work. keep_step. keep_step; [auto with keeps|]. keep_step; [auto with keeps|].
  keep_step; [apply drop_task_keeps|].
  intros s1 Hs1. unfold keeps_at.
  mstep. destruct (shared _ s1.2) eqn:Hsh; [by right|]. simpl. case_bool_decide; [by right|].
  by apply destroy_keeps.
Qed.

Lemma release_all_keeps ps : keeps (λ s, inv s ∧ users_ s.2 = ∅) (release_all ps : M Server unit).
Proof.
  induction ps as [|p ps IH]; [apply keeps_mret|]. intros s [Hs He]. unfold keeps_at.
  cbn [release_all]. mstep. destruct (shared p s.2) eqn:Hsh; [mstep; by apply IH|].
  assert (p ∉ (map_to_list (users_ s.2)).*2) as Hnu by (rewrite He, map_to_list_empty; set_solver).
  pose proof (destroy_keeps p s Hs Hsh Hnu) as Hd.
  destruct (clients s.2 !! p) as [c|] eqn:Hc.
  - pose proof (destroy_client_ok p c s Hc) as Heq. unfold keeps_at in Hd. rewrite Heq in Hd.
    destruct Hd as [Hd|Hd]; [done|]. rewrite (bind_done _ _ _ _ _ Heq). by apply IH.
  - left. rewrite (bind_crash _ _ s s); [done|]. unfold destroy_client.
    rewrite (bind_crash _ _ s s); [done|]. unfold on_client.
    rewrite (bind_done (deref (Some p)) _ s p s eq_refl). rewrite (bind_crash _ _ s s); [done|].
    unfold client_at. mstep. simpl. by rewrite Hc.
Qed.

Lemma Server_Close_keeps : keeps Inv Server_Close.
Proof.
  unfold Server_Close. apply keeps_noexcept, keeps_get. intros s0 _.
  keep_step; [repeat keep_step; apply keeps_modify; intros [t r] H; by eapply inv_rest|].
  keep_step; [apply keeps_modify; intros [t r] H; by eapply inv_rest|].
  keep_step; [auto with keeps|]. intros [t r] (Ht & Hu & Hd & Hk). unfold keeps_at.
  rewrite (bind_done _ _ (t, r) tt (Timer_empty, r)) by done. do 2 mstep. simpl.
  set (s1 := (Timer_empty, set_users ∅ r)).
  destruct (release_all_keeps (map_to_list (users_ r)).*2 s1) as [H|[H _]]; [|by left|by right].
  split; [|done]. split; [|split; [|split]].
  - split; [apply Timer_empty_wf|]. done.
  - intros fd p Hp. simpl in Hp. by rewrite lookup_empty in Hp.
  - done.
  - exact Hk.
Qed.

(** ** Reachable states *)

(** What the constructor leaves. *)
Definition initial (e : Epoller) (w : W) : Server :=
  (Timer_empty, mkRest invalid_file_descriptor false [] e ∅ ∅ [] w).

(** The server starts once; then turns of its main loop alternate in any way
    with tasks that the workers run, and it may be closed. *)
Inductive action : M Server unit → Prop :=
| action_init : action (InitNetwork port_)
| action_turn n : action (turn alive_time_ n)
| action_work i : action (work fs iter moved root_dir fuel i)
| action_close : action Server_Close.

Inductive reachable : Server → Prop :=
| reachable_initial e w : reachable (initial e w)
| reachable_action a s s' x : action a → reachable s → a s = (x, s') → x ≠ Crash → reachable s'.

Lemma initial_inv e w : inv (initial e w).
Proof.
  split; [split; [apply Timer_empty_wf|done]|]. split; [|split; [done|]].
  - intros fd p Hp. simpl in Hp. by rewrite lookup_empty in Hp.
  - intros t Ht. by apply not_elem_of_nil in Ht.
Qed.

Lemma action_keeps a : action a → keeps Inv a.
Proof.
  intros []; [apply InitNetwork_keeps|apply turn_keeps|apply work_keeps|apply Server_Close_keeps].
Qed.

(** * Properties *)

(** C2: However the turns of the main loop, the tasks of the workers and the
    closing of the server follow each other, and however the kernel answers, as
    long as no assertion fails: the server's users are exactly the keys of its
    timer, each user's descriptor leads to a connection of that socket, the
    deadlines form a heap, every deadline has a callback and is not negative, and
    the connection of every queued task still exists. *)
Theorem server_invariant s : reachable s → inv s.
Proof.
  induction 1 as [e w|a s s' x Ha _ IH He Hx]; [apply initial_inv|].
  destruct (action_keeps a Ha s IH) as [H|H]; rewrite He in H; done.
Qed.
End Invariant.
