(* ===== verification/OneShot.v ===== *)
(** Why two workers never touch one connection ([include/web_server.h]): the
    server registers every client with [EPOLLONESHOT], so that a descriptor is
    reported once and then stays silent until the task for it has armed it again.
    What the argument needs from the kernel is the class [OneShotLaws]; the
    invariant that follows is [safe]. *)

From S2P Require Import Prelude Util Buffer Io Epoller HeapTimer LogField.
From S2P Require Connection.
From S2P Require Import WebServer ServerInvariant.

(** * What a kernel with one-shot notifications promises *)

(** The open descriptors of a process; those its event facility is interested in;
    of these, the ones it may report once, and the ones it may report any number
    of times. *)
Class Registrations (W : Type) := {
  open_fds : W → gset Z;
  interest : W → gset Z;
  armed : W → gset Z;
  standing : W → gset Z
}.

Section Laws.
Context {W : Type} `{!Registrations W}.
Implicit Types (w : W).

(** A call that opens, closes, arms nothing. *)
Definition quiet w w' : Prop :=
  open_fds w' = open_fds w ∧ interest w' ⊆ interest w ∧ armed w' ⊆ armed w ∧ standing w' ⊆ standing w.

(** A call that opens the descriptor [fd]. *)
Definition opens (fd : Z) w w' : Prop :=
  (0 ≤ fd)%Z ∧ (fd ∉ open_fds w) ∧ open_fds w' = {[fd]} ∪ open_fds w ∧
  interest w' ⊆ interest w ∧ armed w' ⊆ armed w ∧ standing w' ⊆ standing w.

(** [epoll_ctl(2)]: only the named descriptor gets armed, for one report if the
    mask has [EPOLLONESHOT]; a descriptor can be modified only if it has been
    added, and it is out of sight once it has been deleted. *)
Definition registers (fd : Z) (ctl : Control) (mask : N) w w' : Prop :=
  open_fds w' = open_fds w ∧
  match ctl with
  | Delete => interest w' ⊆ interest w ∖ {[fd]} ∧ armed w' ⊆ armed w ∧ standing w' ⊆ standing w
  | _ =>
      (if N.testbit mask 30
       then armed w' ⊆ {[fd]} ∪ armed w ∧ standing w' ⊆ standing w
       else armed w' ⊆ armed w ∧ standing w' ⊆ {[fd]} ∪ standing w) ∧
      (if decide (ctl = Modify) then interest w' ⊆ interest w else interest w' ⊆ {[fd]} ∪ interest w)
  end.

(** [epoll_wait(2)]: each descriptor at most once, and only registered ones; the
    report disarms. *)
Definition reports (ready : list Z) w w' : Prop :=
  NoDup ready ∧ list_to_set ready ⊆ armed w ∪ standing w ∧ open_fds w' = open_fds w ∧
  interest w' ⊆ interest w ∧ armed w' ⊆ armed w ∖ list_to_set ready ∧ standing w' ⊆ standing w.

Class OneShotLaws `{!Kernel W} : Prop := {
  registered_open w : armed w ∪ standing w ⊆ interest w ∧ interest w ⊆ open_fds w;
  quiet_readv fd n1 n2 w : quiet w (sys_readv fd n1 n2 w).2;
  quiet_write fd d w : quiet w (sys_write fd d w).2;
  quiet_getfd fd w : quiet w (sys_fcntl_getfd fd w).2;
  quiet_setfl fd n w : quiet w (sys_fcntl_setfl fd n w).2;
  quiet_now w : quiet w (sys_now w).2;
  quiet_setsockopt fd o w : quiet w (sys_setsockopt fd o w).2;
  quiet_bind fd a p w : quiet w (sys_bind fd a p w).2;
  quiet_listen fd w : quiet w (sys_listen fd w).2;
  opens_epoll w : match sys_epoll_create1 w with
                  | (inr fd, w') => opens fd w w' | (inl _, w') => quiet w w' end;
  opens_socket w : match sys_socket w with
                   | (inr fd, w') => opens fd w w' | (inl _, w') => quiet w w' end;
  opens_accept l w : match sys_accept l w with
                     | (inr (fd, _), w') => opens fd w w' | (inl _, w') => quiet w w' end;
  closes fd w :
    open_fds (sys_close fd w) = open_fds w ∖ {[fd]} ∧ interest (sys_close fd w) ⊆ interest w ∧
    armed (sys_close fd w) ⊆ armed w ∧ standing (sys_close fd w) ⊆ standing w;
  ctl_registers efd ctl fd mask w : registers fd ctl mask w (sys_epoll_ctl efd ctl fd mask w).2;
  wait_reports_once efd size ms w : match sys_epoll_wait efd size ms w with
                               | (inr l, w') => reports l.*1 w w' | (inl _, w') => quiet w w' end
}.

#[global] Instance quiet_preorder : PreOrder quiet.
Proof.
  split; [by intros w|]. intros w1 w2 w3 (H1 & H2 & H3 & H4) (K1 & K2 & K3 & K4).
  split_and!; [congruence|by etrans..].
Qed.
End Laws.
Arguments OneShotLaws W {_ _}.

(** * What reading and sending leave of the world *)

Section SocketWorld.
Context {W : Type} (readv : Z → N → N → W → (Z + str) * W) (write : Z → str → W → (Z + N) * W).
Context (strerror : Z → str) (Q : W → Prop) (fd : Z).
Context (Hreadv : ∀ n1 n2 w, Q w → Q (readv fd n1 n2 w).2) (Hwrite : ∀ d w, Q w → Q (write fd d w).2).

Abbreviation dev := (λ x : Buffer * W, Q x.2).
Abbreviation there := (λ x : Connection.Connection * W, Connection.socket_ x.1 = fd ∧ Q x.2).

Lemma on_buf_world {A} (m : M Buffer A) : keeps dev (on_buf m).
Proof. by apply keeps_zoom. Qed.

Lemma on_dev_world {A} (f : W → A * W) :
  (∀ w, Q w → Q (f w).2) → keeps dev (on_dev (λ w, let '(a, w') := f w in (Done a, w'))).
Proof.
  intros Hf [b w] Hw. unfold keeps_at, on_dev, zoom. simpl in *. specialize (Hf w Hw).
  destruct (f w) as [a w']. by right.
Qed.

#[local] Hint Resolve on_buf_world : keeps.

Lemma WriteTo_world : keeps dev (FileDescriptor_WriteTo readv strerror fd).
Proof.
  unfold FileDescriptor_WriteTo. keep_step; [auto with keeps|].
  keep_step; [apply (on_dev_world (readv fd _ _)); auto|]. repeat keep_step.
Qed.

Lemma ReadFrom_world : keeps dev (FileDescriptor_ReadFrom write strerror fd).
Proof.
  unfold FileDescriptor_ReadFrom. keep_step; [auto with keeps|].
  keep_step; [apply (on_dev_world (write fd _)); auto|]. repeat keep_step.
Qed.

Lemma on_read_buf_world {A} (m : M (Buffer * W) A) : keeps dev m → keeps there (Connection.on_read_buf m).
Proof.
  intros Hm [c w] [Hc Hw]. unfold keeps_at, Connection.on_read_buf, zoom. simpl in *.
  destruct (Hm (Connection.read_buf_ c, w) Hw) as [H|H]; destruct (m _) as [x [b w']]; simpl in *; auto.
Qed.

Lemma on_write_buf_world {A} (m : M (Buffer * W) A) : keeps dev m → keeps there (Connection.on_write_buf m).
Proof.
  intros Hm [c w] [Hc Hw]. unfold keeps_at, Connection.on_write_buf, zoom. simpl in *.
  destruct (Hm (Connection.write_buf_ c, w) Hw) as [H|H]; destruct (m _) as [x [b w']]; simpl in *; auto.
Qed.

Lemma Receive_world fuel : keeps there (Connection.Receive readv write strerror fuel).
Proof.
  unfold Connection.Receive. generalize 0%N. induction fuel as [|fuel IH]; intros n; simpl; [repeat keep_step|].
  apply keeps_get. intros s [Hfd Hs]. rewrite Hfd. keep_step; [|repeat keep_step]. keep_step; [|repeat keep_step].
  keep_step; [|repeat keep_step]. apply on_read_buf_world, WriteTo_world.
Qed.

Lemma send_header_world fuel n : keeps there (Connection.send_header readv write strerror fuel n).
Proof.
  revert n. induction fuel as [|fuel IH]; intros n; simpl; [repeat keep_step|].
  apply keeps_get. intros s [Hfd Hs]. rewrite Hfd. apply keeps_if; [auto with keeps|].
  keep_step; [apply on_write_buf_world, ReadFrom_world|auto].
Qed.

Lemma send_file_world fuel n : keeps there (Connection.send_file write strerror fuel n).
Proof.
  revert n. induction fuel as [|fuel IH]; intros n; simpl; [repeat keep_step|].
  apply keeps_get. intros s [Hfd Hs]. apply keeps_if; [|auto with keeps].
  keep_step; [auto with keeps|]. keep_step; [|repeat keep_step]. intros [c w] [Hc Hw]. unfold keeps_at.
  simpl in *. rewrite Hc. match goal with |- context [write _ ?d w] => specialize (Hwrite d w Hw) end.
  destruct (write _ _ w) as [x w']. by right.
Qed.

Lemma Send_world fuel : keeps there (Connection.Send readv write strerror fuel).
Proof.
  unfold Connection.Send. keep_step; [apply send_header_world|].
  keep_step; [apply send_file_world|]. auto with keeps.
Qed.
End SocketWorld.

(** * The invariant *)

Section OneShot.
Context {W : Type} `{!Kernel W, !Registrations W}.

Abbreviation Timer := (HeapTimer Z Timeout).
Abbreviation Server := (Timer * Rest W)%type.
Implicit Types (s : Server) (r : Rest W) (w : W).

(** The descriptors of the live connections, by the address of the connection. *)
Definition socks r : gmap nat Z := (λ c, Connection.socket_ (conn c)) <$> clients r.

(** [ts] are the clients of the tasks that may still use their connection,
    [held] the descriptors that [epoll_wait] has reported and that the main loop
    has not handled yet.  A connection that is no user's any more only waits for
    the end of its task ([safe_gone]). *)
Record safe r (ts : list nat) (held : gset Z) : Prop := {
  safe_users fd p : users_ r !! fd = Some p → socks r !! p = Some fd;
  safe_open p fd : socks r !! p = Some fd →
    (0 ≤ fd)%Z ∧ (fd ∈ open_fds (world r)) ∧ fd ∉ standing (world r);
  safe_distinct p q fd : socks r !! p = Some fd → socks r !! q = Some fd → p = q;
  safe_tasks p : p ∈ ts → ∃ fd, socks r !! p = Some fd ∧ (fd ∉ armed (world r)) ∧ fd ∉ held;
  safe_once : NoDup ts;
  safe_held fd : fd ∈ held → fd ∈ open_fds (world r) ∧ fd ∉ armed (world r);
  safe_own fd : fd = listener_ r ∨ fd = epoll_fd_ (epoller_ r) → (0 ≤ fd)%Z →
    fd ∈ open_fds (world r) ∧ ∀ p, socks r !! p ≠ Some fd;
  safe_apart : listener_ r = epoll_fd_ (epoller_ r) → (listener_ r < 0)%Z;
  safe_gone p fd : (0 ≤ epoll_fd_ (epoller_ r))%Z → socks r !! p = Some fd → users_ r !! fd ≠ Some p →
    (fd ∉ interest (world r)) ∧ fd ∉ held
}.

(** What an operation leaves alone that neither opens nor arms a descriptor and
    changes neither the tables nor the tasks. *)
Definition framed r r' : Prop :=
  users_ r' = users_ r ∧ tasks r' = tasks r ∧ listener_ r' = listener_ r ∧
  epoller_ r' = epoller_ r ∧ socks r' = socks r ∧ quiet (world r) (world r').

#[global] Instance framed_preorder : PreOrder framed.
Proof.
  split; [intros r; by split_and!|]. intros r1 r2 r3 (H1 & H2 & H3 & H4 & H5 & H6) (K1 & K2 & K3 & K4 & K5 & K6).
  split_and!; try congruence. by etrans.
Qed.

(** The predicates that such an operation cannot disturb. *)
Class Stable (P : Server → Prop) : Prop :=
  stable t t' r r' : framed r r' → P (t, r) → P (t', r').

Lemma safe_framed r r' ts held : framed r r' → safe r ts held → safe r' ts held.
Proof.
  intros (Hu & _ & Hl & He & Hs & (Ho & Hint & Ha & Hst)) H. split; rewrite ?Hu, ?Hl, ?He, ?Hs, ?Ho.
  - exact (safe_users _ _ _ H).
  - intros p fd Hp. destruct (safe_open _ _ _ H p fd Hp) as (? & ? & ?). split_and!; [done|done|set_solver].
  - exact (safe_distinct _ _ _ H).
  - intros p Hp. destruct (safe_tasks _ _ _ H p Hp) as (fd & ? & ? & ?). exists fd.
    split_and!; [done|set_solver|done].
  - exact (safe_once _ _ _ H).
  - intros fd Hfd. destruct (safe_held _ _ _ H fd Hfd). split; [done|set_solver].
  - exact (safe_own _ _ _ H).
  - exact (safe_apart _ _ _ H).
  - intros p fd Hep Hp Hus. destruct (safe_gone _ _ _ H p fd Hep Hp Hus). split; [set_solver|done].
Qed.

Lemma safe_weaken r ts held held' : held' ⊆ held → safe r ts held → safe r ts held'.
Proof.
  intros Hh []. split; auto.
  - intros p Hp. destruct (safe_tasks0 p Hp) as (fd & ? & ? & ?). exists fd. split_and!; [done|done|set_solver].
  - intros p fd Hep Hp Hus. destruct (safe_gone0 p fd Hep Hp Hus). split; [done|set_solver].
Qed.

(** ** Operations that leave it alone *)

Lemma via_frames {A} (P : Server → Prop) `{!Stable P} (m : M Server A) :
  (∀ r, keeps (λ s, framed r s.2) m) → keeps P m.
Proof.
  intros Hm [t r] Hs. destruct (Hm r (t, r)) as [Hc|Hf]; [done|by left|]. right.
  destruct (m (t, r)) as [x [t' r']]. simpl in *. exact (Stable0 t t' r r' Hf Hs).
Qed.

Section Frames.
Context (r0 : Rest W).
Abbreviation Fr := (λ s : Server, framed r0 s.2).

Lemma frames_step r r' : framed r r' → framed r0 r → framed r0 r'.
Proof. intros H H0. by etrans. Qed.

Lemma Log_frames l m : keeps Fr (Log l m : M Server unit).
Proof. apply keeps_modify. intros [t r] H. eapply frames_step; [|exact H]. by split_and!. Qed.

Lemma on_timer_frames {A} (m : M Timer A) : keeps Fr (on_timer m).
Proof. by apply keeps_zoom. Qed.

Lemma on_world_frames {A} (f : W → A * W) : (∀ w, quiet w (f w).2) → keeps Fr (on_world f).
Proof.
  intros Hf [t r] H. unfold keeps_at, on_world. simpl. specialize (Hf (world r)).
  destruct (f (world r)) as [a w]. right. eapply frames_step; [|exact H]. by split_and!.
Qed.

(** Operations of the epoll wrapper that register nothing. *)
Lemma on_epoller_frames {A} (m : M (Epoller * W) A) :
  (∀ e w, keeps (λ x, x.1 = e ∧ quiet w x.2) m) → keeps Fr (on_epoller m).
Proof.
  intros Hm [t r] H. unfold keeps_at, on_epoller, zoom. simpl.
  destruct (Hm (epoller_ r) (world r) (epoller_ r, world r)) as [Hc|[He Hq]]; [done| |].
  - left. by destruct (m _) as [x [e w]].
  - destruct (m _) as [x [e w]]. simpl in *. right. eapply frames_step; [|exact H]. subst e. by split_and!.
Qed.

Lemma run_client_frames {A} p c (m : M (Connection.Connection * W) A) s :
  (∀ fd w, keeps (λ x, Connection.socket_ x.1 = fd ∧ quiet w x.2) m) →
  clients s.2 !! p = Some c → framed r0 s.2 → keeps_at Fr (run_client p c m) s.
Proof.
  intros Hm Hp H. destruct s as [t r]. unfold keeps_at, run_client. simpl in *.
  destruct (Hm (Connection.socket_ (conn c)) (world r) (conn c, world r)) as [Hc|[Hs Hq]]; [by split| |].
  { left. destruct (m _) as [x [c' w]]. exact Hc. }
  right. destruct (m _) as [x [c' w]]. simpl in *. eapply frames_step; [|exact H].
  split_and!; try done. unfold socks. simpl. rewrite fmap_insert. simpl. rewrite Hs.
  apply insert_id. by rewrite lookup_fmap, Hp.
Qed.

Lemma client_at_frames p : keeps Fr (client_at p).
Proof. unfold client_at. repeat keep_step. Qed.

Lemma on_client_frames {A} p (m : M (Connection.Connection * W) A) :
  (∀ fd w, keeps (λ x, Connection.socket_ x.1 = fd ∧ quiet w x.2) m) → keeps Fr (on_client p m).
Proof.
  intros Hm s Hs. unfold on_client. destruct p as [p|]; [|by left].
  destruct (clients s.2 !! p) as [c|] eqn:Hc.
  - unfold keeps_at. rewrite (bind_done (deref (Some p)) _ s p s eq_refl).
    rewrite (bind_done _ _ _ _ _ (client_at_ok p c s Hc)). by apply run_client_frames.
  - left. rewrite (bind_done (deref (Some p)) _ s p s eq_refl).
    rewrite (bind_crash _ _ s s); [done|]. unfold client_at. mstep. simpl. by rewrite Hc.
Qed.

(** ** The calls of the server among them *)

Context `{!OneShotLaws W}.

Lemma now_frames : keeps Fr now.
Proof. apply on_world_frames, quiet_now. Qed.

Lemma ThrowLastSystemError_frames {A} errno : keeps Fr (ThrowLastSystemError (S:=Server) (A:=A) errno).
Proof. apply keeps_throw. Qed.

Lemma read_clock_frames : keeps Fr (read_clock server_now).
Proof.
  intros [t r] H. unfold keeps_at, read_clock, server_now. simpl. pose proof (quiet_now (world r)) as Hq.
  destruct (sys_now _) as [v w]. right. eapply frames_step; [|exact H]. by split_and!.
Qed.

Lemma write_log_frames msg : keeps Fr (write_log (log_line Error) msg).
Proof. apply keeps_modify. intros [t r] H. eapply frames_step; [|exact H]. by split_and!. Qed.

Lemma Delete_frames fd : keeps Fr (on_epoller (DeleteFileDescriptor fd)).
Proof.
  apply on_epoller_frames. intros e w [e' w'] [He Hq]. unfold keeps_at. simpl in *. subst e'.
  destruct (Z.leb_spec 0 fd) as [Hfd|Hfd].
  - destruct (sys_epoll_ctl (epoll_fd_ e) Delete fd 0 w') as [x w2] eqn:Hc.
    rewrite (Delete_ok fd e w' x w2 Hfd Hc). right. split; [done|]. simpl. etrans; [exact Hq|].
    pose proof (ctl_registers (epoll_fd_ e) Delete fd 0 w') as Hr. rewrite Hc in Hr.
    destruct Hr as (Ho & Hint & Ha & Hst). by split_and!; [|set_solver| |].
  - left. unfold DeleteFileDescriptor, SetFileDescriptor, IsValidFileDescriptor.
    by rewrite (proj2 (Z.leb_gt _ _) Hfd).
Qed.

#[local] Hint Resolve Log_frames on_timer_frames client_at_frames now_frames ThrowLastSystemError_frames
  read_clock_frames write_log_frames Delete_frames : keeps.

Lemma Conn_frames fd : keeps Fr (Conn fd : M Server (option nat)).
Proof. unfold Conn. repeat keep_step. Qed.

Lemma IPAddress_frames p : keeps Fr (IPAddress p).
Proof. unfold IPAddress. repeat keep_step. Qed.

Lemma Socket_frames p : keeps Fr (Socket p).
Proof. unfold Socket. repeat keep_step. Qed.

Lemma KeepAlive_frames p : keeps Fr (KeepAlive p).
Proof. unfold KeepAlive. repeat keep_step. Qed.

Lemma Nonblocking_frames fd : keeps Fr (SetFileDescriptorAsNonblocking fd : M Server unit).
Proof.
  unfold SetFileDescriptorAsNonblocking. keep_step; [auto with keeps|].
  keep_step; [apply on_world_frames, quiet_getfd|].
  keep_step; [apply on_world_frames; intros w; apply quiet_setfl|]. repeat keep_step.
Qed.

Lemma Mark_frames fd : keeps Fr (MarkClientAsToBeClosed fd).
Proof. unfold MarkClientAsToBeClosed. repeat keep_step. Qed.

Lemma Extend_frames alive fd : keeps Fr (ExtendClientAliveTime alive fd).
Proof. unfold ExtendClientAliveTime. repeat keep_step. Qed.

Lemma quiet_to w w1 w2 : quiet w w1 → quiet w1 w2 → quiet w w2.
Proof. intros. by etrans. Qed.

Lemma client_Receive_frames fuel p : keeps Fr (client_Receive fuel p).
Proof.
  apply on_client_frames. intros fd w. apply (Receive_world _ _ _ (quiet w)).
  intros n1 n2 w1 H. exact (quiet_to _ _ _ H (quiet_readv fd n1 n2 w1)).
Qed.

Lemma client_Send_frames fuel p : keeps Fr (client_Send fuel p).
Proof.
  apply on_client_frames. intros fd w. apply (Send_world _ _ _ (quiet w)).
  intros d w1 H. exact (quiet_to _ _ _ H (quiet_write fd d w1)).
Qed.

Lemma client_Process_frames fs iter moved root p : keeps Fr (client_Process fs iter moved root p).
Proof.
  apply on_client_frames. intros fd w [c w'] [Hc Hw]. unfold keeps_at, zoom. simpl in *.
  pose proof (Connection.Process_socket fs iter moved root fd c Hc) as H.
  unfold keeps_at in H. by destruct (Connection.Process _ _ _ _ c) as [x c'], H; [left|right].
Qed.
End Frames.

Context `{!OneShotLaws W}.

(** Steps that leave the frame alone keep every stable predicate. *)
#[local] Hint Resolve Log_frames on_timer_frames client_at_frames now_frames ThrowLastSystemError_frames
  read_clock_frames write_log_frames Delete_frames Conn_frames IPAddress_frames Socket_frames
  KeepAlive_frames Nonblocking_frames Mark_frames Extend_frames client_Receive_frames
  client_Send_frames client_Process_frames : keeps.
#[local] Hint Extern 5 (keeps _ _) => apply via_frames; [apply _|intros ?; solve [auto with keeps]] : keeps.

(** A descriptor that nothing of the server uses yet. *)
Definition unused (fd : Z) (held : gset Z) r : Prop :=
  (0 ≤ fd)%Z ∧ fd ∈ open_fds (world r) ∧ (fd ∉ standing (world r)) ∧ (fd ∉ held) ∧
  fd ≠ listener_ r ∧ fd ≠ epoll_fd_ (epoller_ r) ∧ ∀ p, socks r !! p ≠ Some fd.

Lemma unused_framed fd held r r' : framed r r' → unused fd held r → unused fd held r'.
Proof.
  intros (Hu & _ & Hl & He & Hs & (Ho & Hint & Ha & Hst)) (? & ? & ? & ? & ? & ? & ?).
  unfold unused. rewrite Hl, He, Hs, Ho. split_and!; try done. set_solver.
Qed.

(** ** Arming a descriptor *)

Lemma arm_safe r ts held fd ctl mask w' :
  safe r ts held → registers fd ctl mask (world r) w' → N.testbit mask 30 = true → ctl ≠ Delete →
  (ctl = Modify ∨ ∀ p, socks r !! p ≠ Some fd) →
  (∀ p, p ∈ ts → socks r !! p ≠ Some fd) → fd ∉ held →
  safe (set_epoller (epoller_ r) w' r) ts held.
Proof.
  intros H [Ho Hr] Hbit Hctl Hadd Hts Hfd.
  assert ((armed w' ⊆ {[fd]} ∪ armed (world r) ∧ standing w' ⊆ standing (world r)) ∧
    interest w' ⊆ (if decide (ctl = Modify) then interest (world r) else {[fd]} ∪ interest (world r))) as [[Ha Hst] Hint].
  { destruct ctl; [|done|]; rewrite Hbit in Hr; by destruct Hr; split; [|case_decide]. }
  split; unfold socks in *; simpl; rewrite ?Ho; try apply H.
  - intros p fd' Hp. destruct (safe_open _ _ _ H p fd' Hp) as (? & ? & ?). split_and!; [done|done|set_solver].
  - intros p Hp. destruct (safe_tasks _ _ _ H p Hp) as (fd' & Hp' & ? & ?). exists fd'.
    split_and!; [done| |done]. assert (fd' ≠ fd) by (intros ->; by eapply Hts). set_solver.
  - intros fd' Hin. destruct (safe_held _ _ _ H fd' Hin). split; [done|]. set_solver.
  - intros p fd' Hep Hp Hus. destruct (safe_gone _ _ _ H p fd' Hep Hp Hus) as [Hn Hh]. split; [|done].
    destruct Hadd as [-> |Hadd]; [rewrite decide_True in Hint by done; set_solver|].
    assert (fd' ≠ fd) by (intros ->; by eapply Hadd). case_decide; set_solver.
Qed.

(** [SetFileDescriptor] with events, from the states that it can leave. *)
Lemma ctl_at (P : Server → Prop) ctl fd bits s :
  (∀ w', registers fd ctl bits (world s.2) w' → P (s.1, set_epoller (epoller_ s.2) w' s.2)) →
  ctl ≠ Delete → keeps_at P (on_epoller (SetFileDescriptor ctl fd (Some bits))) s.
Proof.
  intros HP Hctl. unfold keeps_at. destruct (Z.leb_spec 0 fd) as [Hfd|Hfd].
  - destruct (sys_epoll_ctl (epoll_fd_ (epoller_ s.2)) ctl fd bits (world s.2)) as [x w'] eqn:Hc.
    erewrite on_epoller_ok.
    2: { apply (SetFileDescriptor_ok _ _ bits _ _ x w' Hfd). rewrite decide_True by done. exact Hc. }
    right. apply HP. pose proof (ctl_registers (epoll_fd_ (epoller_ s.2)) ctl fd bits (world s.2)) as Hr.
    by rewrite Hc in Hr.
  - left. unfold on_epoller, zoom, SetFileDescriptor, IsValidFileDescriptor.
    by rewrite (proj2 (Z.leb_gt _ _) Hfd).
Qed.

Lemma connect_oneshot ev : N.testbit (N.lor connect_event_mode ev) 30 = true.
Proof. by rewrite N.lor_spec. Qed.

(** ** Connections that end *)

Lemma close_safe r ts held fd r' :
  safe r ts held → fd ∉ held →
  users_ r' = users_ r → socks r' = socks r → epoller_ r' = epoller_ r →
  (∀ p, socks r !! p ≠ Some fd) → fd ≠ epoll_fd_ (epoller_ r) →
  (listener_ r' = invalid_file_descriptor ∨ listener_ r' = listener_ r ∧ fd ≠ listener_ r) →
  world r' = sys_close fd (world r) → safe r' ts held.
Proof.
  intros H Hh Hu Hs He Hns Hep Hl Hw. destruct (closes fd (world r)) as (Ho & Hint & Ha & Hst). rewrite <-Hw in Ho, Hint, Ha, Hst.
  split; rewrite ?Hu, ?Hs, ?He, ?Ho; try apply H.
  - intros p fd' Hp. destruct (safe_open _ _ _ H p fd' Hp) as (? & ? & ?).
    assert (fd' ≠ fd) by (intros ->; by eapply Hns). split_and!; [done|set_solver|set_solver].
  - intros p Hp. destruct (safe_tasks _ _ _ H p Hp) as (fd' & ? & ? & ?). exists fd'. split_and!; [done|set_solver|done].
  - intros fd' Hin. destruct (safe_held _ _ _ H fd' Hin). split; [set_solver|set_solver].
  - intros fd' Hfd' Hpos. destruct Hl as [Hl|[Hl Hne]].
    + destruct (safe_own _ _ _ H fd') as [Hop Hn]; [|done|].
      { destruct Hfd' as [->| ->]; [|by right]. rewrite Hl in Hpos. by destruct Hpos. }
      split; [|done]. destruct Hfd' as [->| ->]; [rewrite Hl in Hpos; by destruct Hpos|set_solver].
    + rewrite Hl in Hfd'. destruct (safe_own _ _ _ H fd' Hfd' Hpos) as [Hop Hn]. split; [|done].
      destruct Hfd' as [->| ->]; set_solver.
  - destruct Hl as [->|[-> _]]; [done|]. apply H.
  - intros p fd' Hef Hp Hus. destruct (safe_gone _ _ _ H p fd' Hef Hp Hus). split; [set_solver|done].
Qed.

(** A connection goes that neither a user nor a task leads to. *)
Lemma destroy_safe r ts held p fd :
  safe r ts held → socks r !! p = Some fd → p ∉ ts → (∀ k, users_ r !! k ≠ Some p) → fd ∉ held →
  safe (set_world (close_socket fd (world r)) (set_clients (delete p (clients r)) r)) ts held.
Proof.
  intros H Hp Hts Hus Hh. destruct (safe_open _ _ _ H p fd Hp) as (Hpos & Hop & Hst).
  unfold close_socket, IsValidFileDescriptor. rewrite (proj2 (Z.leb_le _ _) Hpos).
  set (r1 := set_clients (delete p (clients r)) r).
  assert (socks r1 = delete p (socks r)) as Hs1 by (unfold socks; simpl; by rewrite fmap_delete).
  assert (safe r1 ts held) as H1.
  { split; rewrite ?Hs1; try apply H.
    - intros fd' q Hq. simpl in Hq. rewrite lookup_delete_ne by (intros ->; by eapply Hus). by apply (safe_users _ _ _ H).
    - intros q fd' [_ Hq]%lookup_delete_Some. by apply (safe_open _ _ _ H q).
    - intros q q' fd' [_ Hq]%lookup_delete_Some [_ Hq']%lookup_delete_Some. by eapply (safe_distinct _ _ _ H).
    - intros q Hq. destruct (safe_tasks _ _ _ H q Hq) as (fd' & ? & ?). exists fd'.
      rewrite lookup_delete_ne by (by intros ->). done.
    - intros fd' Hfd' Hpos'. destruct (safe_own _ _ _ H fd' Hfd' Hpos') as [? Hn]. split; [done|].
      intros q [_ Hq]%lookup_delete_Some. by eapply Hn.
    - intros q fd' Hep [_ Hq]%lookup_delete_Some. by apply (safe_gone _ _ _ H q). }
  apply (close_safe r1 ts held fd); try done.
  - rewrite Hs1. intros q [Hne Hq]%lookup_delete_Some. apply Hne. by eapply (safe_distinct _ _ _ H).
  - intros Heq. destruct (safe_own _ _ _ H fd (or_intror Heq) Hpos) as [_ Hn]. by eapply Hn.
  - right. split; [done|]. intros Heq. destruct (safe_own _ _ _ H fd (or_introl Heq) Hpos) as [_ Hn]. by eapply Hn.
Qed.

Lemma socks_clients r p fd :
  socks r !! p = Some fd → ∃ c, clients r !! p = Some c ∧ Connection.socket_ (conn c) = fd.
Proof. unfold socks. rewrite lookup_fmap, fmap_Some. intros (c & ? & ->). by exists c. Qed.

(** A descriptor that a call has just opened is not used by anything. *)
Lemma opens_safe r ts held fd w' :
  safe r ts held → opens fd (world r) w' →
  safe (set_world w' r) ts held ∧ unused fd held (set_world w' r).
Proof.
  intros H (Hpos & Hnew & Ho & Hint & Ha & Hst). pose proof (registered_open (world r)) as [Hreg Hreg']. split.
  - split; simpl; rewrite ?Ho; try apply H.
    + intros p fd' Hp. destruct (safe_open _ _ _ H p fd' Hp) as (? & ? & ?). split_and!; [done|set_solver|set_solver].
    + intros p Hp. destruct (safe_tasks _ _ _ H p Hp) as (fd' & ? & ? & ?). exists fd'. split_and!; [done|set_solver|done].
    + intros fd' Hin. destruct (safe_held _ _ _ H fd' Hin). split; set_solver.
    + intros fd' Hfd' Hp. destruct (safe_own _ _ _ H fd' Hfd' Hp). split; [set_solver|done].
    + intros p fd' Hep Hp Hus. destruct (safe_gone _ _ _ H p fd' Hep Hp Hus). split; [set_solver|done].
  - unfold unused. simpl. rewrite Ho. split_and!; [done|set_solver|set_solver| | | |].
    + intros Hin. by destruct (safe_held _ _ _ H fd Hin).
    + intros Heq. by destruct (safe_own _ _ _ H fd (or_introl Heq) Hpos).
    + intros Heq. by destruct (safe_own _ _ _ H fd (or_intror Heq) Hpos).
    + intros p Hp. by destruct (safe_open _ _ _ H p fd Hp) as (_ & ? & _).
Qed.

Lemma socks_fresh r p : socks r !! p = None ↔ clients r !! p = None.
Proof. unfold socks. rewrite lookup_fmap. by destruct (clients r !! p). Qed.

Lemma inserted_safe r ts held fd p c :
  safe r ts held → unused fd held r → clients r !! p = None → Connection.socket_ (conn c) = fd →
  safe (inserted fd p c r) ts held.
Proof.
  intros H (Hpos & Ho & Hst & Hh & Hl & He & Hn) Hp%socks_fresh Hc.
  assert (socks (inserted fd p c r) = <[p := fd]> (socks r)) as Hs.
  { unfold socks. simpl. by rewrite fmap_insert, Hc. }
  split; rewrite ?Hs; simpl; try apply H.
  - intros k q [[<- <-]|[Hne Hk]]%lookup_insert_Some; [by rewrite lookup_insert_eq|].
    pose proof (safe_users _ _ _ H k q Hk). rewrite lookup_insert_ne by congruence. done.
  - intros q k [[<- <-]|[Hne Hk]]%lookup_insert_Some; [done|by apply (safe_open _ _ _ H q)].
  - intros q q' k [[<- Hk1]|[Hne Hk]]%lookup_insert_Some [[<- Hk2]|[Hne' Hk']]%lookup_insert_Some; try done.
    + subst. by destruct (Hn q').
    + subst. by destruct (Hn q).
    + by eapply (safe_distinct _ _ _ H).
  - intros q Hq. destruct (safe_tasks _ _ _ H q Hq) as (k & ? & ? & ?). exists k.
    rewrite lookup_insert_ne by congruence. done.
  - intros k Hk Hk0. destruct (safe_own _ _ _ H k Hk Hk0) as [? Hn']. split; [done|].
    intros q [[<- <-]|[Hne Hq]]%lookup_insert_Some; [by destruct Hk|by eapply Hn'].
  - intros q k Hep [[<- <-]|[Hne Hq]]%lookup_insert_Some Hus; [by rewrite lookup_insert_eq in Hus|].
    apply (safe_gone _ _ _ H q k Hep Hq). rewrite lookup_insert_ne in Hus; [done|]. intros ->. by eapply Hn.
Qed.

(** ** The predicates at the steps of the server *)

(** Which of the tasks may still use their connection.  A task that is pushed
    behind the first [least] ones may. *)
Class Selects (live : list Task → list Task) (least : nat) : Prop := {
  live_sub l t : t ∈ live l → t ∈ l;
  live_push l t : least ≤ length l → live (l ++ [t]) = live l ++ [t]
}.

#[global] Instance all_tasks : Selects id 0.
Proof. by split. Qed.

Section Selected.
Context (live : list Task → list Task) (least : nat) `{!Selects live least}.

Definition Safe (held : gset Z) (epl : Epoller) (s : Server) : Prop :=
  safe s.2 (task_client <$> live (tasks s.2)) held ∧
  epoller_ s.2 = epl ∧ least ≤ length (tasks s.2).

#[global] Instance Safe_stable held epl : Stable (Safe held epl).
Proof.
  intros t t' r r' Hf [Hs He]. unfold Safe. simpl in *.
  rewrite (proj1 (proj2 Hf)), (proj1 (proj2 (proj2 (proj2 Hf)))). split; [|done].
  exact (safe_framed _ _ _ _ Hf Hs).
Qed.

(** Less is held, and nothing else changes. *)
Lemma Safe_weaken held held' epl s : held' ⊆ held → Safe held epl s → Safe held' epl s.
Proof. intros Hh [Hs He]. split; [|done]. by eapply safe_weaken. Qed.

#[global] Instance unused_stable held epl fd : Stable (λ s, Safe held epl s ∧ unused fd held s.2).
Proof.
  intros t t' r r' Hf [Hs Hu]. split; [exact (stable t t' r r' Hf Hs)|exact (unused_framed _ _ _ _ Hf Hu)].
Qed.

(** ** Closing clients *)

Lemma destroy_at held epl p s :
  Safe held epl s → p ∉ task_client <$> live (tasks s.2) → (∀ k, users_ s.2 !! k ≠ Some p) →
  (∀ fd, socks s.2 !! p = Some fd → fd ∉ held) →
  keeps_at (Safe held epl) (destroy_client p) s.
Proof.
  intros [Hs He] Hts Hus Hh. destruct (clients s.2 !! p) as [c|] eqn:Hc.
  - assert (socks s.2 !! p = Some (Connection.socket_ (conn c))) as Hp by (unfold socks; by rewrite lookup_fmap, Hc).
    right. rewrite (destroy_client_ok p c s Hc). split; [|done]. simpl.
    apply destroy_safe; [done|done|done|done|by apply Hh].
  - left. unfold destroy_client. rewrite (bind_crash _ _ s s); [done|]. unfold on_client.
    rewrite (bind_done (deref (Some p)) _ s p s eq_refl). rewrite (bind_crash _ _ s s); [done|].
    unfold client_at. mstep. simpl. by rewrite Hc.
Qed.

(** Once its descriptor has been deleted, a client can leave the table. *)
Definition deleted (fd : Z) (epl : Epoller) s : Prop := Safe ∅ epl s ∧ fd ∉ interest (world s.2).

#[global] Instance deleted_stable fd epl : Stable (deleted fd epl).
Proof.
  intros t t' r r' Hf [Hs Hn]. split; [exact (stable t t' r r' Hf Hs)|].
  destruct Hf as (_ & _ & _ & _ & _ & (_ & Hint & _)). simpl in *. set_solver.
Qed.

Lemma Delete_deleted epl fd s : Safe ∅ epl s → keeps_at (deleted fd epl) (on_epoller (DeleteFileDescriptor fd)) s.
Proof.
  intros Hs. unfold keeps_at. destruct (Z.leb_spec 0 fd) as [Hfd|Hfd].
  - destruct (sys_epoll_ctl (epoll_fd_ (epoller_ s.2)) Delete fd 0 (world s.2)) as [x w'] eqn:Hc.
    rewrite (on_epoller_ok _ s _ _ _ (Delete_ok fd (epoller_ s.2) (world s.2) x w' Hfd Hc)). right.
    pose proof (ctl_registers (epoll_fd_ (epoller_ s.2)) Delete fd 0 (world s.2)) as Hr. rewrite Hc in Hr.
    destruct Hr as (Ho & Hint & Ha & Hst). simpl in *. split; [|simpl; set_solver].
    apply (Safe_stable ∅ epl s.1 s.1 s.2); [|by destruct s].
    split_and!; [done..|]. unfold quiet. simpl. split_and!; [done|set_solver|done|done].
  - left. unfold on_epoller, zoom, DeleteFileDescriptor, SetFileDescriptor, IsValidFileDescriptor.
    by rewrite (proj2 (Z.leb_gt _ _) Hfd).
Qed.

Lemma erase_user_safe epl fd s : deleted fd epl s → keeps_at (Safe ∅ epl) (erase_user fd) s.
Proof.
  intros [[Hs He] Hn]. unfold keeps_at, erase_user. mstep. destruct (users_ s.2 !! fd) as [p|] eqn:Hp; [|by right].
  mstep. set (s1 := (s.1, set_users (delete fd (users_ s.2)) s.2)).
  assert (Safe ∅ epl s1) as H1.
  { split; [|done]. split; try apply Hs.
    - intros k q Hq. simpl in Hq. apply lookup_delete_Some in Hq as [_ Hq]. by apply Hs.
    - intros q k Hep Hq Hus. simpl in Hus, Hq |- *. destruct (decide (k = fd)) as [->|Hne]; [set_solver|].
      rewrite lookup_delete_ne in Hus by done. by apply (safe_gone _ _ _ Hs q k). }
  destruct (shared p s.2) eqn:Hsh; [by right|]. apply destroy_at; [done| | |set_solver].
  - intros (t & -> & Ht)%list_elem_of_fmap. unfold shared in Hsh. apply bool_decide_eq_false in Hsh.
    apply Hsh, list_elem_of_fmap_2. by eapply live_sub.
  - intros k Hk. simpl in Hk. apply lookup_delete_Some in Hk as [Hne Hk]. apply Hne.
    pose proof (safe_users _ _ _ Hs fd p Hp). pose proof (safe_users _ _ _ Hs k p Hk). congruence.
Qed.

Lemma CloseClient_safe epl fd : keeps (Safe ∅ epl) (CloseClient fd).
Proof.
  unfold CloseClient. keep_step. do 3 (keep_step; [auto with keeps|]). intros s Hs.
  assert (∀ s, deleted fd epl s → Safe ∅ epl s) as Hdrop by (by intros ? []).
  apply (keeps_at_seq (deleted fd epl)); [|done|].
  - pose proof (Delete_deleted epl fd s Hs) as Hd. unfold keeps_at, try_catch in *.
    destruct (on_epoller _ s) as [[[]|err| |] s'] eqn:He; simpl in *; try done.
    destruct Hd as [|Hd]; [done|]. assert (keeps (deleted fd epl) (Log Debug (s!"Failed to delete socket " ++ quote_fd fd ++ s!" from epoller: " ++ what err) : M Server unit)) as Hl by auto with keeps.
    by apply Hl.
  - intros _ s1 Hs1. apply (keeps_at_seq (deleted fd epl)); [|done|].
    + assert (keeps (deleted fd epl) (on_timer (Remove fd) : M Server bool)) as Hr by auto with keeps. by apply Hr.
    + intros _ s2 Hs2. apply (keeps_at_seq (Safe ∅ epl)); [by apply erase_user_safe|done|].
      intros _ s3 Hs3. assert (keeps (Safe ∅ epl) (Log Info (s!"Client " ++ a1 ++ s!" has disconnected") : M Server unit)) as Hl by auto with keeps.
      by apply Hl.
Qed.

#[local] Hint Resolve CloseClient_safe : keeps.

Lemma on_timeout_safe epl c fd : keeps (Safe ∅ epl) (on_timeout c fd).
Proof. unfold on_timeout. repeat keep_step. Qed.

#[local] Hint Resolve on_timeout_safe : keeps.

Lemma ToNextTick_safe epl n : keeps (Safe ∅ epl) (ToNextTick n).
Proof. unfold ToNextTick, HeapTimer.ToNextTick, Tick, Tick_body, Expired, invoke_callback. repeat keep_step. Qed.

#[local] Hint Resolve ToNextTick_safe : keeps.

(** ** New clients *)

Section Handlers.
Context (epl : Epoller) (held : gset Z) (alive : Z).
Abbreviation New := (λ fd s, Safe held epl s ∧ unused fd held s.2).

Lemma register_new fd : keeps (New fd) (on_epoller (AddFileDescriptor fd (N.lor connect_event_mode EPOLLIN))).
Proof.
  intros s [[Hs He] Hu]. apply ctl_at; [|done]. intros w' Hr. pose proof Hu as (Hpos & Ho & Hst & Hh & Hl & Hep & Hn).
  split; [split; [|done]|].
  - apply (arm_safe _ _ _ fd _ _ _ Hs Hr); [apply connect_oneshot|done|by right|done|done].
  - destruct Hr as (Ho' & Hr & _). rewrite connect_oneshot in Hr. unfold unused. simpl. rewrite Ho'.
    split_and!; try done. set_solver.
Qed.

#[local] Hint Resolve register_new : keeps.

Lemma AddClient_safe fd addr s :
  New fd s → keeps_at (Safe held epl) (AddClient alive fd addr) s.
Proof.
  assert (keeps (New fd) (SetFileDescriptorAsNonblocking fd : M Server unit)) as Hnonblock by auto with keeps.
  intros Hs. unfold AddClient.
  apply (keeps_at_seq (New fd)); [by apply keeps_assert|by intros ? []|]. intros _ s1 Hs1.
  apply (keeps_at_seq (New fd)); [by apply Hnonblock|by intros ? []|]. intros _ s2 Hs2.
  apply (keeps_at_seq (New fd)); [by apply register_new|by intros ? []|]. intros _ s3 Hs3.
  apply (keeps_at_seq (New fd)); [destruct (sys_inet_ntop addr); by right|by intros ? []|]. intros ip s4 Hs4.
  unfold Connection.Connection_of_socket. destruct (IsValidFileDescriptor fd); [|by left].
  unfold keeps_at. rewrite (bind_done (of_outcome (Done _)) _ s4 _ s4 eq_refl). mstep. simpl. mstep.
  destruct Hs4 as [[Hs4 He4] Hu4]. destruct (users_ s4.2 !! fd) as [q|] eqn:Hq.
  { pose proof (safe_users _ _ _ Hs4 fd q Hq) as Hsock. by destruct Hu4 as (_ & _ & _ & _ & _ & _ & Hn); destruct (Hn q). }
  mstep. set (c := mkClient _ _).
  match goal with |- (?m ?s5).1 = _ ∨ _ =>
    cut (keeps (Safe held epl) m ∧ Safe held epl s5); [intros [Hk H5]; exact (Hk s5 H5)|] end.
  split; [repeat keep_step|]. split; [|done]. simpl.
  change (safe (inserted fd (fresh_client s4.2) c s4.2) (task_client <$> live (tasks s4.2)) held).
  apply inserted_safe; [done|done|apply fresh_client_None|done].
Qed.

Lemma on_world_run {A} (f : W → A * W) s a w' :
  f (world s.2) = (a, w') → on_world f s = (Done a, (s.1, set_world w' s.2)).
Proof. intros H. unfold on_world. by rewrite H. Qed.

Lemma accept_loop_safe n : keeps (Safe held epl) (accept_loop alive n).
Proof.
  induction n as [|n IH]; [auto with keeps|]. intros s [Hs He]. unfold keeps_at. cbn [accept_loop]. mstep.
  pose proof (opens_accept (listener_ s.2) (world s.2)) as Hacc.
  destruct (sys_accept (listener_ s.2) (world s.2)) as [[errno|[fd addr]] w'] eqn:Heq;
    pose proof (on_world_run _ s _ _ Heq) as Hrun; mrun Hrun.
  - right. split; [|done]. by eapply safe_framed; [|exact Hs]; split_and!.
  - destruct (opens_safe _ _ _ fd w' Hs Hacc) as [Hs' Hu].
    destruct (IsValidFileDescriptor fd); [|by left].
    apply (keeps_at_seq (Safe held epl)); [by apply AddClient_safe|done|]. intros _ s1. apply IH.
Qed.

#[local] Hint Resolve accept_loop_safe : keeps.

Lemma OnListenEvent_safe n : keeps (Safe held epl) (OnListenEvent alive n).
Proof.
  unfold OnListenEvent. keep_step; [auto with keeps|]. destruct (kind e); repeat keep_step.
Qed.

(** ** Reported descriptors *)

Lemma Safe_rest fd s : Safe ({[fd]} ∪ held) epl s → Safe held epl s.
Proof. apply Safe_weaken. set_solver. Qed.

(** The descriptor of a task that is pushed has just been reported, so it is not
    armed, and no other task has it. *)
Lemma push_safe fd (task : nat → Task) s :
  (∀ p, task_client (task p) = p) → fd ∉ held → Safe ({[fd]} ∪ held) epl s →
  keeps_at (Safe held epl) (p ← Conn fd; i ← deref p; pool_Push (task i)) s.
Proof.
  intros Htask Hfd [Hs He]. unfold keeps_at. destruct (users_ s.2 !! fd) as [p|] eqn:Hp.
  2: { left. unfold Conn. rewrite (bind_crash _ _ s s); [done|]. mstep.
       by rewrite bool_decide_eq_false_2 by (rewrite Hp; by intros []). }
  mrun (Conn_ok fd p s Hp). rewrite (bind_done (deref (Some p)) _ s p s eq_refl).
  unfold pool_Push. mstep. destruct (pool_closed s.2); [by left|]. mstep. right.
  split; [|destruct He; split; [done|simpl; rewrite length_app; lia]].
  pose proof (safe_users _ _ _ Hs fd p Hp) as Hsock. destruct (safe_held _ _ _ Hs fd) as [Ho Ha]; [set_solver|].
  simpl. rewrite live_push, fmap_app by apply He. simpl. rewrite Htask.
  assert (safe (set_tasks (tasks s.2 ++ [task p]) s.2) (task_client <$> live (tasks s.2)) held) as H.
  { eapply (safe_weaken _ _ ({[fd]} ∪ held)); [set_solver|]. split; try apply Hs. }
  split; try apply H.
  - intros q [Hq|Hq]%elem_of_app; [by apply H|]. apply list_elem_of_singleton in Hq as ->.
    by exists fd.
  - apply NoDup_app. split_and!; [apply Hs| |apply NoDup_singleton].
    intros q Hq Hq'. apply list_elem_of_singleton in Hq' as ->.
    destruct (safe_tasks _ _ _ Hs p Hq) as (fd' & Hs' & _ & Hn). rewrite Hsock in Hs'. set_solver.
Qed.

Lemma dispatch_safe n fd ev s :
  fd ∉ held → Safe ({[fd]} ∪ held) epl s → keeps_at (Safe held epl) (dispatch alive n fd ev) s.
Proof.
  intros Hfd Hs. pose proof (Safe_rest _ _ Hs) as Hw.
  assert (keeps (Safe ({[fd]} ∪ held) epl) (ExtendClientAliveTime alive fd)) as Hext by auto with keeps.
  assert (∀ task : nat → Task, (∀ p, task_client (task p) = p) →
    keeps_at (Safe held epl) (a ← ExtendClientAliveTime alive fd;
      if a : bool then p ← Conn fd; i ← deref p; pool_Push (task i) else mret tt) s) as Htask.
  { intros task Ht. apply (keeps_at_seq (Safe ({[fd]} ∪ held) epl)); [by apply Hext|apply Safe_rest|].
    intros [] s1 Hs1; [by apply push_safe|]. right. by apply Safe_rest in Hs1. }
  unfold keeps_at, dispatch. mstep. destruct (fd =? listener_ s.2)%Z; [by apply OnListenEvent_safe|].
  destruct (has_bits ev _).
  { assert (keeps (Safe held epl) (OnCloseEvent fd : M Server unit)) as Hc by (unfold OnCloseEvent; auto with keeps).
    by apply Hc. }
  destruct (has_bits ev EPOLLIN); [by apply (Htask ReceiveTask)|].
  destruct (has_bits ev EPOLLOUT); [by apply (Htask SendTask)|]. by right.
Qed.
End Handlers.

Lemma FileDescriptor_read i s fd ev :
  events_ (epoller_ s.2) !! i = Some (fd, ev) →
  on_epoller (FileDescriptor (N.of_nat i)) s = (Done fd, s) ∧ on_epoller (Events (N.of_nat i)) s = (Done ev, s).
Proof.
  intros Hi. assert (Epoller.ValidIndex (N.of_nat i) (epoller_ s.2) = true) as Hv.
  { apply N.ltb_lt. apply lookup_lt_Some in Hi. len_lia. }
  destruct s as [t []]. unfold on_epoller, zoom, FileDescriptor, Events. simpl in *.
  split; mstep; simpl; rewrite Hv; mstep; by rewrite Nat2N.id, Hi.
Qed.

Lemma FileDescriptor_out i s :
  events_ (epoller_ s.2) !! i = None → (on_epoller (FileDescriptor (N.of_nat i)) s).1 = Crash.
Proof.
  intros Hi. assert (Epoller.ValidIndex (N.of_nat i) (epoller_ s.2) = false) as Hv.
  { apply N.ltb_ge. apply lookup_ge_None in Hi. len_lia. }
  unfold on_epoller, zoom, FileDescriptor. mstep. simpl. by rewrite Hv.
Qed.

(** The reported descriptors that the loop has not reached. *)
Definition rest_of (evs : list (Z * N)) (i count : nat) : list Z := (take count (drop i evs)).*1.

Lemma dispatch_all_safe alive n epl count : ∀ i s,
  NoDup (rest_of (events_ epl) i count) → Safe (list_to_set (rest_of (events_ epl) i count)) epl s →
  keeps_at (Safe ∅ epl) (dispatch_all alive n i count) s.
Proof.
  unfold rest_of. induction count as [|count IH]; intros i s Hnd Hs; [by right|]. cbn [dispatch_all].
  destruct (events_ (epoller_ s.2) !! i) as [[fd ev]|] eqn:Hi.
  2: { left. pose proof (FileDescriptor_out i s Hi) as Hc.
       destruct (on_epoller (FileDescriptor (N.of_nat i)) s) as [x s'] eqn:He. simpl in Hc. subst x.
       by rewrite (bind_crash _ _ _ _ He). }
  destruct (FileDescriptor_read i s fd ev Hi) as [H1 H2]. unfold keeps_at. mrun H1. mrun H2.
  rewrite (proj1 (proj2 Hs)) in Hi. rewrite (drop_S _ _ _ Hi) in Hnd, Hs. simpl in Hnd, Hs.
  apply NoDup_cons in Hnd as [Hn Hnd].
  apply (keeps_at_seq (Safe (list_to_set (rest_of (events_ epl) (S i) count)) epl)).
  - apply dispatch_safe; [|done]. by rewrite elem_of_list_to_set.
  - intros s'. apply Safe_weaken. set_solver.
  - intros _ s' Hs'. by apply IH.
Qed.
End Selected.

(** ** A turn of the main loop *)

(** The invariant between two actions. *)
Definition steady s : Prop := safe s.2 (task_client <$> tasks s.2) ∅.

Lemma steady_Safe s : steady s → Safe id 0 ∅ (epoller_ s.2) s.
Proof. intros Hs. split; [exact Hs|]. split; [done|lia]. Qed.

Lemma steady_keeps {A} (m : M Server A) : (∀ epl, keeps (Safe id 0 ∅ epl) m) → keeps steady m.
Proof.
  intros Hm s Hs. destruct (Hm _ s (steady_Safe s Hs)) as [Hc|[H _]]; [by left|by right].
Qed.

#[global] Instance steady_stable : Stable steady.
Proof. intros t t' r r' Hf H. exact (proj1 (Safe_stable id 0 ∅ _ t t' r r' Hf (steady_Safe (t, r) H))). Qed.

(** What the kernel reports is held until it is dispatched. *)
Lemma reports_safe r ts e ready w' :
  safe r ts ∅ → reports ready (world r) w' → epoll_fd_ e = epoll_fd_ (epoller_ r) →
  safe (set_epoller e w' r) ts (list_to_set ready).
Proof.
  intros H (Hnd & Hreg & Ho & Hint & Ha & Hst) He. pose proof (registered_open (world r)) as [Hop Hop'].
  split; unfold socks in *; simpl; rewrite ?Ho, ?He; try apply H.
  - intros p fd Hp. destruct (safe_open _ _ _ H p fd Hp) as (? & ? & ?). split_and!; [done|done|set_solver].
  - intros p Hp. destruct (safe_tasks _ _ _ H p Hp) as (fd & Hs & ? & _). exists fd. split_and!; [done|set_solver|].
    destruct (safe_open _ _ _ H p fd Hs) as (_ & _ & ?). set_solver.
  - intros fd Hfd. split; set_solver.
  - intros p fd Hep Hp Hus. destruct (safe_gone _ _ _ H p fd Hep Hp Hus). split; set_solver.
Qed.

(** The array may hold fewer descriptors than the kernel could report. *)
Lemma reports_take n l w w' : reports l w w' → reports (take n l) w w'.
Proof.
  intros (Hnd & Hreg & Ho & Hint & Ha & Hst).
  assert (list_to_set (C := gset Z) (take n l) ⊆ list_to_set l) as Hsub.
  { intros fd. rewrite !elem_of_list_to_set. intros H. rewrite <-(take_drop n l). set_solver. }
  split_and!; [|set_solver|done|done|set_solver|done].
  rewrite <-(take_drop n l) in Hnd. by apply NoDup_app in Hnd as (? & _).
Qed.

Lemma Wait_safe t s ts x e w :
  safe s.2 ts ∅ → Wait t (epoller_ s.2, world s.2) = (x, (e, w)) →
  x = Crash ∨ ∃ held, safe (set_epoller e w s.2) ts (list_to_set held) ∧
    NoDup held ∧ ∀ c, x = Done c → held = rest_of (events_ e) 0 (N.to_nat c).
Proof.
  intros Hs. unfold Wait. mstep. simpl. set (sz := len (events_ (epoller_ s.2))).
  destruct (Z.of_N sz <=? INT_MAX)%Z; [|intros [= <- _ _]; by left]. mstep.
  destruct (milliseconds t <=? INT_MAX)%Z; [|intros [= <- _ _]; by left]. mstep.
  pose proof (wait_reports_once (epoll_fd_ (epoller_ s.2)) sz (milliseconds t) (world s.2)) as Hr.
  destruct (sys_epoll_wait _ _ _ _) as [[errno|l] w'] eqn:Hw.
  - rewrite (bind_done _ _ _ (inl errno) (epoller_ s.2, w')) by (unfold syscall; simpl; by rewrite Hw).
    assert (safe (set_epoller (epoller_ s.2) w' s.2) ts ∅) as H'
      by (eapply safe_framed; [|exact Hs]; by split_and!).
    intros Hx. right. exists []. split_and!; [|constructor|].
    + destruct (errno =? EINTR)%Z; injection Hx as <- <- <-; exact H'.
    + intros c ->. destruct (errno =? EINTR)%Z; [|done]. by injection Hx as <- _ _.
  - rewrite (bind_done _ _ _ (inr l) (epoller_ s.2, w')) by (unfold syscall; simpl; by rewrite Hw).
    mstep. simpl. intros [= <- <- <-]. right. apply (reports_take (N.to_nat sz)) in Hr.
    rewrite <-fmap_take in Hr. exists (take (N.to_nat sz) l).*1.
    split_and!; [by apply reports_safe|by apply Hr|]. intros c [= <-]. unfold rest_of. simpl.
    unfold len. by rewrite Nat2N.id, drop_0, take_app_length.
Qed.

Lemma wait_and_dispatch_safe alive n t :
  keeps steady (count ← on_epoller (Wait t); dispatch_all alive n 0 (N.to_nat count)).
Proof.
  intros s Hs. unfold keeps_at.
  destruct (Wait t (epoller_ s.2, world s.2)) as [x [e w]] eqn:Hw.
  pose proof (on_epoller_ok _ s _ _ _ Hw) as Hrun.
  destruct (Wait_safe _ _ _ _ _ _ Hs Hw) as [-> |(held & Hsafe & Hnd & Hc)]; [left; by rewrite (bind_crash _ _ _ _ Hrun)|].
  assert (steady (s.1, set_epoller e w s.2)) as Hst by (eapply safe_weaken; [|exact Hsafe]; set_solver).
  destruct x as [c|err| |].
  - mrun Hrun. pose proof (Hc c eq_refl) as ->.
    destruct (dispatch_all_safe id 0 alive n _ (N.to_nat c) 0 (s.1, set_epoller e w s.2) Hnd) as [H|[H _]]; [|by left|by right].
    split; [exact Hsafe|]. split; [done|lia].
  - right. by rewrite (bind_throw _ _ _ _ _ Hrun).
  - left. by rewrite (bind_crash _ _ _ _ Hrun).
  - right. by rewrite (bind_fuel _ _ _ _ Hrun).
Qed.

Lemma turn_safe alive n : keeps steady (turn alive n).
Proof.
  unfold turn. keep_step; [|intros; apply via_frames; [apply _|auto with keeps]].
  keep_step; [apply steady_keeps; intros epl; apply (ToNextTick_safe id 0)|apply wait_and_dispatch_safe].
Qed.
End OneShot.

(** For the clients of this file: steps that leave the frame alone keep every stable
    predicate. *)
#[export] Hint Resolve Log_frames on_timer_frames client_at_frames now_frames ThrowLastSystemError_frames
  read_clock_frames write_log_frames Delete_frames Conn_frames IPAddress_frames Socket_frames
  KeepAlive_frames Nonblocking_frames Mark_frames Extend_frames client_Receive_frames
  client_Send_frames client_Process_frames : keeps.
#[export] Hint Extern 5 (keeps _ _) => apply via_frames; [apply _|intros ?; solve [auto with keeps]] : keeps.
