(* ===== verification/OneTask.v ===== *)
(** Two workers never touch one connection: the invariant of [OneShot] at every
    action of the server ([include/web_server.h]), and a kernel that keeps the laws. *)

From S2P Require Import Prelude Util Buffer Epoller HeapTimer LogField.
From S2P Require Connection.
From S2P Require Import WebServer ServerInvariant OneShot.

Section OneTask.
Context {W : Type} `{!Kernel W, !Registrations W, !OneShotLaws W}.

Abbreviation Timer := (HeapTimer Z Timeout).
Abbreviation Server := (Timer * Rest W)%type.
Implicit Types (s : Server) (r : Rest W) (w : W).

(** ** A worker *)

(** While the [i]th task runs, its connection may be armed again; none of the
    other tasks has it. *)
Definition working (i p : nat) (fd : Z) s : Prop :=
  safe s.2 (task_client <$> delete i (tasks s.2)) ∅ ∧ task_client <$> tasks s.2 !! i = Some p ∧
  (p ∉ task_client <$> delete i (tasks s.2)) ∧ socks s.2 !! p = Some fd.

#[global] Instance working_stable i p fd : Stable (working i p fd).
Proof.
  intros t t' r r' Hf (Hs & Ht & Hn & Hp). pose proof Hf as (_ & Htk & _ & _ & Hsk & _).
  unfold working. simpl in *. rewrite Htk, Hsk. split_and!; try done. exact (safe_framed _ _ _ _ Hf Hs).
Qed.

Lemma steady_working i t s :
  steady s → tasks s.2 !! i = Some t → ∃ fd, working i (task_client t) fd s.
Proof.
  intros Hs Hi. pose proof (delete_Permutation _ _ _ Hi) as Hperm.
  apply (fmap_Permutation task_client) in Hperm. simpl in Hperm.
  destruct (safe_tasks _ _ _ Hs (task_client t)) as (fd & Hfd & _); [rewrite Hperm; set_solver|].
  pose proof (safe_once _ _ _ Hs) as Hnd. rewrite Hperm in Hnd. apply NoDup_cons in Hnd as [Hn Hnd].
  exists fd. unfold working. rewrite Hi. split_and!; try done. split; try apply Hs; [|done].
  intros p Hp. apply (safe_tasks _ _ _ Hs). rewrite Hperm. set_solver.
Qed.

Section Worker.
Context (fs : FileSystem) (iter : Http.Parameters → list (str * str)) (moved : bool → str → str).
Context (root_dir : str) (fuel : nat) (i p : nat) (fd : Z).

Lemma Modify_working ev :
  keeps (working i p fd) (on_epoller (ModifyFileDescriptor fd (N.lor connect_event_mode ev))).
Proof.
  intros s (Hs & Hi & Hn & Hp). apply ctl_at; [|done]. intros w' Hr. split_and!; try done.
  apply (arm_safe _ _ _ fd _ _ _ Hs Hr); [apply connect_oneshot|done|by left| |set_solver].
  intros q Hq Hq'. pose proof (safe_distinct _ _ _ Hs _ _ _ Hp Hq') as <-. by apply Hn.
Qed.

Lemma Process_working : keeps (working i p fd) (Process fs iter moved root_dir (Some p)).
Proof.
  unfold Process. keep_step; [auto with keeps|]. intros s Hs.
  destruct (socks_clients _ _ _ (proj2 (proj2 (proj2 Hs)))) as (c & Hc & Hfd).
  unfold keeps_at. mrun (Socket_ok p c s Hc). rewrite Hfd. by destruct a; apply Modify_working.
Qed.

(** With a null pointer there is no processing. *)
Lemma Process_null : keeps (working i p fd) (Process fs iter moved root_dir None).
Proof. intros s _. by left. Qed.

#[local] Hint Resolve Process_working Process_null : keeps.

Lemma ReceiveFrom_working : keeps (working i p fd) (ReceiveFrom fs iter moved root_dir fuel (Some p)).
Proof. unfold ReceiveFrom. repeat keep_step. Qed.

Lemma SendTo_working : keeps (working i p fd) (SendTo fs iter moved root_dir fuel (Some p)).
Proof. unfold SendTo. repeat keep_step. Qed.
End Worker.

Lemma run_task_working fs iter moved root fuel i t fd :
  keeps (working i (task_client t) fd) (run_task fs iter moved root fuel t).
Proof. destruct t; [apply ReceiveFrom_working|apply SendTo_working]. Qed.

Lemma run_task_no_throw fs iter moved root fuel t s e : (run_task fs iter moved root fuel t s).1 ≠ Throw e.
Proof.
  destruct t; unfold run_task, ReceiveFrom, SendTo, noexcept; match goal with |- context [match ?m s with _ => _ end] => by destruct (m s) as [[] s'] end.
Qed.

(** How a step of the program ends: it returns or throws. *)
Definition ended {A} (x : outcome A) : Prop := x ≠ Crash ∧ x ≠ OutOfFuel.

Lemma work_safe fs iter moved root fuel i s x s' :
  steady s → work fs iter moved root fuel i s = (x, s') → ended x → steady s'.
Proof.
  intros Hs. unfold work. mstep. destruct (tasks s.2 !! i) as [t|] eqn:Hi; [|intros [= <- _] []; done].
  rewrite (bind_done (deref (Some t)) _ s t s eq_refl).
  destruct (steady_working i t s Hs Hi) as [fd Hw].
  pose proof (run_task_working fs iter moved root fuel i t fd s Hw) as Hk.
  pose proof (run_task_no_throw fs iter moved root fuel t s) as Hnt. unfold keeps_at in Hk.
  destruct (run_task _ _ _ _ _ t s) as [y s1] eqn:Hr. destruct y as [[]|e| |].
  2: by destruct (Hnt e). 2: rewrite (bind_crash _ _ _ _ Hr); by intros [= <- _] [].
  2: rewrite (bind_fuel _ _ _ _ Hr); by intros [= <- _] [].
  mrun Hr. destruct Hk as [|(Hs1 & _ & Hn1 & _)]; [done|]. simpl in Hs1, Hn1. unfold drop_task. do 2 mstep. simpl.
  set (s2 := (s1.1, set_tasks (delete i (tasks s1.2)) s1.2)).
  assert (steady s2) as H2 by (split; apply Hs1). intros Hx [Hc _].
  destruct (shared (task_client t) _) eqn:Hsh; [injection Hx as <- <-; exact H2|].
  case_bool_decide as Hu; [injection Hx as <- <-; exact H2|]. simpl in Hx.
  destruct (destroy_at id 0 ∅ (epoller_ s2.2) (task_client t) s2) as [H|[H _]]; [by apply steady_Safe|done| |set_solver| |].
  - intros k Hk. apply Hu. apply list_elem_of_fmap. exists (k, task_client t). split; [done|].
    by apply elem_of_map_to_list.
  - by rewrite Hx in H.
  - by rewrite Hx in H.
Qed.

(** ** Starting and closing *)

Definition listening (fd : Z) s : Prop := steady s ∧ listener_ s.2 = fd ∧ (0 ≤ fd)%Z.

#[global] Instance listening_stable fd : Stable (listening fd).
Proof.
  intros t t' r r' Hf (Hs & Hl & Hfd). split_and!; [exact (steady_stable t t' r r' Hf Hs)| |done].
  simpl. by rewrite (proj1 (proj2 (proj2 Hf))).
Qed.

Lemma register_listener fd :
  keeps (listening fd) (on_epoller (AddFileDescriptor fd (N.lor listen_event_mode EPOLLIN))).
Proof.
  intros s (Hs & Hl & Hfd). apply ctl_at; [|done]. intros w' [Ho [Hr Hint]].
  change (N.testbit _ 30) with false in Hr. rewrite decide_False in Hint by done. destruct Hr as [Ha Hst]. split_and!; try done.
  destruct (safe_own _ _ _ Hs fd (or_introl (eq_sym Hl)) Hfd) as [_ Hn].
  split; unfold socks in *; simpl; rewrite ?Ho; try apply Hs.
  - intros p fd' Hp. destruct (safe_open _ _ _ Hs p fd' Hp) as (? & ? & ?). split_and!; [done|done|].
    assert (fd' ≠ fd) by (intros ->; by eapply Hn). set_solver.
  - intros p Hp. destruct (safe_tasks _ _ _ Hs p Hp) as (fd' & ? & ? & ?). exists fd'. split_and!; [done|set_solver|done].
  - intros fd' Hin. set_solver.
  - intros p fd' Hep Hp Hus. destruct (safe_gone _ _ _ Hs p fd' Hep Hp Hus) as [? ?]. split; [|done].
    assert (fd' ≠ fd) by (intros ->; by eapply Hn). set_solver.
Qed.

Lemma init_listener_safe port addr fd : keeps (listening fd) (init_listener port addr fd).
Proof.
  unfold init_listener. do 4 (keep_step; [apply via_frames; [apply _|intros ?; apply on_world_frames; intros w;
    first [apply quiet_setsockopt|apply quiet_bind|apply quiet_listen]]|]; keep_step; [repeat keep_step|]).
  keep_step; [auto with keeps|]. apply register_listener.
Qed.

Lemma listen_on s fd w' :
  steady s → opens fd (world s.2) w' → listening fd (s.1, set_listener fd w' s.2).
Proof.
  intros Hs Ho. destruct (opens_safe _ _ _ fd w' Hs Ho) as [H (Hpos & Hop & _ & _ & _ & He & Hn)].
  split_and!; [|done|done]. split; try apply H.
  - intros fd' [->| ->] Hfd'; [done|]. apply H; [by right|done].
  - simpl in *. intros Heq. by destruct He.
Qed.

Lemma close_listener s fd :
  listening fd s → steady (s.1, set_listener invalid_file_descriptor (sys_close fd (world s.2)) s.2).
Proof.
  intros (Hs & Hl & Hfd). destruct (safe_own _ _ _ Hs fd (or_introl (eq_sym Hl)) Hfd) as [_ Hn].
  eapply (close_safe _ _ _ fd _ Hs); try done; [|by left].
  intros He. pose proof (safe_apart _ _ _ Hs) as H. rewrite Hl, He in H. specialize (H eq_refl). lia.
Qed.

Lemma no_listener s w' :
  steady s → quiet (world s.2) w' → steady (s.1, set_listener invalid_file_descriptor w' s.2).
Proof.
  intros Hs Hq. assert (safe (set_world w' s.2) (task_client <$> tasks s.2) ∅) as H
    by (eapply safe_framed; [|exact Hs]; by split_and!).
  split; try apply H; [|done]. intros fd [->| ->] Hfd; [done|]. apply H; [by right|done].
Qed.

Lemma InitNetwork_safe port : keeps steady (InitNetwork port).
Proof.
  unfold InitNetwork. keep_step; [auto with keeps|]. keep_step; [repeat keep_step|].
  intros s Hs. unfold keeps_at. pose proof (opens_socket (world s.2)) as Hso.
  destruct (sys_socket (world s.2)) as [[errno|fd] w'] eqn:Heq; mrun (on_world_run _ s _ _ Heq); mstep; simpl.
  - right. by apply no_listener.
  - pose proof (listen_on s fd w' Hs Hso) as Hl.
    destruct (init_listener_safe port a0 fd _ Hl) as [H|H]; unfold try_catch, keeps_at in *.
    { left. by destruct (init_listener _ _ _ _) as [[] s']; simpl in *. }
    right. destruct (init_listener _ _ _ _) as [[] s']; simpl in *; try apply H. by apply close_listener.
Qed.

(** Without the epoll instance nothing is reported any more. *)
Definition deaf s : Prop := steady s ∧ (epoll_fd_ (epoller_ s.2) < 0)%Z.

#[global] Instance deaf_stable : Stable deaf.
Proof.
  intros t t' r r' Hf [Hs He]. split; [exact (steady_stable t t' r r' Hf Hs)|]. simpl in *.
  by rewrite (proj1 (proj2 (proj2 (proj2 Hf)))).
Qed.

Lemma Close_epoller_safe s : steady s → keeps_at deaf (on_epoller Close) s.
Proof.
  intros Hs. unfold keeps_at, on_epoller, zoom, Close. mstep. cbn [fst snd].
  set (efd := epoll_fd_ (epoller_ s.2)). unfold IsValidFileDescriptor. destruct (Z.leb_spec 0 efd) as [Hfd|Hfd].
  2: { right. split; [|done]. apply (steady_stable s.1 _ s.2); [by split_and!|exact Hs]. }
  right. split; [|done]. simpl. set (r1 := set_epoller (mkEpoller invalid_file_descriptor (events_ (epoller_ s.2))) (world s.2) s.2).
  assert (safe r1 (task_client <$> tasks s.2) ∅) as H1.
  { split; try apply Hs; simpl.
    - intros fd [->| ->] Hpos; [|done]. apply Hs; [by left|done].
    - by intros ->.
    - intros p fd Hep. by destruct Hep. }
  destruct (safe_own _ _ _ Hs efd (or_intror eq_refl) Hfd) as [_ Hn].
  eapply (close_safe r1 _ _ efd _ H1); try done; [simpl; unfold invalid_file_descriptor; lia|].
  right. split; [done|]. intros Hl. pose proof (safe_apart _ _ _ Hs) as Hap. simpl in Hl.
  rewrite <-Hl in Hap. specialize (Hap eq_refl). lia.
Qed.

Lemma release_all_safe ps : keeps (λ s, steady s ∧ users_ s.2 = ∅) (release_all ps : M Server unit).
Proof.
  induction ps as [|p ps IH]; [apply keeps_mret|]. intros s [Hs He]. cbn [release_all].
  unfold keeps_at. mstep. destruct (shared p s.2) eqn:Hsh; [mstep; by apply IH|].
  destruct (clients s.2 !! p) as [c|] eqn:Hc.
  - pose proof (destroy_client_ok p c s Hc) as Hd. mrun Hd. apply IH. split; [|done].
    pose proof (destroy_at id 0 ∅ (epoller_ s.2) p s) as H. unfold keeps_at in H. rewrite Hd in H.
    destruct H as [H|[H _]]; [by apply steady_Safe| | |set_solver|done|exact H].
    + unfold shared in Hsh. by apply bool_decide_eq_false in Hsh.
    + intros k. by rewrite He, lookup_empty.
  - left. rewrite (bind_crash _ _ s s); [done|]. unfold destroy_client.
    rewrite (bind_crash _ _ s s); [done|]. unfold on_client.
    rewrite (bind_done (deref (Some p)) _ s p s eq_refl). rewrite (bind_crash _ _ s s); [done|].
    unfold client_at. mstep. simpl. by rewrite Hc.
Qed.

Lemma Server_Close_safe : keeps steady Server_Close.
Proof.
  unfold Server_Close. apply keeps_noexcept. intros s Hs. unfold keeps_at. mstep.
  assert (keeps_at steady (if IsValidFileDescriptor (listener_ s.2)
   then modify (λ s, (s.1, set_listener invalid_file_descriptor (sys_close (listener_ s.2) (world s.2)) s.2))
   else mret tt) s) as H1.
  { unfold IsValidFileDescriptor. destruct (Z.leb_spec 0 (listener_ s.2)) as [Hl|Hl]; [|by right].
    right. by apply (close_listener s (listener_ s.2)). }
  apply (keeps_at_seq steady); [exact H1|done|]. intros _ s1 Hs1.
  apply (keeps_at_seq steady); [|done|]; [|intros _ s2 Hs2].
  { right. apply (steady_stable s1.1 _ s1.2); [by split_and!|exact Hs1]. }
  apply (keeps_at_seq deaf); [by apply Close_epoller_safe|by intros ? []|]. intros _ s3 Hs3.
  apply (keeps_at_seq deaf); [|by intros ? []|]; [|intros _ s4 [Hs4 He4]].
  { assert (keeps deaf (on_timer Clear : M Server unit)) as Hk; [|by apply Hk].
    apply via_frames; [apply _|]. auto with keeps. }
  unfold keeps_at. do 2 mstep. set (s5 := (s4.1, set_users ∅ s4.2)).
  assert (steady s5) as H5.
  { split; try apply Hs4.
    - intros fd p Hp. simpl in Hp. by rewrite lookup_empty in Hp.
    - intros p fd Hep. simpl in Hep. lia. }
  destruct (release_all_safe (map_to_list (users_ s4.2)).*2 s5) as [H|[H _]]; [done|by left|by right].
Qed.

(** ** Reachable states *)

(** What the constructor leaves, with the descriptor of a new epoll instance. *)
Lemma initial_steady capacity w0 e w :
  Epoller_create capacity w0 = (Done e, w) → steady (initial e w).
Proof.
  unfold Epoller_create. intros H. pose proof (opens_epoll w0) as Hop.
  destruct (sys_epoll_create1 w0) as [[errno|efd] w1]; destruct (0 <? capacity)%N; try done.
  injection H as <- <-. destruct Hop as (Hpos & Hnew & Ho & _).
  split; simpl; try done; try set_solver.
  - constructor.
  - intros fd [->| ->] Hfd; [by destruct Hfd|]. split; [set_solver|]. intros p. unfold socks. simpl.
    by rewrite lookup_fmap, lookup_empty.
Qed.

Section Served.
Context (fs : FileSystem) (iter : Http.Parameters → list (str * str)) (moved : bool → str → str).
Context (root_dir : str) (fuel : nat) (port_ : N) (alive_time_ : Z).
Abbreviation action := (action fs iter moved root_dir fuel port_ alive_time_).

(** A run of the server from its construction; each action has ended. *)
Inductive served : Server → Prop :=
| served_create capacity w0 e w : Epoller_create capacity w0 = (Done e, w) → served (initial e w)
| served_action a s x s' : action a → served s → a s = (x, s') → ended x → served s'.

Lemma served_steady s : served s → steady s.
Proof.
  induction 1 as [capacity w0 e w He|a s x s' Ha _ IH Hs Hx]; [by eapply initial_steady|].
  assert (∀ m : M Server unit, keeps steady m → m = a → steady s') as Hkeep.
  { intros m Hm ->. destruct (Hm s IH) as [H|H]; rewrite Hs in H; [by destruct Hx|done]. }
  destruct Ha; [by eapply Hkeep; [apply InitNetwork_safe|]|by eapply Hkeep; [apply turn_safe|]
               |by eapply work_safe|by eapply Hkeep; [apply Server_Close_safe|]].
Qed.
End Served.
End OneTask.

(** * Properties *)

(** However the turns of the main loop and the tasks of the workers follow
    each other, no two tasks of the pool have the same client: each task has its
    connection, and the descriptor, to itself.  Until the task has armed the
    descriptor again, no answer of [epoll_wait] names it.  This holds on every
    kernel that reports a one-shot registration once. *)
Theorem one_task_per_client {W} `{!Kernel W, !Registrations W, !OneShotLaws W}
    fs iter moved root_dir fuel port_ alive_time_ s :
  served fs iter moved root_dir fuel port_ alive_time_ s →
  NoDup (task_client <$> tasks s.2) ∧
  ∀ t, t ∈ tasks s.2 → ∃ c, clients s.2 !! task_client t = Some c ∧
    let fd := Connection.socket_ (conn c) in
    (∀ q d, clients s.2 !! q = Some d → Connection.socket_ (conn d) = fd → q = task_client t) ∧
    ∀ size ms ready w', sys_epoll_wait (epoll_fd_ (epoller_ s.2)) size ms (world s.2) = (inr ready, w') →
      fd ∉ ready.*1.
Proof.
  intros Hs%served_steady. split; [by apply Hs|]. intros t Ht.
  destruct (safe_tasks _ _ _ Hs (task_client t)) as (fd & Hfd & Harm & _); [by apply list_elem_of_fmap_2|].
  destruct (socks_clients _ _ _ Hfd) as (c & Hc & <-). exists c. split; [done|]. split.
  - intros q d Hd Heq. apply (safe_distinct _ _ _ Hs _ _ (Connection.socket_ (conn c))); [|done].
    unfold socks. by rewrite lookup_fmap, Hd, <-Heq.
  - intros size ms ready w' Hw. pose proof (wait_reports_once (epoll_fd_ (epoller_ s.2)) size ms (world s.2)) as Hr.
    rewrite Hw in Hr. destruct Hr as (_ & Hreg & _). destruct (safe_open _ _ _ Hs _ _ Hfd) as (_ & _ & Hst).
    intros Hin. apply (elem_of_list_to_set (C := gset Z)) in Hin. set_solver.
Qed.

(** * A kernel with one-shot notifications *)

(** [arrivals] are the descriptors of the next clients, [events] what happens
    until each next call of [epoll_wait]. *)
Record Desk := mkDesk {
  d_open : gset Z; d_interest : gset Z; d_armed : gset Z; d_standing : gset Z;
  arrivals : list Z; events : list (list (Z * N))
}.

#[local] Instance desk_registrations : Registrations Desk := {|
  open_fds := d_open;
  interest w := d_interest w ∩ d_open w;
  armed w := d_armed w ∩ (d_interest w ∩ d_open w);
  standing w := d_standing w ∩ (d_interest w ∩ d_open w)
|}.

Definition open_fd (fd : Z) (w : Desk) : (Z + Z) * Desk :=
  if decide ((0 ≤ fd ≤ INT_MAX)%Z ∧ (fd ∉ d_open w))
  then (inr fd, mkDesk ({[fd]} ∪ d_open w) (d_interest w ∖ {[fd]}) (d_armed w) (d_standing w) (arrivals w) (events w))
  else (inl 24%Z, w).

Definition desk_accept (l : Z) (w : Desk) : (Z + Z * N) * Desk :=
  match arrivals w with
  | [] => (inl EAGAIN, w)
  | fd :: rest =>
      let '(r, w') := open_fd fd (mkDesk (d_open w) (d_interest w) (d_armed w) (d_standing w) rest (events w)) in
      (match r with inr fd => inr (fd, 1%N) | inl e => inl e end, w')
  end.

Definition desk_ctl (ctl : Control) (fd : Z) (mask : N) (w : Desk) : option Z * Desk :=
  let seen := if decide (ctl = Add) then {[fd]} ∪ d_interest w else d_interest w in
  (None, match ctl with
         | Delete => mkDesk (d_open w) (d_interest w ∖ {[fd]}) (d_armed w ∖ {[fd]}) (d_standing w ∖ {[fd]})
                       (arrivals w) (events w)
         | _ => if N.testbit mask 30
                then mkDesk (d_open w) seen ({[fd]} ∪ (d_armed w ∩ d_interest w)) (d_standing w ∩ d_interest w)
                       (arrivals w) (events w)
                else mkDesk (d_open w) seen (d_armed w ∩ d_interest w) ({[fd]} ∪ (d_standing w ∩ d_interest w))
                       (arrivals w) (events w)
         end).

(** The next events, as far as their descriptors are registered. *)
Definition desk_wait (w : Desk) : (Z + list (Z * N)) * Desk :=
  match events w with
  | [] => (inr [], w)
  | l :: rest =>
      let ready := filter (λ p, p.1 ∈ armed w ∪ standing w) l in
      if decide (NoDup ready.*1)
      then (inr ready, mkDesk (d_open w) (d_interest w) (d_armed w ∖ list_to_set ready.*1) (d_standing w) (arrivals w) rest)
      else (inl EINTR, w)
  end.

(** [errno] is the end of what a client has sent; the clock is a function of the
    world. *)
Definition desk_kernel_with (errno : Z) (clock : Desk → Z) : Kernel Desk := {|
  sys_strerror _ := [];
  sys_close fd w := mkDesk (d_open w ∖ {[fd]}) (d_interest w) (d_armed w) (d_standing w) (arrivals w) (events w);
  sys_readv _ _ _ w := (inl errno, w);
  sys_write _ d w := (inr (len d), w);
  sys_fcntl_getfd _ w := (0%Z, w);
  sys_fcntl_setfl _ _ w := (None, w);
  sys_epoll_create1 := open_fd 3;
  sys_epoll_ctl _ := desk_ctl;
  sys_epoll_wait _ _ _ := desk_wait;
  sys_now w := (clock w, w);
  sys_accept := desk_accept;
  sys_inet_ntop _ := inr (s!"127.0.0.1");
  sys_inet_pton _ := inr 0%N;
  sys_socket := open_fd 4;
  sys_setsockopt _ _ w := (None, w);
  sys_bind _ _ _ w := (None, w);
  sys_listen _ w := (None, w)
|}.

Lemma open_fd_opens fd w :
  match open_fd fd w with (inr fd', w') => opens fd' w w' | (inl _, w') => quiet w w' end.
Proof.
  unfold open_fd. case_decide as Hd; [|done]. destruct Hd as [[Hpos _] Hnew].
  unfold opens. simpl. split_and!; [done|done|done|set_solver..].
Qed.

Lemma desk_laws_with errno clock : @OneShotLaws Desk _ (desk_kernel_with errno clock).
Proof.
  split; try done.
  - intros w. simpl. set_solver.
  - intros w. apply open_fd_opens.
  - intros w. apply open_fd_opens.
  - intros l w. simpl. unfold desk_accept. destruct (arrivals w) as [|fd rest]; [done|].
    pose proof (open_fd_opens fd (mkDesk (d_open w) (d_interest w) (d_armed w) (d_standing w) rest (events w))) as H.
    destruct (open_fd _ _) as [[e|fd'] w']; exact H.
  - intros fd w. simpl. set_solver.
  - intros efd ctl fd mask w. simpl. unfold desk_ctl, registers.
    destruct ctl; simpl; try (destruct (N.testbit mask 30)); simpl; (split; [done|]); split_and!; set_solver.
  - intros efd size ms w. simpl. unfold desk_wait. destruct (events w) as [|l rest].
    + split_and!; simpl; [constructor|set_solver|done|set_solver..].
    + case_decide as Hd; [|done]. split_and!; simpl; [done| |done|set_solver..].
      intros fd. rewrite elem_of_list_to_set. intros (p & -> & Hp)%list_elem_of_fmap.
      apply list_elem_of_filter in Hp as [Hp _]. done.
Qed.

#[local] Instance desk_kernel : Kernel Desk := desk_kernel_with EAGAIN (λ _, 0%Z).

#[local] Instance desk_laws : OneShotLaws Desk := desk_laws_with EAGAIN (λ _, 0%Z).

(** A client connects and sends; the kernel then has more to say about its
    descriptor, but is not asked. *)
Definition desk : Desk := mkDesk ∅ ∅ ∅ ∅ [7%Z; 8%Z] [[(4%Z, EPOLLIN)]; [(7%Z, EPOLLIN)]; [(7%Z, EPOLLIN); (8%Z, EPOLLIN)]].

Abbreviation DeskServer := (HeapTimer Z Timeout * Rest Desk)%type.

Definition desk_created : DeskServer :=
  initial (mkEpoller 3 (replicate 4 (0%Z, 0%N))) (snd (open_fd 3 desk)).
Definition desk_started : DeskServer := (InitNetwork 8080 desk_created).2.
Definition desk_joined : DeskServer := (turn 60 5 desk_started).2.
Definition desk_first : DeskServer := (turn 60 5 desk_joined).2.
Definition desk_second : DeskServer := (turn 60 5 desk_first).2.

Abbreviation desk_served := (served Connection.demo_fs map_to_list (λ _ _, []) (s!"www") 5 8080 60).

Lemma desk_step a (s : DeskServer) :
  action Connection.demo_fs map_to_list (λ _ _, []) (s!"www") 5 8080 60 a → desk_served s →
  ended (a s).1 → desk_served (a s).2.
Proof. intros Ha Hs He. by eapply (served_action _ _ _ _ _ _ _ a s (a s).1); [| |apply surjective_pairing|]. Qed.

Lemma desk_second_served : desk_served desk_second.
Proof.
  do 3 (apply (desk_step (turn 60 5)); [constructor| |by split; vm_compute]).
  apply (desk_step (InitNetwork 8080)); [constructor| |by split; vm_compute].
  apply (served_create _ _ _ _ _ _ _ 4 desk). reflexivity.
Qed.

Lemma one_task_per_client_witness :
  tasks desk_second.2 = [ReceiveTask 0; ReceiveTask 1] ∧ NoDup (task_client <$> tasks desk_second.2).
Proof. split; [vm_compute; reflexivity|]. exact (proj1 (one_task_per_client _ _ _ _ _ _ _ _ desk_second_served)). Defined.
