(* ===== verification/Interleave.v ===== *)
(** The server with its threads interleaved ([include/web_server.h]).  In
    [WebServer] a task of a worker and a turn of the main loop are one step each;
    here a task is taken from the pool, works on its connection, arms the
    descriptor or marks the client, and drops its pointer, in steps of their own,
    and so does the main thread between the wait and each event.  What the
    threads share is the table of users, the timer and the kernel; everything else
    belongs to one thread at a time, which is what [Apart] proves.  A call that locks
    [mtx_] is one step.  So is [ToNextTick], which touches the timer without the lock:
    in the program a worker that marks its client can meet it there.  [Ticking] has the
    threads with the ticks in steps, and [Race] what such a mark does. *)

From S2P Require Import Prelude Util Buffer Epoller HeapTimer LogField.
From S2P Require Connection.
From S2P Require Import WebServer ServerInvariant OneShot OneTask.

(** * The stages of a task *)

(** [Ready]: [client->Process()] has returned; [Failed]: the exception has been
    logged, or the client is not kept, and the client at this pointer is to be
    marked; [Finished]: the function has returned, and its pointer goes. *)
Inductive Stage :=
| Queued
| Working
| Ready (ip : str) (ready : bool)
| Failed (client : option nat)
| Finished.

Section Stages.
Context {W : Type} `{!Kernel W}.
Context (fs : FileSystem) (iter : Http.Parameters → list (str * str)) (moved : bool → str → str).
Context (root_dir : str) (fuel : nat) (alive_time_ : Z).

Abbreviation Timer := (HeapTimer Z Timeout).
Abbreviation Server := (Timer * Rest W)%type.
Implicit Types (s : Server) (r : Rest W).

Abbreviation Process := (client_Process fs iter moved root_dir).

Definition failure (t : Task) (ip : str) (err : exn) : str :=
  match t with
  | ReceiveTask _ => s!"Failed to receive data from client "
  | SendTask _ => s!"Failed to send data to client "
  end ++ ip ++ s!": " ++ what err.

(** From the start of [ReceiveFrom] or [SendTo] to the end of
    [client->Process()]: the connection and its socket only. *)
Definition handle (t : Task) : M Server Stage := noexcept (
  let client := Some (task_client t) in
  ip ← IPAddress client;
  match t with
  | ReceiveTask _ =>
      Log Info (s!"Start to receive data from client " ++ ip);;
      try_catch (client_Receive fuel client;; ready ← Process client; mret (Ready ip ready))
        (λ err, Log Error (failure t ip err);; mret (Failed client))
  | SendTask _ =>
      Log Info (s!"Start to send data to client " ++ ip);;
      try_catch
        (client_Send fuel client;;
         keep ← KeepAlive client;
         if keep : bool then ready ← Process client; mret (Ready ip ready) else mret (Failed client))
        (λ err, Log Error (failure t ip err);; mret (Failed client))
  end).

(** The rest of [Process] of the server; behind its exception the pointer is
    null. *)
Definition arm (t : Task) (ip : str) (ready : bool) : M Server Stage := noexcept (
  try_catch
    (fd ← Socket (Some (task_client t));
     (if ready then on_epoller (ModifyFileDescriptor fd (N.lor connect_event_mode EPOLLOUT))
      else on_epoller (ModifyFileDescriptor fd (N.lor connect_event_mode EPOLLIN)));;
     mret Finished)
    (λ err, Log Error (failure t ip err);; mret (Failed None))).

Definition mark (client : option nat) : M Server Stage := noexcept (
  fd ← Socket client; MarkClientAsToBeClosed fd;; mret Finished).

Definition advance (t : Task) (st : Stage) : M Server Stage :=
  match st with
  | Queued => mret Working
  | Working => handle t
  | Ready ip ready => arm t ip ready
  | Failed client => mark client
  | Finished => mret Finished
  end.

(** The pointer of the [i]th task goes. *)
Definition leave (i : nat) (t : Task) : M Server unit :=
  drop_task i;;
  s ← get;
  let p := task_client t in
  if shared p s.2 || bool_decide (p ∈ (map_to_list (users_ s.2)).*2) then mret tt
  else destroy_client p.

(** * The main thread *)

Inductive Phase := Ticking | Waiting (time : Z) | Dispatching (i count : nat).

(** A part of a turn of [Start]; [n] as in [turn]. *)
Definition main_body (n : nat) (ph : Phase) : M Server Phase :=
  match ph with
  | Ticking => wait_time ← ToNextTick n; mret (Waiting wait_time)
  | Waiting wait_time => event_count ← on_epoller (Wait wait_time); mret (Dispatching 0 (N.to_nat event_count))
  | Dispatching _ 0 => mret Ticking
  | Dispatching i (S count) =>
      socket ← on_epoller (FileDescriptor (N.of_nat i));
      events ← on_epoller (Events (N.of_nat i));
      dispatch alive_time_ n socket events;;
      mret (Dispatching (S i) count)
  end.

Definition main_step (n : nat) (ph : Phase) : M Server Phase :=
  try_catch (main_body n ph)
    (λ err, Log Error (s!"Exception raised in server: " ++ what err);; mret Ticking).

(** * The threads together *)

(** [stages] goes along with [tasks] of the server. *)
Record System := mkSystem { server : Server; stages : list Stage; phase : Phase }.

(** The label is the task that a worker is with, or none for the main thread. *)
Inductive step : option nat → System → System → Prop :=
| step_task s st ph i t x x' s' :
    tasks s.2 !! i = Some t → st !! i = Some x → x ≠ Finished → advance t x s = (Done x', s') →
    step (Some i) (mkSystem s st ph) (mkSystem s' (<[i := x']> st) ph)
| step_leave s st ph i t s' :
    tasks s.2 !! i = Some t → st !! i = Some Finished → leave i t s = (Done tt, s') →
    step (Some i) (mkSystem s st ph) (mkSystem s' (delete i st) ph)
| step_main s st ph n ph' s' :
    main_step n ph s = (Done ph', s') →
    step None (mkSystem s st ph)
      (mkSystem s' (st ++ replicate (length (tasks s'.2) - length st) Queued) ph').

(** The server after its constructor and [InitNetwork]; then the threads run. *)
Inductive running (port : N) : System → Prop :=
| running_start capacity w0 e w s :
    Epoller_create capacity w0 = (Done e, w) → InitNetwork port (initial e w) = (Done tt, s) →
    running port (mkSystem s [] Ticking)
| running_step a y y' : running port y → step a y y' → running port y'.

(** The next state of a step, by evaluation. *)
Lemma step_task_to s st ph i t x x' :
  tasks s.2 !! i = Some t → st !! i = Some x → x ≠ Finished → (advance t x s).1 = Done x' →
  step (Some i) (mkSystem s st ph) (mkSystem (advance t x s).2 (<[i := x']> st) ph).
Proof. intros Ht Hx Hn H. apply (step_task _ _ _ _ t x); try done. rewrite <-H. apply surjective_pairing. Qed.

Lemma step_main_to s st ph n ph' :
  (main_step n ph s).1 = Done ph' → length (tasks (main_step n ph s).2.2) - length st = 0 →
  step None (mkSystem s st ph) (mkSystem (main_step n ph s).2 st ph').
Proof.
  intros H Hl. pose proof (step_main s st ph n ph' (main_step n ph s).2) as Hs. rewrite Hl, app_nil_r in Hs.
  apply Hs. rewrite <-H. apply surjective_pairing.
Qed.

(** ** A task without interruption *)

(** All stages in a row are [ReceiveFrom] or [SendTo]. *)
Definition stages_in_a_row (t : Task) : M Server unit :=
  x ← handle t;
  x ← (match x with Ready ip ready => arm t ip ready | _ => mret x end);
  match x with Failed client => mark client;; mret tt | _ => mret tt end.

Lemma client_Process_no_throw p s e : (Process p s).1 ≠ Throw e.
Proof.
  unfold client_Process. destruct p as [p|]; [|done]. destruct (clients s.2 !! p) as [c|] eqn:Hc.
  - rewrite (on_client_ok p c _ s Hc). unfold run_client, zoom. simpl. unfold Connection.Process, noexcept.
    match goal with |- context [match ?m (conn c) with _ => _ end] => by destruct (m (conn c)) as [[] c'] end.
  - unfold on_client, client_at, mbind, M_bind. simpl. by rewrite Hc.
Qed.

(** Both sides mark the client. *)
Ltac marks p :=
  destruct (Socket (Some p) _) as [[fd|?| |] s4]; simpl; try done;
  destruct (MarkClientAsToBeClosed fd s4) as [[[]|?| |] ?]; done.

(** A task of a worker in one step, as in [WebServer], is its stages in a row:
    the same result, and the same state. *)
Theorem task_in_stages t s :
  run_task fs iter moved root_dir fuel t s = stages_in_a_row t s.
Proof.
  unfold stages_in_a_row, handle, arm, mark, run_task, ReceiveFrom, SendTo, WebServer.Process, failure.
  pose proof (client_Process_no_throw (Some (task_client t))) as Hnt.
  destruct t as [p|p]; simpl in *; unfold noexcept, try_catch, mbind, M_bind, Log, modify.
  - destruct (IPAddress (Some p) s) as [[ip|e| |] s1]; try done.
    destruct (client_Receive _ _ _) as [[n|e| |] s2]; simpl; try done.
    + specialize (Hnt s2). destruct (Process (Some p) s2) as [[b|e| |] s3]; simpl in *; try done; [|by destruct (Hnt e)].
      destruct (Socket (Some p) s3) as [[fd|e| |] s4]; simpl in *; try done.
      destruct b; destruct (on_epoller _ s4) as [[[]|e| |] s5]; simpl; try done.
    + marks p.
  - destruct (IPAddress (Some p) s) as [[ip|e| |] s1]; try done.
    destruct (client_Send _ _ _) as [[n|e| |] s2]; simpl; try done.
    + destruct (KeepAlive (Some p) s2) as [[[]|e| |] s3]; simpl; try done.
      * specialize (Hnt s3). destruct (Process (Some p) s3) as [[b|e| |] s4]; simpl in *; try done; [|by destruct (Hnt e)].
        destruct (Socket (Some p) s4) as [[fd|e| |] s5]; simpl in *; try done.
        destruct b; destruct (on_epoller _ s5) as [[[]|e| |] s6]; simpl; try done.
      * marks p.
      * marks p.
    + marks p.
Qed.

(** How the stages follow each other. *)
Lemma handle_next t s x s' :
  handle t s = (Done x, s') → (∃ ip ready, x = Ready ip ready) ∨ x = Failed (Some (task_client t)).
Proof.
  unfold handle, noexcept. destruct t as [p|p]; simpl task_client in *; unfold try_catch, mbind, M_bind, Log, modify;
    (destruct (IPAddress (Some p) s) as [[ip|e| |] s1]; try done).
  - destruct (client_Receive _ _ _) as [[n|e| |] s2]; simpl; try done; [|intros [= <- _]; by right].
    destruct (Process (Some p) s2) as [[b|e| |] s3]; simpl; try done; intros [= <- _]; [left; by eexists _, _|by right].
  - destruct (client_Send _ _ _) as [[n|e| |] s2]; simpl; try done; [|intros [= <- _]; by right].
    destruct (KeepAlive (Some p) s2) as [[[]|e| |] s3]; simpl; try done; try (intros [= <- _]; by right).
    destruct (Process (Some p) s3) as [[b|e| |] s4]; simpl; try done; intros [= <- _]; [left; by eexists _, _|by right].
Qed.

Lemma arm_next t ip ready s x s' : arm t ip ready s = (Done x, s') → x = Finished ∨ x = Failed None.
Proof.
  unfold arm, noexcept, try_catch, mbind, M_bind, Log, modify.
  destruct (Socket _ s) as [[fd|e| |] s1]; simpl; try by intros [= <- _]; auto.
  destruct ready; destruct (on_epoller _ s1) as [[[]|e| |] s2]; simpl; intros [= <- _]; auto.
Qed.

Lemma mark_next c s x s' : mark c s = (Done x, s') → x = Finished ∧ is_Some c.
Proof.
  unfold mark, noexcept, mbind, M_bind. destruct c as [p|]; [|done].
  destruct (Socket _ s) as [[fd|e| |] s1]; simpl; try done.
  destruct (MarkClientAsToBeClosed fd s1) as [[[]|e| |] s2]; simpl; try done. intros [= <- _]. split; [done|by eexists].
Qed.

(** ** Who changes the tasks *)

Section Tasks.
Context (Q : list Task → Prop).
Abbreviation K := (λ s : Server, Q (tasks s.2)).

Lemma Log_tasks l m : keeps K (Log l m : M Server unit).
Proof. by apply keeps_modify. Qed.

Lemma on_timer_tasks {A} (m : M Timer A) : keeps K (on_timer m).
Proof. by apply keeps_zoom. Qed.

Lemma on_epoller_tasks {A} (m : M (Epoller * W) A) : keeps K (on_epoller m).
Proof. by apply keeps_zoom. Qed.

Lemma on_world_tasks {A} (f : W → A * W) : keeps K (on_world f).
Proof. intros [t r] H. unfold keeps_at, on_world. simpl. destruct (f _). by right. Qed.

Lemma client_at_tasks p : keeps K (client_at p).
Proof. unfold client_at. repeat keep_step. Qed.

Lemma on_client_tasks {A} p (m : M (Connection.Connection * W) A) : keeps K (on_client p m).
Proof.
  unfold on_client. keep_step; [auto with keeps|]. keep_step; [apply client_at_tasks|]. intros s Hs.
  unfold keeps_at, run_client. destruct (m _) as [x [c w]]. by right.
Qed.

Lemma clients_tasks c : keeps K (modify (λ s, (s.1, set_clients (c s.2) s.2))).
Proof. by apply keeps_modify. Qed.

Lemma users_tasks u : keeps K (modify (λ s, (s.1, set_users (u s.2) s.2))).
Proof. by apply keeps_modify. Qed.

Lemma read_clock_tasks : keeps K (read_clock server_now).
Proof. intros [t r] H. unfold keeps_at, read_clock, server_now. simpl. destruct (sys_now _). by right. Qed.

Lemma write_log_tasks msg : keeps K (write_log (log_line Error) msg).
Proof. by apply keeps_modify. Qed.

#[local] Hint Resolve Log_tasks on_timer_tasks on_epoller_tasks on_world_tasks client_at_tasks on_client_tasks
  clients_tasks users_tasks read_clock_tasks write_log_tasks : keeps.

Lemma destroy_tasks p : keeps K (destroy_client p : M Server unit).
Proof. unfold destroy_client. keep_step; [auto with keeps|]. by apply keeps_modify. Qed.

#[local] Hint Resolve destroy_tasks : keeps.

Lemma advance_tasks t x : keeps K (advance t x).
Proof.
  destruct t, x; simpl; unfold handle, arm, mark, client_Receive, client_Send, client_Process, Socket, IPAddress, KeepAlive,
    MarkClientAsToBeClosed, now; repeat keep_step.
Qed.

Lemma CloseClient_tasks fd : keeps K (CloseClient fd).
Proof.
  unfold CloseClient, Conn, IPAddress, erase_user. repeat keep_step; by apply keeps_modify.
Qed.

#[local] Hint Resolve CloseClient_tasks : keeps.

Lemma ToNextTick_tasks n : keeps K (ToNextTick n).
Proof.
  unfold ToNextTick, HeapTimer.ToNextTick, Tick, Tick_body, Expired, invoke_callback, on_timeout, Conn, IPAddress.
  repeat keep_step.
Qed.

(** The main thread pushes tasks behind the others. *)
Context (HQ : ∀ l t, Q l → Q (l ++ [t])).

Lemma pool_Push_tasks t : keeps K (pool_Push t : M Server unit).
Proof. unfold pool_Push. apply keeps_get. intros s0 _. keep_step; [auto with keeps|]. apply keeps_modify. intros s Hs. by apply HQ. Qed.

#[local] Hint Resolve pool_Push_tasks : keeps.

Lemma ThrowLastSystemError_tasks {A} errno : keeps K (ThrowLastSystemError (S:=Server) (A:=A) errno).
Proof. apply keeps_throw. Qed.

#[local] Hint Resolve ThrowLastSystemError_tasks : keeps.

Lemma AddClient_tasks fd addr : keeps K (AddClient alive_time_ fd addr).
Proof.
  assert (∀ o, keeps K (of_outcome o : M Server Connection.Connection)) as Ho by (intros [] s Hs; by right).
  unfold AddClient, SetFileDescriptorAsNonblocking, now. repeat keep_step; by apply keeps_modify.
Qed.

#[local] Hint Resolve AddClient_tasks : keeps.

Lemma accept_loop_tasks n : keeps K (accept_loop alive_time_ n).
Proof. induction n as [|n IH]; [auto with keeps|]. cbn [accept_loop]. repeat keep_step. Qed.

#[local] Hint Resolve accept_loop_tasks : keeps.

Lemma dispatch_tasks n fd ev : keeps K (dispatch alive_time_ n fd ev).
Proof.
  unfold dispatch, OnListenEvent, OnCloseEvent, OnReceiveEvent, OnSendEvent, MarkClientAsToBeClosed,
    ExtendClientAliveTime, Conn, now. repeat keep_step.
Qed.

#[local] Hint Resolve dispatch_tasks ToNextTick_tasks : keeps.

Lemma main_step_tasks n ph : keeps K (main_step n ph).
Proof. unfold main_step, main_body. destruct ph as [|time|i [|count]]; repeat keep_step. Qed.
End Tasks.

Lemma advance_tasks_at t x s x' s' : advance t x s = (Done x', s') → tasks s'.2 = tasks s.2.
Proof.
  intros H. destruct (advance_tasks (λ l, l = tasks s.2) t x s eq_refl) as [Hc|Hk]; by rewrite H in *.
Qed.

Lemma main_tasks_at n ph s ph' s' :
  main_step n ph s = (Done ph', s') → length (tasks s.2) ≤ length (tasks s'.2).
Proof.
  intros H. destruct (main_step_tasks (λ l, length (tasks s.2) ≤ length l)) with n ph s as [Hc|Hk];
    [intros l t Hl; rewrite length_app; simpl; lia|done|by rewrite H in *..].
Qed.

Lemma InitNetwork_tasks Q port : keeps (λ s : Server, Q (tasks s.2)) (InitNetwork port).
Proof.
  unfold InitNetwork, init_listener, SetFileDescriptorAsNonblocking. 
  pose proof (@ThrowLastSystemError_tasks Q) as Ht. pose proof (@on_world_tasks Q) as Hw. pose proof (@on_epoller_tasks Q) as He.
  repeat keep_step; first [by apply keeps_modify|apply keeps_throw|done].
Qed.

(** ** The server of [WebServer] among the runs *)

(** Turns of the main loop and tasks as one step each. *)
Inductive atomic (port : N) : Server → Prop :=
| atomic_start capacity w0 e w s :
    Epoller_create capacity w0 = (Done e, w) → InitNetwork port (initial e w) = (Done tt, s) → atomic port s
| atomic_turn n s s' : atomic port s → turn alive_time_ n s = (Done tt, s') → atomic port s'
| atomic_work i s s' :
    atomic port s → work fs iter moved root_dir fuel i s = (Done tt, s') → atomic port s'.

(** No task has been begun. *)
Definition between s ph : System := mkSystem s (replicate (length (tasks s.2)) Queued) ph.

Abbreviation steps := (rtc (λ y y', ∃ a, step a y y')).

Lemma running_steps port y y' : steps y y' → running port y → running port y'.
Proof. induction 1 as [|y y1 y2 [a Ha] _ IH]; [done|]. intros H. apply IH. by eapply running_step. Qed.

Lemma main_between n ph s ph' s' : main_step n ph s = (Done ph', s') → steps (between s ph) (between s' ph').
Proof.
  intros H. apply rtc_once. exists None. unfold between. pose proof (main_tasks_at _ _ _ _ _ H) as Hl.
  pose proof (step_main s (replicate (length (tasks s.2)) Queued) ph n ph' s' H) as Hs.
  rewrite length_replicate, <-replicate_add in Hs. by replace (length (tasks s'.2)) with
    (length (tasks s.2) + (length (tasks s'.2) - length (tasks s.2))) by lia.
Qed.

(** What the handler of the main loop makes of the end of a part. *)
Definition handled {A} (x : outcome A) s : Server :=
  match x with Throw err => (s.1, log_line Error (s!"Exception raised in server: " ++ what err) s.2) | _ => s end.

Definition next {A} (f : A → Phase) (x : outcome A) : Phase := match x with Done a => f a | _ => Ticking end.

Lemma body_between n ph s x s' :
  main_body n ph s = (x, s') → ended x → steps (between s ph) (between (handled x s') (next id x)).
Proof.
  intros H [Hc Hf]. destruct x as [ph'|err| |]; try done; apply (main_between n); unfold main_step, try_catch; by rewrite H.
Qed.

(** Both sides have ended in the same exception, or neither has ended. *)
Ltac ends H Hb Hx Hs :=
  try (injection H as <- <-; injection Hb as <- <-; destruct Hx; first [done|by apply Hs]).

Lemma dispatch_all_between n count : ∀ i s x s',
  dispatch_all alive_time_ n i count s = (x, s') → ended x →
  steps (between s (Dispatching i count)) (between (handled x s') Ticking).
Proof.
  induction count as [|count IH]; intros i s x s'.
  - intros [= <- <-] _. by apply (body_between n (Dispatching i 0) s (Done Ticking)).
  - cbn [dispatch_all]. intros H Hx.
    destruct (main_body n (Dispatching i (S count)) s) as [y s1] eqn:Hb. pose proof (body_between _ _ _ _ _ Hb) as Hs.
    cbn [main_body] in Hb. unfold mbind, M_bind in *.
    destruct (on_epoller (FileDescriptor (N.of_nat i)) s) as [[fd|e| |] s2]; ends H Hb Hx Hs.
    destruct (on_epoller (Events (N.of_nat i)) s2) as [[ev|e| |] s3]; ends H Hb Hx Hs.
    destruct (dispatch alive_time_ n fd ev s3) as [[[]|e| |] s4]; ends H Hb Hx Hs.
    injection Hb as <- <-. etrans; [by apply Hs|]. by apply (IH (S i)).
Qed.

Lemma turn_between n s s' : turn alive_time_ n s = (Done tt, s') → steps (between s Ticking) (between s' Ticking).
Proof.
  unfold turn, try_catch. intros H.
  destruct ((wait_time ← ToNextTick n; event_count ← on_epoller (Wait wait_time);
    dispatch_all alive_time_ n 0 (N.to_nat event_count)) s) as [x s1] eqn:Hx.
  assert (ended x ∧ s' = handled x s1) as [Hend ->].
  { destruct x as [[]|err| |]; try done; [by injection H as <-|]. unfold Log, modify in H. by injection H as <-. }
  clear H. destruct (main_body n Ticking s) as [y s2] eqn:Hb. pose proof (body_between _ _ _ _ _ Hb) as Hs.
  cbn [main_body] in Hb. unfold mbind, M_bind in *.
  destruct (ToNextTick n s) as [[time|e| |] s3]; ends Hx Hb Hend Hs.
  injection Hb as <- <-. etrans; [by apply Hs|]. clear Hs. simpl.
  destruct (main_body n (Waiting time) s3) as [y s2] eqn:Hb. pose proof (body_between _ _ _ _ _ Hb) as Hs.
  cbn [main_body] in Hb. unfold mbind, M_bind in *.
  destruct (on_epoller (Wait time) s3) as [[c|e| |] s4]; ends Hx Hb Hend Hs.
  injection Hb as <- <-. etrans; [by apply Hs|]. by apply (dispatch_all_between n _ 0).
Qed.

(** A stage of a task that goes on to the next one. *)
Lemma stage_steps s st ph i t x x' s' :
  tasks s.2 !! i = Some t → i < length st → x ≠ Finished → advance t x s = (Done x', s') →
  steps (mkSystem s (<[i := x]> st) ph) (mkSystem s' (<[i := x']> st) ph).
Proof.
  intros Ht Hi Hx Hrun. apply rtc_once. exists (Some i).
  pose proof (step_task s (<[i := x]> st) ph i t x x' s' Ht (list_lookup_insert_eq _ _ _ Hi) Hx Hrun) as H.
  by rewrite list_insert_insert_eq in H.
Qed.

(** All stages of a task. *)
Lemma task_steps s st ph i t s' :
  tasks s.2 !! i = Some t → st !! i = Some Queued → stages_in_a_row t s = (Done tt, s') →
  steps (mkSystem s st ph) (mkSystem s' (<[i := Finished]> st) ph) ∧ tasks s'.2 = tasks s.2.
Proof.
  intros Ht Hq H. pose proof (lookup_lt_Some _ _ _ Hq) as Hi. unfold stages_in_a_row, mbind, M_bind in H.
  assert (steps (mkSystem s st ph) (mkSystem s (<[i := Working]> st) ph)) as H0.
  { pose proof (stage_steps s st ph i t Queued Working s Ht Hi) as H0. rewrite (list_insert_id _ _ _ Hq) in H0. by apply H0. }
  destruct (handle t s) as [[x|e| |] s1] eqn:Hh; try done.
  pose proof (stage_steps s st ph i t Working x s1 Ht Hi ltac:(done) Hh) as H1.
  pose proof (advance_tasks_at t Working s x s1 Hh) as Ht1. rewrite <-Ht1 in Ht.
  assert (∀ c s2 s3, tasks s2.2 = tasks s1.2 → (mark c s2 = (Done Finished, s3)) →
    steps (mkSystem s2 (<[i := Failed c]> st) ph) (mkSystem s3 (<[i := Finished]> st) ph) ∧ tasks s3.2 = tasks s.2) as Hmark.
  { intros c s2 s3 Ht2 Hm. split; [apply (stage_steps _ _ _ _ t); by rewrite ?Ht2|].
    rewrite (advance_tasks_at t (Failed c) s2 Finished s3 Hm). congruence. }
  destruct (handle_next _ _ _ _ Hh) as [(ip & ready & ->)| ->].
  - destruct (arm t ip ready s1) as [[x|e| |] s2] eqn:Ha; try done.
    pose proof (stage_steps s1 st ph i t (Ready ip ready) x s2 Ht Hi ltac:(done) Ha) as H2.
    pose proof (advance_tasks_at t (Ready ip ready) s1 x s2 Ha) as Ht2.
    destruct (arm_next _ _ _ _ _ _ Ha) as [-> | ->]; [|done]. injection H as <-. split; [|congruence].
    etrans; [exact H0|]. by etrans.
  - change ((mark (Some (task_client t)) ≫= λ _, mret tt) s1 = (Done tt, s')) in H. unfold mbind, M_bind in H.
    destruct (mark _ s1) as [[x|e| |] s2] eqn:Hm; try done. injection H as <-.
    destruct (mark_next _ _ _ _ Hm) as [-> _]. destruct (Hmark _ _ _ eq_refl Hm) as [H2 Ht2].
    split; [|done]. etrans; [exact H0|]. by etrans.
Qed.

Lemma delete_insert_list {A} (l : list A) i x : delete i (<[i := x]> l) = delete i l.
Proof. revert i. induction l as [|y l IH]; intros [|i]; simpl; [done..|]. by rewrite IH. Qed.

Lemma delete_replicate {A} n i (x : A) : i < n → delete i (replicate n x) = replicate (pred n) x.
Proof.
  revert i. induction n as [|n IH]; intros [|i] Hi; simpl; try lia; [done|]. rewrite IH by lia.
  by destruct n; [lia|].
Qed.

Lemma leave_tasks i t s s' : leave i t s = (Done tt, s') → tasks s'.2 = delete i (tasks s.2).
Proof.
  unfold leave, drop_task. do 2 mstep. simpl. destruct (_ || _); [by intros [= <-]|]. intros H.
  destruct (destroy_tasks (λ l, l = delete i (tasks s.2)) (task_client t)
    (s.1, set_tasks (delete i (tasks s.2)) s.2) eq_refl) as [Hc|Hk]; by rewrite H in *.
Qed.

Lemma work_between i s s' :
  work fs iter moved root_dir fuel i s = (Done tt, s') → steps (between s Ticking) (between s' Ticking).
Proof.
  unfold work. mstep. destruct (tasks s.2 !! i) as [t|] eqn:Ht; [|done].
  rewrite (bind_done (deref (Some t)) _ s t s eq_refl).
  change ((run_task fs iter moved root_dir fuel t;; leave i t) s = (Done tt, s') → steps (between s Ticking) (between s' Ticking)).
  unfold mbind at 1, M_bind at 1. rewrite task_in_stages.
  destruct (stages_in_a_row t s) as [[[]|e| |] s1] eqn:Hr; try done. intros Hl.
  pose proof (lookup_lt_Some _ _ _ Ht) as Hi. pose proof (leave_tasks _ _ _ _ Hl) as Htk.
  set (st := replicate (length (tasks s.2)) Queued).
  assert (st !! i = Some Queued) as Hq by (by apply lookup_replicate).
  destruct (task_steps s st Ticking i t s1 Ht Hq Hr) as [Hst Ht1]. etrans; [exact Hst|].
  apply rtc_once. exists (Some i).
  assert (between s' Ticking = mkSystem s' (delete i (<[i := Finished]> st)) Ticking) as ->.
  { rewrite delete_insert_list. unfold st. rewrite delete_replicate by done. unfold between.
    rewrite Htk, Ht1, length_delete by (by eexists). by rewrite Nat.sub_1_r. }
  apply (step_leave _ _ _ _ t); [by rewrite Ht1| |done]. apply list_lookup_insert_eq. unfold st. by rewrite length_replicate.
Qed.
End Stages.
Arguments System W : clear implicits.

(** Every run of the server of [WebServer], in which a turn of the main loop and a task
    of a worker are one step each, is a run of its threads. *)
Lemma atomic_between {W} `{!Kernel W} fs iter moved root_dir fuel alive_time_ port (s : HeapTimer Z Timeout * Rest W) :
  atomic fs iter moved root_dir fuel alive_time_ port s →
  running fs iter moved root_dir fuel alive_time_ port (between s Ticking).
Proof.
  induction 1 as [capacity w0 e w s He Hs|n s s' _ IH Hs|i s s' _ IH Hs].
  - pose proof (running_start fs iter moved root_dir fuel alive_time_ port _ _ _ _ _ He Hs) as H.
    destruct (InitNetwork_tasks (λ l, l = []) port (initial e w) eq_refl) as [Hc|Ht]; [by rewrite Hs in Hc|].
    rewrite Hs in Ht. unfold between. simpl in Ht. by rewrite Ht.
  - refine (running_steps _ _ _ _ _ _ _ _ _ _ IH). by eapply turn_between.
  - refine (running_steps _ _ _ _ _ _ _ _ _ _ IH). by eapply work_between.
Qed.

(** * A run *)

(** The run of [OneTask], in which two clients have sent something. *)
#[local] Existing Instance desk_kernel.

Abbreviation desk_atomic := (atomic Connection.demo_fs map_to_list (λ _ _, []) (s!"www") 5 60 8080).

Lemma desk_turn (s : DeskServer) : desk_atomic s → (turn 60 5 s).1 = Done tt → desk_atomic (turn 60 5 s).2.
Proof. intros Hs H. apply (atomic_turn _ _ _ _ _ _ _ 5 s); [done|]. by rewrite <-H, <-surjective_pairing. Qed.

Lemma desk_second_atomic : desk_atomic desk_second.
Proof.
  do 3 (apply desk_turn; [|vm_compute; reflexivity]).
  apply (atomic_start _ _ _ _ _ _ _ 4 desk (mkEpoller 3 (replicate 4 (0%Z, 0%N))) (open_fd 3 desk).2); [reflexivity|].
  change (initial _ _) with desk_created. unfold desk_started.
  assert ((InitNetwork 8080 desk_created).1 = Done tt) as H by (vm_compute; reflexivity).
  by rewrite <-H, <-surjective_pairing.
Qed.
