(* ===== verification/Apart.v ===== *)
(** Two workers, and a worker and the main loop, never meet at one connection,
    however the steps of the threads interleave ([include/web_server.h]): the
    invariant of [OneShot] at every step of [Interleave]. *)

From S2P Require Import Prelude Util Buffer Epoller HeapTimer LogField.
From S2P Require Connection.
From S2P Require Import WebServer ServerInvariant OneShot OneTask Interleave.

(** * The tasks that have their connection to themselves *)

(** A task has, until it has armed the descriptor again or has marked the client. *)
Definition private (x : Stage) : bool :=
  match x with Failed None | Finished => false | _ => true end.

(** Tasks without a stage are still in the queue. *)
Fixpoint live (st : list Stage) (l : list Task) : list Task :=
  match st, l with
  | [], _ => l
  | _, [] => []
  | x :: st', t :: l' => if private x then t :: live st' l' else live st' l'
  end.

Lemma live_sublist st : ∀ l, live st l `sublist_of` l.
Proof.
  induction st as [|x st IH]; intros [|t l]; simpl; try done.
  destruct (private x); [by apply sublist_skip|by apply sublist_cons].
Qed.

#[global] Instance live_selects st : Selects (live st) (length st).
Proof.
  split.
  - intros l t Ht. eapply elem_of_sublist; [exact Ht|apply live_sublist].
  - induction st as [|x st IH]; intros [|u l] t Hl; simpl in *; try done; [lia|].
    rewrite (IH l t) by lia. by destruct (private x).
Qed.

Lemma live_grow st k : ∀ l, live (st ++ replicate k Queued) l = live st l.
Proof.
  induction st as [|x st IH]; intros l.
  - simpl. revert l. induction k as [|k IH]; intros [|t l]; simpl; try done. by rewrite IH.
  - destruct l as [|t l]; simpl; [done|]. by rewrite IH.
Qed.

(** A task that stays as it is, or stops being private. *)
Lemma live_insert st i x x' : ∀ l,
  st !! i = Some x → (private x' = true → private x = true) →
  live (<[i := x']> st) l `sublist_of` live st l.
Proof.
  revert i. induction st as [|z st IH]; intros [|i] [|t l] Hi Hx; simpl in *; try done.
  - injection Hi as ->. destruct (private x'); [by rewrite Hx|]. destruct (private x); [by apply sublist_cons|done].
  - destruct (private z); [by apply sublist_skip, IH|by apply IH].
Qed.

Lemma live_leaves st i x x' t : ∀ l,
  l !! i = Some t → st !! i = Some x → private x = true → private x' = false →
  live st l ≡ₚ t :: live (<[i := x']> st) l.
Proof.
  revert i. induction st as [|z st IH]; intros [|i] [|u l] Hl Hi Hx Hx'; simpl in *; try done.
  - simplify_eq. by rewrite Hx, Hx'.
  - specialize (IH i l Hl Hi Hx Hx'). destruct (private z); [|done]. rewrite IH. apply Permutation_swap.
Qed.

Lemma live_delete st i x : ∀ l,
  st !! i = Some x → private x = false → live (delete i st) (delete i l) = live st l.
Proof.
  revert i. induction st as [|z st IH]; intros [|i] [|u l] Hi Hx; simpl in *; try done.
  - by destruct st.
  - simplify_eq. by rewrite Hx.
  - by rewrite IH.
Qed.

Lemma live_lookup st i x t l :
  l !! i = Some t → st !! i = Some x → private x = true → t ∈ live st l.
Proof. intros Hl Hi Hx. rewrite (live_leaves st i x Finished t l) by done. set_solver. Qed.

(** * The invariant *)

Section Apart.
Context {W : Type} `{!Kernel W, !Registrations W, !OneShotLaws W}.
Abbreviation Timer := (HeapTimer Z Timeout).
Abbreviation Server := (Timer * Rest W)%type.
Implicit Types (s : Server) (r : Rest W) (st : list Stage) (ph : Phase).

(** The reported descriptors that the main thread has not looked at yet. *)
Definition held_of ph s : list Z :=
  match ph with Dispatching i count => rest_of (events_ (epoller_ s.2)) i count | _ => [] end.

Record apart (y : System W) : Prop := {
  apart_stages : length (stages y) = length (tasks (server y).2);
  apart_epoll : (0 ≤ epoll_fd_ (epoller_ (server y).2))%Z;
  apart_held : NoDup (held_of (phase y) (server y));
  apart_safe : safe (server y).2 (task_client <$> live (stages y) (tasks (server y).2))
                 (list_to_set (held_of (phase y) (server y)))
}.

Lemma safe_fewer r ts ts' held : ts' `sublist_of` ts → safe r ts held → safe r ts' held.
Proof.
  intros Hsub H. split; try apply H.
  - intros p Hp. apply (safe_tasks _ _ _ H). by eapply elem_of_sublist.
  - eapply sublist_NoDup; [apply H|done].
Qed.

Lemma apart_Safe s st ph :
  apart (mkSystem s st ph) → Safe (live st) (length st) (list_to_set (held_of ph s)) (epoller_ s.2) s.
Proof. intros H. split; [apply H|]. split; [done|]. pose proof (apart_stages _ H). simpl in *. lia. Qed.

(** ** The steps of a worker *)

Section Worker.
Context (fs : FileSystem) (iter : Http.Parameters → list (str * str)) (moved : bool → str → str).
Context (root_dir : str) (fuel : nat).
Abbreviation handle := (handle fs iter moved root_dir fuel).
Abbreviation advance := (advance fs iter moved root_dir fuel).

Lemma handle_frames r t : keeps (λ s, framed r s.2) (handle t).
Proof. unfold Interleave.handle. destruct t; repeat keep_step. Qed.

Lemma mark_frames r c : keeps (λ s, framed r s.2) (mark c).
Proof. unfold mark. repeat keep_step. Qed.

(** A step that leaves the frame alone, at whose end the task is not private
    unless it was before. *)
Lemma framed_apart s s' st ph i x x' :
  apart (mkSystem s st ph) → framed s.2 s'.2 → st !! i = Some x →
  (private x' = true → private x = true) → apart (mkSystem s' (<[i := x']> st) ph).
Proof.
  intros H Hf Hi Hx. pose proof Hf as (_ & Ht & _ & He & _).
  assert (held_of ph s' = held_of ph s) as Hh by (unfold held_of; by rewrite He).
  split; simpl; rewrite ?Ht, ?He, ?Hh, ?length_insert; try apply H.
  eapply safe_framed; [exact Hf|]. eapply safe_fewer; [|apply H]. by apply fmap_sublist, (live_insert _ _ x).
Qed.

(** While a task arms its descriptor, nothing else has it. *)
Definition arming (l : list Task → list Task) least held epl p fd s : Prop :=
  Safe l least held epl s ∧ (p ∉ task_client <$> l (tasks s.2)) ∧ socks s.2 !! p = Some fd ∧ fd ∉ held.

#[global] Instance arming_stable l least held epl p fd : Stable (arming l least held epl p fd).
Proof.
  intros t t' r r' Hf (Hs & Hn & Hp & Hh). pose proof Hf as (_ & Htk & _ & _ & Hsk & _).
  unfold arming. simpl in *. rewrite Htk, Hsk. split; [exact (stable t t' r r' Hf Hs)|done].
Qed.

Lemma Modify_arming l least held epl p fd ev :
  keeps (arming l least held epl p fd) (on_epoller (ModifyFileDescriptor fd (N.lor connect_event_mode ev))).
Proof.
  intros s ([Hs He] & Hn & Hp & Hh). apply ctl_at; [|done]. intros w' Hr. split_and!; try done.
  split; [|done]. apply (arm_safe _ _ _ fd _ _ _ Hs Hr); [apply connect_oneshot|done|by left| |done].
  intros q Hq Hq'. pose proof (safe_distinct _ _ _ Hs _ _ _ Hp Hq') as <-. by apply Hn.
Qed.

Lemma arm_arming l least held epl t ip ready fd :
  keeps (arming l least held epl (task_client t) fd) (arm t ip ready).
Proof.
  unfold arm. apply keeps_noexcept, keeps_try; [|intros; repeat keep_step]. intros s Hs.
  destruct (socks_clients _ _ _ (proj1 (proj2 (proj2 Hs)))) as (c & Hc & Hfd).
  unfold keeps_at. mrun (Socket_ok (task_client t) c s Hc). rewrite Hfd.
  apply keeps_bind; [|intros _; apply keeps_mret|done]. destruct ready; apply Modify_arming.
Qed.

Lemma keeps_done {A} (P : Server → Prop) (m : M Server A) s a s' :
  keeps_at P m s → m s = (Done a, s') → P s'.
Proof. unfold keeps_at. intros [Hc|H] Hm; by rewrite Hm in *. Qed.

(** A step of a worker with its task. *)
Lemma advance_apart s st ph i t x x' s' :
  apart (mkSystem s st ph) → tasks s.2 !! i = Some t → st !! i = Some x → x ≠ Finished →
  advance t x s = (Done x', s') → apart (mkSystem s' (<[i := x']> st) ph).
Proof.
  intros H Ht Hi Hx Hrun. pose proof (advance_tasks_at _ _ _ _ _ _ _ _ _ _ Hrun) as Htk.
  assert (framed s.2 s.2) as Hrefl by reflexivity.
  destruct x as [| |ip ready|c|]; simpl in Hrun; [| | | |done].
  - injection Hrun as <- <-. by apply (framed_apart s s st ph i Queued).
  - apply (framed_apart s s' st ph i Working); [done| |done|done].
    apply (keeps_done _ _ _ _ _ (handle_frames s.2 t s Hrefl) Hrun).
  - assert (private x' = false) as Hx' by (by destruct (arm_next _ _ _ _ _ _ Hrun) as [-> | ->]).
    pose proof (live_leaves st i _ x' t (tasks s.2) Ht Hi eq_refl Hx') as Hperm.
    pose proof (apart_safe _ H) as Hs. simpl in Hs.
    apply (fmap_Permutation task_client) in Hperm. simpl in Hperm.
    destruct (safe_tasks _ _ _ Hs (task_client t)) as (fd & Hfd & _ & Hh); [rewrite Hperm; set_solver|].
    pose proof (safe_once _ _ _ Hs) as Hnd. rewrite Hperm in Hnd. apply NoDup_cons in Hnd as [Hn _].
    set (held := list_to_set (held_of ph s)) in *.
    assert (arming (live (<[i := x']> st)) (length (<[i := x']> st)) held (epoller_ s.2) (task_client t) fd s) as Ha.
    { split_and!; try done. split; [|rewrite length_insert; by apply apart_Safe in H as (_ & ? & ?)].
      eapply safe_fewer; [|exact Hs]. by apply fmap_sublist, (live_insert _ _ (Ready ip ready)). }
    apply (arm_arming _ _ _ _ _ ip ready) in Ha.
    destruct (keeps_done _ _ _ _ _ Ha Hrun) as ([Hs' [He Hl]] & _).
    assert (held_of ph s' = held_of ph s) as Hh' by (unfold held_of; by rewrite He).
    split; simpl; rewrite ?Htk, ?He, ?Hh', ?length_insert; try apply H. by rewrite Htk in Hs'.
  - destruct (mark_next _ _ _ _ Hrun) as [-> _].
    apply (framed_apart s s' st ph i (Failed c)); [done| |done|done].
    apply (keeps_done _ _ _ _ _ (mark_frames s.2 c s Hrefl) Hrun).
Qed.

(** A task that has ended, and its connection with it if this was the last
    pointer. *)
Lemma leave_apart s st ph i t s' :
  apart (mkSystem s st ph) → tasks s.2 !! i = Some t → st !! i = Some Finished →
  leave i t s = (Done tt, s') → apart (mkSystem s' (delete i st) ph).
Proof.
  intros H Ht Hi. pose proof (apart_Safe _ _ _ H) as [Hs [_ Hl]]. unfold leave, drop_task. do 2 mstep. simpl.
  set (s1 := (s.1, set_tasks (delete i (tasks s.2)) s.2)).
  pose proof (apart_stages _ H) as Hlen. simpl in Hlen. pose proof (lookup_lt_Some _ _ _ Hi) as Hlt.
  assert (length (delete i st) = length (delete i (tasks s.2))) as Hlen' by (rewrite !length_delete; by eauto).
  assert (Safe (live (delete i st)) (length (delete i st)) (list_to_set (held_of ph s)) (epoller_ s.2) s1) as H1.
  { split; [|simpl; split; [done|lia]]. simpl. rewrite (live_delete st i Finished) by done. split; apply Hs. }
  assert (∀ s2, Safe (live (delete i st)) (length (delete i st)) (list_to_set (held_of ph s)) (epoller_ s.2) s2 →
    tasks s2.2 = tasks s1.2 → apart (mkSystem s2 (delete i st) ph)) as Hend.
  { intros s2 [H2 [He2 _]] Ht2. assert (held_of ph s2 = held_of ph s) as Hh by (unfold held_of; by rewrite He2).
    split; simpl; rewrite ?Ht2, ?He2, ?Hh; [done|apply H|apply H|]. by rewrite Ht2 in H2. }
  destruct (shared _ _) eqn:Hsh; [by intros [= <-]; apply Hend|].
  case_bool_decide as Hu; [by intros [= <-]; apply Hend|]. cbn [orb]. intros Hrun.
  assert (∀ k, users_ s1.2 !! k ≠ Some (task_client t)) as Hnu.
  { intros k Hk. apply Hu. apply list_elem_of_fmap. exists (k, task_client t). split; [done|].
    by apply elem_of_map_to_list. }
  apply Hend.
  - refine (keeps_done _ _ _ _ _ (destroy_at _ _ _ _ (task_client t) s1 H1 _ Hnu _) Hrun).
    + intros (u & Hu1 & Hu2)%list_elem_of_fmap. unfold shared in Hsh. apply bool_decide_eq_false in Hsh.
      apply Hsh. rewrite Hu1. apply list_elem_of_fmap_2. by eapply live_sub.
    + intros fd Hfd. by apply (safe_gone _ _ _ Hs (task_client t) fd (apart_epoll _ H) Hfd).
  - exact (keeps_done _ _ _ _ _ (destroy_tasks (λ l, l = tasks s1.2) (task_client t) s1 eq_refl) Hrun).
Qed.
End Worker.

(** ** The steps of the main thread *)

Lemma Wait_fd t (e : Epoller) w x e' w' : Wait t (e, w) = (x, (e', w')) → epoll_fd_ e' = epoll_fd_ e.
Proof.
  unfold Wait. mstep. simpl. destruct (Z.of_N _ <=? INT_MAX)%Z; [|by intros [= _ <- _]]. mstep.
  destruct (milliseconds t <=? INT_MAX)%Z; [|by intros [= _ <- _]]. mstep. unfold syscall, mbind, M_bind. simpl.
  destruct (sys_epoll_wait _ _ _ _) as [[errno|l] w1]; simpl; [|by intros [= _ <- _]].
  destruct (errno =? EINTR)%Z; by intros [= _ <- _].
Qed.

(** What holds when [main_body] has returned a phase, or thrown ([None]). *)
Definition main_post st efd (s : Server) (o : option Phase) : Prop :=
  (0 ≤ efd)%Z → epoll_fd_ (epoller_ s.2) = efd ∧ length st ≤ length (tasks s.2) ∧
  let held := from_option (λ ph, held_of ph s) [] o in
  NoDup held ∧ safe s.2 (task_client <$> live st (tasks s.2)) (list_to_set held).

Definition phase_of {A} (f : A → Phase) (x : outcome A) : option Phase :=
  match x with Done a => Some (f a) | _ => None end.

Lemma Safe_post st s held epl o :
  Safe (live st) (length st) (list_to_set held) epl s →
  held = from_option (λ ph, held_of ph s) [] o → NoDup held →
  main_post st (epoll_fd_ epl) s o.
Proof. intros [Hs [<- Hl]] -> Hnd _. split_and!; done. Qed.

Lemma main_body_apart alive n s st ph x s' :
  apart (mkSystem s st ph) → main_body alive n ph s = (x, s') → ended x →
  main_post st (epoll_fd_ (epoller_ s.2)) s' (phase_of id x).
Proof.
  intros H. pose proof (apart_Safe _ _ _ H) as Hs. pose proof (apart_held _ H) as Hnd. simpl in Hnd.
  destruct ph as [|time|i [|count]]; cbn [main_body held_of] in *.
  - pose proof (ToNextTick_safe (live st) (length st) (epoller_ s.2) n s Hs) as Hk. unfold keeps_at in Hk.
    unfold mbind, M_bind. destruct (ToNextTick n s) as [y s1]. intros Hx [Hc _].
    assert (x ≠ Crash → y ≠ Crash) as Hy by (intros Hxc ->; by injection Hx as <- _).
    destruct Hk as [Hk|Hk]; [by destruct (Hy Hc)|].
    by destruct y as [time|err| |]; injection Hx as <- <-; try done; (eapply (Safe_post _ _ []); [exact Hk|done|constructor]).
  - destruct (Wait time (epoller_ s.2, world s.2)) as [y [e w]] eqn:Hw.
    pose proof (on_epoller_ok _ s _ _ _ Hw) as Hrun. pose proof (Wait_fd _ _ _ _ _ _ Hw) as Hfd.
    unfold mbind, M_bind. rewrite Hrun. destruct Hs as [Hs [_ Hl]].
    destruct (Wait_safe _ _ _ _ _ _ Hs Hw) as [-> |(held & Hsafe & Hn & Hc)]; [by intros [= <- _] []|].
    assert (safe (set_epoller e w s.2) (task_client <$> live st (tasks s.2)) ∅) as Hnone
      by (eapply safe_weaken; [|exact Hsafe]; set_solver).
    intros Hx [He1 He2] Hpos. destruct y as [c|err| |]; injection Hx as <- <-; try done; simpl; split_and!; try done.
    + by rewrite (Hc c eq_refl) in Hn.
    + by rewrite (Hc c eq_refl) in Hsafe.
  - intros [= <- <-] _. eapply (Safe_post _ _ []); [exact Hs|done|constructor].
  - destruct (events_ (epoller_ s.2) !! i) as [[fd ev]|] eqn:Hi.
    2: { pose proof (FileDescriptor_out i s Hi) as Hc.
         destruct (on_epoller (FileDescriptor (N.of_nat i)) s) as [y s1] eqn:He. simpl in Hc. subst y.
         rewrite (bind_crash _ _ _ _ He). by intros [= <- _] []. }
    destruct (FileDescriptor_read i s fd ev Hi) as [H1 H2]. mrun H1. mrun H2. unfold rest_of in *.
    rewrite (drop_S _ _ _ Hi) in Hnd, Hs. simpl in Hnd, Hs. apply NoDup_cons in Hnd as [Hn Hnd].
    pose proof (dispatch_safe (live st) (length st) (epoller_ s.2) _ alive n fd ev s
      ltac:(by rewrite elem_of_list_to_set) Hs) as Hd. unfold keeps_at in Hd. unfold mbind, M_bind.
    destruct (dispatch alive n fd ev s) as [[[]|e| |] s1]; intros [= <- <-] [He1 He2]; try done;
      destruct Hd as [|Hd]; try done; simpl in Hd; pose proof (proj1 (proj2 Hd)) as He.
    + eapply Safe_post; [exact Hd| |exact Hnd]. simpl. by rewrite He.
    + eapply (Safe_post _ _ []); [|done|constructor]. eapply Safe_weaken; [|exact Hd]. set_solver.
Qed.

Lemma main_apart alive n s st ph ph' s' :
  apart (mkSystem s st ph) → main_step alive n ph s = (Done ph', s') →
  apart (mkSystem s' (st ++ replicate (length (tasks s'.2) - length st) Queued) ph').
Proof.
  intros H. assert (∀ s2, main_post st (epoll_fd_ (epoller_ s.2)) s2 (Some ph') →
    apart (mkSystem s2 (st ++ replicate (length (tasks s2.2) - length st) Queued) ph')) as Hend.
  { intros s2 Hp. destruct (Hp (apart_epoll _ H)) as (He & Hl & Hnd & Hs). pose proof (apart_epoll _ H) as Hpos.
    simpl in Hpos. split; simpl; [rewrite length_app, length_replicate; lia|lia|done|]. by rewrite live_grow. }
  unfold main_step, try_catch. destruct (main_body alive n ph s) as [x s1] eqn:Hrun.
  pose proof (main_body_apart alive n s st ph x s1 H Hrun) as Hp.
  destruct x as [ph1|err| |]; try done.
  - intros [= -> ->]. by apply Hend, Hp.
  - unfold Log. rewrite (bind_done (modify _) _ _ _ _ eq_refl). intros [= <- <-]. apply Hend.
    intros Hpos. destruct (Hp ltac:(done) Hpos) as (He & Hl & Hnd & Hs).
    refine (conj He (conj Hl (conj Hnd _))). eapply safe_framed; [|exact Hs]. by split_and!.
Qed.

(** ** All runs *)

Lemma InitNetwork_start port (e : Epoller) :
  keeps (λ s, tasks s.2 = [] ∧ epoller_ s.2 = e) (InitNetwork port).
Proof.
  assert (∀ A (f : W → A * W), keeps (λ s, tasks s.2 = [] ∧ epoller_ s.2 = e) (on_world f)) as Hw.
  { intros A f [t r] H. unfold keeps_at, on_world. simpl. destruct (f _). by right. }
  assert (∀ fd, keeps (λ s, tasks s.2 = [] ∧ epoller_ s.2 = e)
    (on_epoller (AddFileDescriptor fd (N.lor listen_event_mode EPOLLIN)))) as Ha by (intros fd s Hs; by apply ctl_at).
  assert (∀ A n, keeps (λ s, tasks s.2 = [] ∧ epoller_ s.2 = e)
    (ThrowLastSystemError (S:=Server) (A:=A) n)) as Ht by (intros; apply keeps_throw).
  unfold InitNetwork, init_listener, SetFileDescriptorAsNonblocking.
  repeat keep_step; first [by apply keeps_modify|apply keeps_throw|done].
Qed.

(** ** What the other threads leave alone *)

Section Mine.
Context (p : nat) (c : Client).

(** The connection [c] at [p], with a pointer to it among the tasks. *)
Definition mine s : Prop := clients s.2 !! p = Some c ∧ p ∈ task_client <$> tasks s.2.

Lemma mine_Log l m : keeps mine (Log l m : M Server unit).
Proof. by apply keeps_modify. Qed.

Lemma mine_on_timer {A} (m : M Timer A) : keeps mine (on_timer m).
Proof. by apply keeps_zoom. Qed.

Lemma mine_on_epoller {A} (m : M (Epoller * W) A) : keeps mine (on_epoller m).
Proof. by apply keeps_zoom. Qed.

Lemma mine_on_world {A} (f : W → A * W) : keeps mine (on_world f).
Proof. intros [t r] H. unfold keeps_at, on_world. simpl. destruct (f _). by right. Qed.

Lemma mine_client_at q : keeps mine (client_at q).
Proof. unfold client_at. repeat keep_step. Qed.

Lemma mine_read_clock : keeps mine (read_clock server_now).
Proof. intros [t r] H. unfold keeps_at, read_clock, server_now. simpl. destruct (sys_now _) as [v w]. by right. Qed.

Lemma mine_write_log msg : keeps mine (write_log (log_line Error) msg).
Proof. by apply keeps_modify. Qed.

Lemma mine_throw {A} errno : keeps mine (ThrowLastSystemError (S:=Server) (A:=A) errno).
Proof. apply keeps_throw. Qed.

#[local] Hint Resolve mine_Log mine_on_timer mine_on_epoller mine_on_world mine_client_at mine_read_clock
  mine_write_log mine_throw : keeps.

Lemma mine_on_client {A} q (m : M (Connection.Connection * W) A) : q ≠ p → keeps mine (on_client (Some q) m).
Proof.
  intros Hq s Hs. destruct (clients s.2 !! q) as [d|] eqn:Hd.
  - unfold keeps_at. rewrite (on_client_ok q d m s Hd). unfold run_client. destruct (m _) as [x [d' w]].
    right. unfold mine. simpl. by rewrite lookup_insert_ne.
  - left. unfold on_client. rewrite (bind_done (deref (Some q)) _ s q s eq_refl).
    rewrite (bind_crash _ _ s s); [done|]. unfold client_at. mstep. simpl. by rewrite Hd.
Qed.

Lemma mine_destroy q : q ≠ p → keeps mine (destroy_client q : M Server unit).
Proof.
  intros Hq. unfold destroy_client. keep_step; [by apply mine_on_client|]. apply keeps_modify.
  intros s [Hc Ht]. split; [|done]. simpl. by rewrite lookup_delete_ne.
Qed.

Lemma mine_erase_user fd : keeps mine (erase_user fd).
Proof.
  intros s Hs. unfold keeps_at, erase_user. mstep. destruct (users_ s.2 !! fd) as [q|]; [|by right]. mstep.
  destruct (shared q s.2) eqn:Hsh; [by right|]. apply mine_destroy; [|exact Hs].
  intros ->. unfold shared in Hsh. apply bool_decide_eq_false in Hsh. apply Hsh, Hs.
Qed.

Lemma mine_pool_Push t : keeps mine (pool_Push t : M Server unit).
Proof.
  unfold pool_Push. apply keeps_get. intros s0 _. keep_step; [auto with keeps|]. apply keeps_modify.
  intros s [Hc Ht]. split; [done|]. simpl. rewrite fmap_app. set_solver.
Qed.

#[local] Hint Resolve mine_erase_user mine_pool_Push : keeps.

Lemma mine_CloseClient fd : keeps mine (CloseClient fd).
Proof. unfold CloseClient, Conn, IPAddress. repeat keep_step. Qed.

#[local] Hint Resolve mine_CloseClient : keeps.

Lemma mine_ToNextTick n : keeps mine (ToNextTick n).
Proof.
  unfold ToNextTick, HeapTimer.ToNextTick, Tick, Tick_body, Expired, invoke_callback, on_timeout, Conn, IPAddress.
  repeat keep_step.
Qed.

(** A new client gets an address of its own. *)
Lemma mine_AddClient alive fd addr : keeps mine (AddClient alive fd addr).
Proof.
  unfold AddClient, SetFileDescriptorAsNonblocking, now. do 3 (keep_step; [repeat keep_step|]).
  keep_step; [destruct (sys_inet_ntop addr); auto with keeps|].
  keep_step; [intros s Hs; by right|]. intros s Hs. unfold keeps_at. do 2 mstep.
  assert (fresh_client s.2 ≠ p) as Hp.
  { intros Heq. pose proof (fresh_client_None s.2) as Hn. rewrite Heq in Hn. by rewrite (proj1 Hs) in Hn. }
  match goal with |- (?m ?s5).1 = _ ∨ _ =>
    cut (keeps mine m ∧ mine s5); [intros [Hk H5]; exact (Hk s5 H5)|] end.
  split; [|destruct Hs; split; [simpl; by rewrite lookup_insert_ne|done]].
  keep_step; [|repeat keep_step]. destruct (users_ s.2 !! fd); [by apply mine_destroy|by apply keeps_modify].
Qed.

#[local] Hint Resolve mine_ToNextTick mine_AddClient : keeps.

Lemma mine_accept_loop alive n : keeps mine (accept_loop alive n).
Proof. induction n as [|n IH]; [auto with keeps|]. cbn [accept_loop]. repeat keep_step. Qed.

#[local] Hint Resolve mine_accept_loop : keeps.

Lemma mine_main_step alive n ph : keeps mine (main_step alive n ph).
Proof.
  unfold main_step, main_body, dispatch, OnListenEvent, OnCloseEvent, OnReceiveEvent, OnSendEvent, MarkClientAsToBeClosed,
    ExtendClientAliveTime, Conn, now. destruct ph as [|time|i [|count]]; repeat keep_step.
Qed.

(** A worker with another connection. *)
Lemma mine_advance fs iter moved root fuel t x :
  task_client t ≠ p → keeps mine (advance fs iter moved root fuel t x).
Proof.
  intros Hp. destruct t, x; simpl in *; unfold handle, arm, mark, client_Receive, client_Send, client_Process, Socket,
    IPAddress, KeepAlive, MarkClientAsToBeClosed, now; repeat keep_step; by apply mine_on_client.
Qed.

Lemma mine_leave i j u t s s' :
  tasks s.2 !! j = Some t → j ≠ i → task_client t = p → clients s.2 !! p = Some c →
  leave i u s = (Done tt, s') → clients s'.2 !! p = Some c.
Proof.
  intros Hj Hij Hp Hc. unfold leave, drop_task. do 2 mstep. simpl.
  set (s1 := (s.1, set_tasks (delete i (tasks s.2)) s.2)).
  assert (mine s1) as H1.
  { split; [done|]. rewrite <-Hp. apply list_elem_of_fmap_2. simpl.
    destruct (decide (j < i)).
    - apply (list_elem_of_lookup_2 _ j). by rewrite list_lookup_delete_lt.
    - apply (list_elem_of_lookup_2 _ (pred j)). rewrite list_lookup_delete_ge by lia. by replace (S (pred j)) with j by lia. }
  destruct (shared _ _) eqn:Hsh; [by intros [= <-]|]. case_bool_decide as Hu; [by intros [= <-]|].
  cbn [orb]. intros Hrun. refine (proj1 (keeps_done mine _ _ _ _ (mine_destroy (task_client u) _ s1 H1) Hrun)).
  intros Heq. unfold shared in Hsh. apply bool_decide_eq_false in Hsh. apply Hsh. rewrite Heq. apply H1.
Qed.
End Mine.

(** Two tasks that have their connections to themselves have two connections. *)
Lemma private_distinct s st ph i j t u x z :
  apart (mkSystem s st ph) → i ≠ j → tasks s.2 !! i = Some t → tasks s.2 !! j = Some u →
  st !! i = Some x → st !! j = Some z → private x = true → private z = true → task_client u ≠ task_client t.
Proof.
  intros H Hij Ht Hu Hi Hj Hx Hz Heq. pose proof (safe_once _ _ _ (apart_safe _ H)) as Hnd. simpl in Hnd.
  rewrite (live_leaves st i x Finished t) in Hnd by done. apply NoDup_cons in Hnd as [Hn _]. apply Hn.
  rewrite <-Heq. apply list_elem_of_fmap_2, (live_lookup _ j z); [done| |done].
  by rewrite list_lookup_insert_ne.
Qed.

Section Running.
Context (fs : FileSystem) (iter : Http.Parameters → list (str * str)) (moved : bool → str → str).
Context (root_dir : str) (fuel : nat) (alive : Z) (port : N).

Lemma running_apart y : running fs iter moved root_dir fuel alive port y → apart y.
Proof.
  induction 1 as [capacity w0 e w s He Hs|a y y' _ IH Hstep].
  - pose proof (initial_steady _ _ _ _ He) as Hst.
    pose proof (keeps_done _ _ _ _ _ (InitNetwork_safe port _ Hst) Hs) as Hs'.
    destruct (keeps_done _ _ _ _ _ (InitNetwork_start port e (initial e w) (conj eq_refl eq_refl)) Hs) as [Ht Hep].
    split; simpl; [by rewrite Ht| |constructor|exact Hs']. rewrite Hep.
    unfold Epoller_create in He. pose proof (opens_epoll w0) as Ho.
    destruct (sys_epoll_create1 w0) as [[errno|fd] w1]; destruct (0 <? capacity)%N; try done.
    injection He as <- _. apply Ho.
  - destruct Hstep; [by eapply advance_apart|by eapply leave_apart|by eapply main_apart].
Qed.

Lemma step_mine a y y' i t x c :
  apart y → step fs iter moved root_dir fuel alive a y y' → a ≠ Some i →
  tasks (server y).2 !! i = Some t → stages y !! i = Some x → private x = true →
  clients (server y).2 !! task_client t = Some c → clients (server y').2 !! task_client t = Some c.
Proof.
  intros H Hstep Ha Ht Hi Hx Hc.
  assert (mine (task_client t) c (server y)) as Hm.
  { split; [done|]. apply list_elem_of_fmap_2. by eapply list_elem_of_lookup_2. }
  destruct Hstep as [s st ph j u z z' s' Hu Hj Hz Hrun|s st ph j u s' Hu Hj Hrun|s st ph n ph' s' Hrun]; simpl in *.
  - assert (i ≠ j) as Hij by congruence. destruct (private z) eqn:Hpz.
    + refine (proj1 (keeps_done _ _ _ _ _ (mine_advance _ c fs iter moved root_dir fuel u z _ s Hm) Hrun)).
      by eapply private_distinct.
    + destruct z as [| | |[q|]|]; done.
  - eapply (mine_leave _ c j i u t s); [done|congruence|done|done|exact Hrun].
  - exact (proj1 (keeps_done _ _ _ _ _ (mine_main_step _ c alive n ph s Hm) Hrun)).
Qed.
End Running.
End Apart.

(** * Properties *)

(** C4: However the steps of the threads interleave, a worker that is with a
    connection is alone with it: no other such task has the same client, the
    connection exists, and no answer of [epoll_wait] names its descriptor. *)
Theorem workers_apart {W} `{!Kernel W, !Registrations W, !OneShotLaws W}
    fs iter moved root_dir fuel alive port y i t x :
  running fs iter moved root_dir fuel alive port y →
  tasks (server y).2 !! i = Some t → stages y !! i = Some x → private x = true →
  (∀ j u z, i ≠ j → tasks (server y).2 !! j = Some u → stages y !! j = Some z → private z = true →
    task_client u ≠ task_client t) ∧
  ∃ c, clients (server y).2 !! task_client t = Some c ∧
    ∀ size ms ready w',
      sys_epoll_wait (epoll_fd_ (epoller_ (server y).2)) size ms (world (server y).2) = (inr ready, w') →
      Connection.socket_ (conn c) ∉ ready.*1.
Proof.
  intros H%running_apart Ht Hi Hx. destruct y as [s st ph]. simpl in *.
  split; [intros j u z Hij Hu Hj Hz; by eapply private_distinct|].
  pose proof (apart_safe _ H) as Hs. simpl in Hs.
  destruct (safe_tasks _ _ _ Hs (task_client t)) as (fd & Hfd & Harm & _).
  { apply list_elem_of_fmap_2. by eapply live_lookup. }
  destruct (socks_clients _ _ _ Hfd) as (c & Hc & <-). exists c. split; [done|].
  intros size ms ready w' Hw. pose proof (wait_reports_once (epoll_fd_ (epoller_ s.2)) size ms (world s.2)) as Hr.
  rewrite Hw in Hr. destruct Hr as (_ & Hreg & _). destruct (safe_open _ _ _ Hs _ _ Hfd) as (_ & _ & Hst).
  intros Hin. apply (elem_of_list_to_set (C := gset Z)) in Hin. set_solver.
Qed.

(** C6: While a worker is with a connection, no step of another thread changes
    it: neither another worker, nor the main loop when it accepts clients,
    closes those that have timed out, or hands out tasks.  A timed-out client
    is not destroyed under the worker. *)
Theorem others_keep_the_connection {W} `{!Kernel W, !Registrations W, !OneShotLaws W}
    fs iter moved root_dir fuel alive port a y y' i t x :
  running fs iter moved root_dir fuel alive port y → step fs iter moved root_dir fuel alive a y y' → a ≠ Some i →
  tasks (server y).2 !! i = Some t → stages y !! i = Some x → private x = true →
  ∃ c, clients (server y).2 !! task_client t = Some c ∧ clients (server y').2 !! task_client t = Some c.
Proof.
  intros H%running_apart Hstep Ha Ht Hi Hx.
  destruct (safe_tasks _ _ _ (apart_safe _ H) (task_client t)) as (fd & Hfd & _ & _).
  { apply list_elem_of_fmap_2. by eapply live_lookup. }
  destruct (socks_clients _ _ _ Hfd) as (c & Hc & _). exists c. split; [done|]. by eapply step_mine.
Qed.

(** Both tasks of the run of [OneTask] have been begun. *)
#[local] Existing Instances desk_kernel desk_registrations desk_laws.

Abbreviation desk_running := (running Connection.demo_fs map_to_list (λ _ _, []) (s!"www") 5 60 8080).
Abbreviation desk_steps := (step Connection.demo_fs map_to_list (λ _ _, []) (s!"www") 5 60).

Definition desk_busy : System Desk := mkSystem desk_second [Working; Working] Ticking.

Lemma desk_busy_running : desk_running desk_busy.
Proof.
  eapply (running_step _ _ _ _ _ _ _ (Some 1)).
  - eapply (running_step _ _ _ _ _ _ _ (Some 0)); [exact (atomic_between _ _ _ _ _ _ _ _ desk_second_atomic)|].
    by apply (step_task _ _ _ _ _ _ desk_second [Queued; Queued] Ticking 0 (ReceiveTask 0) Queued Working);
      try (vm_compute; reflexivity).
  - by apply (step_task _ _ _ _ _ _ desk_second [Working; Queued] Ticking 1 (ReceiveTask 1) Queued Working);
      try (vm_compute; reflexivity).
Qed.

Lemma desk_busy_tasks : tasks (server desk_busy).2 = [ReceiveTask 0; ReceiveTask 1].
Proof. vm_compute. reflexivity. Qed.

Lemma workers_apart_witness :
  stages desk_busy = [Working; Working] ∧
  ∃ c, clients (server desk_busy).2 !! 0 = Some c ∧ Connection.socket_ (conn c) = 7%Z.
Proof.
  split; [reflexivity|].
  destruct (workers_apart _ _ _ _ _ _ _ desk_busy 0 (ReceiveTask 0) Working desk_busy_running
    ltac:(by rewrite desk_busy_tasks) eq_refl eq_refl) as [_ (c & Hc & _)].
  exists c. split; [exact Hc|]. revert Hc. vm_compute. by intros [= <-].
Defined.

(** The main loop goes on meanwhile. *)
Definition desk_later : System Desk :=
  mkSystem (main_step 60 5 Ticking desk_second).2 [Working; Working]
    (next id (main_step 60 5 Ticking desk_second).1).

Lemma desk_later_step : desk_steps None desk_busy desk_later.
Proof. apply (step_main_to _ _ _ _ _ _ desk_second [Working; Working]); vm_compute; reflexivity. Qed.

Lemma others_keep_the_connection_witness :
  phase desk_later ≠ phase desk_busy ∧
  ∃ c, clients (server desk_busy).2 !! 0 = Some c ∧ clients (server desk_later).2 !! 0 = Some c.
Proof.
  split; [by vm_compute|].
  exact (others_keep_the_connection _ _ _ _ _ _ _ None desk_busy desk_later 0 (ReceiveTask 0) Working
    desk_busy_running desk_later_step ltac:(done) ltac:(by rewrite desk_busy_tasks) eq_refl eq_refl).
Defined.
