(* ===== verification/SharedState.v ===== *)
(** What the threads of the server share ([include/web_server.h]): the table of users,
    the timer, and the clients that the tasks point to, at the steps of [Interleave],
    where a call of [ToNextTick] is one step ([Ticking] takes it apart).  And what becomes
    of a task whose client the main loop has closed meanwhile. *)

From S2P Require Import Prelude Util Buffer Epoller HeapTimer LogField.
From S2P Require Connection.
From S2P Require Import WebServer ServerInvariant OneShot OneTask Interleave Apart.

Section Shared.
Context {W : Type} `{!Kernel W}.
Context (fs : FileSystem) (iter : Http.Parameters → list (str * str)) (moved : bool → str → str).
Context (root_dir : str) (fuel : nat) (alive : Z) (port : N).
Abbreviation Timer := (HeapTimer Z Timeout).
Abbreviation Server := (Timer * Rest W)%type.
Abbreviation Inv := (λ s : Server, inv s).

(** What the program relies on: the clock is not negative, and descriptors are
    of type [int]. *)
Context (Hnow : ∀ w, (0 ≤ (sys_now w).1)%Z) (Halive : (0 ≤ alive)%Z).
Context (Haccept : ∀ l w fd a w', sys_accept l w = (inr (fd, a), w') → (fd ≤ INT_MAX)%Z).

#[local] Hint Resolve Log_keeps on_epoller_keeps on_world_keeps now_keeps ThrowLastSystemError_keeps
  client_at_keeps Conn_keeps IPAddress_keeps Socket_keeps KeepAlive_keeps client_Receive_keeps client_Send_keeps
  client_Process_keeps Mark_keeps dispatch_keeps ToNextTick_keeps : keeps.

Lemma advance_keeps t x : keeps Inv (advance fs iter moved root_dir fuel t x).
Proof. destruct t, x; cbn [advance]; unfold handle, arm, mark; repeat keep_step. Qed.

Lemma leave_keeps i t : keeps Inv (leave i t).
Proof.
  unfold leave. keep_step; [apply drop_task_keeps|]. intros s Hs. unfold keeps_at. mstep.
  destruct (shared _ s.2) eqn:Hsh; [by right|]. simpl. case_bool_decide; [by right|]. by apply destroy_keeps.
Qed.

Lemma main_step_keeps n ph : keeps Inv (main_step alive n ph).
Proof. unfold main_step, main_body. destruct ph as [|time|i [|count]]; repeat keep_step. Qed.

Lemma running_inv y : running fs iter moved root_dir fuel alive port y → inv (server y).
Proof.
  induction 1 as [capacity w0 e w s _ Hs|a y y' _ IH Hstep].
  - exact (keeps_done _ _ _ _ _ (InitNetwork_keeps port _ (initial_inv e w)) Hs).
  - destruct Hstep as [s st ph i t x x' s' _ _ _ Hrun|s st ph i t s' _ _ Hrun|s st ph n ph' s' Hrun]; simpl in *.
    + exact (keeps_done _ _ _ _ _ (advance_keeps t x s IH) Hrun).
    + exact (keeps_done _ _ _ _ _ (leave_keeps i t s IH) Hrun).
    + exact (keeps_done _ _ _ _ _ (main_step_keeps n ph s IH) Hrun).
Qed.

Context `{!Registrations W, !OneShotLaws W}.

Lemma mark_client s p c :
  inv s → clients s.2 !! p = Some c → (0 ≤ Connection.socket_ (conn c))%Z →
  match users_ s.2 !! Connection.socket_ (conn c) with
  | Some _ => ∃ s' cb, mark (Some p) s = (Done Finished, s') ∧
      entries s'.1 !! Connection.socket_ (conn c) = Some ((sys_now (world s.2)).1, cb)
  | None => (mark (Some p) s).1 = Crash
  end.
Proof.
  intros Hinv Hc Hfd. set (fd := Connection.socket_ (conn c)) in *. pose proof Hinv as (Ht & _ & Hdom & _).
  unfold mark, noexcept. rewrite (bind_done _ _ _ _ _ (Socket_ok p c s Hc)).
  change (Connection.socket_ (conn c)) with fd. destruct s as [t r]. simpl in *.
  destruct (sys_now (world r)) as [v w] eqn:Hn.
  destruct (users_ r !! fd) as [q|] eqn:Hu.
  - assert (fd ∈ dom (entries t)) as [[e cb] He]%elem_of_dom by (rewrite <-Hdom; by apply elem_of_dom_2 in Hu).
    pose proof (Hnow (world r)) as Hv. rewrite Hn in Hv.
    destruct (Mark_ok fd e cb t r v w Ht Hfd Hv Hn He) as (t' & Hm & _ & He').
    exists (t', set_world w r), cb. rewrite (bind_done _ _ _ _ _ Hm). split; [done|]. simpl. by rewrite He', lookup_insert_eq.
  - assert (entries t !! fd = None) as He by (apply not_elem_of_dom; rewrite <-Hdom; by apply not_elem_of_dom).
    pose proof (Mark_unknown fd t r (proj1 Ht) He) as Hm.
    destruct (MarkClientAsToBeClosed fd (t, r)) as [x s'] eqn:Hrun. simpl in Hm. subst x.
    by rewrite (bind_crash _ _ _ _ Hrun).
Qed.
End Shared.

(** * Properties *)

(** C31: A worker whose task has failed marks the client for the next tick of the
    main loop; but if the main loop has closed the client in the meantime, because
    the task took longer than the client may be idle, the mark ends the program. *)
Theorem late_mark {W} `{!Kernel W, !Registrations W, !OneShotLaws W} fs iter moved root_dir fuel alive port y i t :
  (∀ w, (0 ≤ (sys_now w).1)%Z) → (0 ≤ alive)%Z →
  (∀ l w fd a w', sys_accept l w = (inr (fd, a), w') → (fd ≤ INT_MAX)%Z) →
  running fs iter moved root_dir fuel alive port y →
  tasks (server y).2 !! i = Some t → stages y !! i = Some (Failed (Some (task_client t))) →
  ∃ c, clients (server y).2 !! task_client t = Some c ∧
    let m := advance fs iter moved root_dir fuel t (Failed (Some (task_client t))) (server y) in
    match users_ (server y).2 !! Connection.socket_ (conn c) with
    | Some _ => m.1 = Done Finished ∧
        fst <$> entries m.2.1 !! Connection.socket_ (conn c) = Some (sys_now (world (server y).2)).1
    | None => m.1 = Crash
    end.
Proof.
  intros Hnow Halive Haccept Hy Ht Hi.
  pose proof (running_inv _ _ _ _ _ _ _ Hnow Halive Haccept _ Hy) as Hinv.
  pose proof (running_apart _ _ _ _ _ _ _ _ Hy) as Hap. pose proof (apart_safe _ Hap) as Hs.
  destruct (safe_tasks _ _ _ Hs (task_client t)) as (fd & Hfd & _).
  { apply list_elem_of_fmap_2. by eapply live_lookup. }
  destruct (safe_open _ _ _ Hs _ _ Hfd) as (Hpos & _ & _).
  destruct (socks_clients _ _ _ Hfd) as (c & Hc & <-). exists c. split; [done|]. cbn [advance].
  pose proof (mark_client Hnow (server y) (task_client t) c Hinv Hc Hpos) as Hm.
  destruct (users_ (server y).2 !! _); [|done]. destruct Hm as (s' & cb & Hrun & He). rewrite Hrun.
  split; [done|]. simpl. by rewrite He.
Qed.

(** * A task that takes too long *)

(** The clock goes on with every call of [epoll_wait]; reading fails with
    [ECONNRESET]. *)
Definition slow_clock (w : Desk) : Z := 100 * Z.of_nat (4 - length (events w)).
#[local] Instance slow_kernel : Kernel Desk := desk_kernel_with 104 slow_clock.
#[local] Existing Instance desk_registrations.
#[local] Instance slow_laws : OneShotLaws Desk := desk_laws_with 104 slow_clock.

Abbreviation slow_running := (running Connection.demo_fs map_to_list (λ _ _, []) (s!"www") 5 50 8080).
Abbreviation slow_advance := (advance Connection.demo_fs map_to_list (λ _ _, []) (s!"www") 5).

Lemma slow_now w : (0 ≤ (sys_now w).1)%Z.
Proof. simpl. unfold slow_clock. lia. Qed.

Lemma slow_accept l w fd a w' : sys_accept l w = (inr (fd, a), w') → (fd ≤ INT_MAX)%Z.
Proof.
  simpl. unfold desk_accept. destruct (arrivals w) as [|fd' rest]; [done|]. unfold open_fd.
  case_decide as Hd; [|done]. intros [= <- _ _]. apply Hd.
Qed.

(** A client connects and sends, and a worker takes its task. *)
Definition slow_desk : Desk := mkDesk ∅ ∅ ∅ ∅ [7%Z] [[(4%Z, EPOLLIN)]; [(7%Z, EPOLLIN)]; []; []].
Definition slow_created : DeskServer := initial (mkEpoller 3 (replicate 4 (0%Z, 0%N))) (open_fd 3 slow_desk).2.
Definition slow_started : DeskServer := (InitNetwork 8080 slow_created).2.
Definition slow_joined : DeskServer := (turn 50 5 slow_started).2.
Definition slow_queued : DeskServer := (turn 50 5 slow_joined).2.
Definition slow_waited : DeskServer := (turn 50 5 slow_queued).2.
(** It fails to read; then the main loop closes the client. *)
Definition slow_failed : DeskServer := (slow_advance (ReceiveTask 0) Working slow_waited).2.
Definition slow_closed : DeskServer := (main_step 50 5 Ticking slow_failed).2.

Abbreviation slow_atomic := (atomic Connection.demo_fs map_to_list (λ _ _, []) (s!"www") 5 50 8080).

Lemma slow_turn (s : DeskServer) : slow_atomic s → (turn 50 5 s).1 = Done tt → slow_atomic (turn 50 5 s).2.
Proof. intros Hs H. apply (atomic_turn _ _ _ _ _ _ _ 5 s); [done|]. by rewrite <-H, <-surjective_pairing. Qed.

Lemma slow_waited_atomic : slow_atomic slow_waited.
Proof.
  do 3 (apply slow_turn; [|vm_compute; reflexivity]).
  apply (atomic_start _ _ _ _ _ _ _ 4 slow_desk (mkEpoller 3 (replicate 4 (0%Z, 0%N))) (open_fd 3 slow_desk).2); [reflexivity|].
  change (initial _ _) with slow_created. unfold slow_started.
  assert ((InitNetwork 8080 slow_created).1 = Done tt) as H by (vm_compute; reflexivity).
  by rewrite <-H, <-surjective_pairing.
Qed.

Example slow_tasks : tasks slow_waited.2 = [ReceiveTask 0] ∧ users_ slow_closed.2 !! 7%Z = None.
Proof. vm_compute. split; reflexivity. Qed.

Definition slow_late : System Desk :=
  mkSystem slow_closed [Failed (Some 0)] (next id (main_step 50 5 Ticking slow_failed).1).

Lemma slow_late_running : slow_running slow_late.
Proof.
  eapply (running_step _ _ _ _ _ _ _ None).
  2: { apply (step_main_to _ _ _ _ _ _ slow_failed [Failed (Some 0)] Ticking 5); vm_compute; reflexivity. }
  eapply (running_step _ _ _ _ _ _ _ (Some 0)).
  2: { by apply (step_task_to _ _ _ _ _ _ slow_waited [Working] Ticking 0 (ReceiveTask 0) Working (Failed (Some 0)));
         try (vm_compute; reflexivity). }
  eapply (running_step _ _ _ _ _ _ _ (Some 0)).
  2: { by apply (step_task _ _ _ _ _ _ slow_waited [Queued] Ticking 0 (ReceiveTask 0) Queued Working);
         try (vm_compute; reflexivity). }
  pose proof (atomic_between _ _ _ _ _ _ _ _ slow_waited_atomic) as H. unfold between in H.
  by rewrite (proj1 slow_tasks) in H.
Qed.

Lemma slow_late_task : tasks (server slow_late).2 !! 0 = Some (ReceiveTask 0).
Proof. vm_compute. reflexivity. Qed.

(** The worker ends the program. *)
Lemma late_mark_witness :
  ∃ c, clients (server slow_late).2 !! 0 = Some c ∧ Connection.socket_ (conn c) = 7%Z ∧
    (slow_advance (ReceiveTask 0) (Failed (Some 0)) (server slow_late)).1 = Crash.
Proof.
  destruct (late_mark _ _ _ _ _ _ _ slow_late 0 (ReceiveTask 0) slow_now (ltac:(lia) : (0 ≤ 50)%Z) slow_accept slow_late_running
    slow_late_task eq_refl) as (c & Hc & Hm).
  exists c. split; [exact Hc|]. assert (Connection.socket_ (conn c) = 7%Z) as H7.
  { revert Hc. vm_compute. by intros [= <-]. }
  split; [exact H7|]. rewrite H7 in Hm.
  assert (users_ (server slow_late).2 !! 7%Z = None) as Hu by (vm_compute; reflexivity). by rewrite Hu in Hm.
Defined.
