(* ===== verification/ServerSpec.v ===== *)
(** What the server of [include/web_server.h] does with its clients: accepting,
    closing and timing them out, the tasks that serve them, and the start of the
    listener. *)

From S2P Require Import Prelude Util Buffer Epoller HeapTimer LogField.
From S2P Require Connection.
From S2P Require Import WebServer ServerInvariant.

Section Spec.
Context {W : Type} `{!Kernel W}.
Context (fs : FileSystem) (iter : Http.Parameters → list (str * str)) (moved : bool → str → str).
Context (root_dir : str) (fuel : nat) (port_ : N) (alive_time_ : Z).

Abbreviation Timer := (HeapTimer Z Timeout).
Abbreviation Server := (Timer * Rest W)%type.
Implicit Types (s : Server) (r : Rest W) (t : Timer).

(** [system_error] of a failed call. *)
Definition last_error (errno : Z) : exn := Exn (system_error errno) (sys_strerror errno).

(** ** Accepting *)

Definition connected (ip : str) (fd : Z) : list (Level * str) :=
  [(Info, s!"A new client " ++ ip ++ s!" has connected");
   (Debug, s!"Client " ++ ip ++ s!" is bound to socket " ++ quote_fd fd)].

(** The system calls of [AddClient] before it changes the tables. *)
Definition setup_nonblocking (fd : Z) (w : W) : option Z * W :=
  let '(flags, w1) := sys_fcntl_getfd fd w in sys_fcntl_setfl fd (Z.lor flags 2048) w1.

Lemma Nonblocking_run fd s res w :
  (0 ≤ fd)%Z → setup_nonblocking fd (world s.2) = (res, w) →
  SetFileDescriptorAsNonblocking fd s =
    (match res with None => Done tt | Some errno => Throw (last_error errno) end, (s.1, set_world w s.2)).
Proof.
  intros Hfd Hr. unfold SetFileDescriptorAsNonblocking, IsValidFileDescriptor.
  rewrite (proj2 (Z.leb_le _ _) Hfd). mstep. unfold setup_nonblocking in Hr.
  destruct (sys_fcntl_getfd fd (world s.2)) as [flags w1] eqn:Hg.
  rewrite (bind_done _ _ s flags (s.1, set_world w1 s.2)) by (unfold on_world; by rewrite Hg).
  rewrite (bind_done _ _ _ res (s.1, set_world w s.2)) by (unfold on_world; simpl; by rewrite Hr).
  by destruct res.
Qed.

Lemma Add_run fd bits s res w :
  (0 ≤ fd)%Z → sys_epoll_ctl (epoll_fd_ (epoller_ s.2)) Add fd bits (world s.2) = (res, w) →
  on_epoller (AddFileDescriptor fd bits) s =
    (match res with None => Done tt | Some errno => Throw (last_error errno) end,
     (s.1, set_epoller (epoller_ s.2) w s.2)).
Proof. intros Hfd Hr. apply on_epoller_ok. by apply SetFileDescriptor_ok. Qed.

(** The tables after a client has been added. *)
Definition client_in (fd : Z) (ip : str) (deadline : Z) (t t' : Timer) (r r' : Rest W) : Prop :=
  ∃ p c, clients r !! p = None ∧ Connection.socket_ (conn c) = fd ∧ ip_address c = ip ∧
    Buffer.readable (Connection.read_buf_ (conn c)) = [] ∧
    Buffer.readable (Connection.write_buf_ (conn c)) = [] ∧
    users_ r' = <[fd := p]> (users_ r) ∧ clients r' = <[p := c]> (clients r) ∧
    entries t' = <[fd := (deadline, Some CloseTimedOut)]> (entries t) ∧
    tasks r' = tasks r ∧ logs r' = logs r ++ connected ip fd.

(** [AddClient] makes the socket non-blocking, registers it for one-shot
    input events, and enters the new client under its socket both in the table of
    users and in the timer, with the alive time from now as its deadline; the
    connection starts with empty buffers.  If a system call fails, its error is
    thrown and the tables are as before: nothing closes the socket that was
    accepted. *)
Theorem client_added fd addr t r :
  (∀ w, (0 ≤ (sys_now w).1)%Z) → (0 ≤ alive_time_)%Z →
  inv (t, r) → (0 ≤ fd ≤ INT_MAX)%Z → users_ r !! fd = None →
  match setup_nonblocking fd (world r) with
  | (Some errno, w1) => AddClient alive_time_ fd addr (t, r) = (Throw (last_error errno), (t, set_world w1 r))
  | (None, w1) =>
      match sys_epoll_ctl (epoll_fd_ (epoller_ r)) Add fd (N.lor connect_event_mode EPOLLIN) w1 with
      | (Some errno, w2) =>
          AddClient alive_time_ fd addr (t, r) = (Throw (last_error errno), (t, set_world w2 r))
      | (None, w2) =>
          match sys_inet_ntop addr with
          | inl errno => AddClient alive_time_ fd addr (t, r) = (Throw (last_error errno), (t, set_world w2 r))
          | inr ip => ∃ t' r', AddClient alive_time_ fd addr (t, r) = (Done tt, (t', r')) ∧
              sys_now w2 = ((sys_now w2).1, world r') ∧ inv (t', r') ∧
              client_in fd ip ((sys_now w2).1 + alive_time_) t t' r r'
          end
      end
  end.
Proof.
  intros Hnow Halive Hinv Hfd Hu. destruct (setup_nonblocking fd (world r)) as [res w1] eqn:Hs.
  pose proof (Nonblocking_run fd (t, r) res w1 (proj1 Hfd) Hs) as Hs'.
  unfold AddClient, IsValidFileDescriptor. rewrite (proj2 (Z.leb_le _ _) (proj1 Hfd)). mstep.
  destruct res as [errno|]; [by rewrite (bind_throw _ _ _ _ _ Hs')|]. mrun Hs'.
  destruct (sys_epoll_ctl _ _ _ _ w1) as [res w2] eqn:Ha.
  pose proof (Add_run fd _ (t, set_world w1 r) res w2 (proj1 Hfd) Ha) as Ha'.
  destruct res as [errno|]; [by rewrite (bind_throw _ _ _ _ _ Ha')|]. mrun Ha'. cbn [fst snd].
  destruct (sys_inet_ntop addr) as [errno|ip]; [done|]. mstep.
  unfold Connection.Connection_of_socket, IsValidFileDescriptor.
  rewrite (proj2 (Z.leb_le _ _) (proj1 Hfd)). set (c := Connection.mkConnection _ _ _ _ _).
  rewrite (bind_done (of_outcome (Done c)) _ _ c _ eq_refl). mstep.
  set (r2 := set_epoller _ w2 _).
  assert (inv (t, r2)) as Hinv2 by (by eapply inv_rest).
  edestruct (add_user alive_time_ Hnow Halive fd (mkClient c ip) t r2)
    as (v & t' & r' & Hr & Hi & Ht & Hl & He & Hnew); [done|done|done|].
  destruct (Hnew Hu) as (Hn & Hu' & Hc'). cbn [snd] in Hr |- *. rewrite Hr.
  eexists t', _. split; [reflexivity|]. simpl in Hn. rewrite Hn. split; [done|].
  split; [by eapply inv_rest|]. exists (fresh_client r), (mkClient c ip).
  split_and!; try done; [apply fresh_client_None|]. simpl. by rewrite Hl, <-app_assoc.
Qed.

(** ** Closing *)

(** C38: [CloseClient] never fails on a user: it removes the socket from the
    table of users and from the timer, even when the kernel refuses to remove it
    from the epoll instance.  The connection and its socket live on exactly as long
    as a queued task points to them; without one the socket is closed at once. *)
Theorem client_closed fd p t r :
  inv (t, r) → users_ r !! fd = Some p →
  ∃ c t' r' line, clients r !! p = Some c ∧ CloseClient fd (t, r) = (Done tt, (t', r')) ∧ inv (t', r') ∧
    users_ r' = delete fd (users_ r) ∧ entries t' = delete fd (entries t) ∧
    tasks r' = tasks r ∧
    logs r' = logs r ++ line ++ [(Info, s!"Client " ++ ip_address c ++ s!" has disconnected")] ∧
    let w := (sys_epoll_ctl (epoll_fd_ (epoller_ r)) Delete fd 0 (world r)).2 in
    if decide (p ∈ task_client <$> tasks r)
    then clients r' = clients r ∧ world r' = w
    else clients r' = delete p (clients r) ∧ world r' = sys_close fd w.
Proof.
  intros (Ht & Hu & Hd & Hk) Hp. destruct (Hu fd p Hp) as (Hfd & c & Hc & Hs). simpl in *.
  destruct (CloseClient_ok fd p c t r Ht (proj1 Hfd) Hp Hc)
    as (t' & r' & line & Hr & Ht' & He' & Hu' & Htk & _ & _ & Hlg & Hcl & Hw).
  exists c, t', r', line. split; [done|]. split; [done|]. split.
  { split; [done|]. split; [|split].
    - eapply (users_ok_delete r r' fd p); [done..|]. rewrite Hcl. destruct (shared p r); auto.
    - simpl. by rewrite Hu', He', !dom_delete_L, Hd.
    - by eapply tasks_ok_release. }
  split_and!; try done. unfold shared in *.
  case_decide as H; [by rewrite bool_decide_eq_true_2 in Hcl, Hw by done|].
  rewrite bool_decide_eq_false_2 in Hcl, Hw by done. split; [done|].
  rewrite Hw, Hs. unfold close_socket, IsValidFileDescriptor. by rewrite (proj2 (Z.leb_le _ _) (proj1 Hfd)).
Qed.

(** ** Time-outs *)

(** C9: While the clock shows [T], [ToNextTick] disconnects exactly the clients
    whose deadline is not after [T] and keeps all others with their deadlines, and
    the time it returns to wait reaches exactly to the earliest deadline left. *)
Theorem clients_time_out T n t r :
  (∀ w : W, sys_now w = (T, w)) → inv (t, r) → size (entries t) < n →
  ∃ d t' r', ToNextTick n (t, r) = (Done d, (t', r')) ∧ inv (t', r') ∧
    entries t' = filter (λ q, (T < q.2.1)%Z) (entries t) ∧
    (∀ fd, users_ r' !! fd = if decide (is_Some (entries t' !! fd)) then users_ r !! fd else None) ∧
    tasks r' = tasks r ∧
    (∀ fd e cb, entries t' !! fd = Some (e, cb) → (0 < d ≤ e - T)%Z) ∧
    (entries t' = ∅ ∨ ∃ fd e cb, entries t' !! fd = Some (e, cb) ∧ d = (e - T)%Z).
Proof.
  intros Hclock Hinv Hn. pose proof Hinv as (Ht & Hu & Hd & Hk). simpl in *.
  destruct (Tick_closes T Hclock n t r Ht Hu Hd Hn) as (t' & r' & Hr & Ht' & Hu' & He & Hus & Htk & _ & Hroot).
  assert (∃ d, ToNextTick n (t, r) = (Done d, (t', r')) ∧
    (∀ fd e cb, entries t' !! fd = Some (e, cb) → (0 < d ≤ e - T)%Z) ∧
    (entries t' = ∅ ∨ ∃ fd e cb, entries t' !! fd = Some (e, cb) ∧ d = (e - T)%Z)) as (d & Htick & Hd1 & Hd2).
  { unfold ToNextTick, HeapTimer.ToNextTick. mrun Hr.
    mrun (on_timer_ok _ _ r' _ _ (Empty_ok t' (proj1 (proj1 Ht')))).
    destruct Hroot as [He0|(m & Hm & Hx)].
    - rewrite bool_decide_eq_true_2 by done. exists 0%Z. split; [done|].
      assert (entries t' = ∅) as Hempty.
      { apply map_size_empty_inv. rewrite size_entries by apply Ht'. by rewrite He0. }
      split; [intros fd e cb; by rewrite Hempty|by left].
    - rewrite bool_decide_eq_false_2 by (intros H; unfold node_of in Hm; by rewrite H in Hm).
      cbn [negb]. mrun (on_timer_ok _ _ r' _ _ (node_at_ok _ _ _ Hm)).
      assert (read_clock server_now (t', r') = (Done T, (t', r'))) as Hrc.
      { unfold read_clock. simpl. by rewrite (server_now_const T Hclock). }
      mrun Hrc. cbv zeta. rewrite (proj2 (Z.ltb_lt 0 (expiration m - T))) by lia.
      exists (expiration m - T)%Z. split; [done|]. split.
      + intros fd e cb Hfd. pose proof (entries_root t' m fd (e, cb) (proj1 Ht') Hm Hfd). simpl in *. lia.
      + right. exists (key m), (expiration m), (callback m). split; [|done].
        apply entries_Some, in_nodes; [apply Ht'|]. exists 0%N. by destruct m. }
  exists d, t', r'. split; [done|]. split.
  { destruct (ToNextTick_keeps n (t, r) Hinv) as [H|H]; rewrite Htick in H; done. }
  split_and!; [| |done|done|done].
  - rewrite He. apply map_filter_ext. intros fd [e cb] _. unfold expired. simpl. lia.
  - intros fd. rewrite Hus. case_decide as Hin.
    + destruct (users_ r !! fd) as [q|] eqn:Hq.
      * apply map_lookup_filter_Some. split; [done|]. simpl. by apply elem_of_dom.
      * apply map_lookup_filter_None. by left.
    + apply map_lookup_filter_None. right. intros q _ H. apply Hin. by apply elem_of_dom in H.
Qed.

(** Without clients a turn of the main loop does not block: the kernel is
    asked to wait for zero milliseconds, so an idle server spins. *)
Theorem idle_server_polls n t r w' :
  inv (t, r) → users_ r = ∅ → 0 < n → (Z.of_N (len (events_ (epoller_ r))) ≤ INT_MAX)%Z →
  sys_epoll_wait (epoll_fd_ (epoller_ r)) (len (events_ (epoller_ r))) 0 (world r) = (inr [], w') →
  turn alive_time_ n (t, r) = (Done tt, (t, set_world w' r)).
Proof.
  intros Hinv Hu Hn Hsz Hw. pose proof Hinv as (Ht & _ & Hd & _). simpl in *.
  assert (nodes_ t = []) as Hnodes.
  { apply length_zero_iff_nil. rewrite <-(size_entries t) by apply Ht.
    rewrite <-size_dom, <-Hd, Hu, dom_empty_L. apply size_empty. }
  assert (on_timer Empty (t, r) = (Done true, (t, r))) as He.
  { rewrite (on_timer_ok _ _ r _ _ (Empty_ok t (proj1 (proj1 Ht)))). by rewrite bool_decide_eq_true_2. }
  assert (ToNextTick n (t, r) = (Done 0%Z, (t, r))) as Htick.
  { destruct n as [|n]; [lia|]. unfold ToNextTick, HeapTimer.ToNextTick, Tick. cbn [while_].
    assert (Tick_body server_now on_timeout (log_line Error) (t, r) = (Done false, (t, r))) as Hb.
    { unfold Tick_body. by mrun He. }
    rewrite (bind_done _ _ (t, r) tt (t, r)); [by mrun He|]. by mrun Hb. }
  unfold turn, try_catch. mrun Htick.
  assert (on_epoller (Wait 0) (t, r) = (Done 0%N, (t, set_world w' r))) as Hwait.
  { rewrite (on_epoller_ok _ (t, r) (Done 0%N) (epoller_ r) w'); [done|].
    unfold Wait. mstep. cbn [fst snd]. rewrite (proj2 (Z.leb_le _ _) Hsz). mstep.
    change (milliseconds 0) with 0%Z. change (0 <=? INT_MAX)%Z with true. mstep.
    rewrite (bind_done _ _ (epoller_ r, world r) (inr []) (epoller_ r, w')); [|unfold syscall; simpl; by rewrite Hw].
    rewrite take_nil. mstep. simpl. by destruct (epoller_ r). }
  mrun Hwait. done.
Qed.

(** ** Events *)

(** What [Start] does about the events of a client: the time it gives the
    client, and the task it queues. *)
Definition reaction (events : N) : option (Z * (nat → list Task)) :=
  if has_bits events (N.lor (N.lor EPOLLRDHUP EPOLLHUP) EPOLLERR) then Some (0%Z, λ _, [])
  else if has_bits events EPOLLIN then Some (alive_time_, λ p, [ReceiveTask p])
  else if has_bits events EPOLLOUT then Some (alive_time_, λ p, [SendTask p])
  else None.

(** What the main loop does with an event of a client. *)
Lemma dispatch_run n fd ev p e cb t r v w :
  (0 ≤ v)%Z → (0 ≤ alive_time_)%Z → inv (t, r) → fd ≠ listener_ r → users_ r !! fd = Some p →
  entries t !! fd = Some (e, cb) → pool_closed r = false → sys_now (world r) = (v, w) →
  match reaction ev with
  | Some (d, new) => ∃ t', dispatch alive_time_ n fd ev (t, r) =
        (Done tt, (t', set_tasks (tasks r ++ new p) (set_world w r))) ∧
      inv (t', set_tasks (tasks r ++ new p) (set_world w r)) ∧
      entries t' = <[fd := ((v + d)%Z, cb)]> (entries t)
  | None => dispatch alive_time_ n fd ev (t, r) =
      (Throw (Exn runtime_error (s!"Unexpected event: " ++ dec ev)), (t, r))
  end.
Proof.
  intros Hv Ha Hinv Hl Hp He Hpc Hn. pose proof Hinv as (Ht & Hu & Hd & Hk). simpl in *.
  destruct (Hu fd p Hp) as (Hfd & c & Hc & _).
  assert (∀ new t', (∀ k, k ∈ new → task_client k = p) → timer_ok t' →
    dom (entries t') = dom (entries t) → inv (t', set_tasks (tasks r ++ new) (set_world w r))) as Hinv'.
  { intros new t' Hnew Ht' Hdom. split; [done|]. split; [done|]. split; [simpl; congruence|].
    intros k [Hin|Hin]%elem_of_app; [by apply Hk|]. rewrite (Hnew k Hin). by eexists. }
  assert (∀ x, dom (<[fd := x]> (entries t)) = dom (entries t)) as Hdom.
  { intros x. apply dom_insert_lookup_L. by eexists. }
  unfold dispatch, reaction. mstep. simpl. rewrite (proj2 (Z.eqb_neq _ _) Hl).
  destruct (Extend_ok alive_time_ fd e cb t r v w Ht (proj1 Hfd)) as (t1 & Hx & Ht1 & He1); [lia|done|done|].
  destruct (has_bits ev _); [|destruct (has_bits ev EPOLLIN); [|destruct (has_bits ev EPOLLOUT); [|done]]].
  - destruct (Mark_ok fd e cb t r v w Ht (proj1 Hfd) Hv Hn He) as (t' & Hr & Ht' & He').
    exists t'. rewrite app_nil_r, Z.add_0_r. split; [exact Hr|]. split; [|done].
    rewrite <-(app_nil_r (tasks r)). apply Hinv'; [by intros k ?%elem_of_nil|done|by rewrite He'].
  - exists t1. split; [|split; [apply Hinv'; [by intros k ->%list_elem_of_singleton|done|by rewrite He1]|done]].
    unfold OnReceiveEvent. mrun Hx. mrun (Conn_ok fd p (t1, set_world w r) Hp).
    rewrite (bind_done (deref (Some p)) _ _ p _ eq_refl). unfold pool_Push. mstep. simpl. rewrite Hpc. by mstep.
  - exists t1. split; [|split; [apply Hinv'; [by intros k ->%list_elem_of_singleton|done|by rewrite He1]|done]].
    unfold OnSendEvent. mrun Hx. mrun (Conn_ok fd p (t1, set_world w r) Hp).
    rewrite (bind_done (deref (Some p)) _ _ p _ eq_refl). unfold pool_Push. mstep. simpl. rewrite Hpc. by mstep.
Qed.

(** C11: An event of a client is answered by one task for that client, behind
    those queued before, and a full alive time for it; a hang-up or an error of the
    connection only makes its deadline now, so that the next tick closes it.  Other
    events are thrown as an error. *)
Theorem event_dispatched n fd ev p e cb t r v w :
  (0 ≤ v)%Z → (0 ≤ alive_time_)%Z → inv (t, r) → fd ≠ listener_ r → users_ r !! fd = Some p →
  entries t !! fd = Some (e, cb) → pool_closed r = false → sys_now (world r) = (v, w) →
  match reaction ev with
  | Some (d, new) => ∃ t', dispatch alive_time_ n fd ev (t, r) =
        (Done tt, (t', set_tasks (tasks r ++ new p) (set_world w r))) ∧
      inv (t', set_tasks (tasks r ++ new p) (set_world w r)) ∧
      entries t' = <[fd := ((v + d)%Z, cb)]> (entries t)
  | None => dispatch alive_time_ n fd ev (t, r) =
      (Throw (Exn runtime_error (s!"Unexpected event: " ++ dec ev)), (t, r))
  end.
Proof. by apply dispatch_run. Qed.

(** Input and output events of a socket that is no longer a client's are
    ignored, but a hang-up or an error on it fails the assertion of
    [MarkClientAsToBeClosed] and ends the program. *)
Theorem stale_event n fd ev t r :
  inv (t, r) → (0 ≤ fd)%Z → fd ≠ listener_ r → users_ r !! fd = None →
  match reaction ev with
  | Some (d, new) =>
      if has_bits ev (N.lor (N.lor EPOLLRDHUP EPOLLHUP) EPOLLERR)
      then (dispatch alive_time_ n fd ev (t, r)).1 = Crash
      else dispatch alive_time_ n fd ev (t, r) = (Done tt, (t, r))
  | None => (dispatch alive_time_ n fd ev (t, r)).1 = Throw (Exn runtime_error (s!"Unexpected event: " ++ dec ev))
  end.
Proof.
  intros (Ht & _ & Hd & _) Hfd Hl Hp. simpl in *.
  assert (entries t !! fd = None) as He by (apply not_elem_of_dom; rewrite <-Hd; by apply not_elem_of_dom).
  unfold dispatch, reaction. mstep. simpl. rewrite (proj2 (Z.eqb_neq _ _) Hl).
  pose proof (Extend_unknown alive_time_ fd t r (proj1 Ht) Hfd He) as Hx.
  destruct (has_bits ev (N.lor _ _)); [by apply Mark_unknown; [apply Ht|]|].
  destruct (has_bits ev EPOLLIN); [unfold OnReceiveEvent; by mrun Hx|].
  destruct (has_bits ev EPOLLOUT); [unfold OnSendEvent; by mrun Hx|done].
Qed.

(** ** Tasks *)

(** The object of a client and the world after a call of the connection. *)
Definition with_client (p : nat) (c : Client) (w : W) (r : Rest W) : Rest W :=
  set_world w (set_clients (<[p := c]> (clients r)) r).

Definition starting (verb : str) (c : Client) (r : Rest W) : Rest W :=
  log_line Info (verb ++ ip_address c) r.
Definition failing (verb : str) (c : Client) (e : exn) (r : Rest W) : Rest W :=
  log_line Error (verb ++ ip_address c ++ s!": " ++ what e) r.

(** What a task leaves when it marks its client as one to be closed. *)
Definition marked (fd : Z) (t : Timer) (r : Rest W) (m : M Server unit) (s : Server) : Prop :=
  match entries t !! fd with
  | Some (e, cb) => ∃ v w t', sys_now (world r) = (v, w) ∧ m s = (Done tt, (t', set_world w r)) ∧
      timer_ok t' ∧ entries t' = <[fd := (v, cb)]> (entries t)
  | None => (m s).1 = Crash
  end.

Lemma mark_run fd t r :
  (∀ w : W, (0 ≤ (sys_now w).1)%Z) → timer_ok t → (0 ≤ fd)%Z →
  marked fd t r (MarkClientAsToBeClosed fd) (t, r).
Proof.
  intros Hnow Ht Hfd. unfold marked. destruct (entries t !! fd) as [[e cb]|] eqn:He.
  - destruct (sys_now (world r)) as [v w] eqn:Hn.
    assert (0 ≤ v)%Z as Hv by (pose proof (Hnow (world r)) as H; by rewrite Hn in H).
    destruct (Mark_ok fd e cb t r v w Ht Hfd Hv Hn He) as (t' & Hr & Ht' & He').
    by exists v, w, t'.
  - apply Mark_unknown; [apply Ht|done].
Qed.

(** [noexcept] does not change how marking ends. *)
Lemma marked_ext fd t r m1 m2 s1 s2 :
  marked fd t r m1 s1 → (∀ x y, m1 s1 = (x, y) → (x = Done tt ∨ x = Crash) → m2 s2 = (x, y)) →
  marked fd t r m2 s2.
Proof.
  unfold marked. destruct (entries t !! fd) as [[e cb]|].
  - intros (v & w & t' & Hn & Hr & Ht' & He') Hx. exists v, w, t'. split_and!; [done| |apply Ht'..|done].
    apply Hx; [done|by left].
  - intros Hc Hx. destruct (m1 s1) as [x y] eqn:Hm. simpl in Hc. subst. by rewrite (Hx _ _ eq_refl (or_intror eq_refl)).
Qed.

(** The connection keeps its socket. *)
Lemma Receive_same_socket (c : Connection.Connection) w x c' w' :
  Connection.Receive sys_readv sys_write sys_strerror fuel (c, w) = (x, (c', w')) → x ≠ Crash →
  Connection.socket_ c' = Connection.socket_ c.
Proof.
  intros Hr Hx. destruct (Connection.Receive_socket sys_readv sys_write sys_strerror
    (Connection.socket_ c) fuel (c, w) eq_refl) as [H|H]; rewrite Hr in H; done.
Qed.

Lemma Send_same_socket (c : Connection.Connection) w x c' w' :
  Connection.Send sys_readv sys_write sys_strerror fuel (c, w) = (x, (c', w')) → x ≠ Crash →
  Connection.socket_ c' = Connection.socket_ c.
Proof.
  intros Hr Hx. destruct (Connection.Send_socket sys_readv sys_write sys_strerror
    (Connection.socket_ c) fuel (c, w) eq_refl) as [H|H]; rewrite Hr in H; done.
Qed.

Lemma Process_same_socket (c : Connection.Connection) x c' :
  Connection.Process fs iter moved root_dir c = (x, c') → x ≠ Crash →
  Connection.socket_ c' = Connection.socket_ c.
Proof.
  intros Hr Hx. destruct (Connection.Process_socket fs iter moved root_dir (Connection.socket_ c) c eq_refl)
    as [H|H]; rewrite Hr in H; done.
Qed.

Lemma with_client_twice p c1 w1 c2 w2 r :
  with_client p c2 w2 (with_client p c1 w1 r) = with_client p c2 w2 r.
Proof. unfold with_client, set_world, set_clients. simpl. by rewrite insert_insert_eq. Qed.

Lemma Log_run l m t r : Log l m (t, r) = (Done tt, (t, log_line l m r)).
Proof. done. Qed.

(** The log line with which a task starts. *)
Lemma ip_then p c t r {A} (verb : str) (k : str → M Server A) :
  clients r !! p = Some c →
  (ip ← IPAddress (Some p); Log Info (verb ++ ip);; k ip) (t, r) =
  k (ip_address c) (t, starting verb c r).
Proof. intros Hc. mrun (IPAddress_ok p c (t, r) Hc). done. Qed.

(** The processing that follows a read or a write. *)
Lemma process_step p ip c1 w1 t r0 b c2 res w2 :
  Connection.Process fs iter moved root_dir c1 = (Done b, c2) → (0 ≤ Connection.socket_ c1)%Z →
  sys_epoll_ctl (epoll_fd_ (epoller_ r0)) Modify (Connection.socket_ c1) (next_events b) w1 = (res, w2) →
  Process fs iter moved root_dir (Some p) (t, with_client p (mkClient c1 ip) w1 r0) =
    (match res with None => Done tt | Some errno => Throw (last_error errno) end,
     (t, with_client p (mkClient c2 ip) w2 r0)).
Proof.
  intros Hp Hfd Hctl. pose proof (Process_same_socket _ _ _ Hp ltac:(done)) as Hs.
  set (s1 := (t, with_client p (mkClient c1 ip) w1 r0)).
  assert (clients s1.2 !! p = Some (mkClient c1 ip)) as Hc1 by (simpl; by rewrite lookup_insert_eq).
  rewrite (Process_run fs iter moved root_dir p _ s1 b c2 res w2 Hc1 Hp); [|congruence|by rewrite Hs].
  f_equal. f_equal. unfold s1, with_client, set_world, set_clients. simpl. by rewrite insert_insert_eq.
Qed.

(** Marking at the end of a task. *)
Lemma mark_step p c1 ip t r :
  (∀ w : W, (0 ≤ (sys_now w).1)%Z) → timer_ok t → (0 ≤ Connection.socket_ c1)%Z →
  clients r !! p = Some (mkClient c1 ip) →
  marked (Connection.socket_ c1) t r (fd ← Socket (Some p); MarkClientAsToBeClosed fd) (t, r).
Proof.
  intros Hnow Ht Hfd Hc. eapply marked_ext; [by apply mark_run|]. intros x y Hm _.
  by mrun (Socket_ok p _ (t, r) Hc).
Qed.

Definition receive_start : str := s!"Start to receive data from client ".
Definition receive_failed : str := s!"Failed to receive data from client ".

(** A task that reads and processes, when nothing fails. *)
Lemma receive_done p c t r n c1 w1 b c2 w2 :
  clients r !! p = Some c → (0 ≤ Connection.socket_ (conn c))%Z →
  Connection.Receive sys_readv sys_write sys_strerror fuel (conn c, world r) = (Done n, (c1, w1)) →
  Connection.Process fs iter moved root_dir c1 = (Done b, c2) →
  sys_epoll_ctl (epoll_fd_ (epoller_ r)) Modify (Connection.socket_ (conn c)) (next_events b) w1 = (None, w2) →
  ReceiveFrom fs iter moved root_dir fuel (Some p) (t, r) =
    (Done tt, (t, with_client p (mkClient c2 (ip_address c)) w2 (starting receive_start c r))).
Proof.
  intros Hc Hfd Hr Hp Hctl. pose proof (Receive_same_socket _ _ _ _ _ Hr ltac:(done)) as Hs1. rewrite <-Hs1 in Hctl.
  set (r0 := starting receive_start c r).
  pose proof (client_Receive_run fuel p c (t, r0) _ _ _ Hc Hr) as Hrun.
  pose proof (process_step p (ip_address c) c1 w1 t r0 b c2 None w2 Hp ltac:(congruence) Hctl) as Hpr.
  unfold ReceiveFrom, noexcept. rewrite (ip_then p c t r receive_start _ Hc). fold r0.
  rewrite (bind_done _ _ (t, r0) true (t, with_client p (mkClient c1 (ip_address c)) w1 r0))
    by (apply try_done; by mrun Hrun). cbv iota. by rewrite (try_done _ _ _ _ _ Hpr).
Qed.

(** C12: [ReceiveFrom] reads what the socket has, processes it, and registers
    the client for the one event it waits for next: output if an answer has been
    built, input otherwise.  If reading fails, the client's deadline becomes now;
    this fails an assertion if the client has been closed meanwhile. *)
Theorem receive_task p c t r :
  (∀ w : W, (0 ≤ (sys_now w).1)%Z) → timer_ok t → clients r !! p = Some c → (0 ≤ Connection.socket_ (conn c))%Z →
  let r0 := starting receive_start c r in
  let run := ReceiveFrom fs iter moved root_dir fuel (Some p) in
  match Connection.Receive sys_readv sys_write sys_strerror fuel (conn c, world r) with
  | (Done n, (c1, w1)) =>
      match Connection.Process fs iter moved root_dir c1 with
      | (Done b, c2) =>
          match sys_epoll_ctl (epoll_fd_ (epoller_ r)) Modify (Connection.socket_ (conn c)) (next_events b) w1 with
          | (None, w2) => run (t, r) = (Done tt, (t, with_client p (mkClient c2 (ip_address c)) w2 r0))
          | (Some errno, w2) => (run (t, r)).1 = Crash
          end
      | _ => True
      end
  | (Throw e, (c1, w1)) =>
      let r1 := failing receive_failed c e (with_client p (mkClient c1 (ip_address c)) w1 r0) in
      marked (Connection.socket_ (conn c)) t r1 run (t, r)
  | _ => True
  end.
Proof.
  intros Hnow Ht Hc Hfd r0 run.
  destruct (Connection.Receive _ _ _ _ _) as [[n|e| |] [c1 w1]] eqn:Hr; try done.
  all: pose proof (Receive_same_socket _ _ _ _ _ Hr ltac:(done)) as Hs1.
  all: pose proof (client_Receive_run fuel p c (t, r0) _ _ _ Hc Hr) as Hrun.
  - destruct (Connection.Process _ _ _ _ c1) as [[b| | |] c2] eqn:Hp; try done.
    destruct (sys_epoll_ctl _ _ _ _ w1) as [[errno|] w2] eqn:Hctl; [|by eapply receive_done]. rewrite <-Hs1 in Hctl.
    pose proof (process_step p (ip_address c) c1 w1 t r0 b c2 (Some errno) w2 Hp ltac:(congruence) Hctl) as Hpr.
    unfold run, ReceiveFrom, noexcept. rewrite (ip_then p c t r receive_start _ Hc). fold r0.
    rewrite (bind_done _ _ (t, r0) true (t, with_client p (mkClient c1 (ip_address c)) w1 r0))
      by (apply try_done; by mrun Hrun). cbv iota. by rewrite (try_throw _ _ _ _ _ Hpr).
  - intros r1.
    assert (clients r1 !! p = Some (mkClient c1 (ip_address c))) as Hc1 by (simpl; by rewrite lookup_insert_eq).
    apply (marked_ext _ t r1 (MarkClientAsToBeClosed (Connection.socket_ (conn c))) _ (t, r1));
      [by apply mark_run|].
    intros x y Hm Hx. unfold run, ReceiveFrom, noexcept. rewrite (ip_then p c t r receive_start _ Hc). fold r0.
    rewrite (bind_caught _ _ _ _ e _ (bind_throw _ _ _ _ _ Hrun)). cbv beta.
    match goal with |- context [(?h;; mret false)] => assert (h (t, with_client p (mkClient c1 (ip_address c)) w1 r0) = (x, y)) as Hh end.
    { mrun (Log_run Error (receive_failed ++ ip_address c ++ s!": " ++ what e) t
        (with_client p (mkClient c1 (ip_address c)) w1 r0)). fold r1. mrun (Socket_ok p _ (t, r1) Hc1).
      cbn [conn]. by rewrite Hs1. }
    destruct Hx as [->| ->].
    + rewrite (bind_done _ _ _ false y); [done|]. by rewrite (bind_done _ _ _ _ _ Hh).
    + rewrite (bind_crash _ _ _ y); [done|]. by rewrite (bind_crash _ _ _ _ Hh).
Qed.

Definition send_start : str := s!"Start to send data to client ".
Definition send_failed : str := s!"Failed to send data to client ".

(** [SendTo] sends the answer; a client that keeps its connection alive is
    then processed again and registered for its next event, any other one is marked
    as one to be closed, and so is one that cannot be written to. *)
Theorem send_task p c t r :
  (∀ w : W, (0 ≤ (sys_now w).1)%Z) → timer_ok t → clients r !! p = Some c → (0 ≤ Connection.socket_ (conn c))%Z →
  let fd := Connection.socket_ (conn c) in
  let r0 := starting send_start c r in
  let run := SendTo fs iter moved root_dir fuel (Some p) in
  match Connection.Send sys_readv sys_write sys_strerror fuel (conn c, world r) with
  | (Done n, (c1, w1)) =>
      if Connection.KeepAlive c1 then
        match Connection.Process fs iter moved root_dir c1 with
        | (Done b, c2) =>
            match sys_epoll_ctl (epoll_fd_ (epoller_ r)) Modify fd (next_events b) w1 with
            | (None, w2) => run (t, r) = (Done tt, (t, with_client p (mkClient c2 (ip_address c)) w2 r0))
            | (Some errno, w2) => (run (t, r)).1 = Crash
            end
        | _ => True
        end
      else marked fd t (with_client p (mkClient c1 (ip_address c)) w1 r0) run (t, r)
  | (Throw e, (c1, w1)) =>
      marked fd t (failing send_failed c e (with_client p (mkClient c1 (ip_address c)) w1 r0)) run (t, r)
  | _ => True
  end.
Proof.
  intros Hnow Ht Hc Hfd fd r0 run.
  destruct (Connection.Send _ _ _ _ _) as [[n|e| |] [c1 w1]] eqn:Hr; try done.
  all: pose proof (Send_same_socket _ _ _ _ _ Hr ltac:(done)) as Hs1.
  all: pose proof (client_Send_run fuel p c (t, r0) _ _ _ Hc Hr) as Hrun.
  all: unfold fd; rewrite <-Hs1; clear fd.
  all: set (c' := mkClient c1 (ip_address c)) in *; set (r1 := with_client p c' w1 r0) in *.
  all: assert (clients r1 !! p = Some c') as Hc1 by (simpl; by rewrite lookup_insert_eq).
  all: rewrite <-Hs1 in Hfd.
  - assert ((client_Send fuel (Some p);; KeepAlive (Some p)) (t, r0) =
      (Done (Connection.KeepAlive c1), (t, r1))) as Hsend.
    { mrun Hrun. unfold KeepAlive. by mrun (client_at_ok p c' (t, r1) Hc1). }
    destruct (Connection.KeepAlive c1).
    + destruct (Connection.Process _ _ _ _ c1) as [[b| | |] c2] eqn:Hp; try done.
      destruct (sys_epoll_ctl _ _ _ _ w1) as [res w2] eqn:Hctl.
      pose proof (process_step p (ip_address c) c1 w1 t r0 b c2 res w2 Hp Hfd Hctl) as Hpr.
      destruct res as [errno|]; unfold run, SendTo, noexcept;
        rewrite (ip_then p c t r send_start _ Hc); fold r0;
        rewrite (bind_done _ _ _ _ _ (try_done _ _ _ _ _ Hsend)); cbv iota.
      * by rewrite (bind_caught _ _ _ _ _ _ (bind_throw _ _ _ _ _ Hpr)).
      * rewrite (bind_done _ _ _ true _ (try_done _ _ _ _ _ (bind_done _ _ _ _ _ Hpr))). done.
    + eapply marked_ext; [by apply (mark_step p c1 (ip_address c) t r1)|].
      intros x y Hm Hx. unfold run, SendTo, noexcept.
      rewrite (ip_then p c t r send_start _ Hc). fold r0.
      rewrite (bind_done _ _ _ _ _ (try_done _ _ _ _ _ Hsend)). cbv iota. rewrite Hm. by destruct Hx as [->| ->].
  - eapply marked_ext; [by apply (mark_step p c1 (ip_address c))|].
    intros x y Hm Hx. unfold run, SendTo, noexcept.
    rewrite (ip_then p c t r send_start _ Hc). fold r0.
    rewrite (bind_caught _ _ _ _ e _ (bind_throw _ _ _ _ _ Hrun)). cbv beta.
    rewrite (bind_done _ _ _ false (t, failing send_failed c e r1)) by done. cbv iota.
    rewrite Hm. by destruct Hx as [->| ->].
Qed.

(** ** Starting *)

(** The calls that prepare the listener; the first failure ends them. *)
Definition and_then (x : option Z * W) (f : W → option Z * W) : option Z * W :=
  match x with (None, w) => f w | _ => x end.
Definition start_calls (epoll_fd fd : Z) (addr : N) (w : W) : option Z * W :=
  and_then (and_then (and_then (and_then (and_then
    (sys_setsockopt fd (SO_LINGER 1) w) (sys_setsockopt fd SO_REUSEADDR))
    (sys_bind fd addr port_)) (sys_listen fd)) (setup_nonblocking fd))
    (sys_epoll_ctl epoll_fd Add fd (N.lor listen_event_mode EPOLLIN)).

(** One call of the chain. *)
Lemma checked_call (f : W → option Z * W) t r (k : M Server unit) :
  (x ← on_world f;
   (match x with Some errno => ThrowLastSystemError errno | None => mret tt end);; k) (t, r) =
  match f (world r) with
  | (None, w) => k (t, set_world w r)
  | (Some errno, w) => (Throw (last_error errno), (t, set_world w r))
  end.
Proof. unfold mbind, M_bind, on_world. simpl. by destruct (f (world r)) as [[errno|] w]. Qed.

Lemma init_listener_run addr fd t r :
  (0 ≤ fd)%Z →
  init_listener port_ addr fd (t, r) =
    let '(res, w) := start_calls (epoll_fd_ (epoller_ r)) fd addr (world r) in
    (match res with None => Done tt | Some errno => Throw (last_error errno) end, (t, set_world w r)).
Proof.
  intros Hfd. unfold init_listener, start_calls.
  do 4 (rewrite checked_call; cbn [world set_world];
    match goal with |- context [match ?f ?w with _ => _ end] =>
      destruct (f w) as [[?|] ?]; cbn [and_then]; [done|] end).
  match goal with |- context [setup_nonblocking fd ?w] => destruct (setup_nonblocking fd w) as [res w5] eqn:Hs end.
  match goal with |- _ (t, ?r') = _ => pose proof (Nonblocking_run fd (t, r') res w5 Hfd Hs) as Hn end.
  destruct res as [errno|]; [by rewrite (bind_throw _ _ _ _ _ Hn)|]. mrun Hn. cbn [and_then].
  destruct (sys_epoll_ctl _ _ _ _ _) as [res w6] eqn:Ha.
  match goal with |- _ (?t', ?r') = _ => rewrite (Add_run fd _ (t', r') res w6 Hfd Ha) end. done.
Qed.

Lemma InitNetwork_run addr t r :
  (1024 ≤ port_)%N → sys_inet_pton any_address = inr addr → (∀ w fd w', sys_socket w = (inr fd, w') → (0 ≤ fd)%Z) →
  InitNetwork port_ (t, r) =
    match sys_socket (world r) with
    | (inl errno, w) => (Throw (last_error errno), (t, set_listener invalid_file_descriptor w r))
    | (inr fd, w) =>
        match start_calls (epoll_fd_ (epoller_ r)) fd addr w with
        | (None, w') => (Done tt, (t, set_listener fd w' r))
        | (Some errno, w') =>
            (Throw (last_error errno), (t, set_listener invalid_file_descriptor (sys_close fd w') r))
        end
    end.
Proof.
  intros Hport Haddr Hsock. unfold InitNetwork. rewrite (proj2 (N.leb_le _ _) Hport), Haddr. do 2 mstep.
  destruct (sys_socket (world r)) as [[errno|fd] w] eqn:Hs.
  - rewrite (bind_done _ _ (t, r) (inl errno) (t, set_world w r)) by (unfold on_world; simpl; by rewrite Hs).
    by mstep.
  - rewrite (bind_done _ _ (t, r) (inr fd) (t, set_world w r)) by (unfold on_world; simpl; by rewrite Hs).
    mstep. cbn [fst snd]. unfold try_catch. rewrite init_listener_run by by eapply Hsock.
    cbn [epoller_ world set_listener set_world]. by destruct (start_calls _ _ _ _) as [[errno|] w'].
Qed.

(** [InitNetwork] leaves a listener that has been configured, bound to the
    port on all addresses, put into listening mode, made non-blocking and
    registered, in this order; or it throws the error of the first call that
    failed, and then the socket has been closed and the server has no listener. *)
Theorem network_started addr t r :
  (1024 ≤ port_)%N → sys_inet_pton any_address = inr addr → (∀ w fd w', sys_socket w = (inr fd, w') → (0 ≤ fd)%Z) →
  InitNetwork port_ (t, r) =
    match sys_socket (world r) with
    | (inl errno, w) => (Throw (last_error errno), (t, set_listener invalid_file_descriptor w r))
    | (inr fd, w) =>
        match start_calls (epoll_fd_ (epoller_ r)) fd addr w with
        | (None, w') => (Done tt, (t, set_listener fd w' r))
        | (Some errno, w') =>
            (Throw (last_error errno), (t, set_listener invalid_file_descriptor (sys_close fd w') r))
        end
    end.
Proof. apply InitNetwork_run. Qed.

(** ** Ending *)

Lemma users_inj r fd1 fd2 p :
  users_ok r → users_ r !! fd1 = Some p → users_ r !! fd2 = Some p → fd1 = fd2.
Proof.
  intros Hu H1 H2. destruct (Hu fd1 p H1) as (_ & c1 & Hc1 & <-), (Hu fd2 p H2) as (_ & c2 & Hc2 & <-).
  congruence.
Qed.

Lemma release_all_run ps : ∀ t r,
  NoDup ps → (∀ p, p ∈ ps → is_Some (clients r !! p)) →
  ∃ r', release_all ps (t, r) = (Done tt, (t, r')) ∧
    listener_ r' = listener_ r ∧ users_ r' = users_ r ∧ pool_closed r' = pool_closed r ∧ tasks r' = tasks r ∧
    (∀ p, clients r' !! p = if decide (p ∈ ps ∧ shared p r = false) then None else clients r !! p).
Proof.
  induction ps as [|p ps IH]; intros t r Hnd Hex.
  { exists r. by split_and!. }
  apply NoDup_cons in Hnd as [Hp Hnd]. cbn [release_all]. mstep.
  destruct (shared p (t, r).2) eqn:Hsh; simpl in Hsh.
  - mstep. destruct (IH t r Hnd) as (r' & Hr & Hl & Hu & Hpc & Ht & Hc); [set_solver|].
    exists r'. split_and!; try done. intros q. rewrite Hc. apply decide_ext. split; [set_solver|].
    intros [[->|Hq]%elem_of_cons Hq2]; [congruence|done].
  - destruct (Hex p) as [c Hcp]; [set_solver|]. mrun (destroy_client_ok p c (t, r) Hcp). cbn [fst snd].
    set (r1 := set_world _ _). destruct (IH t r1 Hnd) as (r' & Hr & Hl & Hu & Hpc & Ht & Hc).
    { intros q Hq. subst r1. simpl. rewrite lookup_delete_ne; [apply Hex; set_solver|]. by intros ->. }
    exists r'. split_and!; try done. intros q. rewrite Hc. subst r1. simpl. unfold shared in *. simpl.
    destruct (decide (q = p)) as [->|Hne].
    + rewrite lookup_delete_eq. symmetry. rewrite decide_True; [by case_match|]. split; [set_solver|done].
    + rewrite lookup_delete_ne by done. apply decide_ext. split; [set_solver|].
      intros [[?|Hq]%elem_of_cons Hq2]; done.
Qed.

Lemma epoller_close_run s : ∃ e w, on_epoller Close s = (Done tt, (s.1, set_epoller e w s.2)).
Proof.
  unfold on_epoller, zoom, Close. mstep. cbn [fst snd].
  destruct (IsValidFileDescriptor _); by eexists _, _.
Qed.

(** [Close] always succeeds: afterwards the server has no listener, no
    users and no timers, its pool takes no more work, and of the users' connections
    exactly those that a queued task points to still exist. *)
Theorem server_closed t r :
  inv (t, r) → ∃ r', Server_Close (t, r) = (Done tt, (Timer_empty, r')) ∧ inv (Timer_empty, r') ∧
    listener_ r' = (if IsValidFileDescriptor (listener_ r) then invalid_file_descriptor else listener_ r) ∧
    users_ r' = ∅ ∧ pool_closed r' = true ∧ tasks r' = tasks r ∧
    ∀ fd p, users_ r !! fd = Some p →
      clients r' !! p = if decide (p ∈ task_client <$> tasks r) then clients r !! p else None.
Proof.
  intros Hinv. pose proof Hinv as (Ht & Hu & Hd & Hk). simpl in *.
  assert (NoDup (map_to_list (users_ r)).*2) as Hnd.
  { apply NoDup_fmap_2_strong; [|apply NoDup_map_to_list].
    intros [fd1 p1] [fd2 p2] H1%elem_of_map_to_list H2%elem_of_map_to_list. simpl. intros ->.
    by rewrite (users_inj r fd1 fd2 p2 Hu H1 H2). }
  assert (∃ r1, (Server_Close (t, r)) = noexcept (release_all (map_to_list (users_ r)).*2) (Timer_empty, r1) ∧
    listener_ r1 = (if IsValidFileDescriptor (listener_ r) then invalid_file_descriptor else listener_ r) ∧
    users_ r1 = ∅ ∧ pool_closed r1 = true ∧ tasks r1 = tasks r ∧ clients r1 = clients r)
    as (r1 & Heq & Hl & Hus & Hpc & Htk & Hcl).
  { unfold Server_Close, noexcept. destruct (IsValidFileDescriptor (listener_ r)) eqn:Hv.
    all: mstep; cbn [fst snd]; rewrite Hv; do 2 mstep; cbn [fst snd].
    all: match goal with |- context [(on_epoller Close ≫= _) ?s] => destruct (epoller_close_run s) as (e & w & Hep) end.
    all: rewrite (bind_done _ _ _ _ _ Hep); cbn [fst snd].
    all: rewrite (bind_done (on_timer Clear) _ _ tt (Timer_empty, _) eq_refl); do 2 mstep; cbn [fst snd].
    all: by eexists. }
  destruct (release_all_run (map_to_list (users_ r)).*2 Timer_empty r1 Hnd) as (r' & Hr & Hl' & Hu' & Hpc' & Ht' & Hc').
  { intros p ([fd q] & -> & Hin)%list_elem_of_fmap. apply elem_of_map_to_list in Hin.
    destruct (Hu fd q Hin) as (_ & c & Hc & _). rewrite Hcl. by eexists. }
  exists r'. rewrite Heq. unfold noexcept. rewrite Hr. split; [done|]. split.
  { split; [apply initial_inv with (w := world r) (e := epoller_ r)|]. split; [|split].
    - intros fd p Hp. simpl in Hp. by rewrite Hu', Hus, lookup_empty in Hp.
    - simpl. by rewrite Hu', Hus.
    - intros k Hin. simpl in *. rewrite Ht', Htk in Hin. rewrite Hc', Hcl, decide_False; [by apply Hk|].
      intros [_ Hsh]. unfold shared in Hsh. apply bool_decide_eq_false in Hsh. apply Hsh. rewrite Htk.
      by apply list_elem_of_fmap_2. }
  split_and!; [congruence..|]. intros fd p Hp. rewrite Hc', Hcl. unfold shared. rewrite Htk.
  case_decide as H1; case_decide as H2; try done.
  - destruct H1 as [_ H1]. by apply bool_decide_eq_false in H1.
  - exfalso. apply H1. split; [|by apply bool_decide_eq_false].
    apply list_elem_of_fmap. exists (fd, p). split; [done|]. by apply elem_of_map_to_list.
Qed.
End Spec.

(** * A scripted kernel *)

(** A world that follows a script: the time, the connections waiting to be
    accepted, what each wait reports, what each read gives, and whether epoll
    refuses its calls; [sent] and [shut] record what was written and closed. *)
Record DemoWorld := mkDemo {
  time : N;
  backlog : list (Z * N);
  reports : list (list (Z * N));
  input : list (Z + str);
  refuses : bool;
  sent : str;
  shut : list Z
}.

Definition set_backlog (l : list (Z * N)) (w : DemoWorld) : DemoWorld :=
  mkDemo (time w) l (reports w) (input w) (refuses w) (sent w) (shut w).
Definition set_reports (l : list (list (Z * N))) (w : DemoWorld) : DemoWorld :=
  mkDemo (time w) (backlog w) l (input w) (refuses w) (sent w) (shut w).
Definition set_input (l : list (Z + str)) (w : DemoWorld) : DemoWorld :=
  mkDemo (time w) (backlog w) (reports w) l (refuses w) (sent w) (shut w).
Definition add_sent (d : str) (w : DemoWorld) : DemoWorld :=
  mkDemo (time w) (backlog w) (reports w) (input w) (refuses w) (sent w ++ d) (shut w).
Definition add_shut (fd : Z) (w : DemoWorld) : DemoWorld :=
  mkDemo (time w) (backlog w) (reports w) (input w) (refuses w) (sent w) (shut w ++ [fd]).

Definition scripted (clock : DemoWorld → Z) : Kernel DemoWorld := {|
  sys_strerror _ := s!"refused";
  sys_close := add_shut;
  sys_readv _ _ _ w := match input w with
    | [] => (inl 11%Z, w) | x :: l => (x, set_input l w) end;
  sys_write _ d w := (inr (len d), add_sent d w);
  sys_fcntl_getfd _ w := (0%Z, w);
  sys_fcntl_setfl _ _ w := (None, w);
  sys_epoll_create1 w := (inr 3%Z, w);
  sys_epoll_ctl _ _ _ _ w := (if refuses w then Some 2%Z else None, w);
  sys_epoll_wait _ _ _ w := match reports w with
    | [] => (inr [], w) | x :: l => (inr x, set_reports l w) end;
  sys_now w := (clock w, w);
  sys_accept _ w := match backlog w with
    | (fd, a) :: l => if (fd <=? INT_MAX)%Z then (inr (fd, a), set_backlog l w) else (inl 11%Z, w)
    | [] => (inl 11%Z, w) end;
  sys_inet_ntop _ := inr (s!"10.0.0.7");
  sys_inet_pton _ := inr 0%N;
  sys_socket w := (inr 4%Z, w);
  sys_setsockopt _ _ w := (None, w);
  sys_bind _ _ _ w := (None, w);
  sys_listen _ w := (None, w)
|}.

#[local] Instance demo_kernel : Kernel DemoWorld := scripted (λ w, Z.of_N (time w)).

Definition demo_epoller : Epoller := mkEpoller 3 (replicate 4 (0%Z, 0%N)).
Definition demo_text : str :=
  s!"POST / HTTP/1.1" ++ crlf ++ s!"Content-Type: application/x-www-form-urlencoded" ++ crlf ++
  s!"Content-Length: 15" ++ crlf ++ crlf ++ s!"user=me&msg=yes".

(** One client connects, posts a message and hangs up behind the answer. *)
Definition demo_world : DemoWorld :=
  mkDemo 1000 [(7%Z, 1%N)] [[(4%Z, EPOLLIN)]; [(7%Z, EPOLLIN)]; [(7%Z, EPOLLOUT)]; []]
    [inr demo_text; inl 11%Z] false [] [].

Definition demo_session : M (HeapTimer Z Timeout * Rest DemoWorld) unit :=
  InitNetwork 8080;;
  turn 60 5;; turn 60 5;;
  work Connection.demo_fs map_to_list (λ _ _, []) (s!"www") 5 0;;
  turn 60 5;;
  work Connection.demo_fs map_to_list (λ _ _, []) (s!"www") 5 0;;
  turn 60 5.

(** The answer arrives, and the client is gone at the end. *)
Example demo_session_served :
  let s := (demo_session (initial demo_epoller demo_world)).2 in
  sent (world s.2) = s!"HTTP/1.1 200 OK" ++ crlf ++ s!"Connection: close" ++ crlf ++
    s!"Content-type: text/html" ++ crlf ++ s!"Content-length: 14" ++ crlf ++ crlf ++ s!"<p>me: yes</p>" ∧
  shut (world s.2) = [7%Z] ∧ users_ s.2 = ∅ ∧ tasks s.2 = [].
Proof. vm_compute. split_and!; reflexivity. Qed.

Lemma demo_now (w : DemoWorld) : (0 ≤ (sys_now w).1)%Z.
Proof. simpl. lia. Qed.

Lemma demo_accept (l : Z) (w : DemoWorld) fd a w' : sys_accept l w = (inr (fd, a), w') → (fd ≤ INT_MAX)%Z.
Proof.
  simpl. destruct (backlog w) as [|[x b] q]; [done|]. destruct (Z.leb_spec x INT_MAX); [|done].
  intros [= <- _ _]. done.
Qed.

Abbreviation DemoServer := (HeapTimer Z Timeout * Rest DemoWorld)%type.

Definition demo_initial : DemoServer := initial demo_epoller demo_world.

(** Two clients, one of them to be closed at 1060, the other at 1500. *)
Definition demo_one : DemoServer := (AddClient 60 7 1 demo_initial).2.
Definition demo_two : DemoServer := (AddClient 500 8 2 demo_one).2.

Lemma demo_one_inv : inv demo_one.
Proof.
  destruct (AddClient_keeps 60 demo_now ltac:(done) 7 1 ltac:(done) demo_initial (initial_inv _ _)) as [H|H];
    [|exact H]. vm_compute in H. discriminate.
Qed.

Lemma demo_two_inv : inv (demo_two.1, demo_two.2).
Proof.
  rewrite <-surjective_pairing.
  destruct (AddClient_keeps 500 demo_now ltac:(done) 8 2 ltac:(done) demo_one demo_one_inv) as [H|H];
    [|exact H]. vm_compute in H. discriminate.
Qed.

(** ** Witnesses *)

Abbreviation demo_fs := Connection.demo_fs.
Abbreviation demo_moved := (λ (_ : bool) (_ : str), @nil ascii).

(** A server that has accepted its client and queued a task for it. *)
Definition demo_waiting : DemoServer := (turn 60 5 (turn 60 5 (InitNetwork 8080 demo_initial).2).2).2.

Lemma server_invariant_witness :
  inv demo_waiting ∧ users_ demo_waiting.2 !! 7%Z = Some 0 ∧ tasks demo_waiting.2 = [ReceiveTask 0].
Proof.
  split; [|vm_compute; split; reflexivity].
  apply (server_invariant demo_fs map_to_list demo_moved (s!"www") 5 8080 60 demo_now ltac:(done) demo_accept).
  assert (∀ a s, action demo_fs map_to_list demo_moved (s!"www") 5 8080 60 a →
    reachable demo_fs map_to_list demo_moved (s!"www") 5 8080 60 s → (a s).1 = Done tt →
    reachable demo_fs map_to_list demo_moved (s!"www") 5 8080 60 (a s).2) as Hstep.
  { intros a s Ha Hs Hr. eapply (reachable_action _ _ _ _ _ _ _ a s _ (a s).1); [done|done| |by rewrite Hr].
    by destruct (a s). }
  unfold demo_waiting. apply Hstep; [constructor| |vm_compute; reflexivity].
  apply Hstep; [constructor| |vm_compute; reflexivity].
  apply Hstep; [constructor|constructor|vm_compute; reflexivity].
Defined.

Lemma client_added_witness : ∃ t' r',
  AddClient 60 7 1 demo_initial = (Done tt, (t', r')) ∧ inv (t', r') ∧ users_ r' = {[7%Z := 0]} ∧
  entries t' !! 7%Z = Some (1060%Z, Some CloseTimedOut).
Proof.
  pose proof (client_added 60 7 1 demo_initial.1 demo_initial.2 demo_now ltac:(done) (initial_inv _ _)
    ltac:(done) eq_refl) as H. simpl in H.
  destruct H as (t' & r' & Hr & _ & Hi & p & c & _ & _ & _ & _ & _ & Hu & _ & He & _).
  exists t', r'. split; [exact Hr|]. split; [exact Hi|].
  split; [transitivity (users_ (AddClient 60 7 1 demo_initial).2.2)|].
  { symmetry. exact (f_equal (λ x, users_ x.2.2) Hr). }
  { vm_compute. reflexivity. }
  rewrite He. vm_compute. reflexivity.
Defined.

Lemma client_closed_witness : ∃ t' r',
  CloseClient 7 (demo_two.1, demo_two.2) = (Done tt, (t', r')) ∧ inv (t', r') ∧ entries t' !! 7%Z = None ∧
  shut (world r') = [7%Z].
Proof.
  destruct (client_closed 7 0 demo_two.1 demo_two.2 demo_two_inv) as (c & t' & r' & line & Hc & Hr & Hi & Hu & He & Ht & _ & Hw).
  { vm_compute. reflexivity. }
  exists t', r'. split; [exact Hr|]. split; [exact Hi|]. split.
  - rewrite He. apply lookup_delete_eq.
  - cbv zeta in Hw. destruct (decide (0 ∈ _)) as [Hin|_] in Hw.
    + exfalso. vm_compute in Hin. by apply elem_of_nil in Hin.
    + destruct Hw as [_ ->]. vm_compute. reflexivity.
Defined.

Lemma clients_time_out_witness : ∃ t' r',
  @ToNextTick _ (scripted (λ _, 1100%Z)) 3 (demo_two.1, demo_two.2) = (Done 400%Z, (t', r')) ∧ inv (t', r') ∧
  users_ r' !! 7%Z = None ∧ users_ r' !! 8%Z = Some 1.
Proof.
  destruct (@clients_time_out _ (scripted (λ _, 1100%Z)) 1100 3 demo_two.1 demo_two.2 ltac:(done) demo_two_inv)
    as (d & t' & r' & Hr & Hi & He & Hu & _ & Hd & Hmin).
  { apply (bool_decide_unpack _). vm_compute. exact I. }
  assert (entries t' !! 8%Z = Some (1500%Z, Some CloseTimedOut)) as H8 by (rewrite He; vm_compute; reflexivity).
  assert (entries t' !! 7%Z = None) as H7 by (rewrite He; vm_compute; reflexivity).
  exists t', r'. split; [|split; [exact Hi|split]].
  - assert ((@ToNextTick _ (scripted (λ _, 1100%Z)) 3 (demo_two.1, demo_two.2)).1 = Done 400%Z) as H by (vm_compute; reflexivity).
    pose proof (f_equal fst Hr) as Hd1. cbn [fst] in Hd1.
    assert (Done d = Done 400%Z) as [= ->] by (rewrite <-Hd1; exact H). exact Hr.
  - rewrite Hu, decide_False; [done|]. rewrite H7. by intros [].
  - rewrite Hu, decide_True; [vm_compute; reflexivity|]. rewrite H8. by eexists.
Defined.

Definition quiet : DemoWorld := mkDemo 1000 [] [] [] false [] [].

Lemma idle_server_polls_witness :
  turn 60 1 (initial demo_epoller quiet) = (Done tt, initial demo_epoller quiet).
Proof.
  apply (idle_server_polls 60 1 Timer_empty (initial demo_epoller quiet).2 quiet); [apply initial_inv|done|lia| |done].
  vm_compute. discriminate.
Defined.

Lemma event_dispatched_witness : ∃ t', 
  dispatch 60 5 7 EPOLLIN (demo_two.1, demo_two.2) =
    (Done tt, (t', set_tasks (tasks demo_two.2 ++ [ReceiveTask 0]) (set_world (world demo_two.2) demo_two.2))) ∧
  entries t' = <[7%Z := (1060%Z, Some CloseTimedOut)]> (entries demo_two.1).
Proof.
  destruct (event_dispatched 60 5 7 EPOLLIN 0 1060 (Some CloseTimedOut) demo_two.1 demo_two.2 1000
    (world demo_two.2) ltac:(done) ltac:(done) demo_two_inv) as (t' & Hr & _ & He).
  - vm_compute. discriminate.
  - vm_compute. reflexivity.
  - vm_compute. reflexivity.
  - vm_compute. reflexivity.
  - vm_compute. reflexivity.
  - exists t'. split; [exact Hr|exact He].
Defined.

Lemma stale_event_witness :
  dispatch 60 5 9 EPOLLIN (demo_two.1, demo_two.2) = (Done tt, (demo_two.1, demo_two.2)) ∧
  (dispatch 60 5 9 EPOLLHUP (demo_two.1, demo_two.2)).1 = Crash.
Proof.
  assert (9%Z ≠ listener_ demo_two.2) as Hl by (vm_compute; discriminate).
  assert (users_ demo_two.2 !! 9%Z = None) as Hu by (vm_compute; reflexivity).
  split.
  - exact (stale_event 60 5 9 EPOLLIN demo_two.1 demo_two.2 demo_two_inv ltac:(done) Hl Hu).
  - exact (stale_event 60 5 9 EPOLLHUP demo_two.1 demo_two.2 demo_two_inv ltac:(done) Hl Hu).
Defined.

Lemma server_closed_witness : ∃ r',
  Server_Close (demo_two.1, demo_two.2) = (Done tt, (Timer_empty, r')) ∧ users_ r' = ∅ ∧ pool_closed r' = true.
Proof.
  destruct (server_closed demo_two.1 demo_two.2 demo_two_inv) as (r' & Hr & _ & _ & Hu & Hp & _).
  exists r'. split; [exact Hr|]. split; [exact Hu|exact Hp].
Defined.

Lemma network_started_witness :
  InitNetwork 8080 (initial demo_epoller quiet) = (Done tt, (Timer_empty, set_listener 4 quiet (initial demo_epoller quiet).2)).
Proof.
  rewrite (network_started 8080 0 Timer_empty (initial demo_epoller quiet).2); [reflexivity|lia|reflexivity|].
  intros w fd w' [= <- _]. lia.
Defined.

(** A server with one client, whose socket gives [l] and whose answers are [out]. *)
Definition demo_conn (keep : bool) (out : str) : Connection.Connection :=
  Connection.mkConnection 7 keep Buffer_default (Buffer_of_str out).2 Mapped_default.
Definition demo_rest (keep : bool) (out : str) (l : list (Z + str)) (refused : bool) : Rest DemoWorld :=
  mkRest 4 false [] demo_epoller {[7%Z := 0]} {[0 := mkClient (demo_conn keep out) (s!"10.0.0.7")]} []
    (mkDemo 1000 [] [] l refused [] []).

Ltac eval_in H t :=
  let v := eval vm_compute in t in
  let E := fresh in
  assert (t = v) as E by (vm_compute; reflexivity); rewrite E in H; clear E.

(** The input is read and an answer prepared; a client that is no longer known
    and fails to read ends the program, and so does a failing registration. *)
Lemma receive_task_witness :
  (∃ r', ReceiveFrom demo_fs map_to_list demo_moved (s!"www") 3 (Some 0)
    (Timer_empty, demo_rest false [] [inr demo_text; inl 11%Z] false) = (Done tt, (Timer_empty, r'))) ∧
  (ReceiveFrom demo_fs map_to_list demo_moved (s!"www") 3 (Some 0)
    (Timer_empty, demo_rest false [] [inl 104%Z] false)).1 = Crash ∧
  (ReceiveFrom demo_fs map_to_list demo_moved (s!"www") 3 (Some 0)
    (Timer_empty, demo_rest false [] [inl 11%Z] true)).1 = Crash.
Proof.
  assert (timer_ok Timer_empty) as Ht by (split; [apply Timer_empty_wf|done]).
  set (c := mkClient (demo_conn false []) (s!"10.0.0.7")).
  assert (∀ l b, clients (demo_rest false [] l b) !! 0 = Some c) as Hc by (intros; reflexivity).
  split; [|split].
  - pose proof (receive_task demo_fs map_to_list demo_moved (s!"www") 3 0 c Timer_empty _ demo_now Ht
      (Hc [inr demo_text; inl 11%Z] false) ltac:(done)) as H.
    match type of H with context [Connection.Receive ?a ?b ?c ?d ?x] => eval_in H (Connection.Receive a b c d x) end.
    cbv beta iota in H.
    match type of H with context [Connection.Process ?a ?b ?c ?d ?x] => eval_in H (Connection.Process a b c d x) end.
    eexists. exact H.
  - exact (receive_task demo_fs map_to_list demo_moved (s!"www") 3 0 c Timer_empty _ demo_now Ht
      (Hc [inl 104%Z] false) ltac:(done)).
  - exact (receive_task demo_fs map_to_list demo_moved (s!"www") 3 0 c Timer_empty _ demo_now Ht
      (Hc [inl 11%Z] true) ltac:(done)).
Defined.

(** The answer is sent; the client stays or is marked. *)
Lemma send_task_witness :
  (∃ r', SendTo demo_fs map_to_list demo_moved (s!"www") 3 (Some 0)
    (Timer_empty, demo_rest true (s!"hi") [] false) = (Done tt, (Timer_empty, r')) ∧ sent (world r') = s!"hi") ∧
  (SendTo demo_fs map_to_list demo_moved (s!"www") 3 (Some 0)
    (Timer_empty, demo_rest false (s!"hi") [] false)).1 = Crash.
Proof.
  assert (timer_ok Timer_empty) as Ht by (split; [apply Timer_empty_wf|done]).
  assert (∀ k o l b, clients (demo_rest k o l b) !! 0 = Some (mkClient (demo_conn k o) (s!"10.0.0.7"))) as Hc
    by (intros; reflexivity).
  split.
  - pose proof (send_task demo_fs map_to_list demo_moved (s!"www") 3 0 _ Timer_empty _ demo_now Ht
      (Hc true (s!"hi") [] false) ltac:(done)) as H.
    match type of H with context [Connection.Send ?a ?b ?c ?d ?x] => eval_in H (Connection.Send a b c d x) end.
    cbv beta iota in H.
    match type of H with context [Connection.KeepAlive ?x] => change (Connection.KeepAlive x) with true in H end.
    cbv beta iota in H.
    match type of H with context [Connection.Process ?a ?b ?c ?d ?x] => eval_in H (Connection.Process a b c d x) end.
    eexists. split; [exact H|vm_compute; reflexivity].
  - pose proof (send_task demo_fs map_to_list demo_moved (s!"www") 3 0 _ Timer_empty _ demo_now Ht
      (Hc false (s!"hi") [] false) ltac:(done)) as H.
    match type of H with context [Connection.Send ?a ?b ?c ?d ?x] => eval_in H (Connection.Send a b c d x) end.
    exact H.
Defined.

Lemma wait_reports_witness : ∃ e',
  Wait 2500000 (demo_epoller, demo_world) = (Done 1%N, (e', set_reports (tail (reports demo_world)) demo_world)) ∧
  FileDescriptor 0 (e', set_reports (tail (reports demo_world)) demo_world) =
    (Done 4%Z, (e', set_reports (tail (reports demo_world)) demo_world)).
Proof.
  destruct (proj2 (wait_reports demo_epoller demo_world 2500000 ltac:(done)) ltac:(done)) as (e' & Hr & _ & Hi);
    [done|].
  exists e'. split; [exact Hr|]. exact (proj1 (Hi 0 4%Z EPOLLIN eq_refl)).
Defined.
