(* ===== verification/Race.v ===== *)
(** A tick of the timer against a worker ([include/containers/heap_timer.h],
    [include/web_server.h]).  [Interleave] takes [ToNextTick] as one step.  The main
    thread calls it without [mtx_], so a worker that marks its client, which does
    lock, can come between any two of its accesses to the timer.  Here one round of
    the loop of [Tick] is three steps, the look at the front node, [Pop] and the
    call, and the stages of one task, those of [Interleave], go on at any of these
    places.  Left alone, a round does what [WebServer] says; with a worker that marks
    the expiring client between the look and [Pop], another client leaves the timer, and
    with one that comes between [Pop] and the call, the program stops. *)

From S2P Require Import Prelude Util Buffer Epoller HeapTimer LogField.
From S2P Require Connection.
From S2P Require Import WebServer ServerInvariant OneTask Interleave ServerSpec.

Section Race.
Context {W : Type} `{!Kernel W}.
Context (fs : FileSystem) (iter : Http.Parameters → list (str * str)) (moved : bool → str → str).
Context (root_dir : str) (fuel : nat) (alive_time_ : Z).

Abbreviation Timer := (HeapTimer Z Timeout).
Abbreviation Server := (Timer * Rest W)%type.
Abbreviation Node := (HeapTimer.Node Z Timeout).
Implicit Types (s : Server) (r : Rest W) (t : Timer).

(** * A round of [Tick] *)

(** Where the main thread is: before the look, or with the callback and the key
    that it has taken out of the front node, before or after [Pop]; or behind the
    loop. *)
Inductive Place :=
| Looking
| Found (callback : option Timeout) (key : Z)
| Taken (callback : option Timeout) (key : Z)
| Ticked.

(** [std::move(node.callback)] leaves the function of the node empty. *)
Definition move_callback (idx : N) : M Timer (option Timeout) :=
  n ← node_at idx;
  set_node idx (mkNode (key n) (expiration n) None);;
  mret (callback n).

(** The condition of the loop, and its body before [Pop]. *)
Definition find_expired : M Server Place :=
  e ← on_timer Empty;
  if e : bool then mret Ticked
  else
    n ← on_timer (node_at 0);
    x ← Expired server_now n;
    if x : bool then
      callback ← on_timer (move_callback 0);
      mret (Found callback (key n))
    else mret Ticked.

Definition tick_step (pl : Place) : M Server Place :=
  match pl with
  | Looking => find_expired
  | Found callback key => on_timer Pop;; mret (Taken callback key)
  | Taken callback key =>
      invoke_callback on_timeout (log_line Error) callback key;; mret Looking
  | Ticked => mret Ticked
  end.

(** The main thread in its tick and the worker of the task [tk]. *)
Inductive racing (tk : Task) : Place * Stage * Server → Place * Stage * Server → Prop :=
| race_main pl pl' st s s' :
    tick_step pl s = (Done pl', s') → racing tk (pl, st, s) (pl', st, s')
| race_worker pl st st' s s' :
    st ≠ Finished → advance fs iter moved root_dir fuel tk st s = (Done st', s') →
    racing tk (pl, st, s) (pl, st', s').

(** A client that is still a user but that no timer node stands for. *)
Definition lost (fd : Z) (s : Server) : Prop :=
  ∃ p c, users_ s.2 !! fd = Some p ∧ clients s.2 !! p = Some c ∧
    Connection.socket_ (conn c) = fd ∧ entries s.1 !! fd = None.

(** * Lemmas *)

Lemma lost_not_inv fd s : lost fd s → ¬ inv s.
Proof.
  intros (p & c & Hp & _ & _ & He) (_ & _ & Hdom & _).
  apply not_elem_of_dom in He. rewrite <-Hdom in He. by apply He, (elem_of_dom_2 _ _ p).
Qed.

(** The look at an expired front node. *)
Lemma find_run t r m v w :
  wf t → node_of t 0 = Some m → sys_now (world r) = (v, w) → (expiration m ≤ v)%Z →
  ∃ t1, find_expired (t, r) = (Done (Found (callback m) (key m)), (t1, set_world w r)) ∧ wf t1 ∧
    node_of t1 0 = Some (mkNode (key m) (expiration m) None) ∧
    entries t1 = <[key m := (expiration m, None)]> (entries t).
Proof.
  intros [Hl Hh] Hm Hn Hx. set (m' := mkNode (key m) (expiration m) None : Node).
  exists (replaced_at 0 m' t). split_and!.
  - unfold find_expired. mrun (on_timer_ok _ t r _ _ (Empty_ok t Hl)).
    rewrite bool_decide_eq_false_2.
    2: { intros He. unfold node_of in Hm. by rewrite He in Hm. }
    mrun (on_timer_ok _ t r _ _ (node_at_ok t 0 m Hm)).
    rewrite (bind_done _ _ _ true (t, set_world w r)).
    2: { unfold Expired, read_clock, mbind, M_bind. unfold server_now. simpl. rewrite Hn.
         unfold mret, M_ret. by rewrite (proj2 (Z.leb_le _ _)). }
    assert (returns (move_callback 0) t (callback m) (replaced_at 0 m' t)) as Hmv.
    { unfold returns, move_callback. mrun (node_at_ok t 0 m Hm). mrun (set_node_ok t 0 m'). done. }
    by mrun (on_timer_ok _ t (set_world w r) _ _ Hmv).
  - split; [by apply (replaced_linked t Hl 0 m m')|].
    assert (∀ j, ex (replaced_at 0 m' t) j = ex t j) as Hex.
    { intros j. rewrite (ex_replaced t 0 m m' Hm). case_decide; [subst j|done]. by rewrite (ex_node _ _ _ Hm). }
    intros j Hj. rewrite (len_replaced t 0 m') in Hj. rewrite !Hex. by apply Hh.
  - rewrite (node_of_replaced t 0 m m' Hm). by rewrite decide_True.
  - by apply (entries_replaced t Hl 0 m m').
Qed.

(** The look when there is nothing to close. *)
Lemma find_none t r : wf t →
  (∃ r', find_expired (t, r) = (Done Ticked, (t, r')) ∧ ∃ w, r' = set_world w r) ∨
  ∃ m, node_of t 0 = Some m ∧ (expiration m ≤ (sys_now (world r)).1)%Z.
Proof.
  intros [Hl _]. destruct (decide (nodes_ t = [])) as [He|He].
  { left. exists r. split; [|exists (world r); by destruct r]. unfold find_expired.
    mrun (on_timer_ok _ t r _ _ (Empty_ok t Hl)). by rewrite bool_decide_eq_true_2. }
  destruct (node_of_is_Some t 0) as [m Hm]; [destruct (nodes_ t); [done|unfold len; simpl; lia]|].
  destruct (sys_now (world r)) as [v w] eqn:Hn. destruct (Z.leb_spec (expiration m) v) as [Hx|Hx]; [right; by exists m|].
  left. exists (set_world w r). split; [|by exists w]. unfold find_expired.
  mrun (on_timer_ok _ t r _ _ (Empty_ok t Hl)). rewrite bool_decide_eq_false_2 by done.
  mrun (on_timer_ok _ t r _ _ (node_at_ok t 0 m Hm)).
  rewrite (bind_done _ _ _ false (t, set_world w r)); [done|].
  unfold Expired, read_clock, mbind, M_bind. unfold server_now. simpl. rewrite Hn.
  unfold mret, M_ret. by rewrite (proj2 (Z.leb_gt _ _)).
Qed.

Lemma pop_ok t r m callback k :
  wf t → nonneg t → node_of t 0 = Some m →
  ∃ t', tick_step (Found callback k) (t, r) = (Done (Taken callback k), (t', r)) ∧ wf t' ∧
    entries t' = delete (HeapTimer.key m) (entries t).
Proof.
  intros Hwf Hnn Hm. destruct (Pop_ok t m Hwf Hnn Hm) as (t' & Hr & Hwf' & He).
  exists t'. split_and!; [|done|done]. unfold tick_step. by mrun (on_timer_ok _ t r _ _ Hr).
Qed.

Lemma call_ok t r fd p c :
  wf t → nonneg t → (0 ≤ fd)%Z → users_ r !! fd = Some p → clients r !! p = Some c →
  ∃ t' r', tick_step (Taken (Some CloseTimedOut) fd) (t, r) = (Done Looking, (t', r')) ∧
    wf t' ∧ entries t' = delete fd (entries t) ∧ users_ r' = delete fd (users_ r) ∧
    tasks r' = tasks r ∧ clients r' = (if shared p r then clients r else delete p (clients r)).
Proof.
  intros Hwf Hnn Hfd Hp Hc.
  destruct (on_timeout_wf fd p c t r Hwf Hnn Hfd Hp Hc) as (t' & r' & Hr & Hwf' & He & Hu & Htk & _ & Hcs).
  exists t', r'. split; [|by split_and!]. unfold tick_step.
  by mrun (invoke_callback_ok on_timeout (log_line Error) CloseTimedOut fd t r _ _ _ Hr (or_introl eq_refl)).
Qed.

(** A round that has removed the node of its client and calls: the server is
    consistent again when it was so with the node. *)
Lemma call_restores t0 t r k :
  inv (t0, r) → wf t → is_Some (entries t0 !! k) → entries t = delete k (entries t0) →
  ∃ t' r', tick_step (Taken (Some CloseTimedOut) k) (t, r) = (Done Looking, (t', r')) ∧ inv (t', r') ∧
    users_ r' = delete k (users_ r).
Proof.
  intros ((Hwf0 & Hrd) & Hok & Hdom & Htk) Hwf Hk He. simpl in *.
  assert (is_Some (users_ r !! k)) as [p Hp] by (apply elem_of_dom; rewrite Hdom; by apply elem_of_dom).
  destruct (Hok k p Hp) as ([Hfd _] & c & Hc & _).
  assert (ready (entries t)) as Hrd' by (rewrite He; by apply ready_delete).
  destruct (call_ok t r k p c Hwf (ready_nonneg t (proj1 Hwf) Hrd') Hfd Hp Hc)
    as (t' & r' & Hr & Hwf' & He' & Hu' & Htk' & Hcs').
  rewrite He, delete_delete_eq in He'. exists t', r'. split; [exact Hr|]. split; [|exact Hu'].
  unfold inv. simpl. split; [split; [done|rewrite He'; by apply ready_delete]|]. split_and!.
  - apply (users_ok_delete r r' k p Hok Hp Hu'). rewrite Hcs'. destruct (shared p r); auto.
  - by rewrite Hu', He', !dom_delete_L, Hdom.
  - by apply (tasks_ok_release r r' p Htk).
Qed.

Section Clock.
Context (T : Z) (Hnow : ∀ w, sys_now w = (T, w)).

Lemma find_ok t r m :
  wf t → node_of t 0 = Some m → (expiration m ≤ T)%Z →
  ∃ t1, find_expired (t, r) = (Done (Found (callback m) (key m)), (t1, r)) ∧ wf t1 ∧
    node_of t1 0 = Some (mkNode (key m) (expiration m) None) ∧
    entries t1 = <[key m := (expiration m, None)]> (entries t).
Proof.
  intros Hwf Hm Hx. destruct (find_run t r m T (world r) Hwf Hm (Hnow _) Hx) as (t1 & Hr & Hrest).
  exists t1. split; [|exact Hrest]. rewrite Hr. by destruct r.
Qed.

(** The worker marks the client of its task, wherever the main thread is. *)
Lemma mark_ok tk t r c e cb :
  wf t → clients r !! task_client tk = Some c → (0 ≤ Connection.socket_ (conn c))%Z →
  entries t !! Connection.socket_ (conn c) = Some (e, cb) →
  ∃ t', mark (Some (task_client tk)) (t, r) = (Done Finished, (t', r)) ∧ wf t' ∧
    entries t' = <[Connection.socket_ (conn c) := (T, cb)]> (entries t).
Proof.
  intros Hwf Hc Hfd He.
  destruct (Mark_wf _ e cb t r T (world r) Hwf Hfd (Hnow _) He) as (t' & Hr & Hwf' & He').
  replace (set_world (world r) r) with r in Hr by (by destruct r).
  exists t'. split_and!; [|done|done]. unfold mark, noexcept.
  rewrite (bind_done _ _ _ _ _ (Socket_ok _ c (t, r) Hc)). by rewrite (bind_done _ _ _ _ _ Hr).
Qed.

(** The client that the front node stands for. *)
Lemma front_client t r m :
  inv (t, r) → node_of t 0 = Some m →
  ∃ p c, users_ r !! key m = Some p ∧ clients r !! p = Some c ∧ Connection.socket_ (conn c) = key m ∧
    (0 ≤ key m)%Z ∧ callback m = Some CloseTimedOut ∧
    entries t !! key m = Some (expiration m, Some CloseTimedOut).
Proof.
  intros ((Hwf & Hrd) & Hok & Hdom & _) Hm. simpl in *.
  destruct (ready_node t m (proj1 Hwf) Hrd Hm) as [[] Hcb].
  assert (entries t !! key m = Some (expiration m, Some CloseTimedOut)) as He.
  { rewrite <-Hcb. apply entries_Some, in_nodes; [apply Hwf|]. exists 0%N. by destruct m. }
  assert (is_Some (users_ r !! key m)) as [p Hp].
  { apply elem_of_dom. rewrite Hdom. by eapply elem_of_dom_2. }
  destruct (Hok _ p Hp) as (Hfd & c & Hc & Hs). exists p, c. split_and!; try done. apply Hfd.
Qed.

Lemma found_nonneg t t1 m :
  wf t → ready (entries t) → node_of t 0 = Some m →
  entries t1 = <[key m := (expiration m, None)]> (entries t) → wf t1 → nonneg t1.
Proof.
  intros Hwf Hrd Hm He1 Hwf1. apply nonneg_entries; [apply Hwf1|].
  rewrite He1. intros k v [[_ <-]|[_ Hk]]%lookup_insert_Some.
  - simpl. by apply (ready_nonneg t (proj1 Hwf) Hrd), in_nodes; exists 0%N.
  - apply (Hrd k v Hk).
Qed.

(** A round that no worker meets closes the client of the front node, and the
    server stays consistent. *)
Lemma tick_alone tk st t r m :
  inv (t, r) → node_of t 0 = Some m → (expiration m ≤ T)%Z →
  ∃ t' r', rtc (racing tk) (Looking, st, (t, r)) (Looking, st, (t', r')) ∧ inv (t', r') ∧
    users_ r' = delete (HeapTimer.key m) (users_ r).
Proof.
  intros Hinv Hm Hx. destruct (front_client t r m Hinv Hm) as (_ & _ & _ & _ & _ & _ & Hcb & He).
  pose proof (proj1 Hinv) as [Hwf Hrd]. simpl in Hwf, Hrd.
  destruct (find_ok t r m Hwf Hm Hx) as (t1 & Hr1 & Hwf1 & Hm1 & He1).
  destruct (pop_ok t1 r _ (callback m) (key m) Hwf1 (found_nonneg t t1 m Hwf Hrd Hm He1 Hwf1) Hm1)
    as (t2 & Hr2 & Hwf2 & He2).
  rewrite He1, delete_insert_eq in He2.
  destruct (call_restores t t2 r (key m) Hinv Hwf2 ltac:(by eexists) He2) as (t' & r' & Hr3 & Hinv' & Hu').
  exists t', r'. split; [|by split].
  eapply rtc_l; [eapply race_main, Hr1|]. eapply rtc_l; [eapply race_main, Hr2|]. rewrite Hcb.
  apply rtc_once. eapply race_main, Hr3.
Qed.

(** A worker that comes between [Pop] and the call stops the program: its client is
    still a user, but its node is gone. *)
Lemma mark_behind_pop_crashes tk t r m :
  inv (t, r) → node_of t 0 = Some m → (expiration m ≤ T)%Z → users_ r !! key m = Some (task_client tk) →
  ∃ t', rtc (racing tk) (Looking, Failed (Some (task_client tk)), (t, r))
      (Taken (callback m) (key m), Failed (Some (task_client tk)), (t', r)) ∧
    (advance fs iter moved root_dir fuel tk (Failed (Some (task_client tk))) (t', r)).1 = Crash.
Proof.
  intros Hinv Hm Hx Hpm. destruct (front_client t r m Hinv Hm) as (p & c & Hp & Hc & Hs & Hfd & _).
  simplify_eq. pose proof Hinv as ((Hwf & Hrd) & _). simpl in Hwf, Hrd.
  destruct (find_ok t r m Hwf Hm Hx) as (t1 & Hr1 & Hwf1 & Hm1 & He1).
  destruct (pop_ok t1 r _ (callback m) (key m) Hwf1 (found_nonneg t t1 m Hwf Hrd Hm He1 Hwf1) Hm1)
    as (t2 & Hr2 & Hwf2 & He2).
  exists t2. split.
  - eapply rtc_l; [eapply race_main, Hr1|]. apply rtc_once. eapply race_main, Hr2.
  - pose proof (Mark_unknown (key m) t2 r Hwf2 ltac:(by rewrite He2, lookup_delete_eq)) as Hcr.
    unfold advance, mark, noexcept. rewrite (bind_done _ _ _ _ _ (Socket_ok _ c (t2, r) Hc)), Hs.
    unfold mbind, M_bind. by destruct (MarkClientAsToBeClosed (key m) (t2, r)) as [[] ?].
Qed.

(** The worker comes between the look and [Pop]; the front node is then another
    one. *)
Lemma marked_behind tk t r m t1 c fd e cb :
  inv (t, r) → node_of t 0 = Some m → entries t !! fd = Some (e, cb) → fd ≠ key m → (e < T)%Z →
  wf t1 → entries t1 = <[key m := (expiration m, None)]> (entries t) →
  users_ r !! key m = Some (task_client tk) → clients r !! task_client tk = Some c →
  Connection.socket_ (conn c) = key m →
  ∃ t2 t3 other v, other ≠ key m ∧ entries t !! other = Some v ∧
    mark (Some (task_client tk)) (t1, r) = (Done Finished, (t2, r)) ∧
    tick_step (Found (callback m) (key m)) (t2, r) = (Done (Taken (callback m) (key m)), (t3, r)) ∧
    wf t3 ∧ nonneg t3 ∧ entries t3 = delete other (<[key m := (T, None)]> (entries t)).
Proof.
  intros Hinv Hm He Hne Hlt Hwf1 He1 Hp Hc Hs.
  destruct (front_client t r m Hinv Hm) as (_ & _ & _ & _ & _ & Hfd & _ & Hem).
  pose proof (proj1 Hinv) as [_ Hrd]. simpl in Hrd.
  destruct (mark_ok tk t1 r c (expiration m) None Hwf1 Hc) as (t2 & Hr2 & Hwf2 & He2).
  { by rewrite Hs. } { by rewrite Hs, He1, lookup_insert_eq. }
  rewrite Hs, He1, insert_insert_eq in He2.
  assert (entries t2 !! fd = Some (e, cb)) as Hfe by (by rewrite He2, lookup_insert_ne).
  assert (map_Forall (λ _ v, (0 ≤ v.1)%Z) (entries t2)) as Hnn2.
  { rewrite He2. apply map_Forall_insert_2; [|intros k v Hk; apply (Hrd k v Hk)].
    simpl. pose proof (proj1 (Hrd fd _ He)). simpl in *. lia. }
  destruct (entries_find t2 fd e cb (proj1 Hwf2) Hfe) as (j & n & _ & Hj & _).
  destruct (node_of_is_Some t2 0) as [m2 Hm2]; [pose proof (node_of_lt _ _ _ Hj); lia|].
  pose proof (entries_root t2 m2 fd _ Hwf2 Hm2 Hfe) as Hroot. simpl in Hroot.
  assert (entries t2 !! key m2 = Some (expiration m2, callback m2)) as Hk2.
  { apply entries_Some, in_nodes; [apply Hwf2|]. exists 0%N. by destruct m2. }
  assert (key m2 ≠ key m) as Hother.
  { intros Hk. rewrite Hk, He2, lookup_insert_eq in Hk2. simplify_eq. lia. }
  destruct (pop_ok t2 r m2 (callback m) (key m) Hwf2 (proj2 (nonneg_entries t2 (proj1 Hwf2)) Hnn2) Hm2)
    as (t3 & Hr3 & Hwf3 & He3).
  exists t2, t3, (key m2), (expiration m2, callback m2). split_and!; try done.
  - by rewrite He2, lookup_insert_ne in Hk2.
  - apply nonneg_entries; [apply Hwf3|]. rewrite He3. by apply map_Forall_delete.
  - by rewrite He3, He2.
Qed.

(** What becomes of a lost client: its data is ignored, and the event of its
    hang-up hits an assertion. *)
Lemma lost_events fd t r :
  wf t → (0 ≤ fd)%Z → lost fd (t, r) →
  OnReceiveEvent alive_time_ fd (t, r) = (Done tt, (t, r)) ∧
  OnSendEvent alive_time_ fd (t, r) = (Done tt, (t, r)) ∧
  (OnCloseEvent fd (t, r)).1 = Crash.
Proof.
  intros Hwf Hfd (_ & _ & _ & _ & _ & He). simpl in He.
  pose proof (Extend_unknown alive_time_ fd t r Hwf Hfd He) as Hx. split_and!.
  - unfold OnReceiveEvent. by rewrite (bind_done _ _ _ _ _ Hx).
  - unfold OnSendEvent. by rewrite (bind_done _ _ _ _ _ Hx).
  - by apply Mark_unknown.
Qed.

(** C39: A worker that marks the client of the front node between the look of [Tick] and
    its [Pop], when the time of another client has passed as well, makes [Pop] remove
    the node of another client.  The expired client is closed, and the other one
    stays a user without a timer node: it never times out, its data is ignored, and
    its hang-up stops the program. *)
Theorem tick_race_loses_client tk t r m fd e cb :
  inv (t, r) → node_of t 0 = Some m → (expiration m ≤ T)%Z →
  tk ∈ tasks r → users_ r !! key m = Some (task_client tk) →
  fd ≠ key m → entries t !! fd = Some (e, cb) → (e < T)%Z →
  ∃ other t' r',
    rtc (racing tk) (Looking, Failed (Some (task_client tk)), (t, r)) (Looking, Finished, (t', r')) ∧
    users_ r' = delete (key m) (users_ r) ∧ other ≠ key m ∧ lost other (t', r') ∧ ¬ inv (t', r') ∧
    OnReceiveEvent alive_time_ other (t', r') = (Done tt, (t', r')) ∧
    OnSendEvent alive_time_ other (t', r') = (Done tt, (t', r')) ∧
    (OnCloseEvent other (t', r')).1 = Crash.
Proof.
  intros Hinv Hm Hx Htk Hpm Hne He Hlt.
  destruct (front_client t r m Hinv Hm) as (p & c & Hp & Hc & Hs & Hfd & Hcb & _). simplify_eq.
  pose proof Hinv as ((Hwf & _) & Hok & Hdom & _). simpl in *.
  destruct (find_ok t r m Hwf Hm Hx) as (t1 & Hr1 & Hwf1 & _ & He1).
  destruct (marked_behind tk t r m t1 c fd e cb) as
    (t2 & t3 & other & v & Hno & Hv & Hr2 & Hr3 & Hwf3 & Hnn3 & He3); try done.
  destruct (call_ok t3 r (key m) (task_client tk) c Hwf3 Hnn3 Hfd Hpm Hc)
    as (t' & r' & Hr4 & Hwf' & He' & Hu' & _ & Hcs').
  assert (is_Some (users_ r !! other)) as [p' Hp'].
  { apply elem_of_dom. rewrite Hdom. by eapply elem_of_dom_2. }
  destruct (Hok other p' Hp') as ([Hofd _] & c' & Hc' & Hs').
  assert (lost other (t', r')) as Hlost.
  { exists p', c'. simpl. split_and!; [by rewrite Hu', lookup_delete_ne| |done|].
    - rewrite Hcs'. case_match; [done|]. rewrite lookup_delete_ne; [done|]. congruence.
    - by rewrite He', He3, lookup_delete_ne, lookup_delete_eq. }
  exists other, t', r'. split; [|split_and!]; [|done|done|done|by eapply lost_not_inv|by apply lost_events..].
  rewrite Hcb in *. eapply rtc_l; [eapply race_main, Hr1|].
  eapply rtc_l; [by eapply race_worker, Hr2|]. eapply rtc_l; [eapply race_main, Hr3|].
  apply rtc_once. eapply race_main, Hr4.
Qed.
End Clock.
End Race.

(** * A run *)

#[local] Existing Instance demo_kernel.

(** Two clients, to be closed at 1060 and at 1500, and a task of the first. *)
Definition demo_raced : DemoServer := (OnReceiveEvent 60 7 demo_two).2.

Lemma demo_raced_inv : inv (demo_raced.1, demo_raced.2).
Proof.
  rewrite <-surjective_pairing.
  destruct (OnReceiveEvent_keeps 60 demo_now ltac:(done) 7 demo_two) as [H|H]; [|vm_compute in H; discriminate|exact H].
  rewrite (surjective_pairing demo_two). exact demo_two_inv.
Qed.

(** The clock shows 2000. *)
Definition demo_late : Kernel DemoWorld := scripted (λ _, 2000%Z).

Lemma tick_race_loses_client_witness : ∃ s,
  rtc (@racing _ demo_late demo_fs map_to_list demo_moved (s!"www") 5 (ReceiveTask 0))
    (Looking, Failed (Some 0), (demo_raced.1, demo_raced.2)) (Looking, Finished, s) ∧
  lost 8 s ∧ users_ s.2 !! 7%Z = None.
Proof.
  destruct (@tick_race_loses_client _ demo_late demo_fs map_to_list demo_moved (s!"www") 5 60 2000
    ltac:(done) (ReceiveTask 0) demo_raced.1 demo_raced.2 (mkNode 7%Z 1060%Z (Some CloseTimedOut)) 8
    1500 (Some CloseTimedOut)) as (other & t' & r' & Hrun & Hu & Hne & Hlost & _).
  - exact demo_raced_inv.
  - vm_compute. reflexivity.
  - simpl. lia.
  - apply list_elem_of_lookup. exists 0. vm_compute. reflexivity.
  - vm_compute. reflexivity.
  - done.
  - vm_compute. reflexivity.
  - lia.
  - exists (t', r'). split; [exact Hrun|]. cbn [key snd] in *. split; [|by rewrite Hu, lookup_delete_eq].
    assert (users_ demo_raced.2 = {[7%Z := 0; 8%Z := 1]}) as Hd by (vm_compute; reflexivity).
    destruct Hlost as (p & c & Hp & Hrest). pose proof Hp as Hp'.
    cbn [snd] in Hp'. rewrite Hu, Hd, lookup_delete_ne, lookup_insert_ne in Hp' by done.
    apply lookup_singleton_Some in Hp' as [<- _]. exists p, c. exact (conj Hp Hrest).
Defined.
