(* ===== verification/Ticking.v ===== *)
(** The threads of the server with the ticks of the timer in steps of their own
    ([include/web_server.h], [include/containers/heap_timer.h]).  [Interleave] takes a
    call of [ToNextTick], which does not lock [mtx_], as one step; here the main thread
    goes through its loop by the steps of [Race], and the workers go on in between.
    What they share stays consistent as long as no worker marks its client within a
    round of the loop; [Race] shows what happens otherwise. *)

From S2P Require Import Prelude Util Buffer Epoller HeapTimer LogField.
From S2P Require Connection.
From S2P Require Import WebServer ServerInvariant OneShot OneTask Interleave Apart SharedState Race.

(** * Computations that leave the timer alone *)

Section TimerFree.
Context {W : Type} `{!Kernel W}.
Context (fs : FileSystem) (iter : Http.Parameters → list (str * str)) (moved : bool → str → str).
Context (root_dir : str) (fuel : nat).
Abbreviation Timer := (HeapTimer Z Timeout).
Abbreviation Server := (Timer * Rest W)%type.

(** They neither read nor write it. *)
Definition timer_free {A} (m : M Server A) : Prop :=
  ∀ t t0 r x t' r', m (t, r) = (x, (t', r')) → t' = t ∧ m (t0, r) = (x, (t0, r')).

Lemma timer_free_rest {A} (m : M Server A) (g : Rest W → outcome A * Rest W) :
  (∀ t r, m (t, r) = let '(x, r') := g r in (x, (t, r'))) → timer_free m.
Proof. intros Hm t t0 r x t' r'. rewrite !Hm. destruct (g r) as [y r1]. by intros [= <- <- <-]. Qed.

Lemma timer_free_bind {A B} (m : M Server A) (f : A → M Server B) :
  timer_free m → (∀ a, timer_free (f a)) → timer_free (m ≫= f).
Proof.
  intros Hm Hf t t0 r x t' r'. unfold mbind, M_bind. destruct (m (t, r)) as [y [t1 r1]] eqn:H1.
  destruct (Hm _ t0 _ _ _ _ H1) as [-> ->]. destruct y as [a|e| |]; [apply Hf|by intros [= <- <- <-]..].
Qed.

Lemma timer_free_try {A} (m : M Server A) h :
  timer_free m → (∀ e, timer_free (h e)) → timer_free (try_catch m h).
Proof.
  intros Hm Hh t t0 r x t' r'. unfold try_catch. destruct (m (t, r)) as [y [t1 r1]] eqn:H1.
  destruct (Hm _ t0 _ _ _ _ H1) as [-> ->]. destruct y as [a|e| |]; [by intros [= <- <- <-]|apply Hh|by intros [= <- <- <-]..].
Qed.

Lemma timer_free_noexcept {A} (m : M Server A) : timer_free m → timer_free (noexcept m).
Proof.
  intros Hm t t0 r x t' r'. unfold noexcept. destruct (m (t, r)) as [y [t1 r1]] eqn:H1.
  destruct (Hm _ t0 _ _ _ _ H1) as [-> ->]. destruct y; by intros [= <- <- <-].
Qed.

Lemma timer_free_mret {A} (a : A) : timer_free (mret a : M Server A).
Proof. by apply (timer_free_rest _ (λ r, (Done a, r))). Qed.

Lemma timer_free_deref {A} (o : option A) : timer_free (deref o : M Server A).
Proof. apply (timer_free_rest _ (λ r, (match o with Some a => Done a | None => Crash end, r))). by destruct o. Qed.

Lemma timer_free_Log l msg : timer_free (Log l msg : M Server unit).
Proof. by apply (timer_free_rest _ (λ r, (Done tt, log_line l msg r))). Qed.

Lemma timer_free_modify f : timer_free (modify (λ s, (s.1, f s.2)) : M Server unit).
Proof. by apply (timer_free_rest _ (λ r, (Done tt, f r))). Qed.

Lemma timer_free_on_epoller {A} (m : M (Epoller * W) A) : timer_free (on_epoller m).
Proof.
  apply (timer_free_rest _ (λ r, let '(x, e) := m (epoller_ r, world r) in (x, set_epoller e.1 e.2 r))).
  intros t r. unfold on_epoller, zoom. cbn [fst snd]. by destruct (m _).
Qed.

Lemma timer_free_client_at p : timer_free (client_at p : M Server Client).
Proof.
  apply (timer_free_rest _ (λ r, (match p ≫= (λ i, clients r !! i) with Some c => Done c | None => Crash end, r))).
  intros t r. unfold client_at. mstep. cbn [snd]. by destruct (p ≫= _).
Qed.

Lemma timer_free_run_client {A} i c (m : M (Connection.Connection * W) A) : timer_free (run_client i c m).
Proof.
  apply (timer_free_rest _ (λ r, let '(x, (c', w)) := m (conn c, world r) in
    (x, set_world w (set_clients (<[i := mkClient c' (ip_address c)]> (clients r)) r)))).
  intros t r. unfold run_client. cbn [fst snd]. by destruct (m _) as [x [c' w]].
Qed.
End TimerFree.

Create HintDb timer_free.
Ltac free_step :=
  match goal with
  | |- timer_free (noexcept _) => apply timer_free_noexcept
  | |- timer_free (try_catch _ _) => apply timer_free_try; [|intros ?]
  | |- timer_free (_ ≫= _) => apply timer_free_bind; [|intros ?]
  | |- timer_free (match ?x with _ => _ end) => destruct x
  | |- timer_free _ => solve [auto with timer_free]
  end; cbv beta.
#[local] Hint Resolve timer_free_mret timer_free_deref timer_free_Log
  timer_free_modify timer_free_on_epoller timer_free_client_at timer_free_run_client : timer_free.

Section Stages.
Context {W : Type} `{!Kernel W}.
Context (fs : FileSystem) (iter : Http.Parameters → list (str * str)) (moved : bool → str → str).
Context (root_dir : str) (fuel : nat).
Abbreviation Server := (HeapTimer Z Timeout * Rest W)%type.

Lemma timer_free_on_client {A} p (m : M (Connection.Connection * W) A) : timer_free (on_client p m : M Server A).
Proof. unfold on_client. repeat free_step. Qed.

#[local] Hint Resolve timer_free_on_client : timer_free.

(** The stages of a task that do not mark the client. *)
Lemma timer_free_advance tk st :
  (∀ c, st ≠ Failed c) → timer_free (advance fs iter moved root_dir fuel tk st : M Server Stage).
Proof.
  intros Hst. destruct st as [| |ip ready|c|]; [| | |by destruct (Hst c)|]; cbn [advance];
    unfold handle, arm, client_Receive, client_Send, client_Process, IPAddress, Socket, KeepAlive;
    try destruct tk; repeat free_step.
Qed.

(** The end of a task, which may destroy the connection. *)
Lemma timer_free_leave i tk : timer_free (leave i tk : M Server unit).
Proof.
  unfold leave, drop_task. apply timer_free_bind; [exact (timer_free_modify (λ r, set_tasks (delete i (tasks r)) r))|]. intros [].
  assert (timer_free (destroy_client (task_client tk) : M Server unit)) as Hd.
  { unfold destroy_client. free_step; [auto with timer_free|].
    exact (timer_free_modify (λ r, set_clients (delete (task_client tk) (clients r)) r)). }
  intros t t0 r x t' r'. mstep. mstep. cbn [snd]. destruct (_ || _); [by intros [= <- <- <-]|apply Hd].
Qed.
End Stages.

(** * The threads *)

Section Ticking.
Context {W : Type} `{!Kernel W}.
Context (fs : FileSystem) (iter : Http.Parameters → list (str * str)) (moved : bool → str → str).
Context (root_dir : str) (fuel : nat) (alive : Z).
Abbreviation Timer := (HeapTimer Z Timeout).
Abbreviation Server := (Timer * Rest W)%type.
Abbreviation step := (Interleave.step fs iter moved root_dir fuel alive).

(** [ToNextTick] behind its call of [Tick]. *)
Definition time_left : M Server Z :=
  e ← on_timer Empty;
  if negb e then
    n ← on_timer (node_at 0);
    v ← read_clock server_now;
    let interval := (expiration n - v)%Z in
    mret (if (0 <? interval)%Z then interval else 0%Z)
  else mret 0%Z.

(** The system of [Interleave]; [place] is where the main thread is in [Tick] when it
    is about to tick. *)
Record Threads := mkThreads { system : System W; place : Place }.

Inductive fine_step : option nat → Threads → Threads → Prop :=
| fine_tick s st pl pl' s' :
    pl ≠ Ticked → tick_step pl s = (Done pl', s') →
    fine_step None (mkThreads (mkSystem s st Ticking) pl) (mkThreads (mkSystem s' st Ticking) pl')
| fine_left s st time s' :
    time_left s = (Done time, s') →
    fine_step None (mkThreads (mkSystem s st Ticking) Ticked) (mkThreads (mkSystem s' st (Waiting time)) Looking)
| fine_main y y' :
    phase y ≠ Ticking → step None y y' → fine_step None (mkThreads y Looking) (mkThreads y' Looking)
| fine_worker i y y' pl :
    step (Some i) y y' → fine_step (Some i) (mkThreads y pl) (mkThreads y' pl).

(** The main thread is in a round: it has taken out a callback and not yet called it. *)
Definition in_round (pl : Place) : bool :=
  match pl with Found _ _ | Taken _ _ => true | _ => false end.

(** The step is not one of a worker that marks its client within a round. *)
Definition undisturbed (a : option nat) (y : Threads) : Prop :=
  match a with
  | Some i => in_round (place y) = true → ∀ c, stages (system y) !! i ≠ Some (Failed c)
  | None => True
  end.

(** The server after its constructor and [InitNetwork]; then the threads run. *)
Inductive fine_running (port : N) : Threads → Prop :=
| fine_running_start capacity w0 e w s :
    Epoller_create capacity w0 = (Done e, w) → InitNetwork port (initial e w) = (Done tt, s) →
    fine_running port (mkThreads (mkSystem s [] Ticking) Looking)
| fine_running_step a y y' :
    fine_running port y → undisturbed a y → fine_step a y y' → fine_running port y'.

(** What the threads find: the invariant of [WebServer], but for the client whose
    callback has been taken out, which loses its callback first, and then its node. *)
Definition consistent (pl : Place) (s : Server) : Prop :=
  wf s.1 ∧ users_ok s.2 ∧ tasks_ok s.2 ∧
  match pl with
  | Looking | Ticked => ready (entries s.1) ∧ dom (users_ s.2) = dom (entries s.1)
  | Found callback k => callback = Some CloseTimedOut ∧ k ∈ dom (users_ s.2) ∧
      ready (delete k (entries s.1)) ∧ dom (users_ s.2) = dom (entries s.1)
  | Taken callback k => callback = Some CloseTimedOut ∧ k ∈ dom (users_ s.2) ∧
      ready (entries s.1) ∧ dom (users_ s.2) ∖ {[k]} = dom (entries s.1)
  end.

(** * Lemmas *)

(** The same with a timer that still has the client: the one that the round began
    with. *)
Definition holds (pl : Place) (s : Server) : Prop :=
  match pl with
  | Looking | Ticked => inv s
  | Found callback k => callback = Some CloseTimedOut ∧ ∃ t0 e, inv (t0, s.2) ∧ wf s.1 ∧
      node_of s.1 0 = Some (mkNode k e None) ∧
      entries t0 !! k = Some (e, Some CloseTimedOut) ∧ entries s.1 = <[k := (e, None)]> (entries t0)
  | Taken callback k => callback = Some CloseTimedOut ∧ ∃ t0, inv (t0, s.2) ∧ wf s.1 ∧
      is_Some (entries t0 !! k) ∧ entries s.1 = delete k (entries t0)
  end.

Lemma holds_consistent pl s : holds pl s → consistent pl s.
Proof.
  assert (∀ s : Server, inv s → wf s.1 ∧ users_ok s.2 ∧ tasks_ok s.2 ∧ ready (entries s.1) ∧ dom (users_ s.2) = dom (entries s.1)) as Hinv.
  { intros s0 ((Hwf & Hrd) & Hu & Hd & Ht). by split_and!. }
  destruct pl as [|cb k|cb k|]; simpl; [apply Hinv| | |apply Hinv].
  - intros (-> & t0 & e & H0 & Hwf & _ & Hk & He). destruct (Hinv _ H0) as (_ & Hu & Ht & Hrd & Hd). simpl in *.
    split_and!; try done.
    + rewrite Hd. by eapply elem_of_dom_2.
    + rewrite He, delete_insert_eq. by apply ready_delete.
    + rewrite He, Hd, dom_insert_L. apply elem_of_dom_2 in Hk. set_solver.
  - intros (-> & t0 & H0 & Hwf & Hk & He). destruct (Hinv _ H0) as (_ & Hu & Ht & Hrd & Hd). simpl in *.
    split_and!; try done.
    + rewrite Hd. by apply elem_of_dom.
    + rewrite He. by apply ready_delete.
    + by rewrite He, Hd, dom_delete_L.
Qed.

(** What a worker or anything else does without the timer leaves this as it is. *)
Lemma holds_free {A} (m : M Server A) pl s a s' :
  timer_free m → keeps (λ s : Server, inv s) m → m s = (Done a, s') → holds pl s → holds pl s'.
Proof.
  intros Hf Hk Hm. destruct s as [t r], s' as [t' r'].
  assert (∀ t0, inv (t0, r) → inv (t0, r')) as Hinv.
  { intros t0 H0. destruct (Hf _ t0 _ _ _ _ Hm) as [_ H']. exact (keeps_done _ _ _ _ _ (Hk _ H0) H'). }
  destruct (Hf _ t _ _ _ _ Hm) as [-> _]. destruct pl as [|cb k|cb k|]; simpl; [apply Hinv| | |apply Hinv].
  - intros (-> & t0 & e & H0 & Hrest). split; [done|]. exists t0, e. split; [by apply Hinv|exact Hrest].
  - intros (-> & t0 & H0 & Hrest). split; [done|]. exists t0. split; [by apply Hinv|exact Hrest].
Qed.

(** A step of the main thread in [Tick]: nothing stops it. *)
Lemma holds_tick pl s : holds pl s → ∃ pl' s', tick_step pl s = (Done pl', s') ∧ holds pl' s'.
Proof.
  destruct s as [t r]. destruct pl as [|cb k|cb k|]; cbn [holds fst snd].
  - intros Hinv. pose proof (proj1 Hinv) as [Hwf _]. simpl in Hwf. cbn [tick_step].
    destruct (find_none t r Hwf) as [(r1 & Hf & w & ->)|(m & Hm & Hx)].
    { exists Ticked, (t, set_world w r). split; [done|]. by apply (inv_rest t r). }
    destruct (sys_now (world r)) as [v w] eqn:Hn.
    destruct (find_run t r m v w Hwf Hm Hn Hx) as (t1 & Hf & Hwf1 & Hm1 & He1).
    destruct (front_client t r m Hinv Hm) as (_ & _ & _ & _ & _ & _ & Hcb & He).
    eexists _, _. split; [exact Hf|]. split; [done|].
    exists t, (expiration m). split; [by apply (inv_rest t r)|]. by split_and!.
  - intros (-> & t0 & e & Hinv & Hwf & Hm & Hk & He). pose proof (proj1 Hinv) as [_ Hrd]. simpl in Hrd.
    assert (nonneg t) as Hnn.
    { apply nonneg_entries; [apply Hwf|]. rewrite He. apply map_Forall_insert_2.
      - simpl. apply (Hrd k _ Hk).
      - intros j x Hj. apply (Hrd j x Hj). }
    destruct (pop_ok t r _ (Some CloseTimedOut) k Hwf Hnn Hm) as (t2 & Hp & Hwf2 & He2).
    eexists _, _. split; [exact Hp|]. split; [done|]. exists t0. split; [done|]. split; [done|].
    split; [by eexists|]. simpl in He2 |- *. by rewrite He2, He, delete_insert_eq.
  - intros (-> & t0 & Hinv & Hwf & Hk & He).
    destruct (call_restores t0 t r k Hinv Hwf Hk He) as (t2 & r2 & Hc & Hinv2 & _).
    by exists Looking, (t2, r2).
  - intros H. by exists Ticked, (t, r).
Qed.

(** The rest of [ToNextTick] reads the timer and the clock. *)
Lemma time_left_keeps : keeps (λ s : Server, inv s) time_left.
Proof.
  pose proof (Empty_keeps (W := W)) as H1. pose proof (node_at_keeps (W := W)) as H2.
  pose proof (read_clock_keeps (W := W)) as H3.
  unfold time_left. repeat keep_step.
Qed.

Context (Hnow : ∀ w, (0 ≤ (sys_now w).1)%Z) (Halive : (0 ≤ alive)%Z).
Context (Haccept : ∀ l w fd a w', sys_accept l w = (inr (fd, a), w') → (fd ≤ INT_MAX)%Z).

Lemma holds_worker i y y' pl :
  undisturbed (Some i) (mkThreads y pl) → step (Some i) y y' → holds pl (server y) → holds pl (server y').
Proof.
  intros Hun Hst. inversion Hst as [s st ph j tk x x' s' Htk Hx Hne Hrun|s st ph j tk s' Htk Hx Hrun|]; subst; simpl in *.
  - pose proof (advance_keeps fs iter moved root_dir fuel Hnow tk x) as Hk.
    destruct (in_round pl) eqn:Hpl.
    + apply (holds_free (advance fs iter moved root_dir fuel tk x) pl s x' s'); [|done|done]. apply timer_free_advance. intros c ->. by apply (Hun eq_refl c).
    + intros H. destruct pl; try done; exact (keeps_done _ _ _ _ _ (Hk s H) Hrun).
  - apply (holds_free (leave i tk) pl s tt s'); [apply timer_free_leave|apply leave_keeps|done].
Qed.

Lemma fine_running_holds port y : fine_running port y → holds (place y) (server (system y)).
Proof.
  induction 1 as [capacity w0 e w s _ Hs|a y y' _ IH Hun Hst].
  - exact (keeps_done _ _ _ _ _ (InitNetwork_keeps port _ (initial_inv e w)) Hs).
  - destruct Hst as [s st pl pl' s' _ Hr|s st time s' Hr|y y' Hph Hst|i y y' pl Hst]; simpl in *.
    + destruct (holds_tick pl s IH) as (pl1 & s1 & Hr1 & H1). rewrite Hr1 in Hr. by injection Hr as <- <-.
    + exact (keeps_done _ _ _ _ _ (time_left_keeps s IH) Hr).
    + inversion Hst as [| |s st ph n ph' s' Hr]; subst.
      exact (keeps_done _ _ _ _ _ (main_step_keeps alive Hnow Halive Haccept n ph s IH) Hr).
    + by eapply holds_worker.
Qed.
End Ticking.

(** * Properties *)

(** C10: The shared state, with the parts of a tick in steps of their own: the look at
    the front node, which takes out the callback of an expired one, [Pop], the call of
    the callback, and the rest of [ToNextTick].  Whatever the kernel answers, and however the threads interleave, except that no
    worker marks its client within a round of [Tick], from the look at an expired front
    node to the end of its callback: the deadlines form a heap, each user's descriptor
    leads to a connection of that socket, the connection of every task still exists, and
    the users are exactly the keys of the timer, all with their callbacks.  Within a
    round this is so but for the one client that is about to be closed, which loses its
    callback and then its node; and nothing stops the main thread there.  Without the
    exception it is not so: see [Race.tick_race_loses_client]. *)
Theorem shared_state_consistent {W} `{!Kernel W} fs iter moved root_dir fuel alive port y :
  (∀ w, (0 ≤ (sys_now w).1)%Z) → (0 ≤ alive)%Z →
  (∀ l w fd a w', sys_accept l w = (inr (fd, a), w') → (fd ≤ INT_MAX)%Z) →
  fine_running fs iter moved root_dir fuel alive port y →
  consistent (place y) (server (system y)) ∧
  ∃ pl' s', tick_step (place y) (server (system y)) = (Done pl', s').
Proof.
  intros Hnow Halive Haccept Hy.
  pose proof (fine_running_holds fs iter moved root_dir fuel alive Hnow Halive Haccept port y Hy) as Hh.
  split; [by apply holds_consistent|]. destruct (holds_tick _ _ Hh) as (pl' & s' & Hr & _). by exists pl', s'.
Qed.

(** * A round with a worker in it *)

(** The step of the main thread, by evaluation. *)
Definition fine_next {W} `{!Kernel W} (alive : Z) (n : nat) (y : @Threads W) : option Threads :=
  let '(mkSystem s st ph) := system y in
  match ph with
  | Ticking =>
      match place y with
      | Ticked => match time_left s with
          | (Done time, s') => Some (mkThreads (mkSystem s' st (Waiting time)) Looking) | _ => None end
      | pl => match tick_step pl s with
          | (Done pl', s') => Some (mkThreads (mkSystem s' st Ticking) pl') | _ => None end
      end
  | _ =>
      match place y, main_step alive n ph s with
      | Looking, (Done ph', s') => Some (mkThreads
          (mkSystem s' (st ++ replicate (length (tasks s'.2) - length st) Queued) ph') Looking)
      | _, _ => None
      end
  end.

Fixpoint fine_nexts {W} `{!Kernel W} (alive : Z) (n k : nat) (y : @Threads W) : option Threads :=
  match k with 0 => Some y | S k' => fine_next alive n y ≫= fine_nexts alive n k' end.

Section Run.
Context {W : Type} `{!Kernel W}.
Context (fs : FileSystem) (iter : Http.Parameters → list (str * str)) (moved : bool → str → str).
Context (root_dir : str) (fuel : nat) (alive : Z) (port : N).

Lemma fine_next_step n y y' : fine_next alive n y = Some y' → fine_step fs iter moved root_dir fuel alive None y y'.
Proof.
  destruct y as [[s st ph] pl]. unfold fine_next. cbn [system place]. destruct ph as [|time|i count].
  - destruct pl as [|cb k|cb k|]; [| | |destruct (time_left s) as [[time|e| |] s1] eqn:Hr; intros [= <-]; by constructor];
      destruct (tick_step _ s) as [[pl'|e| |] s1] eqn:Hr; intros [= <-]; by apply fine_tick.
  - destruct pl; try done. destruct (main_step alive n (Waiting time) s) as [[ph'|e| |] s1] eqn:Hr; intros [= <-].
    apply fine_main; [done|]. by eapply step_main.
  - destruct pl; try done. destruct (main_step alive n (Dispatching i count) s) as [[ph'|e| |] s1] eqn:Hr; intros [= <-].
    apply fine_main; [done|]. by eapply step_main.
Qed.

Lemma fine_nexts_running n k : ∀ y y', fine_nexts alive n k y = Some y' →
  fine_running fs iter moved root_dir fuel alive port y → fine_running fs iter moved root_dir fuel alive port y'.
Proof.
  induction k as [|k IH]; intros y y'; [by intros [= ->]|]. cbn [fine_nexts].
  destruct (fine_next alive n y) as [y1|] eqn:H1; [|done]. intros H Hy. apply (IH y1 y'); [exact H|].
  apply (fine_running_step _ _ _ _ _ _ _ None y); [done|done|by eapply fine_next_step].
Qed.
End Run.

#[local] Existing Instance slow_kernel.

Definition slow_begin : @Threads Desk := mkThreads (mkSystem slow_started [] Ticking) Looking.

(** The main thread has found the client 7 expired; a worker takes the task of the
    client; and the node of the client is removed. *)
Definition slow_found : @Threads Desk := default slow_begin (fine_nexts 50 5 15 slow_begin).
Definition slow_working : @Threads Desk :=
  mkThreads (mkSystem (server (system slow_found)) [Working] Ticking) (place slow_found).
Definition slow_taken : @Threads Desk := default slow_begin (fine_next 50 5 slow_working).

Abbreviation slow_fine_running := (fine_running Connection.demo_fs map_to_list (λ _ _, []) (s!"www") 5 50 8080).

Lemma slow_found_running : slow_fine_running slow_found.
Proof.
  apply (fine_nexts_running _ _ _ _ _ _ _ 5 15 slow_begin); [vm_compute; reflexivity|].
  apply (fine_running_start _ _ _ _ _ _ _ 4 slow_desk (mkEpoller 3 (replicate 4 (0%Z, 0%N))) (open_fd 3 slow_desk).2);
    [reflexivity|].
  change (initial _ _) with slow_created. unfold slow_started.
  assert ((InitNetwork 8080 slow_created).1 = Done tt) as H by (vm_compute; reflexivity).
  by rewrite <-H, <-surjective_pairing.
Qed.

Lemma slow_found_form : slow_found = mkThreads (mkSystem (server (system slow_found)) [Queued] Ticking) (place slow_found).
Proof. vm_compute. reflexivity. Qed.

Lemma slow_taken_running : slow_fine_running slow_taken.
Proof.
  assert (slow_fine_running slow_working) as H.
  { apply (fine_running_step _ _ _ _ _ _ _ (Some 0) slow_found); [exact slow_found_running|rewrite slow_found_form; done|].
    rewrite slow_found_form. apply fine_worker.
    apply (step_task _ _ _ _ _ _ _ [Queued] Ticking 0 (ReceiveTask 0) Queued Working); done. }
  apply (fine_nexts_running _ _ _ _ _ _ _ 5 1 slow_working); [vm_compute; reflexivity|exact H].
Qed.

(** The client 7 is a user without a node; its callback is about to be called. *)
Lemma shared_state_consistent_witness :
  place slow_taken = Taken (Some CloseTimedOut) 7 ∧ stages (system slow_taken) = [Working] ∧
  dom (entries (server (system slow_taken)).1) = dom (users_ (server (system slow_taken)).2) ∖ {[7%Z]} ∧
  users_ (server (system slow_taken)).2 !! 7%Z = Some 0.
Proof.
  pose proof (shared_state_consistent _ _ _ _ _ _ _ slow_taken slow_now (ltac:(lia) : (0 ≤ 50)%Z) slow_accept
    slow_taken_running) as [(_ & _ & _ & Hc) _].
  assert (place slow_taken = Taken (Some CloseTimedOut) 7) as Hp by (vm_compute; reflexivity).
  rewrite Hp in Hc. destruct Hc as (_ & _ & _ & Hd).
  split; [exact Hp|]. split; [vm_compute; reflexivity|]. split; [by rewrite Hd|vm_compute; reflexivity].
Defined.
