(* ===== verification/EndToEnd.v ===== *)
(** From the bytes of a request to the bytes of its answer: the event that the
    main loop sees, the task that reads and parses, the event for the answer and
    the task that sends it, composed. *)

From S2P Require Import Prelude ByteQueue Util Buffer Epoller HeapTimer.
From S2P Require Io Connection Request OneShot.
From S2P Require Import WebServer ServerInvariant ServerSpec.

Section EndToEnd.
Context {W : Type} `{!Kernel W}.
Context (fs : FileSystem) (iter : Http.Parameters → list (str * str)) (moved : bool → str → str).
Context (root_dir : str) (fuel : nat) (alive_time_ : Z).
Context (T : Z) (sent : W → str).

Abbreviation Timer := (HeapTimer Z Timeout).
Abbreviation Server := (Timer * Rest W)%type.
Abbreviation work := (work fs iter moved root_dir fuel).
Abbreviation dispatch := (dispatch alive_time_).
Implicit Types (r : Rest W) (t : Timer) (c : Client).

(** The client [c] at [p] of the socket [fd] has the bytes [text] still to parse
    and [out] still to send. *)
Record attends (fd : Z) (p : nat) (text out : str) (s : Server) c : Prop := {
  at_inv : inv s;
  at_open : pool_closed s.2 = false;
  at_listener : fd ≠ listener_ s.2;
  at_user : users_ s.2 !! fd = Some p;
  at_client : clients s.2 !! p = Some c;
  at_timer : is_Some (entries s.1 !! fd);
  at_read : Buffer.wf (Connection.read_buf_ (conn c));
  at_text : Buffer.readable (Connection.read_buf_ (conn c)) = text;
  at_write : Buffer.wf (Connection.write_buf_ (conn c));
  at_out : Buffer.readable (Connection.write_buf_ (conn c)) = out
}.

(** What has changed: the client [p] of [fd] has become [c'] with the deadline [d]. *)
Definition served (fd : Z) (p : nat) (d : Z) t r t' r' c' : Prop :=
  users_ r' = users_ r ∧ tasks r' = tasks r ∧ clients r' = <[p := c']> (clients r) ∧
  ∃ e cb, entries t !! fd = Some (e, cb) ∧ entries t' = <[fd := (d, cb)]> (entries t).

(** The buffers still have the room that was left behind what has been read, [got],
    and answered, [gave]. *)
Definition roomy c (got gave : str) c' : Prop :=
  leaves_room (Connection.read_buf_ (conn c)) got (Connection.read_buf_ (conn c')) ∧
  leaves_room (Connection.write_buf_ (conn c)) gave (Connection.write_buf_ (conn c')).

Lemma roomy_trans c got gave c1 got' gave' c2 :
  roomy c got gave c1 → roomy c1 got' gave' c2 → roomy c (got ++ got') (gave ++ gave') c2.
Proof. intros [] []. split; by eapply leaves_room_trans. Qed.

(** One exchange: the input event, the worker that takes the task behind the [i]
    tasks queued before, the output event, and the worker again. *)
Definition exchange (n : nat) (fd : Z) (i : nat) : M Server unit :=
  dispatch n fd EPOLLIN;; work i;; dispatch n fd EPOLLOUT;; work i.

Context (Hmmap : mmap_length fs) (Hclock : ∀ w : W, sys_now w = (T, w)) (Halive : (0 ≤ alive_time_)%Z) (HT : (0 ≤ T)%Z).

Lemma now_nonneg (w : W) : (0 ≤ (sys_now w).1)%Z.
Proof. by rewrite Hclock. Qed.

Lemma set_world_id r : set_world (world r) r = r.
Proof. by destruct r. Qed.

(** An event that queues a task puts it at the end and extends the client's time. *)
Lemma event_queues n fd ev p text out t r c new :
  (ev = EPOLLIN ∧ new = ReceiveTask p ∨ ev = EPOLLOUT ∧ new = SendTask p) → attends fd p text out (t, r) c →
  ∃ t' e cb, dispatch n fd ev (t, r) = (Done tt, (t', set_tasks (tasks r ++ [new]) r)) ∧
    entries t !! fd = Some (e, cb) ∧ entries t' = <[fd := ((T + alive_time_)%Z, cb)]> (entries t) ∧
    inv (t', set_tasks (tasks r ++ [new]) r).
Proof.
  intros Hev []. destruct at_timer0 as [[e cb] He].
  pose proof (dispatch_run alive_time_ n fd ev p e cb t r T (world r) HT Halive at_inv0 at_listener0 at_user0
    He at_open0 (Hclock _)) as H.
  rewrite set_world_id in H. destruct Hev as [[-> ->]|[-> ->]]; destruct H as (t' & H & Hi & Ht'); by exists t', e, cb.
Qed.

(** A worker that runs the last task of a client that is still a user. *)
Lemma work_last k t r t' r' fd :
  run_task fs iter moved root_dir fuel k (t, set_tasks (tasks r ++ [k]) r) = (Done tt, (t', r')) →
  tasks r' = tasks r ++ [k] → users_ r' !! fd = Some (task_client k) →
  work (length (tasks r)) (t, set_tasks (tasks r ++ [k]) r) = (Done tt, (t', set_tasks (tasks r) r')).
Proof.
  intros Hr Ht Hu. unfold work. mstep. cbn [tasks set_tasks snd]. rewrite list_lookup_middle by done.
  rewrite (bind_done (deref (Some k)) _ _ k _ eq_refl). mrun Hr.
  rewrite (bind_done _ _ _ tt (t', set_tasks (tasks r) r')).
  2: { unfold drop_task, modify. simpl. by rewrite Ht, delete_middle, app_nil_r. }
  mstep. rewrite (bool_decide_eq_true_2 (_ ∈ (map_to_list _).*2)); [by rewrite orb_true_r|].
  apply list_elem_of_fmap. exists (fd, task_client k). split; [done|]. by apply elem_of_map_to_list.
Qed.

Lemma attends_socket fd p text out s c :
  attends fd p text out s c → Connection.socket_ (conn c) = fd ∧ (0 ≤ fd)%Z.
Proof.
  intros []. destruct (proj1 (proj2 at_inv0) fd p at_user0) as (? & c0 & Hc0 & ?). split; [congruence|lia].
Qed.

(** What a task leaves when it has worked on its own client only. *)
Lemma attends_after k fd p text out text' out' t r t1 verb c c' w :
  attends fd p text out (t, r) c → Connection.socket_ (conn c') = fd →
  inv (t1, set_tasks (tasks r ++ [k]) r) → entries t1 !! fd ≠ None →
  Buffer.wf (Connection.read_buf_ (conn c')) → Buffer.readable (Connection.read_buf_ (conn c')) = text' →
  Buffer.wf (Connection.write_buf_ (conn c')) → Buffer.readable (Connection.write_buf_ (conn c')) = out' →
  attends fd p text' out'
    (t1, set_tasks (tasks r) (with_client p c' w (starting verb c (set_tasks (tasks r ++ [k]) r)))) c'.
Proof.
  intros [] Hs (Ht & Hu & Hd & Hk) He Hw1 Hr Hw2 Ho. split; try done; simpl.
  - split_and!; try done; [|].
    + intros fd' p' Hp'. destruct (Hu fd' p' Hp') as (Hfd & c0 & Hc0 & Hs0). split; [done|]. simpl in *.
      destruct (decide (p' = p)) as [->|Hne].
      * exists c'. rewrite lookup_insert_eq. split; [done|].
        destruct (Hu fd p at_user0) as (_ & c1 & Hc1 & Hs1). simpl in Hc1. congruence.
      * exists c0. by rewrite lookup_insert_ne.
    + intros k' Hk'. simpl. destruct (Hk k') as [c0 Hc0]; [simpl; set_solver|]. simpl in Hc0.
      destruct (decide (task_client k' = p)) as [->|Hne]; [rewrite lookup_insert_eq; by eexists|].
      rewrite lookup_insert_ne by done. by eexists.
  - by rewrite lookup_insert_eq.
  - destruct (entries t1 !! fd); [by eexists|done].
Qed.

Lemma run_result q s res q' s' : Request.run moved q s res q' s' → res = Done tt ∨ ∃ e, res = Throw e.
Proof. induction 1; eauto. Qed.

(** The first half: what has come is read and parsed, and the answer is ready. *)
Lemma read_half n fd p text t r c ds w1 w2 res request rest :
  attends fd p text [] (t, r) c →
  Connection.delivers sys_readv fd (world r) ds Connection.EAGAIN w1 →
  sys_epoll_ctl (epoll_fd_ (epoller_ r)) Modify fd (next_events true) w1 = (None, w2) → length ds < fuel →
  fits (Connection.read_buf_ (conn c)) (concat ds) →
  text ++ concat ds ≠ [] → Request.run moved Request.fresh_request (text ++ concat ds) res request rest →
  let reply := Connection.reply_text fs iter root_dir res request in
  let file := Connection.reply_file fs root_dir res request in
  fits (Connection.write_buf_ (conn c)) reply →
  ∃ t' r' c', (dispatch n fd EPOLLIN;; work (length (tasks r))) (t, r) = (Done tt, (t', r')) ∧
    attends fd p rest reply (t', r') c' ∧ served fd p (T + alive_time_) t r t' r' c' ∧
    roomy c (concat ds) reply c' ∧ epoller_ r' = epoller_ r ∧ world r' = w2 ∧
    Connection.keep_alive_ (conn c') = Request.KeepAlive request ∧
    Util.Data (Connection.file_ (conn c')) = file ∧
    Util.Size (Connection.file_ (conn c')) = from_option len 0%N file.
Proof.
  intros Hat Hdel Hctl Hfuel Hfit Hne Hrun reply file Hreply.
  destruct (event_queues n fd EPOLLIN p text [] t r c (ReceiveTask p)) as (t1 & e & cb & Hd & He & He1 & Hi1); [by left|done|].
  set (r1 := set_tasks (tasks r ++ [ReceiveTask p]) r) in *.
  pose proof Hat as []. simpl in *.
  assert (Connection.socket_ (conn c) = fd ∧ (0 ≤ fd)%Z) as [Hs Hfd] by (by eapply attends_socket).
  destruct (Connection.receive_loop_ok sys_readv sys_write sys_strerror (world r) ds Connection.EAGAIN w1 fd Hdel
    fuel 0 (conn c)) as (b' & Hwf' & Hb' & Hroom' & Hrecv); [done|done|done| |done|].
  { pose proof max_size_word. unfold fits in Hfit. lia. }
  rewrite at_text0 in Hb'.
  set (c1 := Connection.set_read_buf b' (conn c)).
  destruct (Request.Parse_run_room moved Request.Request_default b' res request rest)
    as (rb & HP & Hrb & Hrest & Hroomb); [exact Hwf'|simpl; by rewrite Hb'|simpl; by rewrite Hb'|].
  assert (∀ more, fits (Connection.write_buf_ (conn c)) (reply ++ more) → ∃ c2 : Connection.Connection,
    Connection.Process fs iter moved root_dir c1 = (Done true, c2) ∧ fits (Connection.write_buf_ c2) more ∧
    attends fd p rest reply (t1, set_tasks (tasks r)
      (with_client p (mkClient c2 (ip_address c)) w2 (starting receive_start c r1))) (mkClient c2 (ip_address c)) ∧
    Connection.read_buf_ c2 = rb ∧ Connection.keep_alive_ c2 = Request.KeepAlive request ∧
    Util.Data (Connection.file_ c2) = file ∧ Util.Size (Connection.file_ c2) = from_option len 0%N file) as Hprocess.
  { intros more Hmore.
    destruct (Connection.Process_parsed fs iter moved root_dir Hmmap c1 res request rb more)
      as (c2 & Hpr & Hs2 & Hk2 & Hr2 & Hw2 & Hf2 & Ho2 & Hd2 & Hz2);
      [done|done|simpl; by rewrite Hb'|done|by eapply run_result|done|].
    exists c2. rewrite Hd2 in Hz2. split_and!; try done.
    eapply (attends_after (ReceiveTask p)); try done; simpl; rewrite ?Hr2; try done;
      [by rewrite <-Hs|by rewrite He1, lookup_insert_eq|by rewrite Ho2; simpl; rewrite at_out0]. }
  destruct (Hprocess []) as (c2 & Hpr & _ & Hat2 & Hr2 & Hk2 & Hd2 & Hz2); [by rewrite app_nil_r|].
  eexists t1, _, (mkClient c2 (ip_address c)). split; [|split; [exact Hat2|]].
  - mrun Hd. eapply (work_last (ReceiveTask p) t1 r t1 _ fd).
    + apply (receive_done fs iter moved root_dir fuel p c t1 r1 (0 + len (concat ds))%N c1 w1 true c2 w2); rewrite ?Hs; done.
    + done.
    + done.
  - unfold served, roomy. split_and!; try done; [by exists e, cb| |].
    + simpl. rewrite Hr2, <-(app_nil_r (concat ds)). by eapply leaves_room_trans.
    + intros more Hmore. destruct (Hprocess more Hmore) as (c3 & Hpr3 & Hf3 & _). simpl. congruence.
Qed.

Section Send.
(** The worlds while the answer is written and after it. *)
Context (fd : Z) (P Q : W → Prop) (Haccepts : Connection.accepts sys_write sent).
Context (HP : ∀ d w, P w → P (sys_write fd d w).2).

Lemma send_keeps c w x (c' : Connection.Connection) w' :
  Connection.socket_ (conn c) = fd →
  Connection.Send sys_readv sys_write sys_strerror fuel (conn c, w) = (x, (c', w')) → x ≠ Crash → P w → P w'.
Proof.
  intros Hfd Hs Hx Hw.
  destruct (OneShot.Send_world sys_readv sys_write sys_strerror P fd HP fuel (conn c, w) (conj Hfd Hw)) as [H|H];
    rewrite Hs in H; [done|]. exact (proj2 H).
Qed.

(** The second half: the answer is sent. *)
Lemma send_half n p text out d t r c :
  attends fd p text out (t, r) c → P (world r) → (len d ≤ max_size)%N →
  (Util.Data (Connection.file_ (conn c)) = Some d ∧ Util.Size (Connection.file_ (conn c)) = len d ∨
   d = [] ∧ Util.Size (Connection.file_ (conn c)) = 0%N) →
  length out < fuel → length d < fuel →
  let keep := Connection.keep_alive_ (conn c) in
  (keep = true → text = [] ∧ ∀ w, P w → ∃ w', Q w' ∧ sent w' = sent w ∧
     sys_epoll_ctl (epoll_fd_ (epoller_ r)) Modify fd (next_events false) w = (None, w')) →
  (keep = false → ∀ w, P w → Q w) →
  ∃ t' r' c', (dispatch n fd EPOLLOUT;; work (length (tasks r))) (t, r) = (Done tt, (t', r')) ∧
    attends fd p text [] (t', r') c' ∧ served fd p (T + if keep then alive_time_ else 0) t r t' r' c' ∧
    roomy c [] [] c' ∧ epoller_ r' = epoller_ r ∧ Q (world r') ∧ sent (world r') = sent (world r) ++ out ++ d.
Proof.
  intros Hat HPr Hd Hfile Hout Hdl keep Hkeep Hclose.
  destruct (event_queues n fd EPOLLOUT p text out t r c (SendTask p)) as (t1 & e & cb & Hdis & He & He1 & Hi1); [by right|done|].
  set (r1 := set_tasks (tasks r ++ [SendTask p]) r) in *.
  pose proof Hat as []. simpl in *.
  destruct (Connection.send_all sys_readv sys_write sys_strerror sent (conn c) (world r) d fuel Haccepts)
    as (b' & w1 & Hsend & Hwb & Hb & Hs1 & Hroom); [done|done|done|by rewrite at_out0|done|].
  assert (Connection.socket_ (conn c) = fd ∧ (0 ≤ fd)%Z) as [Hs Hfd] by (by eapply attends_socket).
  pose proof (send_keeps c _ _ _ _ Hs Hsend ltac:(done) HPr) as Hf1.
  set (c1 := Connection.set_write_buf b' (conn c)) in *.
  pose proof (send_task fs iter moved root_dir fuel p c t1 r1 now_nonneg (proj1 Hi1) at_client0) as Htask.
  cbv zeta in Htask. rewrite Hs in Htask. specialize (Htask Hfd).
  change (world r1) with (world r) in Htask. rewrite Hsend in Htask. cbv beta iota in Htask.
  change (Connection.KeepAlive c1) with keep in Htask.
  destruct keep.
  - destruct (Hkeep eq_refl) as [Htext Harm]. destruct (Harm w1 Hf1) as (w2 & Hf2 & Hsent2 & Hctl).
    rewrite (Connection.Process_nothing fs iter moved root_dir c1 at_read0) in Htask by (simpl; by rewrite at_text0).
    change (epoller_ r1) with (epoller_ r) in Htask. rewrite Hctl in Htask. cbv beta iota in Htask.
    set (c2 := mkClient _ _) in Htask.
    exists t1, (set_tasks (tasks r) (with_client p c2 w2 (starting send_start c r1))), c2.
    split; [|split; [|split; [|split]]].
    + mrun Hdis. by apply (work_last (SendTask p) t1 r t1 _ fd).
    + eapply (attends_after (SendTask p)); try done. by rewrite He1, lookup_insert_eq.
    + unfold served. split_and!; try done. by exists e, cb.
    + by split; [apply leaves_room_refl|].
    + simpl. split_and!; [done|done|by rewrite Hsent2, Hs1, at_out0].
  - unfold marked in Htask. rewrite He1, lookup_insert_eq in Htask.
    destruct Htask as (v & w & t2 & Hclk & Hrun & Ht2 & He2).
    rewrite Hclock in Hclk. simpl in Hclk. injection Hclk as <- <-.
    set (c2 := mkClient _ _) in Hrun.
    exists t2, (set_tasks (tasks r) (with_client p c2 w1 (starting send_start c r1))), c2.
    split; [|split; [|split; [|split]]].
    + mrun Hdis. by apply (work_last (SendTask p) t1 r t2 _ fd).
    + eapply (attends_after (SendTask p)); try done; [|by rewrite He2, lookup_insert_eq].
      eapply inv_timer; [exact Hi1|done|]. rewrite He2, <-He1. apply dom_insert_lookup_L. rewrite He1, lookup_insert_eq. by eexists.
    + unfold served. split_and!; try done. exists e, cb. rewrite Z.add_0_r, He2. by rewrite insert_insert_eq.
    + by split; [apply leaves_room_refl|].
    + simpl. split_and!; [done|by apply Hclose|by rewrite Hs1, at_out0].
Qed.
End Send.

(** Two changes of one client. *)
Lemma served_twice fd p d d' t r t1 r1 c1 t2 r2 c2 :
  served fd p d t r t1 r1 c1 → served fd p d' t1 r1 t2 r2 c2 → served fd p d' t r t2 r2 c2.
Proof.
  intros (Hu & Ht & Hc & e & cb & He & He') (Hu2 & Ht2 & Hc2 & e2 & cb2 & He2 & He2').
  rewrite He', lookup_insert_eq in He2. injection He2 as <- <-.
  split; [congruence|]. split; [congruence|]. split; [by rewrite Hc2, Hc, insert_insert_eq|].
  exists e, cb. split; [done|]. by rewrite He2', He', insert_insert_eq.
Qed.

Lemma two_halves {S} (m1 m2 m3 m4 : M S unit) s s' x :
  (m1;; m2) s = (Done tt, s') → (m3;; m4) s' = x → (m1;; m2;; m3;; m4) s = x.
Proof.
  unfold mbind, M_bind. intros H1 H2. destruct (m1 s) as [[[]| | |] s1]; try done.
  by destruct (m2 s1) as [[[]| | |] s2]; simplify_eq.
Qed.

Section Obedient.
Context (fine : W → Prop).

(** A kernel that serves the client for a while: in the worlds that are [fine] it takes some
    of every write and registers what it is asked to; [sent] is what it has taken. *)
Record obedient : Prop := {
  ob_accepts : Connection.accepts sys_write sent;
  ob_write fd d w : fine w → fine (sys_write fd d w).2;
  ob_readv fd n m w : fine w → fine (sys_readv fd n m w).2 ∧ sent (sys_readv fd n m w).2 = sent w;
  ob_ctl e fd bits w : fine w → ∃ w', sys_epoll_ctl e Modify fd bits w = (None, w') ∧ fine w' ∧ sent w' = sent w
}.

Context (Hob : obedient).

Lemma read_fine fd w ds errno w' :
  Connection.delivers sys_readv fd w ds errno w' → fine w → fine w' ∧ sent w' = sent w.
Proof.
  induction 1 as [w errno w' Hv|w d w1 ds errno w' Hv _ IH]; intros Hw;
    destruct (ob_readv Hob fd 0 Io.ext_size w Hw) as [Hf Hs]; rewrite (Hv 0%N) in Hf, Hs; [done|].
  simpl in *. destruct (IH Hf) as [Hf' Hs']. split; [done|congruence].
Qed.

(** A client that sends a request gets its answer.  The bytes that its socket
    delivers, however they are cut into chunks, follow what the client had left
    unparsed; whatever they are, the worker that takes the task of the input event
    parses them, and the worker that takes the task of the output event sends
    exactly the answer to them: the text of the response and the file behind it.
    Then both buffers are as the parser and the writer left them, the other clients
    and the other tasks are untouched, and the client is due at once, or, when it
    keeps its connection alive, after a full alive time. *)
Theorem request_answered n fd p text t r c ds w' res request rest :
  attends fd p text [] (t, r) c → fine (world r) →
  Connection.delivers sys_readv fd (world r) ds Connection.EAGAIN w' → length ds < fuel →
  fits (Connection.read_buf_ (conn c)) (concat ds) →
  text ++ concat ds ≠ [] → Request.run moved Request.fresh_request (text ++ concat ds) res request rest →
  let reply := Connection.reply_text fs iter root_dir res request in
  let file := default [] (Connection.reply_file fs root_dir res request) in
  let keep := Request.KeepAlive request in
  fits (Connection.write_buf_ (conn c)) reply → (len file ≤ max_size)%N →
  length reply < fuel → length file < fuel → (keep = true → rest = []) →
  ∃ t' r' c', exchange n fd (length (tasks r)) (t, r) = (Done tt, (t', r')) ∧
    attends fd p rest [] (t', r') c' ∧ served fd p (T + if keep then alive_time_ else 0) t r t' r' c' ∧
    fine (world r') ∧ sent (world r') = sent (world r) ++ reply ++ file.
Proof.
  intros Hat Hfine Hdel Hf Hfit Hne Hrun reply file keep Hreply Hlen Hf1 Hf2 Hkeep.
  destruct (read_fine fd _ _ _ _ Hdel Hfine) as [Hf' Hs'].
  destruct (ob_ctl Hob (epoll_fd_ (epoller_ r)) fd (next_events true) w' Hf') as (w2 & Hctl & Hfine2 & Hsent2).
  destruct (read_half n fd p text t r c ds w' w2 res request rest)
    as (t1 & r1 & c1 & H1 & Hat1 & Hs1 & _ & _ & Hw1 & Hk & Hd & Hz); [done..|].
  destruct (send_half fd fine fine (ob_accepts Hob) (ob_write Hob fd) n p rest reply file t1 r1 c1 Hat1)
    as (t2 & r2 & c2 & H2 & Hat2 & Hs2 & _ & _ & Hfine3 & Hsent3); [by rewrite Hw1|done| |done|done| |done|].
  { rewrite Hd, Hz. unfold file. destruct (Connection.reply_file _ _ _ _); auto. }
  { rewrite Hk. intros Hka. split; [by apply Hkeep|]. intros w Hw.
    destruct (ob_ctl Hob (epoll_fd_ (epoller_ r1)) fd (next_events false) w Hw) as (w3 & ? & ? & ?). by exists w3. }
  exists t2, r2, c2. rewrite Hk in Hs2.
  split_and!; [|done|by eapply served_twice|done|by rewrite Hsent3, Hw1, Hsent2, Hs'].
  destruct Hs1 as (_ & Ht1 & _). rewrite Ht1 in H2. by apply (two_halves _ _ _ _ _ _ _ H1).
Qed.
End Obedient.
End EndToEnd.

(** ** Witness *)

(** The client of [demo_one] posts a message in two chunks and keeps its connection
    alive; the clock stands still. *)
Definition demo_request : str :=
  s!"POST / HTTP/1.1" ++ crlf ++ s!"Connection: keep-alive" ++ crlf ++
  s!"Content-Type: application/x-www-form-urlencoded" ++ crlf ++ crlf ++ s!"user=Ann+B&msg=hi%21".
Definition demo_chunks : list str := [take 20 demo_request; drop 20 demo_request].
Definition demo_busy : DemoServer :=
  (demo_one.1, set_world (mkDemo 1000 [] [] ((inr <$> demo_chunks) ++ [inl 11%Z]) false [] []) demo_one.2).

Lemma demo_obedient : @obedient _ (scripted (λ _, 1000%Z)) sent (λ w, refuses w = false).
Proof.
  split; simpl.
  - intros fd d w Hd. exists (len d), (add_sent d w). split; [done|].
    assert (0 < len d)%N by (destruct d; [done|len_lia]). split; [lia|].
    simpl. rewrite take_ge; [done|len_lia].
  - done.
  - intros _ _ _ w Hw. by destruct (input w) as [|x l].
  - intros _ _ _ w Hw. exists w. by rewrite Hw.
Qed.

Definition demo_hs : list (str * str) :=
  [(s!"Connection", s!"keep-alive"); (s!"Content-Type", s!"application/x-www-form-urlencoded")].

Lemma demo_request_run :
  Request.run demo_moved Request.fresh_request demo_request (Done tt)
    (Connection.message_request (s!"1.1") demo_hs (s!"Ann+B") (s!"hi!")) [].
Proof.
  pose proof (Connection.message_run demo_moved (s!"1.1") demo_hs
    (λ c, negb (bool_decide (c = "!"%char ∨ c = "%"%char))) (s!"Ann+B") (s!"hi!")) as H.
  assert (∀ x, x = demo_request → Request.run demo_moved Request.fresh_request x (Done tt)
    (Connection.message_request (s!"1.1") demo_hs (s!"Ann+B") (s!"hi!")) [] →
    Request.run demo_moved Request.fresh_request demo_request (Done tt)
    (Connection.message_request (s!"1.1") demo_hs (s!"Ann+B") (s!"hi!")) []) as Hx by (by intros x ->).
  eapply Hx; [|apply H].
  - vm_compute. reflexivity.
  - split; apply (bool_decide_unpack _); vm_compute; exact I.
  - repeat constructor; apply (bool_decide_unpack _); vm_compute; exact I.
  - vm_compute. reflexivity.
  - reflexivity.
  - apply (bool_decide_unpack _). vm_compute. exact I.
  - split; apply (bool_decide_unpack _); vm_compute; exact I.
  - split; apply (bool_decide_unpack _); vm_compute; exact I.
  - discriminate.
Qed.

Definition demo_client : Client := mkClient (Connection.mkConnection 7 false Buffer_default Buffer_default Mapped_default) (s!"10.0.0.7").

Lemma inv_world {W} (w : W) (s : HeapTimer Z Timeout * Rest W) : inv s → inv (s.1, set_world w s.2).
Proof. destruct s as [t r]. intros H. by eapply inv_rest. Qed.

Lemma demo_busy_attends :
  attends (W:=DemoWorld) 7 0 [] [] (demo_busy.1, demo_busy.2) demo_client.
Proof.
  split.
  - exact (inv_world _ demo_one demo_one_inv).
  - vm_compute. reflexivity.
  - vm_compute. discriminate.
  - vm_compute. reflexivity.
  - vm_compute. reflexivity.
  - apply (bool_decide_unpack _). vm_compute. exact I.
  - apply (wf_of_size default_size). vm_compute. discriminate.
  - reflexivity.
  - apply (wf_of_size default_size). vm_compute. discriminate.
  - reflexivity.
Qed.

Lemma request_answered_witness : ∃ t' r',
  @exchange _ (scripted (λ _, 1000%Z)) demo_fs map_to_list demo_moved (s!"www") 300 60 5 7
    (length (tasks demo_busy.2)) (demo_busy.1, demo_busy.2) = (Done tt, (t', r')) ∧ inv (t', r') ∧
  entries t' !! 7%Z = Some (1060%Z, Some CloseTimedOut) ∧
  sent (world r') = s!"HTTP/1.1 200 OK" ++ crlf ++ s!"Connection: keep-alive" ++ crlf ++
    s!"keep-alive: max=6, timeout=120" ++ crlf ++
    s!"Content-type: text/html" ++ crlf ++ s!"Content-length: 17" ++ crlf ++ crlf ++ s!"<p>Ann B: hi!</p>".
Proof.
  destruct (@request_answered _ (scripted (λ _, 1000%Z)) demo_fs map_to_list demo_moved (s!"www") 300 60 1000
    sent Connection.demo_mmap ltac:(done) ltac:(done) ltac:(done) (λ w, refuses w = false) demo_obedient 5 7 0 []
    demo_busy.1 demo_busy.2 demo_client demo_chunks (mkDemo 1000 [] [] [] false [] []) (Done tt)
    (Connection.message_request (s!"1.1") demo_hs (s!"Ann+B") (s!"hi!")) [] demo_busy_attends eq_refl)
    as (t' & r' & c' & H & Hat & (_ & _ & _ & e & cb & He & He') & _ & Hs).
  - repeat (econstructor; [intros n; reflexivity|]). constructor. intros n. reflexivity.
  - apply (bool_decide_unpack _). vm_compute. exact I.
  - vm_compute. discriminate.
  - discriminate.
  - exact demo_request_run.
  - vm_compute. discriminate.
  - vm_compute. discriminate.
  - apply (bool_decide_unpack _). vm_compute. exact I.
  - apply (bool_decide_unpack _). vm_compute. exact I.
  - reflexivity.
  - exists t', r'. split; [exact H|]. split; [exact (at_inv _ _ _ _ _ _ Hat)|]. split.
    + rewrite He', lookup_insert_eq. assert (entries demo_busy.1 !! 7%Z = Some (1060%Z, Some CloseTimedOut)) as He1
        by (vm_compute; reflexivity). rewrite He1 in He. by injection He as _ <-.
    + rewrite Hs. vm_compute. reflexivity.
Defined.
