(* ===== verification/Conversation.v ===== *)
(** A client that asks again and again: turns of the main loop and tasks of the
    workers, composed over all the requests of a connection that is kept alive.
    The kernel reports each registration once, as the one-shot mode of
    [include/web_server.h] has it, so every answer depends on the event that the
    task before has armed. *)

From S2P Require Import Prelude ByteQueue Util Buffer Epoller HeapTimer LogField.
From S2P Require Connection Request OneShot Interleave.
From S2P Require Import WebServer ServerInvariant ServerSpec EndToEnd.

(** * The kernel of a conversation *)

(** What the socket of the client is waiting for: its registration for input; the
    bytes of a request that lie in it; nothing, since they have been read; its
    registration for output; or nothing, since it can be written to. *)
Inductive Phase := Asking | Delivered (chunks : list str) | Drained | Answering | Open.

Section Conversation.
Context {W : Type} `{!Kernel W}.
Context (fs : FileSystem) (iter : Http.Parameters → list (str * str)) (moved : bool → str → str).
Context (root_dir : str) (fuel : nat) (alive_time_ : Z).
Context (T : Z) (sent : W → str) (fd : Z) (p n : nat).
(** [phase x l w]: the socket is in the phase [x], and the client will then send the
    requests [l]. *)
Context (phase : Phase → list (list str) → W → Prop).

Abbreviation Timer := (HeapTimer Z Timeout).
Abbreviation Server := (Timer * Rest W)%type.
Abbreviation work := (work fs iter moved root_dir fuel).
Abbreviation dispatch := (dispatch alive_time_).
Abbreviation turn := (turn alive_time_ n).
Implicit Types (r : Rest W) (t : Timer) (c : Client).

(** A kernel with one busy socket: the clock shows [T]; a registration is reported
    once; [sent] is what has been taken to send. *)
Record converses : Prop := {
  cv_clock w : sys_now w = (T, w);
  cv_accepts : Connection.accepts sys_write sent;
  cv_asked e size ms ds l w : (0 < size)%N → phase Asking (ds :: l) w →
    ∃ w', sys_epoll_wait e size ms w = (inr [(fd, EPOLLIN)], w') ∧ phase (Delivered ds) l w' ∧ sent w' = sent w;
  cv_read ds l w : phase (Delivered ds) l w →
    ∃ w', Connection.delivers sys_readv fd w ds Connection.EAGAIN w' ∧ phase Drained l w' ∧ sent w' = sent w;
  cv_arm_output e l w : phase Drained l w →
    ∃ w', sys_epoll_ctl e Modify fd (N.lor connect_event_mode EPOLLOUT) w = (None, w') ∧
      phase Answering l w' ∧ sent w' = sent w;
  cv_writable e size ms l w : (0 < size)%N → phase Answering l w →
    ∃ w', sys_epoll_wait e size ms w = (inr [(fd, EPOLLOUT)], w') ∧ phase Open l w' ∧ sent w' = sent w;
  cv_write d l w : phase Open l w → phase Open l (sys_write fd d w).2;
  cv_arm_input e l w : phase Open l w →
    ∃ w', sys_epoll_ctl e Modify fd (N.lor connect_event_mode EPOLLIN) w = (None, w') ∧
      phase Asking l w' ∧ sent w' = sent w
}.

(** * Requests *)

(** A request: the chunks in which it comes, and what the parser makes of it. *)
Record Asked := mkAsked {
  chunks : list str;
  parsed : outcome unit;
  request : Request.Request;
  unread : str
}.

Definition text (q : Asked) : str := concat (chunks q).
Definition keep (q : Asked) : bool := Request.KeepAlive (request q).
Definition reply (q : Asked) : str := Connection.reply_text fs iter root_dir (parsed q) (request q).
Definition file (q : Asked) : str := default [] (Connection.reply_file fs root_dir (parsed q) (request q)).

Record sound (q : Asked) : Prop := {
  sound_text : text q ≠ [];
  sound_run : Request.run moved Request.fresh_request (text q) (parsed q) (request q) (unread q);
  sound_unread : keep q = true → unread q = [];
  sound_chunks : length (chunks q) < fuel;
  sound_reply : length (reply q) < fuel;
  sound_file : length (file q) < fuel ∧ (len (file q) ≤ max_size)%N
}.

(** Requests of one connection: all but the last keep it alive. *)
Fixpoint talk (qs : list Asked) : Prop :=
  match qs with
  | [] => True
  | q :: qs' => sound q ∧ (qs' ≠ [] → keep q = true) ∧ talk qs'
  end.

(** * The server *)

(** All deadlines lie ahead, and that of the client not further than the alive time. *)
Definition awake t : Prop :=
  (∀ k x, entries t !! k = Some x → (T < x.1)%Z) ∧
  ∃ x, entries t !! fd = Some x ∧ (x.1 ≤ T + alive_time_)%Z.

Definition array_ok (e : Epoller) : Prop := (0 < len (events_ e))%N ∧ (Z.of_N (len (events_ e)) ≤ INT_MAX)%Z.

(** The main loop and a worker, once for the question and once for the answer. *)
Definition serve (i : nat) : M Server unit := turn;; work i;; turn;; work i.
Fixpoint serve_all (i k : nat) : M Server unit :=
  match k with 0 => mret tt | S k' => serve i;; serve_all i k' end.

Context (Hmmap : mmap_length fs) (Hk : converses) (HT : (0 ≤ T)%Z) (Hn : 0 < n).
Context (Halive : (0 < alive_time_)%Z) (Hwait : (milliseconds alive_time_ ≤ INT_MAX)%Z).

(** Nothing to close: the time until the next tick is that until the first deadline. *)
Lemma tick_waits t r :
  inv (t, r) → awake t → ∃ d, ToNextTick n (t, r) = (Done d, (t, r)) ∧ (0 < d ≤ alive_time_)%Z.
Proof.
  intros (Ht & _) [Hall (x & Hx & Hle)]. simpl in *. pose proof Ht as [Hwf _].
  destruct (Tick_body_stop server_now on_timeout (log_line Error) t r Hwf) as [[He _]|[(m & Hm & _ & Hr)|(m & Hm & Hexp)]].
  - assert (size (entries t) = 0) as Hz by (rewrite size_entries by apply Hwf; by rewrite He).
    apply map_size_empty_inv in Hz. by rewrite Hz in Hx.
  - rewrite (server_now_const T (cv_clock Hk)) in Hr. simpl in Hr.
    assert (in_timer : entries t !! key m = Some (expiration m, callback m)).
    { apply entries_Some, in_nodes; [apply Hwf|]. exists 0%N. by destruct m. }
    pose proof (Hall _ _ in_timer) as Hlo. pose proof (entries_root t m fd x Hwf Hm Hx) as Hhi. simpl in Hlo.
    exists (expiration m - T)%Z. split; [|lia]. destruct n as [|n']; [lia|].
    unfold ToNextTick, HeapTimer.ToNextTick.
    rewrite (bind_done _ _ (t, r) tt (t, r)) by (unfold Tick; cbn [while_]; by mrun Hr).
    mrun (on_timer_ok _ _ r _ _ (Empty_ok t (proj1 Hwf))).
    rewrite bool_decide_eq_false_2 by (intros H; unfold node_of in Hm; by rewrite H in Hm). cbn [negb].
    mrun (on_timer_ok _ _ r _ _ (node_at_ok _ _ _ Hm)).
    rewrite (bind_done _ _ (t, r) T (t, r)).
    2: { unfold read_clock. simpl. by rewrite (server_now_const T (cv_clock Hk)). }
    cbv zeta. by rewrite (proj2 (Z.ltb_lt 0 (expiration m - T))) by lia.
  - rewrite (server_now_const T (cv_clock Hk)) in Hexp. simpl in Hexp.
    assert (in_timer : entries t !! key m = Some (expiration m, callback m)).
    { apply entries_Some, in_nodes; [apply Hwf|]. exists 0%N. by destruct m. }
    pose proof (Hall _ _ in_timer). simpl in *. lia.
Qed.

(** The array of the epoll wrapper behind a wait that reports one event. *)
Definition reported (ev : N) (e : Epoller) : Epoller :=
  mkEpoller (epoll_fd_ e) ((fd, ev) :: drop 1 (events_ e)).

Lemma reported_ok ev e : array_ok e → array_ok (reported ev e).
Proof. unfold array_ok. simpl. intros [H1 H2]. split; len_lia. Qed.

(** A turn in which one event is reported is the handling of that event. *)
Lemma turn_handles ev d t r w' s' :
  ToNextTick n (t, r) = (Done d, (t, r)) → (d ≤ alive_time_)%Z → array_ok (epoller_ r) →
  sys_epoll_wait (epoll_fd_ (epoller_ r)) (len (events_ (epoller_ r))) (milliseconds d) (world r) = (inr [(fd, ev)], w') →
  dispatch n fd ev (t, set_epoller (reported ev (epoller_ r)) w' r) = (Done tt, s') → turn (t, r) = (Done tt, s').
Proof.
  intros Htick Hd1 [Hlen Hmax] Hw Hd.
  set (r1 := set_epoller (reported ev (epoller_ r)) w' r) in *.
  assert (on_epoller (Wait d) (t, r) = (Done 1%N, (t, r1))) as Hwt.
  { apply on_epoller_ok. simpl. unfold Wait. mstep. cbn [fst snd]. rewrite (proj2 (Z.leb_le _ _) Hmax). mstep.
    assert (milliseconds d ≤ INT_MAX)%Z as Hms.
    { etrans; [|exact Hwait]. unfold milliseconds. by apply Z.quot_le_mono. }
    rewrite (proj2 (Z.leb_le _ _) Hms). mstep.
    rewrite (bind_done _ _ _ (inr [(fd, ev)]) (epoller_ r, w')) by (unfold syscall; simpl; by rewrite Hw).
    rewrite take_ge by (simpl; len_lia). by mstep. }
  unfold turn, try_catch. mrun Htick. mrun Hwt.
  destruct (OneShot.FileDescriptor_read 0 (t, r1) fd ev eq_refl) as [H1 H2].
  change (N.to_nat 1) with 1. cbn [dispatch_all]. mrun H1. mrun H2. mrun Hd. done.
Qed.

(** The handling of an event and the task behind it, found by a turn. *)
Lemma turn_then ev i t r (K : W → Prop) :
  inv (t, r) → awake t → array_ok (epoller_ r) →
  (∀ ms, ∃ w', sys_epoll_wait (epoll_fd_ (epoller_ r)) (len (events_ (epoller_ r))) ms (world r) =
    (inr [(fd, ev)], w') ∧ K w') →
  ∃ w', K w' ∧ ∀ s', (dispatch n fd ev;; work i) (t, set_epoller (reported ev (epoller_ r)) w' r) = (Done tt, s') →
    (turn;; work i) (t, r) = (Done tt, s').
Proof.
  intros Hinv Haw Harr Hw. destruct (tick_waits t r Hinv Haw) as (d & Htick & Hd).
  destruct (Hw (milliseconds d)) as (w' & Hwt & HK). exists w'. split; [done|]. intros s' H.
  apply bind_done_inv in H as ([] & s1 & Hdis & Hwork).
  by mrun (turn_handles ev d t r w' s1 Htick (proj2 Hd) Harr Hwt Hdis).
Qed.

Lemma attends_reported text out t r c e w :
  attends fd p text out (t, r) c → attends fd p text out (t, set_epoller e w r) c.
Proof. intros []. by split. Qed.

(** A request is read, and the answer to it prepared. *)
Lemma read_turn q l t r c :
  sound q → attends fd p [] [] (t, r) c → awake t → array_ok (epoller_ r) → phase Asking (chunks q :: l) (world r) →
  fits (Connection.read_buf_ (conn c)) (text q) → fits (Connection.write_buf_ (conn c)) (reply q) →
  ∃ t' r' c', (turn;; work (length (tasks r))) (t, r) = (Done tt, (t', r')) ∧
    attends fd p (unread q) (reply q) (t', r') c' ∧ served fd p (T + alive_time_) t r t' r' c' ∧
    roomy c (text q) (reply q) c' ∧ array_ok (epoller_ r') ∧
    phase Answering l (world r') ∧ sent (world r') = sent (world r) ∧
    Connection.keep_alive_ (conn c') = keep q ∧
    Util.Data (Connection.file_ (conn c')) = Connection.reply_file fs root_dir (parsed q) (request q) ∧
    Util.Size (Connection.file_ (conn c')) =
      from_option len 0%N (Connection.reply_file fs root_dir (parsed q) (request q)).
Proof.
  intros [] Hat Haw Harr Hph Hfr Hfw.
  destruct (turn_then EPOLLIN (length (tasks r)) t r _ (at_inv _ _ _ _ _ _ Hat) Haw Harr
    (λ ms, cv_asked Hk _ _ ms _ _ _ (proj1 Harr) Hph)) as (w1 & [Hph1 Hs1] & Hturn).
  destruct (cv_read Hk _ _ _ Hph1) as (w2 & Hdel & Hph2 & Hs2).
  destruct (cv_arm_output Hk (epoll_fd_ (epoller_ r)) _ _ Hph2) as (w3 & Hctl & Hph3 & Hs3).
  set (r1 := set_epoller (reported EPOLLIN (epoller_ r)) w1 r) in *.
  destruct (read_half fs iter moved root_dir fuel alive_time_ T sent Hmmap (cv_clock Hk) ltac:(lia) HT
    n fd p [] t r1 c (chunks q) w2 w3 (parsed q) (request q) (unread q)) as (t' & r' & c' & Hrun & Hat' & Hsv & Hroom & He & Hw & Hrest);
    [by apply attends_reported|done..|].
  exists t', r', c'. split; [exact (Hturn _ Hrun)|]. split; [exact Hat'|]. split; [exact Hsv|]. split; [exact Hroom|].
  split; [rewrite He; by apply reported_ok|]. rewrite Hw. split; [done|]. split; [congruence|exact Hrest].
Qed.

(** The answer is sent, and the next request asked for if the client stays. *)
Lemma answer_turn q l t r c :
  sound q → attends fd p (unread q) (reply q) (t, r) c → awake t → array_ok (epoller_ r) →
  phase Answering l (world r) → Connection.keep_alive_ (conn c) = keep q →
  Util.Data (Connection.file_ (conn c)) = Connection.reply_file fs root_dir (parsed q) (request q) →
  Util.Size (Connection.file_ (conn c)) =
    from_option len 0%N (Connection.reply_file fs root_dir (parsed q) (request q)) →
  ∃ t' r' c', (turn;; work (length (tasks r))) (t, r) = (Done tt, (t', r')) ∧
    attends fd p (unread q) [] (t', r') c' ∧
    served fd p (T + if keep q then alive_time_ else 0) t r t' r' c' ∧ roomy c [] [] c' ∧ array_ok (epoller_ r') ∧
    phase (if keep q then Asking else Open) l (world r') ∧ sent (world r') = sent (world r) ++ reply q ++ file q.
Proof.
  intros [] Hat Haw Harr Hph Hkeep Hd Hz.
  destruct (turn_then EPOLLOUT (length (tasks r)) t r _ (at_inv _ _ _ _ _ _ Hat) Haw Harr
    (λ ms, cv_writable Hk _ _ ms _ _ (proj1 Harr) Hph)) as (w1 & [Hph1 Hs1] & Hturn).
  set (r1 := set_epoller (reported EPOLLOUT (epoller_ r)) w1 r) in *.
  destruct (send_half fs iter moved root_dir fuel alive_time_ T sent Hmmap (cv_clock Hk) ltac:(lia) HT
    fd (phase Open l) (phase (if keep q then Asking else Open) l) (cv_accepts Hk) (λ d w, cv_write Hk d l w)
    n p (unread q) (reply q) (file q) t r1 c) as (t' & r' & c' & Hrun & Hat' & Hsv & Hroom & He & Hph' & Hs');
    [by apply attends_reported|done|apply sound_file0| |done|apply sound_file0| | |].
  { rewrite Hd, Hz. unfold file. destruct (Connection.reply_file _ _ _ _); auto. }
  { rewrite Hkeep. intros Hka. rewrite Hka. split; [by apply sound_unread0|]. intros w Hw.
    destruct (cv_arm_input Hk (epoll_fd_ (epoller_ r1)) _ _ Hw) as (w2 & ? & ? & ?). by exists w2. }
  { rewrite Hkeep. by intros ->. }
  exists t', r', c'. rewrite Hkeep in Hsv. split; [exact (Hturn _ Hrun)|]. split; [exact Hat'|].
  split; [exact Hsv|]. split; [exact Hroom|]. split; [rewrite He; by apply reported_ok|]. split; [exact Hph'|].
  rewrite Hs'. simpl. by rewrite Hs1.
Qed.

Lemma served_awake t r t' r' c' : served fd p (T + alive_time_) t r t' r' c' → awake t → awake t'.
Proof.
  intros (_ & _ & _ & e & cb & He & He') [Hall _]. split.
  - intros k x. rewrite He'. intros [[<- <-]|[_ Hx]]%lookup_insert_Some; [simpl; lia|by eapply Hall].
  - eexists. split; [by rewrite He', lookup_insert_eq|simpl; lia].
Qed.

(** One request and its answer. *)
Lemma serve_one q l t r c :
  sound q → attends fd p [] [] (t, r) c → awake t → array_ok (epoller_ r) → phase Asking (chunks q :: l) (world r) →
  fits (Connection.read_buf_ (conn c)) (text q) → fits (Connection.write_buf_ (conn c)) (reply q) →
  ∃ t' r' c', serve (length (tasks r)) (t, r) = (Done tt, (t', r')) ∧
    attends fd p (unread q) [] (t', r') c' ∧
    served fd p (T + if keep q then alive_time_ else 0) t r t' r' c' ∧ roomy c (text q) (reply q) c' ∧
    array_ok (epoller_ r') ∧ phase (if keep q then Asking else Open) l (world r') ∧
    sent (world r') = sent (world r) ++ reply q ++ file q.
Proof.
  intros Hq Hat Haw Harr Hph Hfr Hfw.
  destruct (read_turn q l t r c Hq Hat Haw Harr Hph Hfr Hfw)
    as (t1 & r1 & c1 & H1 & Hat1 & Hsv1 & Hroom1 & Harr1 & Hph1 & Hs1 & Hk1 & Hd1 & Hz1).
  destruct (answer_turn q l t1 r1 c1 Hq Hat1 (served_awake _ _ _ _ _ Hsv1 Haw) Harr1 Hph1 Hk1 Hd1 Hz1)
    as (t2 & r2 & c2 & H2 & Hat2 & Hsv2 & Hroom2 & Harr2 & Hph2 & Hs2).
  exists t2, r2, c2. split; [|split; [done|split; [by eapply served_twice|split; [|split; [done|split; [done|]]]]]].
  - destruct Hsv1 as (_ & Ht1 & _). rewrite Ht1 in H2. by apply (two_halves _ _ _ _ _ _ _ H1).
  - rewrite <-(app_nil_r (text q)), <-(app_nil_r (reply q)). by eapply roomy_trans.
  - by rewrite Hs2, Hs1.
Qed.

(** What is served by whole turns and tasks can be served by the threads step by
    step. *)
Abbreviation steps := (rtc (λ y y', ∃ a, Interleave.step fs iter moved root_dir fuel alive_time_ a y y')).
Abbreviation between s := (Interleave.between s Interleave.Ticking).

Lemma serve_steps i s s' : serve i s = (Done tt, s') → steps (between s) (between s').
Proof.
  intros H. apply bind_done_inv in H as ([] & s1 & H1 & H).
  apply bind_done_inv in H as ([] & s2 & H2 & H). apply bind_done_inv in H as ([] & s3 & H3 & H4).
  etrans; [by eapply Interleave.turn_between|]. etrans; [by eapply Interleave.work_between|].
  etrans; [by eapply Interleave.turn_between|]. by eapply Interleave.work_between.
Qed.

Lemma serve_all_steps i k : ∀ s s', serve_all i k s = (Done tt, s') → steps (between s) (between s').
Proof.
  induction k as [|k IH]; intros s s' H; [by injection H as <-|].
  apply bind_done_inv in H as ([] & s1 & H1 & H2). etrans; [by eapply serve_steps|by apply IH].
Qed.

(** All requests and their answers. *)
Lemma serve_all_answered qs t r c :
  talk qs → attends fd p [] [] (t, r) c → awake t → array_ok (epoller_ r) →
  phase Asking (chunks <$> qs) (world r) →
  fits (Connection.read_buf_ (conn c)) (qs ≫= text) → fits (Connection.write_buf_ (conn c)) (qs ≫= reply) →
  ∃ t' r', serve_all (length (tasks r)) (length qs) (t, r) = (Done tt, (t', r')) ∧
    sent (world r') = sent (world r) ++ (qs ≫= λ q, reply q ++ file q) ∧
    ∀ q, last qs = Some q → ∃ c', attends fd p (unread q) [] (t', r') c' ∧
      served fd p (T + if keep q then alive_time_ else 0) t r t' r' c' ∧
      phase (if keep q then Asking else Open) [] (world r').
Proof.
  revert t r c. induction qs as [|q qs IH]; intros t r c Htalk Hat Haw Harr Hph Hfr Hfw.
  { exists t, r. by rewrite app_nil_r. }
  destruct Htalk as (Hq & Hkeep & Htalk). rewrite fmap_cons in Hph. cbn [mbind list_bind] in Hfr, Hfw.
  destruct (serve_one q (chunks <$> qs) t r c Hq Hat Haw Harr Hph) as (t1 & r1 & c1 & H1 & Hat1 & Hsv1 & Hroom & Harr1 & Hph1 & Hs1);
    [by eapply Connection.fits_app..|].
  cbn [length serve_all]. mrun H1. destruct (decide (qs = [])) as [->|Hne].
  { exists t1, r1. cbn [mbind list_bind]. rewrite app_nil_r. split_and!; [done|done|].
    intros q' [= <-]. by exists c1. }
  specialize (Hkeep Hne). rewrite (sound_unread _ Hq Hkeep) in Hat1. rewrite Hkeep in Hsv1, Hph1.
  destruct (IH t1 r1 c1 Htalk Hat1 (served_awake _ _ _ _ _ Hsv1 Haw) Harr1 Hph1) as (t2 & r2 & H2 & Hs2 & Hlast);
    [by apply Hroom..|].
  destruct Hsv1 as (Hu & Ht1 & Hsv1). rewrite Ht1 in H2.
  exists t2, r2. split; [exact H2|]. split; [by rewrite Hs2, Hs1, <-app_assoc|].
  intros q' Hq'. rewrite last_cons in Hq'. destruct (last qs) as [q''|] eqn:Hl; [|by apply last_None in Hl].
  injection Hq' as <-. destruct (Hlast _ eq_refl) as (c2 & Hat2 & Hsv2 & Hph2). exists c2.
  split; [done|]. split; [by eapply served_twice|done].
Qed.

(** C3: A client that asks again and again on one connection gets the answers in
    order.  Whatever the requests are, as long as each but the last keeps the
    connection alive, two turns of the main loop and two tasks for each of them end
    with all the answers sent, one behind the other and nothing else: the texts of
    the responses and the files behind them.  No other client and no other task is
    touched, the tables stay consistent, and the client is due at once, or, when its
    last request keeps it alive too, after a full alive time, its socket registered
    for the next input.  All this is a run of the interleaved threads as well. *)
Theorem conversation_answered qs t r c :
  talk qs → attends fd p [] [] (t, r) c → awake t → array_ok (epoller_ r) →
  phase Asking (chunks <$> qs) (world r) →
  fits (Connection.read_buf_ (conn c)) (qs ≫= text) → fits (Connection.write_buf_ (conn c)) (qs ≫= reply) →
  ∃ t' r', serve_all (length (tasks r)) (length qs) (t, r) = (Done tt, (t', r')) ∧
    steps (between (t, r)) (between (t', r')) ∧
    sent (world r') = sent (world r) ++ (qs ≫= λ q, reply q ++ file q) ∧
    ∀ q, last qs = Some q → ∃ c', attends fd p (unread q) [] (t', r') c' ∧
      served fd p (T + if keep q then alive_time_ else 0) t r t' r' c' ∧
      phase (if keep q then Asking else Open) [] (world r').
Proof.
  intros Htalk Hat Haw Harr Hph Hfr Hfw.
  destruct (serve_all_answered qs t r c Htalk Hat Haw Harr Hph Hfr Hfw) as (t' & r' & H & Hrest).
  exists t', r'. split; [exact H|]. split; [by eapply serve_all_steps|exact Hrest].
Qed.
End Conversation.

(** * Witness *)

(** The client of [demo_one] posts a message and keeps its connection alive; then it
    sends a line that is not a request, and is answered with an error. *)
Definition demo_reports (l : list (list str)) : list (list (Z * N)) :=
  l ≫= λ _, [[(7%Z, EPOLLIN)]; [(7%Z, EPOLLOUT)]].
Definition demo_inputs (l : list (list str)) : list (Z + str) := l ≫= λ ds, (inr <$> ds) ++ [inl 11%Z].

Definition demo_phase (x : Phase) (l : list (list str)) (w : DemoWorld) : Prop :=
  refuses w = false ∧
  reports w = match x with
    | Asking | Open => demo_reports l
    | Delivered _ | Drained | Answering => [(7%Z, EPOLLOUT)] :: demo_reports l
    end ∧
  input w = match x with Delivered ds => (inr <$> ds) ++ inl 11%Z :: demo_inputs l | _ => demo_inputs l end.

Abbreviation still := (scripted (λ _, 1000%Z)).

Lemma demo_delivers ds : ∀ w l, input w = (inr <$> ds) ++ inl 11%Z :: l →
  Connection.delivers (@sys_readv _ still) 7 w ds Connection.EAGAIN (set_input l w).
Proof.
  induction ds as [|d ds IH]; intros w l Hw.
  - apply Connection.delivers_stop. intros k. simpl. by rewrite Hw.
  - apply (Connection.delivers_chunk _ _ _ _ (set_input ((inr <$> ds) ++ inl 11%Z :: l) w)).
    + intros k. simpl. by rewrite Hw.
    + by apply (IH (set_input _ w)).
Qed.

Lemma demo_converses : @converses _ still 1000 sent 7 demo_phase.
Proof.
  split; [done|exact (ob_accepts _ _ demo_obedient)|..].
  - intros e size ms ds l w _ (Hr & Hrep & Hin). simpl in *. rewrite Hrep. eexists. split; [done|].
    split; [|done]. split_and!; [done..|]. etrans; [exact Hin|]. simpl. by rewrite <-app_assoc.
  - intros ds l w (Hr & Hrep & Hin). eexists. split; [by apply demo_delivers|]. by split_and!.
  - intros e l w (Hr & Hrep & Hin). exists w. simpl. rewrite Hr. by split_and!.
  - intros e size ms l w _ (Hr & Hrep & Hin). simpl in *. rewrite Hrep. eexists. split; [done|]. by split_and!.
  - by intros d l w (Hr & Hrep & Hin).
  - intros e l w (Hr & Hrep & Hin). exists w. simpl. rewrite Hr. by split_and!.
Qed.

Definition demo_line : str := s!"nonsense".
Definition demo_refusal : exn := Exn invalid_argument (s!"Invalid HTTP status line: 'nonsense'").
Definition demo_asked : list Asked :=
  [mkAsked demo_chunks (Done tt) (Connection.message_request (s!"1.1") demo_hs (s!"Ann+B") (s!"hi!")) [];
   mkAsked [demo_line] (Throw demo_refusal) Request.fresh_request demo_line].

Definition demo_talk : DemoServer :=
  (demo_one.1, set_world (mkDemo 1000 [] (demo_reports (chunks <$> demo_asked)) (demo_inputs (chunks <$> demo_asked))
    false [] []) demo_one.2).

Lemma demo_talk_attends : attends (W:=DemoWorld) 7 0 [] [] (demo_talk.1, demo_talk.2) demo_client.
Proof.
  destruct demo_busy_attends as [_ Ho Hl Hu Hc Ht Hw1 Hr Hw2 Hx].
  split; [exact (inv_world _ demo_one demo_one_inv)|exact Ho|exact Hl|exact Hu|exact Hc|exact Ht|done..].
Qed.

Lemma demo_refused : Request.run demo_moved Request.fresh_request demo_line (Throw demo_refusal) Request.fresh_request demo_line.
Proof.
  apply (Request.run_fail _ _ _ demo_line); [discriminate| |vm_compute; reflexivity].
  right. split; [done|]. apply str_find_None. vm_compute. reflexivity.
Qed.

Lemma demo_talks : talk demo_fs map_to_list demo_moved (s!"www") 500 demo_asked.
Proof.
  split; [|split; [done|split; [|done]]].
  - split; [discriminate|exact demo_request_run|done|..]; apply (bool_decide_unpack _); vm_compute; exact I.
  - split; [discriminate|exact demo_refused|vm_compute; discriminate|..];
      apply (bool_decide_unpack _); vm_compute; exact I.
Qed.

Lemma demo_awake : awake 60 1000 7 demo_talk.1.
Proof.
  assert (map_Forall (λ _ x, (1000 < x.1)%Z) (entries demo_talk.1)) as H
    by (apply (bool_decide_unpack _); vm_compute; exact I).
  split; [intros k x; apply H|]. exists (1060%Z, Some CloseTimedOut). split; [vm_compute; reflexivity|simpl; lia].
Qed.

Definition demo_answers : str :=
  s!"HTTP/1.1 200 OK" ++ crlf ++ s!"Connection: keep-alive" ++ crlf ++ s!"keep-alive: max=6, timeout=120" ++ crlf ++
  s!"Content-type: text/html" ++ crlf ++ s!"Content-length: 17" ++ crlf ++ crlf ++ s!"<p>Ann B: hi!</p>" ++
  s!"HTTP/1.1 400 Bad Request" ++ crlf ++ s!"Connection: close" ++ crlf ++ s!"Content-type: text/html" ++ crlf ++
  s!"Content-length: 114" ++ crlf ++ crlf ++
  Response.error_page Http.BadRequest (s!"No such file or directory").

Lemma conversation_answered_witness : ∃ t' r',
  @serve_all _ still demo_fs map_to_list demo_moved (s!"www") 500 60 5 0 2 (demo_talk.1, demo_talk.2) =
    (Done tt, (t', r')) ∧ sent (world r') = demo_answers ∧ inv (t', r') ∧
  entries t' !! 7%Z = Some (1000%Z, Some CloseTimedOut).
Proof.
  destruct (@conversation_answered _ still demo_fs map_to_list demo_moved (s!"www") 500 60 1000 sent 7 0 5 demo_phase
    Connection.demo_mmap demo_converses ltac:(done) ltac:(lia) ltac:(done) ltac:(done)
    demo_asked demo_talk.1 demo_talk.2 demo_client demo_talks demo_talk_attends demo_awake)
    as (t' & r' & H & _ & Hs & Hl).
  - split; vm_compute; [reflexivity|discriminate].
  - done.
  - vm_compute. discriminate.
  - vm_compute. discriminate.
  - destruct (Hl _ eq_refl) as (c' & Hat & (_ & _ & _ & e & cb & He & He') & _).
    exists t', r'. split; [exact H|]. split; [|split; [exact (at_inv _ _ _ _ _ _ Hat)|]].
    + rewrite Hs. vm_compute. reflexivity.
    + rewrite He', lookup_insert_eq. assert (entries demo_talk.1 !! 7%Z = Some (1060%Z, Some CloseTimedOut)) as He1
        by (vm_compute; reflexivity). rewrite He1 in He. by injection He as _ <-.
Defined.
