(* ===== verification/Builder.v ===== *)
(** How a server comes into being and goes: [WebServerBuilder], the constructor
    and the destructor of [include/web_server.h], the root directory that all
    connections share, and the guard of [InitNetwork]. *)

From S2P Require Import Prelude Util System.
From S2P Require Logger LogConfig Main ThreadPool Connection.
From S2P Require Import LogField HeapTimer Epoller WebServer ServerInvariant ServerSpec.

(** * The builder *)

(** A null [logger_] stands for the root logger; loggers are known by their
    address. *)
Record WebServerBuilder := mkBuilder { port_ : N; alive_time_ : Z; logger_ : option nat }.

(** [WebServerBuilder<IPv4Addr> builder {}] *)
Definition Builder_default : WebServerBuilder := mkBuilder 0 0 None.

Definition SetPort (port : N) (b : WebServerBuilder) : WebServerBuilder :=
  mkBuilder port (alive_time_ b) (logger_ b).
Definition SetAliveTime (time : Z) (b : WebServerBuilder) : WebServerBuilder :=
  mkBuilder (port_ b) time (logger_ b).
Definition SetLogger (logger : option nat) (b : WebServerBuilder) : WebServerBuilder :=
  mkBuilder (port_ b) (alive_time_ b) logger.

Section Builder.
Context {W : Type} `{!Kernel W}.
(** [std::thread::hardware_concurrency()] *)
Context (hardware : N).

(** The statics of the program that a server reaches: the loggers, the root
    directory of the connections; and the kernel. *)
Record Process := mkProcess { loggers : Main.World; root_dir_ : str; kernel : W }.

(** The setters of [ConnectionImpl], which [WebServer] and its builder repeat. *)
Definition SetRootDirectory (dir : str) : M Process unit :=
  modify (λ p, mkProcess (loggers p) dir (kernel p)).
Definition GetRootDirectory : M Process str := gets root_dir_.

Definition on_loggers {A} (m : M LogConfig.LogWorld A) : M Process A :=
  zoom loggers (λ l p, mkProcess l (root_dir_ p) (kernel p)) (Main.on_logs m).
Definition on_kernel {A} (m : M W A) : M Process A :=
  zoom kernel (λ w p, mkProcess (loggers p) (root_dir_ p) w) m.

(** A server: [closed_] and the workers' pool besides the members that
    [WebServer.v] describes. *)
Record WebServer := mkServer {
  server_port : N;
  server_alive_time : Z;
  server_closed : bool;
  thread_pool_ : ThreadPool.ThreadPool (T := Task);
  server_epoller : Epoller;
  server_logger : nat
}.

Definition default_capacity : N := 1024.

(** The constructor: the members in the order of their declarations; the pool
    and the server look up the root logger. *)
Definition WebServer_create (port : N) (alive_time : Z) (logger : option nat) : M Process WebServer := noexcept (
  on_loggers Main.RootLogger;;
  e ← on_kernel (Epoller_create default_capacity);
  l ← (match logger with Some l => mret l | None => on_loggers Main.RootLogger end);
  mret (mkServer port alive_time false (ThreadPool.ThreadPool_create None hardware) e l)).

Definition Create (b : WebServerBuilder) : M Process WebServer := noexcept
  (WebServer_create (port_ b) (alive_time_ b) (logger_ b)).

(** The calls of [main]. *)
Definition build (s : Main.Settings) : M Process WebServer :=
  let b := SetAliveTime (Main.alive_time_ s) (SetPort (Main.port_ s) Builder_default) in
  SetRootDirectory (Main.root_directory s);;
  Create b.

(** * The guard of [InitNetwork] *)

Abbreviation Server := (HeapTimer Z Timeout * Rest W)%type.

(** The local variable [failed] with the server. *)
Definition on_members {A} (m : M Server A) : M (bool * Server) A := zoom snd (λ s x, (x.1, s)) m.

Definition cleaner : M (bool * Server) unit :=
  x ← get;
  if x.1 : bool
  then on_members (modify (λ s, (s.1, set_listener invalid_file_descriptor
         (sys_close (listener_ s.2) (world s.2)) s.2)))
  else mret tt.

Definition guarded_init (port : N) (addr : N) (listener : Z) : M (bool * Server) unit :=
  scoped cleaner
    (on_members (init_listener port addr listener);;
     modify (λ x, (false, x.2))).

(** * The destructor *)

(** [~WebServer]: [Close], then the members; the epoll wrapper closes itself
    again.  The pool joins its workers as [PoolEnd] says. *)
Definition WebServer_destroy : M Server unit := noexcept (
  Server_Close;;
  on_epoller Close).

(** * Lemmas *)

Section Init.
Context (port addr : N) (fd : Z).
Abbreviation here := (λ s : Server, listener_ s.2 = fd).

Lemma on_world_listener {A} (f : W → A * W) : keeps here (on_world f).
Proof. intros [t r] H. unfold keeps_at, on_world. simpl in *. destruct (f _). by right. Qed.

Lemma on_epoller_listener {A} (m : M (Epoller * W) A) : keeps here (on_epoller m).
Proof. by apply keeps_zoom. Qed.

#[local] Hint Resolve on_world_listener on_epoller_listener : keeps.

Lemma init_listener_keeps : keeps here (init_listener port addr fd).
Proof. unfold init_listener, SetFileDescriptorAsNonblocking, ThrowLastSystemError. repeat keep_step. Qed.
End Init.

(** Looking a logger up again gives the same one. *)
Lemma find_again name level cap (m : Logger.Manager) i m' :
  c_str name = name → Logger.FindLogger name level cap m = (Done i, m') →
  Logger.FindLogger name level cap m' = (Done i, m').
Proof.
  intros Hn. unfold Logger.FindLogger. mstep. rewrite Hn. destruct (Logger.loggers_ m !! name) as [j|] eqn:Hj.
  - intros [= <- <-]. mstep. by rewrite Hj.
  - destruct (Logger.Logger_create_done name level cap) as [f ->].
    rewrite (bind_done (of_outcome (Done _)) _ m _ m eq_refl). mstep. rewrite decide_False by (by intros []).
    intros [= <- <-]. simpl. by rewrite lookup_insert_eq.
Qed.

Lemma root_logger_again w i w' :
  Main.on_logs Main.RootLogger w = (Done i, w') → Main.on_logs Main.RootLogger w' = (Done i, w').
Proof.
  destruct w as [[m h] q]. unfold Main.on_logs, Main.RootLogger, LogConfig.on_manager, zoom. simpl.
  destruct (Logger.FindLogger Main.root_logger_name Info None m) as [x m'] eqn:Hf. intros [= -> <-]. simpl.
  by rewrite (find_again Main.root_logger_name Info None m i m' eq_refl Hf).
Qed.

Lemma on_loggers_done {A} (m : M LogConfig.LogWorld A) w a w' dir k :
  Main.on_logs m w = (Done a, w') → on_loggers m (mkProcess w dir k) = (Done a, mkProcess w' dir k).
Proof.
  intros H. exact (zoom_done loggers (λ l p, mkProcess l (root_dir_ p) (kernel p)) (Main.on_logs m)
    (mkProcess w dir k) a w' H).
Qed.

(** What [build] makes when the kernel gives an epoll instance. *)
Definition made_server (s : Main.Settings) (fd : Z) (i : nat) : WebServer :=
  mkServer (Main.port_ s) (Main.alive_time_ s) false (ThreadPool.ThreadPool_create None hardware)
    (mkEpoller fd (replicate (N.to_nat default_capacity) (0%Z, 0%N))) i.

Lemma build_run s w dir k i w' : Main.on_logs Main.RootLogger w = (Done i, w') →
  match sys_epoll_create1 k with
  | (inr fd, k') => build s (mkProcess w dir k) = (Done (made_server s fd i), mkProcess w' (Main.root_directory s) k')
  | (inl _, k') => (build s (mkProcess w dir k)).1 = Crash
  end.
Proof.
  intros Hmade. unfold build, Create, WebServer_create.
  rewrite (bind_done (SetRootDirectory _) _ (mkProcess w dir k) tt (mkProcess w (Main.root_directory s) k) eq_refl).
  unfold noexcept. rewrite (bind_done _ _ _ _ _ (on_loggers_done _ w i w' (Main.root_directory s) k Hmade)).
  assert (∀ x k', Epoller_create default_capacity k = (x, k') →
    on_kernel (Epoller_create default_capacity) (mkProcess w' (Main.root_directory s) k) =
      (x, mkProcess w' (Main.root_directory s) k')) as Hep.
  { intros x k' H. unfold on_kernel, zoom. simpl. by rewrite H. }
  unfold Epoller_create in *. destruct (sys_epoll_create1 k) as [[errno|fd] k'] eqn:Hk; simpl in Hep |- *.
  - by rewrite (bind_throw _ _ _ _ _ (Hep _ _ eq_refl)).
  - rewrite (bind_done _ _ _ _ _ (Hep _ _ eq_refl)).
    by rewrite (bind_done _ _ _ _ _ (on_loggers_done _ w' i w' (Main.root_directory s) k' (root_logger_again w i w' Hmade))).
Qed.

(** ** Closed for good *)

Abbreviation shut := (λ s : Server, IsValidFileDescriptor (epoll_fd_ (epoller_ s.2)) = false).

Lemma epoller_shut s :
  ∃ e w, on_epoller Close s = (Done tt, (s.1, set_epoller e w s.2)) ∧
    IsValidFileDescriptor (epoll_fd_ e) = false.
Proof.
  unfold on_epoller, zoom, Close. mstep. cbn [fst snd].
  destruct (IsValidFileDescriptor (epoll_fd_ (epoller_ s.2))) eqn:Hv; eexists _, _; (split; [reflexivity|done]).
Qed.

Lemma destroy_client_shut p : keeps shut (destroy_client p : M Server unit).
Proof.
  unfold destroy_client. keep_step; [|by apply keeps_modify]. unfold on_client, client_at, run_client.
  do 2 (keep_step; [repeat keep_step|]). intros s Hs. unfold keeps_at.
  destruct (Connection.Close _ _) as [x [c w]]. by right.
Qed.

Lemma release_all_shut ps : keeps shut (release_all ps : M Server unit).
Proof.
  induction ps as [|p ps IH]; [apply keeps_mret|]. cbn [release_all]. apply keeps_get. intros s _.
  keep_step; [apply keeps_if; [apply keeps_mret|apply destroy_client_shut]|exact IH].
Qed.

Lemma Server_Close_shut s s' : Server_Close s = (Done tt, s') → shut s'.
Proof.
  unfold Server_Close, noexcept. destruct (IsValidFileDescriptor (listener_ s.2)) eqn:Hv.
  all: mstep; rewrite Hv; do 2 mstep; cbn [fst snd].
  all: match goal with |- context [(on_epoller Close ≫= _) ?s0] => destruct (epoller_shut s0) as (e & w & Hep & He) end.
  all: rewrite (bind_done _ _ _ _ _ Hep); cbn [fst snd].
  all: rewrite (bind_done (on_timer Clear) _ _ tt (Timer_empty, _) eq_refl); do 2 mstep; cbn [fst snd].
  all: match goal with |- context [release_all ?ps ?s0] => pose proof (release_all_shut ps s0 He) as Hk end.
  all: unfold keeps_at in Hk; destruct (release_all _ _) as [[[]|err| |] s1]; intros [= ->].
  all: by destruct Hk.
Qed.

(** * Properties *)

(** The guard of [InitNetwork] does what the model of [InitNetwork] says: with
    the variable [failed] set before and cleared behind the last call, the destructor
    of the [RAII] object closes the listener and marks it as invalid exactly when a
    call has thrown, and the exception goes on. *)
Theorem guard_closes_listener port addr s :
  let fd := listener_ s.2 in
  ∃ failed, guarded_init port addr fd (true, s) =
    let '(r, s') := try_catch (init_listener port addr fd)
      (λ err, modify (λ s, (s.1, set_listener invalid_file_descriptor (sys_close fd (world s.2)) s.2));;
              throw (kind err) (what err)) s in (r, (failed, s')).
Proof.
  intros fd. pose proof (init_listener_keeps port addr fd s eq_refl) as Hk. unfold keeps_at in Hk.
  unfold guarded_init, scoped, try_catch, on_members, zoom, mbind, M_bind. simpl.
  destruct (init_listener port addr fd s) as [[[]|err| |] s'] eqn:Hi; simpl in *.
  - by exists false.
  - exists true. destruct Hk as [|Hl]; [done|]. unfold noexcept. simpl. by rewrite Hl.
  - by exists true.
  - by exists true.
Qed.

(** [build] makes the server that [Startup] starts: it has the configured port and
    time, its pool has a worker for each hardware thread, and its logger is the root
    logger, which is made if there is none; every connection will look below the
    configured directory.  When the kernel refuses the epoll instance, the
    constructor, which must not throw, ends the program. *)
Theorem server_built s w dir k :
  let p := mkProcess w dir k in
  let made := Main.on_logs Main.RootLogger w in
  ∀ i w', made = (Done i, w') →
  match sys_epoll_create1 k with
  | (inr fd, k') => ∃ sv, build s p = (Done sv, mkProcess w' (Main.root_directory s) k') ∧
      server_port sv = Main.port_ s ∧ server_alive_time sv = Main.alive_time_ s ∧
      server_logger sv = i ∧ server_closed sv = false ∧
      ThreadPool.Start (thread_pool_ sv) = Done (ThreadPool.mkPool false hardware [],
        replicate (N.to_nat hardware) ThreadPool.Idle) ∧
      Epoller_create default_capacity k = (Done (server_epoller sv), k')
  | (inl _, k') => (build s p).1 = Crash
  end.
Proof.
  intros p made i w' Hmade. pose proof (build_run s w dir k i w' Hmade) as Hb.
  destruct (sys_epoll_create1 k) as [[errno|fd] k'] eqn:Hk; [exact Hb|].
  exists (made_server s fd i). split; [exact Hb|]. split_and!; try done. unfold Epoller_create. by rewrite Hk.
Qed.

(** Where [Close] succeeds the destructor of the server does the same: the epoll
    instance is closed once, and the listener too. *)
Theorem server_destroyed s s' :
  Server_Close s = (Done tt, s') → WebServer_destroy s = (Done tt, s') ∧ shut s'.
Proof.
  intros Hc. pose proof (Server_Close_shut s s' Hc) as Hs. split; [|done].
  unfold WebServer_destroy, noexcept. rewrite (bind_done _ _ _ _ _ Hc). destruct s' as [t []].
  unfold on_epoller, zoom, Close. mstep. cbn in Hs |- *. by rewrite Hs.
Qed.
End Builder.
