(* ===== verification/Startup.v ===== *)
(** The whole of [main]: the settings of [Main.v], the server that the builder of
    [Builder.v] makes from them, [Start] of [include/web_server.h] with its threads and
    around the turns of [WebServer.v], and the destructor that runs before an exception
    of [Start] reaches the handler of [main]. *)

From S2P Require Import Prelude Util System Yaml LogField LogConfig.
From S2P Require Config Logger Main ThreadPool Builder.
From S2P Require Import HeapTimer Epoller WebServer ServerInvariant ServerSpec.

Section Startup.
Context `{Yaml.Yaml}.
(** The parameters of [Main.v]. *)
Context (open_file : str → option Z) (strerror : Z → str).
Context (exists_file : str → outcome bool) (YAML_LoadFile : str → outcome Yaml.Node) (current_path : str).
Context (order : gset LogConfig.LoggerConfig → list LogConfig.LoggerConfig) (visit : ∀ {A}, gmap N A → list (N * A)).
Context (strftime : N → str → Z → str) (file : str) (thread : N) (now : Z).
(** The kernel, and [std::thread::hardware_concurrency()]. *)
Context {W : Type} `{!Kernel W} (hardware : N).

Abbreviation State := (Config.State (val := Main.val) (W := Main.World)).
Abbreviation Server := (HeapTimer Z Timeout * Rest W)%type.
Abbreviation Thread := (ThreadPool.Thread Task).

(** * The server while it lives *)

(** The local variable [web_server]: [server] has the members of [WebServer.v], among
    them [closed_] and the tasks of the pool; the other members of the pool are its size
    and its threads. *)
Record Live := mkLive { thread_count : N; threads : list Thread; server : Server }.

Definition on_server {A} (m : M Server A) : M Live A :=
  zoom server (λ s l, mkLive (thread_count l) (threads l) s) m.

Definition thread_pool (l : Live) : @ThreadPool.ThreadPool Task :=
  ThreadPool.mkPool (pool_closed (server l).2) (thread_count l) (Some <$> tasks (server l).2).

Definition set_pool_closed (b : bool) (r : Rest W) : Rest W :=
  mkRest (listener_ r) b (tasks r) (epoller_ r) (users_ r) (clients r) (logs r) (world r).

(** [thread_pool_.Start()] *)
Definition start_pool : M Live unit :=
  l ← get;
  '(p, ts) ← of_outcome (ThreadPool.Start (thread_pool l));
  put (mkLive (ThreadPool.thread_count_ p) (threads l ++ ts)
    ((server l).1, set_pool_closed (ThreadPool.closed_ p) (server l).2)).

(** The main loop; [closed_] is false, and nothing sets it.  [k] is a number of
    turns, and [n] bounds the clients of one turn. *)
Fixpoint loop (alive_time : Z) (n k : nat) : M Server unit :=
  match k with
  | 0 => out_of_fuel
  | S k' => turn alive_time n;; loop alive_time n k'
  end.

(** [Start]; the threads of the pool take their tasks by [WebServer.work]. *)
Definition Start (port : N) (alive_time : Z) (n k : nat) : M Live unit :=
  start_pool;;
  on_server (InitNetwork port);;
  on_server (loop alive_time n k).

(** [~WebServer] and the destructors of its members, the last of them that of the
    pool: it closes itself again and joins its threads, which [PoolEnd] proves to end.
    [main] comes here from [InitNetwork] only, when no thread has a task. *)
Definition destroy : M Live unit :=
  on_server Builder.WebServer_destroy;;
  on_server (modify (λ s, (s.1, set_pool_closed true s.2)));;
  modify (λ l, mkLive (thread_count l) [] (server l)).

(** * The program *)

(** Its variables and loggers, the root directory of the connections, the kernel, and
    what its servers have logged. *)
Record Program := mkProgram { config : State; root_dir_ : str; kernel : W; lines : list (Level * str) }.

Definition set_loggers (w : Main.World) (c : State) : State :=
  Config.mkState (Config.vars_ c) (Config.objects c) (Config.next_key c) (Config.cerr c) w.

Definition on_config {A} (m : M State A) : M Program A :=
  zoom config (λ c p, mkProgram c (root_dir_ p) (kernel p) (lines p)) m.
Definition on_process {A} (m : M (Builder.Process (W := W)) A) : M Program A :=
  zoom (λ p, Builder.mkProcess (Config.world (config p)) (root_dir_ p) (kernel p))
    (λ q p, mkProgram (set_loggers (Builder.loggers q) (config p)) (Builder.root_dir_ q) (Builder.kernel q) (lines p)) m.

(** A server as the constructor leaves it: no listener, the pool closed. *)
Definition created (sv : Builder.WebServer) (w : W) : Live :=
  mkLive (ThreadPool.thread_count_ (Builder.thread_pool_ sv)) []
    (Timer_empty, mkRest invalid_file_descriptor (ThreadPool.closed_ (Builder.thread_pool_ sv)) []
       (Builder.server_epoller sv) ∅ ∅ [] w).

(** The block of the local variable [web_server], made as [sv]. *)
Definition with_server {A} (sv : Builder.WebServer) (m : M Live A) : M Program A := λ p,
  let '(x, l) := scoped destroy m (created sv (kernel p)) in
  (x, mkProgram (config p) (root_dir_ p) (world (server l).2) (lines p ++ logs (server l).2)).

(** [main]; its result is the exit status.  An exception that leaves it ends the
    program. *)
Definition run (fuel n k : nat) : M Program Z := noexcept (
  on_config (Main.setup open_file strerror exists_file YAML_LoadFile current_path order visit strftime file thread now fuel);;
  try_catch
    (s ← on_config (Main.build_settings current_path);
     web_server ← on_process (Builder.build hardware s);
     with_server web_server
       (Start (Builder.server_port web_server) (Builder.server_alive_time web_server) n k);;
     mret 0%Z)
    (λ err, on_config (Main.report_failure strftime file thread now err);; mret 1%Z)).

(** * Lemmas *)

(** Exceptions do not leave a turn, and the loop does not end. *)
Lemma turn_catches alive n s e s' : turn alive n s ≠ (Throw e, s').
Proof.
  unfold turn, try_catch.
  match goal with |- match ?x with _ => _ end ≠ _ => destruct x as [[[]|err| |] s1]; try done end.
Qed.

Lemma loop_endless alive n k : ∀ s, (loop alive n k s).1 = OutOfFuel ∨ (loop alive n k s).1 = Crash.
Proof.
  induction k as [|k IH]; intros s; [by left|]. cbn [loop]. unfold mbind, M_bind.
  destruct (turn alive n s) as [[[]|e| |] s1] eqn:Ht; [apply IH| |by right|by left].
  by apply turn_catches in Ht.
Qed.

(** ** The server is made and goes *)

Lemma server_created s fd i w :
  start_pool (created (Builder.made_server hardware s fd i) w) =
    (Done tt, mkLive hardware (replicate (N.to_nat hardware) ThreadPool.Idle)
       (initial (Builder.server_epoller (Builder.made_server hardware s fd i)) w)).
Proof. reflexivity. Qed.

Lemma on_config_done {A} (m : M State A) p a c :
  m (config p) = (Done a, c) → on_config m p = (Done a, mkProgram c (root_dir_ p) (kernel p) (lines p)).
Proof. intros H'. exact (zoom_done config _ m p a c H'). Qed.

Lemma on_server_done {A} (m : M Server A) c ts s a s' :
  m s = (Done a, s') → on_server m (mkLive c ts s) = (Done a, mkLive c ts s').
Proof. intros H'. exact (zoom_done server _ m (mkLive c ts s) a s' H'). Qed.

(** Without a listener, clients and tasks the destructor closes the epoll instance
    and joins the threads. *)
Lemma destroy_idle c ts fd es ls w : (0 ≤ fd)%Z →
  destroy (mkLive c ts (Timer_empty, mkRest invalid_file_descriptor false [] (mkEpoller fd es) ∅ ∅ ls w)) =
    (Done tt, mkLive c [] (Timer_empty, mkRest invalid_file_descriptor true []
       (mkEpoller Epoller.invalid_file_descriptor es) ∅ ∅ ls (sys_close fd w))).
Proof.
  intros Hfd. pose proof (proj2 (Z.leb_le 0 fd) Hfd) as Hb.
  set (s := (Timer_empty, mkRest invalid_file_descriptor false [] (mkEpoller fd es) ∅ ∅ ls w) : Server).
  set (s1 := (Timer_empty, mkRest invalid_file_descriptor true [] (mkEpoller Epoller.invalid_file_descriptor es)
    ∅ ∅ ls (sys_close fd w)) : Server).
  assert (Builder.WebServer_destroy s = (Done tt, s1)) as Hd.
  { apply Builder.server_destroyed. unfold Server_Close, on_epoller, noexcept, Close, zoom, IsValidFileDescriptor, s.
    unfold mbind, M_bind, gets, mret, M_ret. simpl. rewrite Hb. reflexivity. }
  unfold destroy. by rewrite (bind_done _ _ _ tt (mkLive c ts s1) (on_server_done _ c ts s tt s1 Hd)).
Qed.

(** The event of the handler of [main]. *)
Definition failure_event (err : exn) : Event :=
  write_message (Event_Create Error file 84 thread now) (s!"Failed to run server: " ++ what err).

Section Run.
Context (fuel n k : nat) (l : gset LogConfig.LoggerConfig) (pt a : N) (f : str) (out : list str) (ns : Z).
Context (w w' : Main.World) (i : nat).
Abbreviation vars := (Main.vars open_file strerror order l pt a f out).
Abbreviation dir := (Response.path_append current_path f).
Context (set_up : Main.setup open_file strerror exists_file YAML_LoadFile current_path order visit strftime file thread now
  fuel Main.boot = (Done tt, vars w)).
Context (duration : Main.seconds a = Some ns) (root : Main.on_logs Main.RootLogger w = (Done i, w')).
Abbreviation report err := (Main.root_log strftime file thread now Error 84 (s!"Failed to run server: " ++ what err) w').
Abbreviation web_server fd := (Builder.made_server hardware (Main.mkSettings pt ns dir) fd i).

(** What the second [try] block does once the server has been made. *)
Definition serving (fd : Z) : M Program Z := noexcept (try_catch
  (with_server (web_server fd) (Start pt ns n k);; mret 0%Z)
  (λ err, on_config (Main.report_failure strftime file thread now err);; mret 1%Z)).

Lemma run_built d k0 ls :
  match sys_epoll_create1 k0 with
  | (inr fd, k1) => run fuel n k (mkProgram Main.boot d k0 ls) = serving fd (mkProgram (vars w') dir k1 ls)
  | (inl _, k1) => (run fuel n k (mkProgram Main.boot d k0 ls)).1 = Crash
  end.
Proof.
  unfold run, serving, noexcept.
  rewrite (bind_done _ _ _ _ _ (on_config_done _ (mkProgram Main.boot d k0 ls) tt (vars w) set_up)).
  unfold try_catch. cbn [root_dir_ kernel lines].
  rewrite (bind_done _ _ _ _ _ (on_config_done _ (mkProgram (vars w) d k0 ls) _ _
    (Main.build_settings_ok _ _ current_path order l pt a f out w ns duration))). cbn [root_dir_ kernel lines].
  pose proof (Builder.build_run hardware (Main.mkSettings pt ns dir) w d k0 i w' root) as Hb.
  destruct (sys_epoll_create1 k0) as [[errno|fd] k1].
  - destruct (Builder.build _ _ _) as [x q] eqn:Hx in Hb. simpl in Hb. subst x.
    assert (on_process (Builder.build hardware (Main.mkSettings pt ns dir)) (mkProgram (vars w) d k0 ls) =
      (Crash, mkProgram (set_loggers (Builder.loggers q) (vars w)) (Builder.root_dir_ q) (Builder.kernel q) ls)) as Ho.
    { unfold on_process, zoom. cbn [Config.world config root_dir_ kernel]. change (Config.world (vars w)) with w. by rewrite Hx. }
    by rewrite (bind_crash _ _ _ _ Ho).
  - rewrite (bind_done _ _ _ (web_server fd) (mkProgram (vars w') dir k1 ls)); [done|].
    unfold on_process, zoom. cbn [Config.world config root_dir_ kernel]. change (Config.world (vars w)) with w. by rewrite Hb.
Qed.

(** [Start] behind the start of the pool. *)
Abbreviation fresh fd k1 := (initial (Builder.server_epoller (web_server fd)) k1).
Abbreviation workers := (replicate (N.to_nat hardware) ThreadPool.Idle).

Lemma Start_run fd k1 :
  Start pt ns n k (created (web_server fd) k1) =
    (on_server (InitNetwork pt);; on_server (loop ns n k)) (mkLive hardware workers (fresh fd k1)).
Proof. unfold Start. by rewrite (bind_done _ _ _ _ _ (server_created (Main.mkSettings pt ns dir) fd i k1)). Qed.

Lemma reported err k2 :
  on_config (Main.report_failure strftime file thread now err) (mkProgram (vars w') dir k2 []) =
    ((report err).1, mkProgram (vars (report err).2) dir k2 []).
Proof.
  unfold on_config, Main.report_failure, Main.on_world, zoom. cbn [config]. change (Config.world (vars w')) with w'.
  by destruct (report err).
Qed.

Lemma serving_fails fd k1 k2 err : (0 ≤ fd)%Z →
  InitNetwork pt (fresh fd k1) = (Throw err, (Timer_empty, set_listener invalid_file_descriptor k2 (fresh fd k1).2)) →
  serving fd (mkProgram (vars w') dir k1 []) =
    (match (report err).1 with Done _ => Done 1%Z | OutOfFuel => OutOfFuel | _ => Crash end,
     mkProgram (vars (report err).2) dir (sys_close fd k2) []).
Proof.
  intros Hfd Hi.
  assert (with_server (web_server fd) (Start pt ns n k) (mkProgram (vars w') dir k1 []) =
    (Throw err, mkProgram (vars w') dir (sys_close fd k2) [])) as Hws.
  { unfold with_server, scoped. cbn [kernel config root_dir_ lines]. rewrite Start_run.
    rewrite (bind_throw _ _ _ err (mkLive hardware workers
      (Timer_empty, set_listener invalid_file_descriptor k2 (fresh fd k1).2))).
    2: { exact (zoom_throw server _ _ (mkLive hardware workers (fresh fd k1)) err _ Hi). }
    assert (destroy (mkLive hardware workers (Timer_empty, set_listener invalid_file_descriptor k2 (fresh fd k1).2)) =
      (Done tt, mkLive hardware [] (Timer_empty, mkRest invalid_file_descriptor true []
        (mkEpoller Epoller.invalid_file_descriptor (replicate (N.to_nat Builder.default_capacity) (0%Z, 0%N)))
        ∅ ∅ [] (sys_close fd k2)))) as Hd by exact (destroy_idle _ _ fd _ [] k2 Hfd).
    unfold noexcept. unfold mbind, M_bind. rewrite Hd. destruct err. reflexivity. }
  unfold serving, noexcept, try_catch. rewrite (bind_throw _ _ _ _ _ Hws). unfold mbind, M_bind. rewrite reported.
  by destruct (report err) as [[[]|e| |] w2].
Qed.

Lemma serving_serves fd k1 sv x s' :
  InitNetwork pt (fresh fd k1) = (Done tt, sv) → loop ns n k sv = (x, s') →
  serving fd (mkProgram (vars w') dir k1 []) =
    (match x with Crash => Crash | _ => OutOfFuel end, mkProgram (vars w') dir (world s'.2) (logs s'.2)).
Proof.
  intros Hi Hl. pose proof (loop_endless ns n k sv) as He. rewrite Hl in He. cbn [fst] in He.
  assert (with_server (web_server fd) (Start pt ns n k) (mkProgram (vars w') dir k1 []) =
    (match x with Crash => Crash | _ => OutOfFuel end, mkProgram (vars w') dir (world s'.2) (logs s'.2))) as Hws.
  { unfold with_server, scoped. cbn [kernel config root_dir_ lines]. rewrite Start_run.
    rewrite (bind_done _ _ _ tt (mkLive hardware workers sv)) by exact (on_server_done _ _ _ _ _ _ Hi).
    assert (on_server (loop ns n k) (mkLive hardware workers sv) = (match x with Crash => Crash | _ => OutOfFuel end, mkLive hardware workers s')) as Ho.
    { unfold on_server, zoom. cbn [server thread_count threads]. rewrite Hl. by destruct He as [-> | ->]. }
    rewrite Ho. by destruct He as [-> | ->]. }
  unfold serving, noexcept, try_catch. destruct He as [-> | ->];
    [by rewrite (bind_fuel _ _ _ _ Hws)|by rewrite (bind_crash _ _ _ _ Hws)].
Qed.

Lemma serving_crashes fd k1 : (InitNetwork pt (fresh fd k1)).1 = Crash →
  (serving fd (mkProgram (vars w') dir k1 [])).1 = Crash.
Proof.
  intros Hi. destruct (InitNetwork pt (fresh fd k1)) as [x sv] eqn:Hx. simpl in Hi. subst x.
  assert (on_server (InitNetwork pt) (mkLive hardware workers (fresh fd k1)) = (Crash, mkLive hardware workers sv)) as Ho
    by (unfold on_server, zoom; cbn [server]; by rewrite Hx).
  unfold serving, noexcept, try_catch, with_server, scoped. unfold mbind at 1, M_bind at 1. cbn [kernel].
  by rewrite Start_run, (bind_crash _ _ _ _ Ho).
Qed.

(** A root logger that can print the event of the handler: a synchronous one
    whose level admits errors and whose appenders exist with their formatters. *)
Definition prints_errors (lg : Logger.Logger) : Prop :=
  Logger.made (manager (Main.logs w')) !! i = Some lg ∧ Logger.async_ lg = false ∧
  Level_value (Logger.level_ lg) ≤ Level_value Error ∧
  Forall (Logger.usable (heap_ (Main.logs w'))) (Logger.appenders_ lg).

Lemma error_printed lg err : prints_errors lg →
  ∃ xs, report err = (Done tt, Main.mkWorld (mkLogWorld (manager (Main.logs w'))
      (Logger.mkHeap (Logger.appender_at (heap_ (Main.logs w'))) (Logger.written (heap_ (Main.logs w')) ++ xs)))
      (Main.queued w')) ∧
    Forall2 (λ p x, Logger.line strftime lg (heap_ (Main.logs w')) (failure_event err) p = Some x)
      (Logger.appenders_ lg) xs.
Proof.
  intros (Hlg & Hsync & Hlevel & Hus). pose proof (Builder.root_logger_again w i w' root) as Hroot.
  unfold Main.root_log. rewrite (bind_done _ _ _ _ _ Hroot). mstep. rewrite Hlg.
  rewrite (bind_done (deref (Some lg)) _ w' lg w' eq_refl). cbv zeta. rewrite Hsync.
  destruct (Logger.log_writes strftime (failure_event err) (Logger.mkWorld lg (heap_ (Main.logs w')))) as (xs & Hr & Hxs);
    [exact Hus|]. cbn [Logger.logger Logger.heap] in Hxs.
  assert (Logger.enabled (failure_event err) lg = true) as Hen by (by apply Nat.leb_le). rewrite Hen in Hxs.
  exists xs. split; [|exact Hxs]. unfold failure_event in Hr. unfold Main.on_logs, zoom.
  rewrite (on_logger_ok _ _ _ _ _ _ Hlg Hr). cbn [Logger.logger Logger.heap].
  unfold Logger.set_heap. cbn [Logger.logger Logger.heap].
  rewrite (list_insert_id _ _ _ Hlg). by destruct w' as [[[] ] ].
Qed.

Lemma serving_cases addr ep k1 : (0 ≤ ep)%Z → sys_inet_pton any_address = inr addr →
  (∀ w fd w', sys_socket w = (inr fd, w') → (0 ≤ fd)%Z) →
  let failed errno k' := serving ep (mkProgram (vars w') dir k1 []) =
    (match (report (last_error errno)).1 with Done _ => Done 1%Z | OutOfFuel => OutOfFuel | _ => Crash end,
     mkProgram (vars (report (last_error errno)).2) dir k' []) in
  if (1024 <=? pt)%N then
    match sys_socket k1 with
    | (inl errno, k2) => failed errno (sys_close ep k2)
    | (inr fd, k2) =>
        match start_calls pt ep fd addr k2 with
        | (Some errno, k3) => failed errno (sys_close ep (sys_close fd k3))
        | (None, k3) => ∃ x s', loop ns n k (Timer_empty, set_listener fd k3 (fresh ep k1).2) = (x, s') ∧
            (x = OutOfFuel ∨ x = Crash) ∧
            serving ep (mkProgram (vars w') dir k1 []) =
              (match x with Crash => Crash | _ => OutOfFuel end, mkProgram (vars w') dir (world s'.2) (logs s'.2))
        end
    end
  else (serving ep (mkProgram (vars w') dir k1 [])).1 = Crash.
Proof.
  intros Hep Haddr Hsock failed. destruct (N.leb_spec 1024 pt) as [Hport|Hport].
  2: { apply serving_crashes. unfold InitNetwork. by rewrite (proj2 (N.leb_gt _ _) Hport). }
  pose proof (InitNetwork_run pt addr Timer_empty (fresh ep k1).2 Hport Haddr Hsock) as Hi.
  change (world (fresh ep k1).2) with k1 in Hi. change (epoll_fd_ (epoller_ (fresh ep k1).2)) with ep in Hi.
  destruct (sys_socket k1) as [[errno|fd] k2]; [by apply serving_fails|].
  destruct (start_calls pt ep fd addr k2) as [[errno|] k3]; [by apply (serving_fails _ _ (sys_close fd k3))|].
  destruct (loop ns n k (Timer_empty, set_listener fd k3 (fresh ep k1).2)) as [x s'] eqn:Hl. exists x, s'.
  split; [done|]. split; [|exact (serving_serves _ _ _ x s' Hi Hl)].
  pose proof (loop_endless ns n k (Timer_empty, set_listener fd k3 (fresh ep k1).2)) as H'. by rewrite Hl in H'.
Qed.
End Run.

(** Seconds that do not fit. *)
Lemma run_no_time fuel n k l pt a f out w p :
  Main.setup open_file strerror exists_file YAML_LoadFile current_path order visit strftime file thread now fuel (config p) =
    (Done tt, Main.vars open_file strerror order l pt a f out w) →
  Main.seconds a = None → (run fuel n k p).1 = Crash.
Proof.
  intros Hset Hns. set (c := Main.vars open_file strerror order l pt a f out w) in *.
  unfold run, noexcept. rewrite (bind_done _ _ _ _ _ (on_config_done _ p tt c Hset)).
  assert (Main.build_settings current_path c = (Crash, c)) as Hb.
  { unfold Main.build_settings.
    rewrite (bind_done _ _ _ pt c) by reflexivity. rewrite (bind_done _ _ _ a c) by reflexivity.
    rewrite (bind_done _ _ _ f c) by reflexivity. by rewrite Hns. }
  unfold try_catch, on_config, zoom. unfold mbind at 1, M_bind at 1. cbn [config]. by rewrite Hb.
Qed.

(** The epoll array that the constructor makes. *)
Abbreviation epoller fd := (mkEpoller fd (replicate (N.to_nat Builder.default_capacity) (0%Z, 0%N))).

Lemma root_found (w : Main.World) : ∃ i w', Main.on_logs Main.RootLogger w = (Done i, w').
Proof.
  unfold Main.on_logs, Main.RootLogger, on_manager, zoom. cbn [Main.logs].
  unfold Logger.FindLogger. mstep. destruct (Logger.loggers_ _ !! _) as [j|]; [by eexists _, _|].
  destruct (Logger.Logger_create_done Main.root_logger_name Info None) as [f ->]. by eexists _, _.
Qed.

(** * Properties *)

(** C15: From the settings to a listening server.  Whatever the local file has made of
    the variables and the loggers, [main] makes the server that the builder describes
    and starts it.  When all calls of the kernel succeed, the server listens at the
    configured port, works on as its loop says, with the configured time, and [main] does
    not return.  When a call fails, the socket is closed and the server destroyed, with
    its epoll instance; then the root logger is given the reason and [main] returns 1:
    each appender of a synchronous root logger prints one line.  A time that does not fit,
    an epoll instance that is refused and a port below 1024 end the program. *)
Theorem program_starts fuel n k l pt a f out w addr d k0 :
  Main.setup open_file strerror exists_file YAML_LoadFile current_path order visit strftime file thread now fuel Main.boot =
    (Done tt, Main.vars open_file strerror order l pt a f out w) →
  sys_inet_pton any_address = inr addr →
  (∀ w fd w', sys_socket w = (inr fd, w') → (0 ≤ fd)%Z) →
  (∀ w fd w', sys_epoll_create1 w = (inr fd, w') → (0 ≤ fd)%Z) →
  ∃ i w', Main.on_logs Main.RootLogger w = (Done i, w') ∧
  let vars := Main.vars open_file strerror order l pt a f out in
  let dir := Response.path_append current_path f in
  let main := run fuel n k (mkProgram Main.boot d k0 []) in
  let report errno := Main.root_log strftime file thread now Error 84
    (s!"Failed to run server: " ++ sys_strerror errno) w' in
  let failed errno k' := main =
    (match (report errno).1 with Done _ => Done 1%Z | OutOfFuel => OutOfFuel | _ => Crash end,
     mkProgram (vars (report errno).2) dir k' []) in
  match Main.seconds a, sys_epoll_create1 k0 with
  | Some ns, (inr ep, k1) =>
      if (1024 <=? pt)%N then
        match sys_socket k1 with
        | (inl errno, k2) => failed errno (sys_close ep k2)
        | (inr fd, k2) =>
            match start_calls pt ep fd addr k2 with
            | (Some errno, k3) => failed errno (sys_close ep (sys_close fd k3))
            | (None, k3) => ∃ x s',
                loop ns n k (Timer_empty, set_listener fd k3 (initial (epoller ep) k1).2) = (x, s') ∧
                (x = OutOfFuel ∨ x = Crash) ∧
                main = (match x with Crash => Crash | _ => OutOfFuel end, mkProgram (vars w') dir (world s'.2) (logs s'.2))
            end
        end
      else main.1 = Crash
  | _, _ => main.1 = Crash
  end ∧
  ∀ lg errno, prints_errors w' i lg → ∃ xs,
    report errno = (Done tt, Main.mkWorld (mkLogWorld (manager (Main.logs w'))
      (Logger.mkHeap (Logger.appender_at (heap_ (Main.logs w'))) (Logger.written (heap_ (Main.logs w')) ++ xs)))
      (Main.queued w')) ∧
    Forall2 (λ p x, Logger.line strftime lg (heap_ (Main.logs w')) (failure_event (last_error errno)) p = Some x)
      (Logger.appenders_ lg) xs.
Proof.
  intros Hset Haddr Hsock Hep. destruct (root_found w) as (i & w' & Hroot). exists i, w'.
  split; [done|]. intros vars dir main report failed.
  split; [|intros lg errno; exact (error_printed w w' i Hroot lg (last_error errno))].
  destruct (Main.seconds a) as [ns|] eqn:Hns; [|by eapply run_no_time].
  pose proof (run_built fuel n k l pt a f out ns w w' i Hset Hns Hroot d k0 []) as Hb.
  destruct (sys_epoll_create1 k0) as [[errno|ep] k1] eqn:He; [exact Hb|].
  unfold failed, main. rewrite Hb. apply Hep in He. by apply serving_cases.
Qed.

End Startup.

(** * Witness *)

#[local] Existing Instance demo_kernel.

(** The file [config.yaml] of the repository. *)
Definition shipped_loggers : tree :=
  GenNode 0 [GenNode 1 [Main.leaf "name"; Main.leaf "root"; Main.leaf "level"; Main.leaf "info";
    Main.leaf "appenders"; GenNode 0 [GenNode 1 [Main.leaf "type"; Main.leaf "stdout"]]]].
Definition shipped_server : tree :=
  GenNode 1 [Main.leaf "port"; Main.leaf "10000"; Main.leaf "asset_folder"; Main.leaf "assets";
             Main.leaf "alive_time"; Main.leaf "60"].
Definition shipped_root : tree :=
  GenNode 1 [Main.leaf "server"; shipped_server; Main.leaf "loggers"; shipped_loggers].
Definition shipped_members : list (str * tree) :=
  match Config.ExtractMembers (H := tree_yaml) 8 shipped_root [] with Done ms => ms | _ => [] end.
Definition shipped_logger : LoggerConfig := mkLoggerConfig (s!"root") Info 0 [] [to_console].

Lemma shipped_logger_read :
  Convert.FromStr (VarConverter := Main.conv (H := tree_yaml) Main.main_order Main.Loggers)
    (Yaml.emit (Yaml := tree_yaml) shipped_loggers) = Done {[shipped_logger]}.
Proof.
  pose (cv := LoggerConfig_converter (H := tree_yaml)).
  assert (Convert.list_FromStr (H := tree_yaml) (VarConverter0 := cv) (Yaml.emit (Yaml := tree_yaml) shipped_loggers) =
    Done [shipped_logger]) as Hl by (vm_compute; reflexivity).
  change (Convert.FromStr _) with (vals ← Convert.list_FromStr (H := tree_yaml) (VarConverter0 := cv)
    (Yaml.emit (Yaml := tree_yaml) shipped_loggers); Done (list_to_set vals : gset LoggerConfig)).
  rewrite Hl. reflexivity.
Qed.

Lemma shipped_describes : Main.describes (H := tree_yaml) Main.main_order shipped_members {[shipped_logger]}.
Proof.
  right. exists [([], shipped_root)], (s!"loggers"), shipped_loggers,
    [(s!"server", shipped_server); (s!"server.alive_time", Main.leaf "60");
     (s!"server.asset_folder", Main.leaf "assets"); (s!"server.port", Main.leaf "10000")].
  split; [vm_compute; reflexivity|].
  split; [apply Main.local_plain|split; [apply Main.local_plain|split; [reflexivity|exact shipped_logger_read]]].
  - apply Forall_singleton. left. reflexivity.
  - repeat (apply Forall_cons; split); [| | | |constructor].
    + right. left. reflexivity.
    + right. right. right. left. exists 60%N. split; [reflexivity|vm_compute; reflexivity].
    + right. right. right. right. reflexivity.
    + right. right. left. exists 10000%N. split; [reflexivity|vm_compute; reflexivity].
Qed.

Abbreviation shipped_vars := (Main.vars demo_open demo_error Main.main_order {[shipped_logger]} 10000 60
  (s!"assets") []).

Lemma shipped_setup : ∃ lw,
  Main.setup (H := tree_yaml) demo_open demo_error (λ _, Done true) (λ _, Done shipped_root) (s!"/srv")
    Main.main_order Main.main_visit Main.demo_time (s!"main.cpp") 1 0 8 Main.boot =
    (Done tt, shipped_vars (Main.mkWorld lw [])) ∧
  Logger.written (heap_ lw) = [] ∧ configured lw shipped_logger.
Proof.
  destruct (Main.described_setup (H := tree_yaml) demo_open demo_error (λ _, Done true) (λ _, Done shipped_root)
    (s!"/srv") Main.main_order Main.main_visit Main.demo_time (s!"main.cpp") 1 0 Main.main_visit_all 8 shipped_members
    {[shipped_logger]}) as (lw & Hs & (_ & _ & Hw) & Hc).
  - exists shipped_root. split; [reflexivity|split; [reflexivity|vm_compute; reflexivity]].
  - exact shipped_describes.
  - exact Main.main_order_all.
  - unfold Main.main_order. rewrite elements_singleton. apply NoDup_singleton.
  - intros c ->%elem_of_singleton. split; [reflexivity|]. split; [|by repeat constructor].
    unfold wanted. rewrite decide_True by done. eexists. vm_compute. reflexivity.
  - exists lw. split; [|split; [exact Hw|apply Hc; by apply elem_of_singleton]].
    rewrite Hs. unfold shipped_members. do 2 f_equal; vm_compute; reflexivity.
Qed.

(** The root logger of a world with this configuration. *)
Lemma shipped_root_logger lw : configured lw shipped_logger →
  ∃ i lg p, Main.on_logs Main.RootLogger (Main.mkWorld lw []) = (Done i, Main.mkWorld lw []) ∧
    prints_errors (Main.mkWorld lw []) i lg ∧ Logger.appenders_ lg = [Some p] ∧
    fst <$> (Logger.line Main.demo_time lg (heap_ lw) (failure_event (s!"main.cpp") 1 0 (last_error 2)) (Some p)) =
      Some Logger.Cout.
Proof.
  intros (i & f & ps & Hi & _ & Hl & Hps). apply Forall2_cons_inv_r in Hps as (q & ps' & (p & -> & Hp) & Hnil & ->).
  apply Forall2_nil_inv_r in Hnil as ->.
  exists i, (Logger.mkLogger (s!"root") 0 Info [Some p] (Some f)), p. split; [|split; [split; [exact Hl|split; [done|split; [simpl; lia|]]]|split; [done|]]].
  - unfold Main.on_logs, Main.RootLogger, on_manager, zoom, Logger.FindLogger. cbn [Main.logs]. mstep.
    change (c_str Main.root_logger_name) with (s!"root"). change (lname shipped_logger) with (s!"root") in Hi.
    rewrite Hi. by destruct lw.
  - apply Forall_singleton. by exists p, (Logger.mkAppender Logger.Cout (Some f)), f.
  - unfold Logger.line. simpl. by rewrite Hp.
Qed.

(** With the file of the repository, a kernel that refuses to register the listener:
    [main] returns 1, and the reason has been printed. *)
Lemma program_starts_witness : ∃ p line,
  run (H := tree_yaml) demo_open demo_error (λ _, Done true) (λ _, Done shipped_root) (s!"/srv")
    Main.main_order Main.main_visit Main.demo_time (s!"main.cpp") 1 0 8 8 5 2
    (mkProgram Main.boot [] (mkDemo 1000 [] [] [] true [] []) []) = (Done 1%Z, p) ∧
  Logger.written (heap_ (Main.logs (Config.world (config p)))) = [(Logger.Cout, line)] ∧
  shut (kernel p) = [4%Z; 3%Z] ∧ root_dir_ p = s!"/srv/assets".
Proof.
  destruct shipped_setup as (lw & Hs & Hw & Hc). destruct (shipped_root_logger lw Hc) as (i & lg & q & Hroot & Hpr & Hap & Hq).
  destruct (program_starts (H := tree_yaml) (Kernel0 := demo_kernel) demo_open demo_error (λ _, Done true) (λ _, Done shipped_root) (s!"/srv")
    Main.main_order Main.main_visit Main.demo_time (s!"main.cpp") 1 0 8 8 5 2 {[shipped_logger]} 10000 60 (s!"assets")
    [] (Main.mkWorld lw []) 0 [] (mkDemo 1000 [] [] [] true [] []) Hs eq_refl) as (i' & w' & Hroot' & Hm & Hprint).
  { intros w fd w' [= <- _]. lia. } { intros w fd w' [= <- _]. lia. }
  rewrite Hroot in Hroot'. injection Hroot' as <- <-. destruct (Hprint lg 2%Z Hpr) as (xs & Hrep & Hxs).
  rewrite Hap in Hxs. apply Forall2_cons_inv_l in Hxs as ([snk line] & xs' & Hx & Hnil & ->).
  apply Forall2_nil_inv_l in Hnil as ->. cbn [Main.logs] in Hx. rewrite Hx in Hq. injection Hq as ->.
  set (k0 := mkDemo 1000 [] [] [] true [] []) in *.
  assert (Main.seconds 60 = Some 60000000000%Z) as E1 by (vm_compute; reflexivity).
  assert (sys_epoll_create1 k0 = (inr 3%Z, k0)) as E2 by (vm_compute; reflexivity).
  assert (sys_socket k0 = (inr 4%Z, k0)) as E3 by (vm_compute; reflexivity).
  assert (start_calls 10000 3 4 0 k0 = (Some 2%Z, k0)) as E4 by (vm_compute; reflexivity).
  rewrite E1, E2 in Hm. change (1024 <=? 10000)%N with true in Hm. cbv beta iota zeta in Hm.
  rewrite E3 in Hm. cbv beta iota in Hm. rewrite E4 in Hm. cbv beta iota in Hm. rewrite Hrep in Hm.
  cbn [fst snd] in Hm. eexists _, line. split; [exact Hm|]. split; [|split; reflexivity].
  simpl. by rewrite Hw.
Defined.
